(* ===== verification/_CoqProject ===== *)
-Q . S2P
Prelude.v
Spec.v
Deps.v
Volatile.v
LimitTypes.v
FrameLimit.v
Trackers.v
AdditionalLimit.v
LimitTheory.v
Hardfork.v
BlockLimit.v
EvmState.v
StorageGas.v
Inspect.v
SystemContracts.v
Context.v
ContextTheory.v
Sandbox.v
SandboxTheory.v
Intercept.v
Instructions.v
InstructionsTheory.v
Execution.v
ExecutionTheory.v
Equivalence.v
BlockExecutor.v
BlockExecutorTheory.v
Factories.v
Precompiles.v
Evme.v
EvmeTheory.v
EvmeTx.v
EvmeTxTheory.v
ToolEvm.v
StateTest.v
StateTestTheory.v
StateRunner.v
T8n.v
T8nTheory.v
TestEnv.v
CmdEnv.v
CmdOutcome.v
Commands.v
CommandsTheory.v
Replay.v
ReplayTheory.v
BlockHelpers.v
TraceTree.v
TraceTreeTheory.v
TestUtils.v
BuildScript.v
Mains.v
Deserialize.v
UnitTests.v
UnitTestsState.v
UnitTestsBlock.v
