(* ===== verification/Prelude.v ===== *)
(** * Verification of the MegaETH EVM

    This library models [mega-evm], the EVM of MegaETH, and the tools around it, from the
    Rust sources under [src/], and proves what makes its parts correct.  Paths without
    [crates/] or [bin/] are below [src/crates/mega-evm/src/].

    ** The program

    [mega-evm] runs transactions on top of [revm] and [op-revm].  What it adds is chosen
    by a spec ([EQUIVALENCE], [MINI_REX], [REX] to [REX4]): limits on four resources of a
    transaction (compute gas, data size, key-value updates, state growth), limits of a
    block, storage gas whose price follows the capacity of the SALT bucket written to,
    detention of gas after volatile data (block environment, beneficiary, oracle) was
    read, system contracts whose calls are intercepted, and deployments without a key
    that run in a sandbox.  A handler ([evm/execution.rs]) calls the hooks of the limits
    around transactions, frames and instructions; the instruction table
    ([evm/instructions.rs]) wraps [revm]'s instructions in layers; a block executor
    ([block/executor.rs]) feeds transactions to the EVM and commits what they did.
    [bin/mega-evme] and [crates/state-test] run single transactions, blocks and tests.

    ** How code is modelled

    Stateful code passes its state along; a method that changes [self] returns it.  Code
    that may panic is a function into [outcome], and code that returns a Rust [Result] one
    into [result]; [x ←? m; k] and [x ←! m; k] are the operator [?] with and without
    panics.  A [u64] is a [Z] with its bounds written out: plain arithmetic panics or wraps
    as the class [Profile] says, saturating and checked arithmetic are [sat_*] and
    [checked_*].  Maps are [gmap]s, a stack is a list with its top first, cells shared with
    [Rc<RefCell<_>>] are fields of their one owner.  Definitions have the names of the
    source, in a [Module] per type where names repeat.

    Code of other crates is a class or a variable: one class per group of operations
    ([BitflagsApi], [InstructionResultApi], [GasApi], [SStoreApi], [AbiApi], [OpHost],
    [FrameApi], [OpHandler], [ForkApi], [AlloyTx], [CacheApi], ..), with a class that ends
    in [Laws] for the documented behaviour that theorems rely on.  The [reference_*] and
    [example_*] instances are concrete functions on which the witnesses are evaluated.

    ** The files

    - [Prelude.v]: outcomes, results, machine integers, the tactics [outcome_inv] and
      [u64_lia], the hint databases.  [Spec.v]: [constants.rs], [evm/spec.rs],
      [evm/limit.rs].  [Deps.v]: types of other crates and their interfaces.
    - [Volatile.v]: [access/volatile.rs] and [access/tracker.rs].  A stack with one flag
      per call frame specifies when access is disabled.
    - [LimitTypes.v], [FrameLimit.v], [Trackers.v], [AdditionalLimit.v]: [limit/].
      [FrameLimit.v] has the generic stack of frame entries and the ledger it refines;
      [Trackers.v] the four trackers, each an instance of [TxRuntimeLimit]; [AdditionalLimit.v]
      their coordinator and its hooks, and [LimitTheory.v] its theorems.
    - [Hardfork.v], [BlockLimit.v]: [block/hardfork.rs], [block/limit.rs].
    - [EvmState.v]: [evm/state.rs].  [StorageGas.v]: [external/gas.rs] and
      [external/salt.rs].  [SystemContracts.v]: deployment of the contracts of [system/] and
      system transactions.
    - [Context.v], [Inspect.v]: [evm/context.rs], the environments of [external/], and
      [evm/host.rs]; [ContextTheory.v].
    - [Sandbox.v], [Intercept.v]: [sandbox/] and [system/intercept.rs];
      [SandboxTheory.v].
    - [Instructions.v]: [evm/instructions.rs]; [InstructionsTheory.v].
    - [Execution.v]: [evm/execution.rs], [evm/mod.rs], [evm/interfaces.rs];
      [ExecutionTheory.v].  [Precompiles.v]: [evm/precompiles.rs].  [Equivalence.v]: the
      handler, the frames and the host of [op-revm], as a reference for [EQUIVALENCE].
    - [BlockExecutor.v]: [block/executor.rs], [block/eips.rs]; [BlockExecutorTheory.v].
      [Factories.v]: [evm/factory.rs], [block/factory.rs], [external/factory.rs], the
      accessors of an EVM, and [test_utils/evm.rs].
    - [Evme.v], [EvmeTx.v]: [bin/mega-evme/src/common/], the state and the transactions of
      the command line tool; [EvmeTheory.v], [EvmeTxTheory.v].
    - [ToolEvm.v]: the EVM as the two following tools use it.  [StateTest.v],
      [StateRunner.v]: [crates/state-test]; [StateTestTheory.v].  [T8n.v]:
      [bin/mega-evme/src/t8n]; [T8nTheory.v].
    - [TestEnv.v]: [external/test_utils.rs], the environments of tests and tools behind
      shared handles.  [CmdEnv.v], [CmdOutcome.v]: [common/env.rs], [common/trace.rs],
      [common/outcome.rs] of the tool; what is printed or written is a list of effects.
      [Commands.v]: [run/cmd.rs] and [tx/cmd.rs]; [CommandsTheory.v].
      [Replay.v]: [replay/] and [common/hardfork.rs]; [ReplayTheory.v].
    - [BlockHelpers.v]: [block/helpers.rs].  [TraceTree.v]: [test_utils/inspectors.rs],
      nodes and items in a heap with pointers as indices; [TraceTreeTheory.v].
    - [TestUtils.v]: the databases and the bytecode builder of [test_utils/].
    - [BuildScript.v]: [crates/system-contracts/build.rs], which checks the artifacts of the
      system contracts and generates constants of them.  [Mains.v]: the entry points of the
      tools, their logging, and the search for test files.  [Deserialize.v]: the numbers
      and authorisations of the state tests.
    - [UnitTests.v], [UnitTestsState.v], [UnitTestsBlock.v]: the unit tests of the source,
      with their inputs and expectations, evaluated on the definitions.

    Interfaces between components are classes: [TxRuntimeLimit] between the coordinator
    and the trackers, [JournalInspectTr] between the trackers and the journal, [SaltEnv] and
    [OracleEnv] for the environments, [SandboxEvm] for the EVM of a sandbox, [BlockEvm]
    between the block executor and the EVM (implemented by [MegaEvm] at the end of
    [BlockExecutor.v]), [MegaHardforks] between the executor and the chain, [ForkDb] between
    the tool's state and RPC, [ToolEvm] between the tools and the EVM, [RunEvm] and
    [TracingInspector] between the commands, the EVM and the tracer, [Node] between the
    replay and the chain, [Encodable2718], [RecoveredTx], [MegaTransactionExt] between the
    block executor and its transactions.  [LoopParametric] is what a loop over frames
    promises about two handlers whose steps are related, and [OpLaws] what the code of
    [op-revm] promises about the parts of the context it does not know.

    ** The theorems

    - Limits: the frame tracker refines a ledger of charges, budgets of frames form a
      chain of 98% shares, no well-nested sequence of hooks panics, an exceed of a
      transaction is final and one of a frame is absorbed at its return, what the trackers
      hold is what was charged, whatever reverted.
    - Volatile data: the depth of the disabling is a stack of flags, which opcodes detain
      gas, which are refused (all but SELFBALANCE), and detention does not lift a cap.
    - Gas: what SSTORE, LOG, calls and a transaction pay; the forwarding rule conserves
      gas; the cache of bucket multipliers is transparent.
    - Execution: trackers and frames stay in step through the whole handler, the halt
      reason names what was exceeded, an inspector that only watches changes nothing.
      Under [EQUIVALENCE] a transaction is one of [op-revm], and so is every sequence of
      transactions of an EVM that a factory makes.
    - System: interception by address and function, the state of a transaction merges address
      by address, a sandbox commits or leaves no trace and reads what its parent has, errors
      survive their encoding, inspection warms nothing and ends.
    - Blocks: in every history receipts, limiter and hook account for the committed
      transactions within the limits; transactions of a context are isolated.
    - Tools: the overlay's two read interfaces agree, envelopes made up for a transaction
      decode to it, arguments override what was decoded, a transition's results are what the
      EVM answered on the databases its transactions left, a test file passes exactly when
      its tests do, and under every schedule the threads of the runner end with the right
      verdict.
    - Commands: the context, the code and the transaction of a command are those of its
      arguments, a tracer changes nothing, a replay is the execution of the block, on the
      state before it, up to its transaction, and the tree of the gas inspector holds the
      steps in their order.
    - Builds and entry points: the constants that a build generates are the checked artifacts
      in the order of their versions, the state test tool succeeds exactly when all tests
      pass, and snippets of the bytecode builder do what they are documented to do.
      What the source's unit tests expect holds of the definitions.
    - Deviations: theorems such as [tools_run_with_equivalence_limits], [detention_by_opcode]
      and [run_prepares_its_code] show where the code does not do what it or its
      documentation says; the manifest's findings list all such places.

    ** Fuel and bounds

    Some functions take fuel.  [Inspect.inspect_account_delegated] follows delegations;
    [delegation_terminates] shows that one more than the number of delegating accounts is
    enough.  [EvmeTx.split] takes the length of its string, and [split_fuel_enough] shows that
    more changes nothing.  Walking a trace tree takes one unit per level; the theorem
    [records_are_the_steps_in_order] holds for every fuel from the number of nodes on, and
    without fuel the walk counts as a panic.  Everything else is structural.  The loop that runs frames is
    [revm]'s: [ExecLoop] is that interface, and the theorems about whole transactions
    hold for each loop that obeys its laws.  Integers are unbounded where the source has
    256-bit words that it does not compute with.

    ** Not modelled

    The interpreter, the journal's loading and the handler of [revm] and [op-revm];
    log lines, metrics and [Debug] output; serialisation derived by macros; the argument
    parser and the transport of RPC, of which the answers are an interface; the builders of
    geth traces; the Solidity sources of [crates/system-contracts], whose byte codes are
    fields of a class or constants; integration tests, the unit tests that run [revm] or
    hash, benches and examples. *)
From Stdlib Require Export ZArith Lia Bool.
From stdpp Require Export base tactics decidable option list numbers strings gmap.


(** ** Outcomes: code that may panic

    A Rust function that can panic ([expect], [assert!], [unreachable!], an
    arithmetic overflow with overflow checks on) is a function into [outcome]. *)
Inductive outcome (A : Type) : Type :=
  | Ret (a : A)
  | Panic.
Arguments Ret {A} a.
Arguments Panic {A}.

#[export] Instance outcome_ret : MRet outcome := @Ret.
#[export] Instance outcome_bind : MBind outcome := λ A B f m,
  match m with Ret a => f a | Panic => Panic end.
#[export] Instance outcome_fmap : FMap outcome := λ A B f m,
  match m with Ret a => Ret (f a) | Panic => Panic end.

(** [Result<A, E>] of the source. *)
Inductive result (A E : Type) : Type :=
  | Ok (a : A)
  | Err (e : E).
Arguments Ok {A E} a.
Arguments Err {A E} e.

#[export] Instance result_eq_dec {A E} `{EqDecision A, EqDecision E} :
  EqDecision (result A E).
Proof. solve_decision. Defined.

#[export] Instance outcome_eq_dec {A} `{EqDecision A} : EqDecision (outcome A).
Proof. solve_decision. Defined.

(** [opt.expect(..)] and [opt.unwrap()]. *)
Definition expect {A} (o : option A) : outcome A :=
  match o with Some a => Ret a | None => Panic end.

(** [assert!(b)]. *)
Definition assert_true (b : bool) : outcome unit := if b then Ret tt else Panic.

(** [e?] inside a function returning [Result]. *)
Definition result_bind {A B E} (m : outcome (result A E))
    (f : A → outcome (result B E)) : outcome (result B E) :=
  r ← m;
  match r with Ok a => f a | Err e => Ret (Err e) end.

Declare Scope rust_scope.
Delimit Scope rust_scope with rust.
Notation "x '←?' m ';' k" := (result_bind m (λ x, k))
  (at level 20, m at level 100, k at level 200, right associativity) : rust_scope.
#[export] Set Warnings "-notation-overridden,-clear-no-such-hyp".

(** ** Machine integers

    A [u64] is a [Z] between [0] and [u64_max].  Plain [+], [-] and [*] panic on
    overflow when the build has overflow checks and wrap modulo [2^64] when it
    has not: the class [Profile] selects the build. *)
Definition u64_max : Z := 18446744073709551615.
Definition in_u64 (x : Z) : Prop := (0 ≤ x ≤ u64_max)%Z.

Class Profile := {
  overflow_checks : bool;
  debug_assertions : bool;
}.

(** The two builds that examples are evaluated in. *)
Definition checked_build : Profile := Build_Profile true true.
Definition release_build : Profile := Build_Profile false false.

(** [debug_assert!(b)]. *)
Definition debug_assert `{Profile} (b : bool) : outcome unit :=
  if debug_assertions then assert_true b else Ret tt.

Definition fit_u64 `{Profile} (x : Z) : outcome Z :=
  if decide (0 ≤ x ≤ u64_max)%Z then Ret x
  else if overflow_checks then Panic
  else Ret (x mod (u64_max + 1))%Z.

Definition add_u64 `{Profile} (a b : Z) : outcome Z := fit_u64 (a + b).
Definition sub_u64 `{Profile} (a b : Z) : outcome Z := fit_u64 (a - b).
Definition mul_u64 `{Profile} (a b : Z) : outcome Z := fit_u64 (a * b).

(** Saturating and checked arithmetic do not depend on the build. *)
Definition sat_add (a b : Z) : Z := Z.min u64_max (a + b).
Definition sat_sub (a b : Z) : Z := Z.max 0 (a - b).
Definition sat_mul (a b : Z) : Z := Z.min u64_max (a * b).
Definition checked_add (a b : Z) : option Z :=
  if decide (a + b ≤ u64_max)%Z then Some (a + b)%Z else None.
Definition checked_sub (a b : Z) : option Z :=
  if decide (0 ≤ a - b)%Z then Some (a - b)%Z else None.
Definition checked_mul (a b : Z) : option Z :=
  if decide (a * b ≤ u64_max)%Z then Some (a * b)%Z else None.

(** The truncating cast [as u64]. *)
Definition as_u64 (x : Z) : Z := (x mod (u64_max + 1))%Z.

#[export] Instance in_u64_dec x : Decision (in_u64 x).
Proof. exact (decide (0 ≤ x ∧ x ≤ u64_max)%Z). Defined.

(** ** Lemmas on outcomes *)
Section outcome_lemmas.
Context {A B : Type}.

Lemma bind_Ret (m : outcome A) (f : A → outcome B) b :
  m ≫= f = Ret b ↔ ∃ a, m = Ret a ∧ f a = Ret b.
Proof.
  destruct m as [a|]; simpl; split; [eauto|by intros (?&[= <-]&?)|done|].
  by intros (?&?&?).
Qed.

Lemma bind_Ret_l (a : A) (f : A → outcome B) : Ret a ≫= f = f a.
Proof. done. Qed.

Lemma expect_Ret (o : option A) a : expect o = Ret a ↔ o = Some a.
Proof. destruct o; simpl; naive_solver. Qed.

Lemma assert_true_Ret b u : assert_true b = Ret u ↔ b = true.
Proof. destruct b, u; simpl; naive_solver. Qed.
End outcome_lemmas.

Lemma outcome_bind_cong {A B} (m m' : outcome A) (f g : A → outcome B) :
  m = m' → (∀ a, m' = Ret a → f a = g a) → m ≫= f = m' ≫= g.
Proof. intros ->. destruct m'; simpl; auto. Qed.

(** ** Lemmas on machine integers *)
Create HintDb rust.
Create Rewrite HintDb rust_outcome.

Lemma in_u64_0 : in_u64 0.
Proof. unfold in_u64, u64_max. lia. Qed.
Lemma in_u64_max : in_u64 u64_max.
Proof. unfold in_u64, u64_max. lia. Qed.

Lemma fit_u64_in `{Profile} x : in_u64 x → fit_u64 x = Ret x.
Proof. intros Hx. unfold fit_u64. by rewrite decide_True. Qed.

Lemma fit_u64_range `{Profile} x y : fit_u64 x = Ret y → in_u64 y.
Proof.
  unfold fit_u64. case_decide; [by intros [= <-]|].
  destruct overflow_checks; [done|]. intros [= <-].
  pose proof (Z.mod_pos_bound x (u64_max + 1) ltac:(done)).
  unfold in_u64. lia.
Qed.

Lemma add_u64_in `{Profile} a b : in_u64 (a + b) → add_u64 a b = Ret (a + b)%Z.
Proof. apply fit_u64_in. Qed.
Lemma sub_u64_in `{Profile} a b : in_u64 (a - b) → sub_u64 a b = Ret (a - b)%Z.
Proof. apply fit_u64_in. Qed.
Lemma mul_u64_in `{Profile} a b : in_u64 (a * b) → mul_u64 a b = Ret (a * b)%Z.
Proof. apply fit_u64_in. Qed.

Lemma sat_sub_in a b : in_u64 a → (0 ≤ b)%Z → in_u64 (sat_sub a b).
Proof. unfold in_u64, sat_sub. lia. Qed.
Lemma sat_add_in a b : (0 ≤ a)%Z → (0 ≤ b)%Z → in_u64 (sat_add a b).
Proof. unfold in_u64, sat_add, u64_max. lia. Qed.
Lemma sat_sub_le a b : (0 ≤ b)%Z → (0 ≤ a)%Z → (sat_sub a b ≤ a)%Z.
Proof. unfold sat_sub. lia. Qed.
Lemma sat_sub_0 a : (0 ≤ a)%Z → sat_sub a 0 = a.
Proof. unfold sat_sub. lia. Qed.

Lemma as_u64_in x : in_u64 x → as_u64 x = x.
Proof. unfold in_u64, as_u64, u64_max. intros. rewrite Z.mod_small; lia. Qed.

#[export] Hint Resolve in_u64_0 in_u64_max sat_sub_in sat_add_in fit_u64_range : rust.
#[export] Hint Rewrite @bind_Ret @expect_Ret @assert_true_Ret : rust_outcome.

(** ** Tactics *)

(** Decompose equations [... = Ret _] between outcomes in the context. *)
Ltac outcome_inv :=
  repeat match goal with
  | H : Panic = Ret _ |- _ => discriminate H
  | H : Ret _ = Panic |- _ => discriminate H
  | H : Ret _ = Ret _ |- _ => injection H as H
  | H : _ ≫= _ = Ret _ |- _ =>
      apply bind_Ret in H; destruct H as (?&?&H); simpl in H
  | H : expect _ = Ret _ |- _ => apply expect_Ret in H
  | H : assert_true _ = Ret _ |- _ => apply assert_true_Ret in H
  | H : mret _ = Ret _ |- _ => unfold mret, outcome_ret in H
  end; simplify_eq/=.

(** Arithmetic goals about [u64] values. *)
Ltac u64_lia := unfold in_u64, sat_sub, sat_add, sat_mul, u64_max in *; lia.
