(* ===== verification/Spec.v ===== *)
(** * Spec versions, constants and the runtime limits they select

    Models [constants.rs], [evm/spec.rs] and [evm/limit.rs]: the ordered list of
    spec versions with their string names, the numeric constants of every
    version, and the table [EvmTxRuntimeLimits::from_spec].  The gas constants
    re-exported from [revm] are the fields of the class [RevmGasConstants]. *)
From S2P Require Import Prelude.
Open Scope Z_scope.

(** ** Gas constants that [revm] provides *)
Class RevmGasConstants := {
  LOGDATA : Z;
  LOGTOPIC : Z;
  STANDARD_TOKEN_COST : Z;
  TOTAL_COST_FLOOR_PER_TOKEN : Z;
  CALL_STIPEND : Z;
  KECCAK256WORD : Z;
  CREATE_GAS : Z;
  CODEDEPOSIT : Z;
}.

(** ** [constants.rs] *)
Module constants.
Module mini_rex.
Definition MAX_CONTRACT_SIZE : Z := 512 * 1024.
Definition ADDITIONAL_INITCODE_SIZE : Z := 24 * 1024.
Definition MAX_INITCODE_SIZE : Z := MAX_CONTRACT_SIZE + ADDITIONAL_INITCODE_SIZE.
Definition TX_COMPUTE_GAS_LIMIT : Z := 1000000000.
Definition SSTORE_SET_STORAGE_GAS : Z := 2000000.
Definition NEW_ACCOUNT_STORAGE_GAS : Z := 2000000.
Definition CODEDEPOSIT_STORAGE_GAS : Z := 10000.
Definition LOG_DATA_STORAGE_GAS `{RevmGasConstants} : Z := LOGDATA * 10.
Definition LOG_TOPIC_STORAGE_GAS `{RevmGasConstants} : Z := LOGTOPIC * 10.
Definition CALLDATA_STANDARD_TOKEN_STORAGE_GAS `{RevmGasConstants} : Z :=
  STANDARD_TOKEN_COST * 10.
Definition CALLDATA_STANDARD_TOKEN_STORAGE_FLOOR_GAS `{RevmGasConstants} : Z :=
  TOTAL_COST_FLOOR_PER_TOKEN * 10.
Definition BLOCK_DATA_LIMIT : Z := 12 * 1024 * 1024 + 512 * 1024.
Definition TX_DATA_LIMIT : Z := BLOCK_DATA_LIMIT * 25 / 100.
Definition BLOCK_KV_UPDATE_LIMIT : Z := 500000.
Definition TX_KV_UPDATE_LIMIT : Z := BLOCK_KV_UPDATE_LIMIT * 25 / 100.
Definition BLOCK_ENV_ACCESS_COMPUTE_GAS : Z := 20000000.
Definition ORACLE_ACCESS_COMPUTE_GAS : Z := 1000000.
End mini_rex.

Module rex.
Definition TX_INTRINSIC_STORAGE_GAS : Z := 39000.
Definition SSTORE_SET_STORAGE_GAS_BASE : Z := 20000.
Definition NEW_ACCOUNT_STORAGE_GAS_BASE : Z := 25000.
Definition CONTRACT_CREATION_STORAGE_GAS_BASE : Z := 32000.
Definition TX_COMPUTE_GAS_LIMIT : Z := 200000000.
Definition TX_DATA_LIMIT : Z := 12 * 1024 * 1024 + 512 * 1024.
Definition TX_KV_UPDATE_LIMIT : Z := 500000.
Definition TX_STATE_GROWTH_LIMIT : Z := 1000.
Definition BLOCK_STATE_GROWTH_LIMIT : Z := 1000.
End rex.

Module rex2.
Definition KEYLESS_DEPLOY_OVERHEAD_GAS : Z := 100000.
End rex2.

Module rex3.
Definition ORACLE_ACCESS_COMPUTE_GAS : Z := 20000000.
End rex3.

Module rex4.
Definition FRAME_LIMIT_NUMERATOR : Z := 98.
Definition FRAME_LIMIT_DENOMINATOR : Z := 100.
End rex4.
End constants.

(** ** [MegaSpecId] *)
Inductive MegaSpecId : Set :=
  | EQUIVALENCE
  | MINI_REX
  | REX
  | REX1
  | REX2
  | REX3
  | REX4.

#[export] Instance MegaSpecId_eq_dec : EqDecision MegaSpecId.
Proof. solve_decision. Defined.

Module MegaSpecId.
(** [self as u8]: the discriminants of [#[repr(u8)]] in declaration order. *)
Definition as_u8 (self : MegaSpecId) : Z :=
  match self with
  | EQUIVALENCE => 0
  | MINI_REX => 1
  | REX => 2
  | REX1 => 3
  | REX2 => 4
  | REX3 => 5
  | REX4 => 6
  end.

(** The value of [#[default]]. *)
Definition default : MegaSpecId := REX4.

Definition is_enabled (self other : MegaSpecId) : bool :=
  bool_decide (as_u8 other ≤ as_u8 self).

Section op_spec.
Context {OpSpecId EthSpecId : Type}
  (ISTHMUS : OpSpecId) (op_into_eth_spec : OpSpecId → EthSpecId).

Definition into_op_spec (self : MegaSpecId) : OpSpecId :=
  match self with
  | MINI_REX | EQUIVALENCE | REX | REX1 | REX2 | REX3 | REX4 => ISTHMUS
  end.

Definition into_eth_spec (self : MegaSpecId) : EthSpecId :=
  op_into_eth_spec (into_op_spec self).
End op_spec.
End MegaSpecId.

(** The string identifiers of the versions. *)
Module name.
Definition EQUIVALENCE : string := "Equivalence".
Definition MINI_REX : string := "MiniRex".
Definition REX : string := "Rex".
Definition REX1 : string := "Rex1".
Definition REX2 : string := "Rex2".
Definition REX3 : string := "Rex3".
Definition REX4 : string := "Rex4".
End name.

(** [From<MegaSpecId> for &'static str]. *)
Definition spec_to_str (spec_id : MegaSpecId) : string :=
  match spec_id with
  | EQUIVALENCE => name.EQUIVALENCE
  | MINI_REX => name.MINI_REX
  | REX => name.REX
  | REX1 => name.REX1
  | REX2 => name.REX2
  | REX3 => name.REX3
  | REX4 => name.REX4
  end.

Inductive UnknownHardfork : Set := UnknownHardfork_.

(** [FromStr for MegaSpecId]: the arms of the match, tried in order. *)
Definition spec_from_str (s : string) : result MegaSpecId UnknownHardfork :=
  if decide (s = name.EQUIVALENCE) then Ok EQUIVALENCE
  else if decide (s = name.MINI_REX) then Ok MINI_REX
  else if decide (s = name.REX) then Ok REX
  else if decide (s = name.REX1) then Ok REX1
  else if decide (s = name.REX2) then Ok REX2
  else if decide (s = name.REX3) then Ok REX3
  else if decide (s = name.REX4) then Ok REX4
  else Err UnknownHardfork_.

(** ** [EvmTxRuntimeLimits] *)
Record EvmTxRuntimeLimits := mkEvmTxRuntimeLimits {
  tx_data_size_limit : Z;
  tx_kv_updates_limit : Z;
  tx_compute_gas_limit : Z;
  tx_state_growth_limit : Z;
  block_env_access_compute_gas_limit : Z;
  oracle_access_compute_gas_limit : Z;
}.

#[export] Instance EvmTxRuntimeLimits_eq_dec : EqDecision EvmTxRuntimeLimits.
Proof. solve_decision. Defined.

Module EvmTxRuntimeLimits.
Definition no_limits : EvmTxRuntimeLimits := {|
  tx_data_size_limit := u64_max;
  tx_kv_updates_limit := u64_max;
  tx_compute_gas_limit := u64_max;
  tx_state_growth_limit := u64_max;
  block_env_access_compute_gas_limit := u64_max;
  oracle_access_compute_gas_limit := u64_max |}.

Definition equivalence : EvmTxRuntimeLimits := no_limits.

Definition mini_rex : EvmTxRuntimeLimits := {|
  tx_data_size_limit := constants.mini_rex.TX_DATA_LIMIT;
  tx_kv_updates_limit := constants.mini_rex.TX_KV_UPDATE_LIMIT;
  tx_compute_gas_limit := constants.mini_rex.TX_COMPUTE_GAS_LIMIT;
  tx_state_growth_limit := tx_state_growth_limit equivalence;
  block_env_access_compute_gas_limit := constants.mini_rex.BLOCK_ENV_ACCESS_COMPUTE_GAS;
  oracle_access_compute_gas_limit := constants.mini_rex.ORACLE_ACCESS_COMPUTE_GAS |}.

Definition rex : EvmTxRuntimeLimits := {|
  tx_data_size_limit := constants.rex.TX_DATA_LIMIT;
  tx_kv_updates_limit := constants.rex.TX_KV_UPDATE_LIMIT;
  tx_compute_gas_limit := constants.rex.TX_COMPUTE_GAS_LIMIT;
  tx_state_growth_limit := constants.rex.TX_STATE_GROWTH_LIMIT;
  block_env_access_compute_gas_limit := constants.mini_rex.BLOCK_ENV_ACCESS_COMPUTE_GAS;
  oracle_access_compute_gas_limit := constants.mini_rex.ORACLE_ACCESS_COMPUTE_GAS |}.

Definition rex3 : EvmTxRuntimeLimits := {|
  tx_data_size_limit := tx_data_size_limit rex;
  tx_kv_updates_limit := tx_kv_updates_limit rex;
  tx_compute_gas_limit := tx_compute_gas_limit rex;
  tx_state_growth_limit := tx_state_growth_limit rex;
  block_env_access_compute_gas_limit := block_env_access_compute_gas_limit rex;
  oracle_access_compute_gas_limit := constants.rex3.ORACLE_ACCESS_COMPUTE_GAS |}.

Definition rex4 : EvmTxRuntimeLimits := rex3.

Definition from_spec (spec : MegaSpecId) : EvmTxRuntimeLimits :=
  match spec with
  | EQUIVALENCE => equivalence
  | MINI_REX => mini_rex
  | REX | REX1 | REX2 => rex
  | REX3 => rex3
  | REX4 => rex4
  end.

(** The builder methods [with_*]. *)
Definition with_tx_data_size_limit (v : Z) (s : EvmTxRuntimeLimits) :=
  mkEvmTxRuntimeLimits v (tx_kv_updates_limit s) (tx_compute_gas_limit s)
    (tx_state_growth_limit s) (block_env_access_compute_gas_limit s)
    (oracle_access_compute_gas_limit s).
Definition with_tx_kv_updates_limit (v : Z) (s : EvmTxRuntimeLimits) :=
  mkEvmTxRuntimeLimits (tx_data_size_limit s) v (tx_compute_gas_limit s)
    (tx_state_growth_limit s) (block_env_access_compute_gas_limit s)
    (oracle_access_compute_gas_limit s).
Definition with_tx_compute_gas_limit (v : Z) (s : EvmTxRuntimeLimits) :=
  mkEvmTxRuntimeLimits (tx_data_size_limit s) (tx_kv_updates_limit s) v
    (tx_state_growth_limit s) (block_env_access_compute_gas_limit s)
    (oracle_access_compute_gas_limit s).
Definition with_tx_state_growth_limit (v : Z) (s : EvmTxRuntimeLimits) :=
  mkEvmTxRuntimeLimits (tx_data_size_limit s) (tx_kv_updates_limit s)
    (tx_compute_gas_limit s) v (block_env_access_compute_gas_limit s)
    (oracle_access_compute_gas_limit s).
Definition with_block_env_access_compute_gas_limit (v : Z) (s : EvmTxRuntimeLimits) :=
  mkEvmTxRuntimeLimits (tx_data_size_limit s) (tx_kv_updates_limit s)
    (tx_compute_gas_limit s) (tx_state_growth_limit s) v
    (oracle_access_compute_gas_limit s).
Definition with_oracle_access_compute_gas_limit (v : Z) (s : EvmTxRuntimeLimits) :=
  mkEvmTxRuntimeLimits (tx_data_size_limit s) (tx_kv_updates_limit s)
    (tx_compute_gas_limit s) (tx_state_growth_limit s)
    (block_env_access_compute_gas_limit s) v.
End EvmTxRuntimeLimits.

(** ** Lemmas *)
Lemma as_u8_inj a b : MegaSpecId.as_u8 a = MegaSpecId.as_u8 b → a = b.
Proof. by destruct a, b. Qed.

#[export] Instance as_u8_Inj : Inj (=) (=) MegaSpecId.as_u8.
Proof. intros a b. apply as_u8_inj. Qed.

Lemma is_enabled_spec a b :
  MegaSpecId.is_enabled a b = true ↔ MegaSpecId.as_u8 b ≤ MegaSpecId.as_u8 a.
Proof. apply bool_decide_eq_true. Qed.

Lemma is_enabled_mono a b c :
  MegaSpecId.is_enabled a b = true → MegaSpecId.is_enabled b c = true →
  MegaSpecId.is_enabled a c = true.
Proof. rewrite !is_enabled_spec. lia. Qed.

#[export] Hint Resolve is_enabled_mono : rust.
