(* ===== verification/Deps.v ===== *)
(** * Interfaces of the crates the program calls

    Types of [revm], [alloy] and [bitflags] as the program observes them, and
    one class per group of foreign operations.  A class that ends in [Laws]
    states the documented behaviour that theorems rely on.  The [reference_*]
    instances at the end are concrete functions used to evaluate examples. *)
From S2P Require Import Prelude Spec.
Open Scope Z_scope.

(** ** Primitive data: addresses, words and byte strings *)
Definition Address := Z.
Definition U256 := Z.
Definition two_256 : Z := 2 ^ 256.
Definition B256 := Z.
Definition Bytes := list Byte.byte.
Definition Bytes_new : Bytes := [].

(** ** [bitflags]: operations on a [u16] of flags, given the mask of all flags *)
Class BitflagsApi := {
  bf_from_bits_truncate : Z → Z → Z;
  bf_insert : Z → Z → Z;
  bf_contains : Z → Z → bool;
  bf_is_empty : Z → bool;
}.

Class BitflagsLaws `{BitflagsApi} : Prop := {
  bf_from_bits_truncate_spec all b : bf_from_bits_truncate all b = Z.land b all;
  bf_insert_spec a b : bf_insert a b = Z.lor a b;
  bf_contains_spec a b : bf_contains a b = bool_decide (Z.land a b = b);
  bf_is_empty_spec a : bf_is_empty a = bool_decide (a = 0);
}.

(** ** [revm]'s instruction results: the variants the source names, and the rest *)
Inductive InstructionResult : Set :=
  | Stop
  | Return
  | Revert
  | OutOfGas
  | PrecompileOOG
  | StackUnderflow
  | InvalidFEOpcode
  | FatalExternalError
  | OtherInstructionResult (code : Z).

#[export] Instance InstructionResult_eq_dec : EqDecision InstructionResult.
Proof. solve_decision. Defined.

Class InstructionResultApi := {
  ir_is_ok : InstructionResult → bool;
  ir_is_error : InstructionResult → bool;
}.

Class InstructionResultLaws `{InstructionResultApi} : Prop := {
  ir_is_ok_Stop : ir_is_ok Stop = true;
  ir_is_ok_Return : ir_is_ok Return = true;
  ir_is_ok_Revert : ir_is_ok Revert = false;
  ir_is_ok_OutOfGas : ir_is_ok OutOfGas = false;
  ir_is_error_OutOfGas : ir_is_error OutOfGas = true;
}.

(** ** [revm::interpreter::Gas] *)
Class GasApi (Gas : Type) := {
  gas_new : Z → Gas;
  gas_new_spent : Z → Gas;
  gas_limit : Gas → Z;
  gas_remaining : Gas → Z;
  gas_spent : Gas → Z;
  gas_record_cost : Gas → Z → Gas * bool;
  gas_erase_cost : Gas → Z → Gas;
}.

Class GasLaws (Gas : Type) `{GasApi Gas} : Prop := {
  gas_remaining_new n : in_u64 n → gas_remaining (gas_new n) = n;
  gas_remaining_new_spent n : gas_remaining (gas_new_spent n) = 0;
  gas_limit_new n : gas_limit (gas_new n) = n;
  gas_record_cost_ok g c :
    0 ≤ c → c ≤ gas_remaining g →
    ∃ g', gas_record_cost g c = (g', true) ∧
      gas_remaining g' = gas_remaining g - c ∧ gas_limit g' = gas_limit g;
  gas_record_cost_oog g c :
    gas_remaining g < c → gas_record_cost g c = (g, false);
  gas_erase_cost_remaining g c :
    in_u64 (gas_remaining g + c) → gas_remaining (gas_erase_cost g c) = gas_remaining g + c;
  gas_remaining_range g : in_u64 (gas_remaining g);
}.

(** ** Storage writes *)
Record SStoreResult := {
  original_value : U256;
  present_value : U256;
  new_value : U256;
}.

Class SStoreApi := {
  is_original_eq_present : SStoreResult → bool;
  is_original_eq_new : SStoreResult → bool;
}.

Class SStoreLaws `{SStoreApi} : Prop := {
  is_original_eq_present_spec s :
    is_original_eq_present s = bool_decide (original_value s = present_value s);
  is_original_eq_new_spec s :
    is_original_eq_new s = bool_decide (original_value s = new_value s);
}.

(** ** Frames.  [cin_input] stands for the bytes of [call_inputs.input], resolved in
    shared memory. *)
Inductive CallValue : Set :=
  | ValueTransfer (value : U256)
  | ValueApparent (value : U256).
Definition call_value_get (v : CallValue) : U256 :=
  match v with ValueTransfer v | ValueApparent v => v end.

Inductive CallScheme : Set := SchemeCall | SchemeCallCode | SchemeDelegateCall | SchemeStaticCall.

Record CallInputs := {
  cin_target_address : Address;
  cin_bytecode_address : Address;
  cin_caller : Address;
  cin_value : CallValue;
  cin_gas_limit : Z;
  cin_return_memory_offset : Z * Z;
  cin_input : Bytes;
  cin_scheme : CallScheme;
}.

(** [call_inputs.transfer_value()] and [call_inputs.transfers_value()]. *)
Definition cin_transfer_value (inputs : CallInputs) : option U256 :=
  match cin_value inputs with ValueTransfer v => Some v | ValueApparent _ => None end.
Definition cin_transfers_value (inputs : CallInputs) : bool :=
  match cin_transfer_value inputs with Some v => negb (bool_decide (v = 0)) | None => false end.

Record CreateInputs := {
  crin_caller : Address;
  crin_gas_limit : Z;
}.

Inductive FrameInput :=
  | FrameInputCall (inputs : CallInputs)
  | FrameInputCreate (inputs : CreateInputs)
  | FrameInputEmpty.

Record FrameInit := {
  fi_depth : Z;
  fi_frame_input : FrameInput;
}.

(** [FrameData], of which a create has the address of the new contract, and a running
    frame: its [data] and [interpreter.gas]. *)
Inductive FrameData :=
  | FrameDataCall
  | FrameDataCreate (created_address : Address).
Record EthFrame (Gas : Type) := {
  frame_data : FrameData;
  frame_gas : Gas;
}.
Arguments frame_data {Gas}.
Arguments frame_gas {Gas}.

(** [data.is_create()] and [data.created_address()]. *)
Definition frame_is_create {Gas} (frame : EthFrame Gas) : bool :=
  match frame_data frame with FrameDataCreate _ => true | FrameDataCall => false end.
Definition frame_created_address {Gas} (frame : EthFrame Gas) : option Address :=
  match frame_data frame with FrameDataCreate a => Some a | FrameDataCall => None end.

Record InterpreterResult (Gas : Type) := mkInterpreterResult {
  ir_result : InstructionResult;
  ir_output : Bytes;
  ir_gas : Gas;
}.
Arguments mkInterpreterResult {Gas}.
Arguments ir_result {Gas}.
Arguments ir_output {Gas}.
Arguments ir_gas {Gas}.

(** [CallOutcome] and [CreateOutcome], as the two cases of [FrameResult]. *)
Inductive FrameResult (Gas : Type) :=
  | FrameResultCall (r : InterpreterResult Gas) (memory_offset : Z * Z)
  | FrameResultCreate (r : InterpreterResult Gas) (address : option Address).
Arguments FrameResultCall {Gas}.
Arguments FrameResultCreate {Gas}.

Definition frame_result_interp {Gas} (r : FrameResult Gas) : InterpreterResult Gas :=
  match r with FrameResultCall i _ => i | FrameResultCreate i _ => i end.
Definition frame_result_map {Gas} (f : InterpreterResult Gas → InterpreterResult Gas)
    (r : FrameResult Gas) : FrameResult Gas :=
  match r with
  | FrameResultCall i m => FrameResultCall (f i) m
  | FrameResultCreate i a => FrameResultCreate (f i) a
  end.
Definition frame_result_gas {Gas} (r : FrameResult Gas) : Gas :=
  ir_gas (frame_result_interp r).
Definition instruction_result {Gas} (r : FrameResult Gas) : InstructionResult :=
  ir_result (frame_result_interp r).

Inductive InterpreterAction (Gas : Type) :=
  | ActionReturn (r : InterpreterResult Gas)
  | ActionNewFrame (input : FrameInput).
Arguments ActionReturn {Gas}.
Arguments ActionNewFrame {Gas}.

Inductive ItemOrResult (I R : Type) :=
  | Item (i : I)
  | Result (r : R).
Arguments Item {I R}.
Arguments Result {I R}.

(** ** Results of transactions in [revm] *)
Inductive Output : Set :=
  | OutputCall (data : Bytes)
  | OutputCreate (data : Bytes) (address : option Address).

Inductive ExecutionResult (Halt Log : Type) :=
  | ExecSuccess (gas_used gas_refunded : Z) (logs : list Log) (output : Output)
  | ExecRevert (gas_used : Z) (output : Bytes)
  | ExecHalt (reason : Halt) (gas_used : Z).
Arguments ExecSuccess {Halt Log}.
Arguments ExecRevert {Halt Log}.
Arguments ExecHalt {Halt Log}.

(** ** Transactions, as the program reads them through [Transaction].
    An authorization is the value of [authority()]. *)
Inductive TxKind : Set :=
  | TxCreate
  | TxCall (address : Address).

Record MegaTransaction := mkTransaction {
  tx_input : Bytes;
  tx_access_list_sizes : option (list Z);
  tx_authorization_list : list (option Address);
  tx_authorization_list_len : Z;
  tx_caller : Address;
  tx_kind : TxKind;
  tx_nonce : Z;
  tx_value : U256;
  tx_gas_limit : Z;
  tx_gas_price : Z;
  tx_base_type : Z;
  tx_source_hash : Z;
  tx_enveloped_tx : option Bytes;
}.

(** [op_revm]: a transaction with a source hash is a deposit. *)
Definition DEPOSIT_TRANSACTION_TYPE : Z := 126.
Definition tx_type (tx : MegaTransaction) : Z :=
  if decide (tx_source_hash tx = 0) then tx_base_type tx else DEPOSIT_TRANSACTION_TYPE.

(** A call without value or gas price, for examples. *)
Definition example_tx (input : Bytes) (access_list_sizes : option (list Z))
    (authorization_list : list (option Address)) (authorization_list_len : Z) :
    MegaTransaction :=
  mkTransaction input access_list_sizes authorization_list authorization_list_len
    1 (TxCall 2) 0 0 21000 0 0 0 None.

(** ** Halt reasons of [revm] and [op-revm] *)
Inductive EthHaltReason :=
  | HaltOutOfGasBasic
  | OtherHalt (code : Z).
Inductive OpHaltReason :=
  | OpBase (r : EthHaltReason)
  | FailedDeposit.

(** ** ABI encoders generated by [alloy]'s [sol!] macro *)
Class AbiApi := {
  abi_MegaLimitExceeded : Z → Z → Bytes;
  abi_VolatileDataAccessDisabled : Z → Bytes;
}.

(** ** Accounts, as seen through [JournalInspectTr] *)
Class AccountApi (Account : Type) := {
  state_clear_aware_is_empty : Account → bool;
}.

(** ** Reference instances *)
#[local] Instance reference_gas_constants : RevmGasConstants := {|
  LOGDATA := 8; LOGTOPIC := 375; STANDARD_TOKEN_COST := 4;
  TOTAL_COST_FLOOR_PER_TOKEN := 10; CALL_STIPEND := 2300;
  KECCAK256WORD := 6; CREATE_GAS := 32000; CODEDEPOSIT := 200 |}.

#[local] Instance reference_bitflags : BitflagsApi := {|
  bf_from_bits_truncate all b := Z.land b all;
  bf_insert a b := Z.lor a b;
  bf_contains a b := bool_decide (Z.land a b = b);
  bf_is_empty a := bool_decide (a = 0) |}.

Lemma reference_bitflags_laws : @BitflagsLaws reference_bitflags.
Proof. by split. Qed.

#[local] Instance reference_instruction_result : InstructionResultApi := {|
  ir_is_ok r := match r with Stop | Return => true | _ => false end;
  ir_is_error r := match r with Stop | Return | Revert => false | _ => true end |}.

Lemma reference_instruction_result_laws :
  @InstructionResultLaws reference_instruction_result.
Proof. by split. Qed.

(** The gas meter as a limit and a remainder. *)
Record RefGas := mkRefGas { rg_limit : Z; rg_remaining : Z }.

#[local] Instance reference_gas : GasApi RefGas := {|
  gas_new n := mkRefGas n n;
  gas_new_spent n := mkRefGas n 0;
  gas_limit := rg_limit;
  gas_remaining g := Z.max 0 (Z.min u64_max (rg_remaining g));
  gas_spent g := rg_limit g - rg_remaining g;
  gas_record_cost g c :=
    let r := Z.max 0 (Z.min u64_max (rg_remaining g)) in
    if decide (c ≤ r) then (mkRefGas (rg_limit g) (r - c), true) else (g, false);
  gas_erase_cost g c :=
    mkRefGas (rg_limit g) (Z.max 0 (Z.min u64_max (rg_remaining g)) + c) |}.

Lemma reference_gas_laws : @GasLaws RefGas reference_gas.
Proof.
  split; simpl; intros.
  1,2,3,6,7: u64_lia.
  - rewrite decide_True by lia. eexists. split; [done|]. simpl. u64_lia.
  - by rewrite decide_False by lia.
Qed.

#[local] Instance reference_sstore : SStoreApi := {|
  is_original_eq_present s := bool_decide (original_value s = present_value s);
  is_original_eq_new s := bool_decide (original_value s = new_value s) |}.

Lemma reference_sstore_laws : @SStoreLaws reference_sstore.
Proof. by split. Qed.

(** One byte per word: enough to tell the encodings of small arguments apart. *)
Definition reference_byte (z : Z) : Byte.byte :=
  default Byte.x00 (Byte.of_N (Z.to_N (z mod 256))).

#[local] Instance reference_abi : AbiApi := {|
  abi_MegaLimitExceeded k l := [reference_byte k; reference_byte l];
  abi_VolatileDataAccessDisabled k := [reference_byte k] |}.
