(* ===== verification/Volatile.v ===== *)
(** * Volatile data access

    Models [access/volatile.rs] (the bit flags) and [access/tracker.rs] (the
    tracker of accesses, of the compute gas cap they impose and of the depth at
    which access is disabled).  The abstract specification of the disabling is a
    stack with one flag per call frame. *)
From S2P Require Import Prelude Spec Deps.
Open Scope Z_scope.

(** The Solidity enum of volatile data types. *)
Inductive VolatileDataAccessType : Set :=
  | BlockNumber | Timestamp | Coinbase | Difficulty | GasLimit | BaseFee
  | PrevRandao | BlockHash | BlobBaseFee | BlobHash | Beneficiary | Oracle.

#[export] Instance VolatileDataAccessType_eq_dec : EqDecision VolatileDataAccessType.
Proof. solve_decision. Defined.

(** [ty as u8]. *)
Definition access_type_as_u8 (ty : VolatileDataAccessType) : Z :=
  match ty with
  | BlockNumber => 0 | Timestamp => 1 | Coinbase => 2 | Difficulty => 3
  | GasLimit => 4 | BaseFee => 5 | PrevRandao => 6 | BlockHash => 7
  | BlobBaseFee => 8 | BlobHash => 9 | Beneficiary => 10 | Oracle => 11
  end.

(** [u16::trailing_zeros] and [u16::count_ones]. *)
Definition trailing_zeros16 (x : Z) : Z :=
  match list_find (λ i, Z.testbit x i = true) (seqZ 0 16) with
  | Some (_, i) => i
  | None => 16
  end.
Definition count_ones16 (x : Z) : Z :=
  Z.of_nat (length (filter (λ i, Z.testbit x i = true) (seqZ 0 16))).

(** ** The flags, by their bits *)
Definition VolatileDataAccess := Z.

Module VolatileDataAccess.
Definition BLOCK_NUMBER : VolatileDataAccess := Z.shiftl 1 0.
Definition TIMESTAMP : VolatileDataAccess := Z.shiftl 1 1.
Definition COINBASE : VolatileDataAccess := Z.shiftl 1 2.
Definition DIFFICULTY : VolatileDataAccess := Z.shiftl 1 3.
Definition GAS_LIMIT : VolatileDataAccess := Z.shiftl 1 4.
Definition BASE_FEE : VolatileDataAccess := Z.shiftl 1 5.
Definition PREV_RANDAO : VolatileDataAccess := Z.shiftl 1 6.
Definition BLOCK_HASH : VolatileDataAccess := Z.shiftl 1 7.
Definition BLOB_BASE_FEE : VolatileDataAccess := Z.shiftl 1 8.
Definition BLOB_HASH : VolatileDataAccess := Z.shiftl 1 9.
Definition BENEFICIARY_BALANCE : VolatileDataAccess := Z.shiftl 1 10.
Definition ORACLE : VolatileDataAccess := Z.shiftl 1 11.

(** The union of the declared flags. *)
Definition all_flags : VolatileDataAccess :=
  foldr Z.lor 0
    [BLOCK_NUMBER; TIMESTAMP; COINBASE; DIFFICULTY; GAS_LIMIT; BASE_FEE;
     PREV_RANDAO; BLOCK_HASH; BLOB_BASE_FEE; BLOB_HASH; BENEFICIARY_BALANCE; ORACLE].

Definition BLOCK_ENV_MASK : Z := 1023.
Definition empty : VolatileDataAccess := 0.

Section ops.
Context `{BitflagsApi} `{Profile}.

Definition has_block_env_access (self : VolatileDataAccess) : bool :=
  negb (bool_decide (Z.land self BLOCK_ENV_MASK = 0)).

Definition has_beneficiary_balance_access (self : VolatileDataAccess) : bool :=
  bf_contains self BENEFICIARY_BALANCE.

Definition has_oracle_access (self : VolatileDataAccess) : bool :=
  bf_contains self ORACLE.

Definition count_block_env_accessed (self : VolatileDataAccess) : Z :=
  count_ones16 (Z.land self BLOCK_ENV_MASK).

Definition count_accessed (self : VolatileDataAccess) : Z :=
  count_block_env_accessed self.

Definition raw (self : VolatileDataAccess) : Z := self.

Definition as_u8 (self : VolatileDataAccess) : outcome Z :=
  debug_assert (negb (bf_is_empty self));;
  Ret (trailing_zeros16 self).

Definition block_env_only (self : VolatileDataAccess) : VolatileDataAccess :=
  bf_from_bits_truncate all_flags (Z.land self BLOCK_ENV_MASK).

(** [From<VolatileDataAccessType>]. *)
Definition from_type (ty : VolatileDataAccessType) : VolatileDataAccess :=
  bf_from_bits_truncate all_flags (Z.shiftl 1 (access_type_as_u8 ty)).
End ops.
End VolatileDataAccess.

(** ** The tracker *)
Record VolatileDataAccessTracker := mkVolatileTracker {
  volatile_data_accessed : VolatileDataAccess;
  compute_gas_limit : option Z;
  block_env_access_limit : Z;
  oracle_access_limit : Z;
  disable_depth : option Z;
}.

#[export] Instance VolatileDataAccessTracker_eq_dec : EqDecision VolatileDataAccessTracker.
Proof. solve_decision. Defined.

Module VolatileDataAccessTracker.
Section ops.
Context `{BitflagsApi}.
(** [ORACLE_CONTRACT_ADDRESS]. *)
Variable ORACLE_CONTRACT_ADDRESS : Address.

Definition new (block_env_access_limit oracle_access_limit : Z) :
    VolatileDataAccessTracker :=
  mkVolatileTracker VolatileDataAccess.empty None
    block_env_access_limit oracle_access_limit None.

Definition accessed (self : VolatileDataAccessTracker) : bool :=
  negb (bf_is_empty (volatile_data_accessed self)).

Definition get_volatile_data_info (self : VolatileDataAccessTracker) :
    option VolatileDataAccess :=
  if accessed self then Some (volatile_data_accessed self) else None.

Definition get_compute_gas_limit (self : VolatileDataAccessTracker) : option Z :=
  compute_gas_limit self.

Definition get_block_env_accesses (self : VolatileDataAccessTracker) :
    VolatileDataAccess :=
  VolatileDataAccess.block_env_only (volatile_data_accessed self).

Definition get_volatile_data_accessed (self : VolatileDataAccessTracker) :
    VolatileDataAccess :=
  volatile_data_accessed self.

Definition apply_or_create_limit (limit : Z) (self : VolatileDataAccessTracker) :
    VolatileDataAccessTracker :=
  mkVolatileTracker (volatile_data_accessed self)
    (Some match compute_gas_limit self with
          | Some current_limit => Z.min current_limit limit
          | None => limit
          end)
    (block_env_access_limit self) (oracle_access_limit self) (disable_depth self).

Definition insert_flag (flag : VolatileDataAccess) (self : VolatileDataAccessTracker) :
    VolatileDataAccessTracker :=
  mkVolatileTracker (bf_insert (volatile_data_accessed self) flag)
    (compute_gas_limit self) (block_env_access_limit self)
    (oracle_access_limit self) (disable_depth self).

Definition mark_block_env_accessed (access_type : VolatileDataAccessType)
    (self : VolatileDataAccessTracker) : VolatileDataAccessTracker :=
  let self := insert_flag (VolatileDataAccess.from_type access_type) self in
  apply_or_create_limit (block_env_access_limit self) self.

Definition has_accessed_beneficiary_balance (self : VolatileDataAccessTracker) : bool :=
  VolatileDataAccess.has_beneficiary_balance_access (volatile_data_accessed self).

Definition mark_beneficiary_balance_accessed (self : VolatileDataAccessTracker) :
    VolatileDataAccessTracker :=
  let self := insert_flag VolatileDataAccess.BENEFICIARY_BALANCE self in
  apply_or_create_limit (block_env_access_limit self) self.

Definition has_accessed_oracle (self : VolatileDataAccessTracker) : bool :=
  VolatileDataAccess.has_oracle_access (volatile_data_accessed self).

Definition check_and_mark_oracle_access (address : Address)
    (self : VolatileDataAccessTracker) : VolatileDataAccessTracker * bool :=
  if decide (address = ORACLE_CONTRACT_ADDRESS) then
    let self := insert_flag VolatileDataAccess.ORACLE self in
    (apply_or_create_limit (oracle_access_limit self) self, true)
  else (self, false).

Definition with_disable_depth (d : option Z) (self : VolatileDataAccessTracker) :
    VolatileDataAccessTracker :=
  mkVolatileTracker (volatile_data_accessed self) (compute_gas_limit self)
    (block_env_access_limit self) (oracle_access_limit self) d.

Definition disable_access (depth : Z) (self : VolatileDataAccessTracker) :
    VolatileDataAccessTracker :=
  match disable_depth self with
  | Some current =>
      if decide (current ≤ depth) then self else with_disable_depth (Some depth) self
  | None => with_disable_depth (Some depth) self
  end.

Definition volatile_access_disabled (self : VolatileDataAccessTracker)
    (current_depth : Z) : bool :=
  match disable_depth self with
  | Some d => bool_decide (d ≤ current_depth)
  | None => false
  end.

Definition enable_access (caller_depth : Z) (self : VolatileDataAccessTracker) :
    VolatileDataAccessTracker * bool :=
  match disable_depth self with
  | None => (self, true)
  | Some d =>
      if decide (caller_depth ≤ d) then (with_disable_depth None self, true)
      else (self, false)
  end.

Definition enable_access_if_returning (current_depth : Z)
    (self : VolatileDataAccessTracker) : VolatileDataAccessTracker :=
  match disable_depth self with
  | Some d =>
      if decide (current_depth < d) then with_disable_depth None self else self
  | None => self
  end.

Definition reset (self : VolatileDataAccessTracker) : VolatileDataAccessTracker :=
  mkVolatileTracker VolatileDataAccess.empty None
    (block_env_access_limit self) (oracle_access_limit self) None.
End ops.
End VolatileDataAccessTracker.

(** ** The disabling of access, abstractly

    One flag per active call frame, innermost first: the flag says that the frame
    itself disabled access.  A frame is restricted when it or a frame that
    contains it did, and only the frame that did may lift the restriction. *)
Inductive access_op : Set :=
  | OpCall | OpReturn | OpDisable | OpEnable | OpQuery.

Definition spec_access_step (s : list bool) (op : access_op) :
    option (list bool * option bool) :=
  match s with
  | [] => None
  | _ :: rest =>
      match op with
      | OpCall => Some (false :: s, None)
      | OpReturn => if decide (rest = []) then None else Some (rest, None)
      | OpDisable => Some (true :: rest, None)
      | OpEnable =>
          if existsb id rest then Some (s, Some false) else Some (false :: rest, Some true)
      | OpQuery => Some (s, Some (existsb id s))
      end
  end.

(** The same operations on the tracker, with the journal depth of the active
    frame: the interceptor disables, enables and queries at the caller's depth,
    and a frame return calls [enable_access_if_returning] at the depth of the
    frame that continues. *)
Definition tracker_access_step (st : Z * VolatileDataAccessTracker) (op : access_op) :
    (Z * VolatileDataAccessTracker) * option bool :=
  let '(depth, t) := st in
  match op with
  | OpCall => ((depth + 1, t), None)
  | OpReturn =>
      ((depth - 1, VolatileDataAccessTracker.enable_access_if_returning (depth - 1) t), None)
  | OpDisable => ((depth, VolatileDataAccessTracker.disable_access depth t), None)
  | OpEnable =>
      let '(t', ok) := VolatileDataAccessTracker.enable_access depth t in
      ((depth, t'), Some ok)
  | OpQuery =>
      ((depth, t), Some (VolatileDataAccessTracker.volatile_access_disabled t depth))
  end.

Fixpoint spec_access_run (s : list bool) (ops : list access_op) :
    option (list bool * list (option bool)) :=
  match ops with
  | [] => Some (s, [])
  | op :: ops =>
      '(s1, o) ← spec_access_step s op;
      '(s2, os) ← spec_access_run s1 ops;
      Some (s2, o :: os)
  end.

Fixpoint tracker_access_run (st : Z * VolatileDataAccessTracker) (ops : list access_op) :
    (Z * VolatileDataAccessTracker) * list (option bool) :=
  match ops with
  | [] => (st, [])
  | op :: ops =>
      let '(st1, o) := tracker_access_step st op in
      let '(st2, os) := tracker_access_run st1 ops in
      (st2, o :: os)
  end.

(** The depth of the outermost frame that disabled access. *)
Fixpoint outermost_disabled (s : list bool) : option Z :=
  match s with
  | [] => None
  | b :: rest =>
      match outermost_disabled rest with
      | Some d => Some d
      | None => if b then Some (Z.of_nat (S (length rest))) else None
      end
  end.

Definition access_simulates (s : list bool) (st : Z * VolatileDataAccessTracker) : Prop :=
  fst st = Z.of_nat (length s) ∧ disable_depth (snd st) = outermost_disabled s.

Lemma outermost_disabled_bound s d :
  outermost_disabled s = Some d → 1 ≤ d ≤ Z.of_nat (length s).
Proof.
  revert d. induction s as [|b rest IH]; simpl; intros d Hd; [done|].
  destruct (outermost_disabled rest) as [d'|]; [specialize (IH d' eq_refl)|destruct b];
    simplify_eq; lia.
Qed.

Lemma outermost_disabled_None s : outermost_disabled s = None ↔ existsb id s = false.
Proof.
  induction s as [|b rest IH]; simpl; [done|].
  rewrite orb_false_iff, <- IH. destruct (outermost_disabled rest), b; naive_solver.
Qed.

Lemma outermost_disabled_Some s d : outermost_disabled s = Some d → existsb id s = true.
Proof.
  intros Hd. apply not_false_iff_true. rewrite <- outermost_disabled_None. congruence.
Qed.

Lemma access_simulates_step s st op s' o :
  access_simulates s st → spec_access_step s op = Some (s', o) →
  ∃ st', tracker_access_step st op = (st', o) ∧ access_simulates s' st'.
Proof.
  destruct st as [depth t]. intros [Hd Ht] Hstep. simpl in Hd, Ht.
  destruct s as [|b rest]; [by destruct op|].
  pose proof (outermost_disabled_bound rest) as Hb.
  destruct op; simpl in *; unfold VolatileDataAccessTracker.disable_access,
    VolatileDataAccessTracker.enable_access,
    VolatileDataAccessTracker.enable_access_if_returning,
    VolatileDataAccessTracker.volatile_access_disabled; rewrite ?Ht.
  - simplify_eq. eexists. split; [done|]. split; simpl; [lia|].
    rewrite Ht. by destruct (outermost_disabled rest), b.
  - case_decide; [done|]. simplify_eq. eexists. split; [done|].
    split; [simpl in *; lia|].
    destruct (outermost_disabled s') as [d|] eqn:Hr.
    + rewrite decide_False by (specialize (Hb d eq_refl); simpl in *; lia). simpl; congruence.
    + destruct b; [|done]. rewrite decide_True by (simpl in *; lia). done.
  - simplify_eq. eexists. split; [done|]. split; [done|]. simpl.
    destruct (outermost_disabled rest) as [d|] eqn:Hr.
    + rewrite decide_True by (specialize (Hb d eq_refl); lia). done.
    + destruct b; [|done]. rewrite decide_True by lia. done.
  - destruct (outermost_disabled rest) as [d|] eqn:Hr.
    + rewrite (outermost_disabled_Some _ _ Hr) in Hstep. simplify_eq.
      rewrite decide_False by (specialize (Hb d eq_refl); lia).
      eexists. split; [done|]. split; simpl; [done|]. by rewrite Hr.
    + rewrite (proj1 (outermost_disabled_None rest) Hr) in Hstep. simplify_eq.
      destruct b.
      * rewrite decide_True by lia. eexists. split; [done|]. split; simpl; [done|].
        by rewrite Hr.
      * eexists. split; [done|]. split; simpl; [done|]. by rewrite Hr, Ht.
  - simplify_eq. destruct (outermost_disabled rest) as [d|] eqn:Hr.
    + rewrite (outermost_disabled_Some _ _ Hr), orb_true_r.
      rewrite bool_decide_true by (specialize (Hb d eq_refl); lia).
      eexists. split; [done|]. split; simpl; [done|]. by rewrite Hr.
    + rewrite (proj1 (outermost_disabled_None rest) Hr), orb_false_r.
      assert ((match (if b then Some (Z.of_nat (S (length rest))) else None) with
        | Some d => bool_decide (d ≤ Z.of_nat (S (length rest)))
        | None => false end) = b) as ->.
      { destruct b; [|done]. by rewrite bool_decide_true by lia. }
      eexists. split; [done|]. split; simpl; [done|]. by rewrite Hr.
Qed.

Lemma access_simulates_run ops s st s' os :
  access_simulates s st → spec_access_run s ops = Some (s', os) →
  ∃ st', tracker_access_run st ops = (st', os) ∧ access_simulates s' st'.
Proof.
  revert s st s' os. induction ops as [|op ops IH]; simpl; intros s st s' os Hsim Hrun.
  { simplify_eq. eauto. }
  destruct (spec_access_step s op) as [[s1 o]|] eqn:Hstep; simplify_eq/=.
  destruct (spec_access_run s1 ops) as [[s2 os2]|] eqn:Hrest; simplify_eq/=.
  destruct (access_simulates_step _ _ _ _ _ Hsim Hstep) as (st1&->&Hsim1).
  destruct (IH _ _ _ _ Hsim1 Hrest) as (st2&->&Hsim2). eauto.
Qed.

(** ** Sequences of accesses *)
Inductive volatile_event : Set :=
  | EvBlockEnv (ty : VolatileDataAccessType)
  | EvBeneficiary
  | EvAddress (a : Address).

Section marks.
Context `{BitflagsApi} {laws : BitflagsLaws}.
Variable ORACLE_CONTRACT_ADDRESS : Address.

Definition mark_event (t : VolatileDataAccessTracker) (e : volatile_event) :
    VolatileDataAccessTracker :=
  match e with
  | EvBlockEnv ty => VolatileDataAccessTracker.mark_block_env_accessed ty t
  | EvBeneficiary => VolatileDataAccessTracker.mark_beneficiary_balance_accessed t
  | EvAddress a =>
      fst (VolatileDataAccessTracker.check_and_mark_oracle_access
             ORACLE_CONTRACT_ADDRESS a t)
  end.

(** What an event contributes: its flag, and its cap given the two limits. *)
Definition event_flag (e : volatile_event) : option Z :=
  match e with
  | EvBlockEnv ty => Some (VolatileDataAccess.from_type ty)
  | EvBeneficiary => Some VolatileDataAccess.BENEFICIARY_BALANCE
  | EvAddress a =>
      if decide (a = ORACLE_CONTRACT_ADDRESS) then Some VolatileDataAccess.ORACLE else None
  end.
Definition event_cap (block oracle : Z) (e : volatile_event) : option Z :=
  match e with
  | EvBlockEnv _ | EvBeneficiary => Some block
  | EvAddress a => if decide (a = ORACLE_CONTRACT_ADDRESS) then Some oracle else None
  end.

Definition min_cap (c d : option Z) : option Z :=
  match c, d with
  | Some x, Some y => Some (Z.min x y)
  | Some x, None => Some x
  | None, d => d
  end.

(** Both effects of an event, in one step. *)
Lemma mark_event_spec t e :
  mark_event t e =
    mkVolatileTracker
      (Z.lor (volatile_data_accessed t) (default 0 (event_flag e)))
      (min_cap (compute_gas_limit t)
         (event_cap (block_env_access_limit t) (oracle_access_limit t) e))
      (block_env_access_limit t) (oracle_access_limit t) (disable_depth t).
Proof.
  destruct t as [v c b o d], e as [ty| |a]; simpl;
    unfold VolatileDataAccessTracker.mark_block_env_accessed,
      VolatileDataAccessTracker.mark_beneficiary_balance_accessed,
      VolatileDataAccessTracker.check_and_mark_oracle_access,
      VolatileDataAccessTracker.apply_or_create_limit,
      VolatileDataAccessTracker.insert_flag;
    try case_decide; simpl; rewrite ?bf_insert_spec, ?Z.lor_0_r; by destruct c.
Qed.

Lemma min_cap_assoc a b c : min_cap a (min_cap b c) = min_cap (min_cap a b) c.
Proof. destruct a, b, c; simpl; f_equal; lia. Qed.
Lemma min_cap_comm a b : min_cap a b = min_cap b a.
Proof. destruct a, b; simpl; f_equal; lia. Qed.

Lemma mark_event_comm t e1 e2 :
  mark_event (mark_event t e1) e2 = mark_event (mark_event t e2) e1.
Proof.
  rewrite !mark_event_spec. simpl. f_equal.
  - rewrite <- !Z.lor_assoc. f_equal. apply Z.lor_comm.
  - rewrite <- !min_cap_assoc. f_equal. apply min_cap_comm.
Qed.

Lemma mark_events_spec es t :
  foldl mark_event t es =
    mkVolatileTracker
      (Z.lor (volatile_data_accessed t) (foldr Z.lor 0 (omap event_flag es)))
      (min_cap (compute_gas_limit t)
         (foldr (λ c, min_cap (Some c)) None
            (omap (event_cap (block_env_access_limit t) (oracle_access_limit t)) es)))
      (block_env_access_limit t) (oracle_access_limit t) (disable_depth t).
Proof.
  revert t. induction es as [|e es IH]; intros t.
  { destruct t as [v [c|] b o d]; simpl; by rewrite Z.lor_0_r. }
  simpl. rewrite IH, mark_event_spec. simpl. f_equal.
  - destruct (event_flag e); simpl; rewrite ?Z.lor_0_r, <- ?Z.lor_assoc; done.
  - rewrite <- min_cap_assoc. f_equal. by destruct (event_cap _ _ e).
Qed.

Lemma min_caps_spec l m :
  foldr (λ c, min_cap (Some c)) None l = Some m ↔
    m ∈ l ∧ ∀ c, c ∈ l → m ≤ c.
Proof.
  revert m. induction l as [|c l IH]; intros m; simpl.
  { split; [done|]. intros [Hm _]. by apply elem_of_nil in Hm. }
  destruct (foldr _ None l) as [m'|] eqn:Hl; simpl.
  - destruct (proj1 (IH m') eq_refl) as [Hin Hle]. split.
    + intros [= <-]. split.
      * destruct (Z.min_spec c m') as [[_ ->]|[_ ->]]; set_solver.
      * intros c' [->|Hc']%elem_of_cons; [lia|]. specialize (Hle c' Hc'). lia.
    + intros [Hm Hall]. f_equal.
      apply elem_of_cons in Hm as [->|Hm].
      * specialize (Hall m' ltac:(set_solver)). lia.
      * specialize (Hle m Hm). pose proof (Hall c ltac:(set_solver)).
        pose proof (Hall m' ltac:(set_solver)). lia.
  - assert (l = []) as ->.
    { destruct l as [|c' l]; [done|]. simpl in Hl. by destruct (foldr _ None l). }
    set_unfold. split; [naive_solver lia|]. intros [[->|[]] _]. done.
Qed.
End marks.

(** ** Flags and their types *)
Section flags.
Context `{BitflagsApi} {laws : BitflagsLaws} `{Profile}.

Lemma from_type_spec ty :
  VolatileDataAccess.from_type ty = Z.shiftl 1 (access_type_as_u8 ty).
Proof.
  unfold VolatileDataAccess.from_type. rewrite bf_from_bits_truncate_spec.
  by destruct ty.
Qed.

Lemma lor_testbit_foldr l i :
  Z.testbit (foldr Z.lor 0 l) i = existsb (λ x, Z.testbit x i) l.
Proof.
  induction l as [|x l IH]; simpl; [apply Z.bits_0|]. by rewrite Z.lor_spec, IH.
Qed.

Lemma testbit_shiftl_1 i j : 0 ≤ i → 0 ≤ j → Z.testbit (Z.shiftl 1 i) j = bool_decide (i = j).
Proof.
  intros. rewrite Z.shiftl_1_l, Z.pow2_bits_eqb by lia.
  destruct (Z.eqb_spec i j); [by rewrite bool_decide_true|by rewrite bool_decide_false].
Qed.
End flags.

(** ** Properties *)

(** C13: For every well-nested sequence of calls, returns,
    [disableVolatileDataAccess], [enableVolatileDataAccess] and
    [isVolatileDataAccessDisabled], the tracker's single [disable_depth] answers
    as one flag per frame would: a frame is restricted when it or a frame around
    it disabled access, only the disabling frame lifts the restriction, and it
    never outlives that frame or reaches a sibling. *)
Theorem volatile_disable_refines_stack ops s' os block oracle :
  spec_access_run [false] ops = Some (s', os) →
  ∃ st', tracker_access_run (1, VolatileDataAccessTracker.new block oracle) ops = (st', os) ∧
    fst st' = Z.of_nat (length s') ∧
    ∀ depth, VolatileDataAccessTracker.volatile_access_disabled (snd st') depth = true ↔
      ∃ d, outermost_disabled s' = Some d ∧ d ≤ depth.
Proof.
  intros Hrun.
  destruct (access_simulates_run ops [false] (1, VolatileDataAccessTracker.new block oracle)
    s' os) as (st'&Hst&Hlen&Hdis); [by split|done|].
  exists st'. repeat split_and; [done|done|]. intros depth.
  unfold VolatileDataAccessTracker.volatile_access_disabled. rewrite Hdis.
  destruct (outermost_disabled s'); rewrite ?bool_decide_eq_true; naive_solver.
Qed.

Lemma volatile_disable_refines_stack_witness :
  spec_access_run [false]
    [OpCall; OpDisable; OpQuery; OpCall; OpQuery; OpEnable; OpReturn; OpReturn; OpQuery] =
    Some ([false], [None; None; Some true; None; Some true; Some false; None; None; Some false]) ∧
  ∃ st', tracker_access_run (1, VolatileDataAccessTracker.new 20 10)
    [OpCall; OpDisable; OpQuery; OpCall; OpQuery; OpEnable; OpReturn; OpReturn; OpQuery] =
    (st', [None; None; Some true; None; Some true; Some false; None; None; Some false]) ∧
    fst st' = 1 ∧
    ∀ depth, VolatileDataAccessTracker.volatile_access_disabled (snd st') depth = true ↔
      ∃ d, outermost_disabled [false] = Some d ∧ d ≤ depth.
Proof.
  split; [reflexivity|].
  apply (volatile_disable_refines_stack _ [false]). reflexivity.
Defined.

(** Whatever volatile data a transaction touches, in whatever order, the cap
    the tracker stores is the least of the caps of the touched kinds (none when
    nothing was touched), the recorded flags are exactly those of the touched
    kinds, the disable depth is not affected, and a permutation of the accesses
    leaves the same tracker. *)
Theorem volatile_marks_most_restrictive `{BitflagsApi} (laws : BitflagsLaws)
    oracle_addr block oracle es es' :
  let t := foldl (mark_event oracle_addr) (VolatileDataAccessTracker.new block oracle) es in
  es ≡ₚ es' →
  (∀ m, VolatileDataAccessTracker.get_compute_gas_limit t = Some m ↔
      m ∈ omap (event_cap oracle_addr block oracle) es ∧
      ∀ c, c ∈ omap (event_cap oracle_addr block oracle) es → m ≤ c) ∧
  (∀ i, Z.testbit (VolatileDataAccessTracker.get_volatile_data_accessed t) i =
      existsb (λ f, Z.testbit f i) (omap (event_flag oracle_addr) es)) ∧
  disable_depth t = None ∧
  foldl (mark_event oracle_addr) (VolatileDataAccessTracker.new block oracle) es' = t.
Proof.
  intros t Hperm. subst t. split_and!.
  - intros m. rewrite mark_events_spec. simpl. apply min_caps_spec.
  - intros i. rewrite mark_events_spec. simpl. apply lor_testbit_foldr.
  - by rewrite mark_events_spec.
  - symmetry. generalize (VolatileDataAccessTracker.new block oracle).
    induction Hperm as [|e l l' _ IH|e1 e2 l|l1 l2 l3 _ IH1 _ IH2]; intros t; simpl.
    + done.
    + apply IH.
    + by rewrite mark_event_comm.
    + by rewrite IH1.
Qed.

Lemma volatile_marks_most_restrictive_witness :
  let es := [EvBlockEnv Timestamp; EvAddress 5; EvBeneficiary; EvAddress 7] in
  let es' := [EvAddress 7; EvBeneficiary; EvAddress 5; EvBlockEnv Timestamp] in
  let t := foldl (@mark_event reference_bitflags 7) (VolatileDataAccessTracker.new 20 10) es in
  VolatileDataAccessTracker.get_compute_gas_limit t = Some 10 ∧
  foldl (@mark_event reference_bitflags 7) (VolatileDataAccessTracker.new 20 10) es' = t.
Proof.
  intros es es' t. split; [reflexivity|].
  apply (volatile_marks_most_restrictive reference_bitflags_laws 7 20 10 es es').
  apply (Permutation_rev es).
Defined.

(** The bit of a volatile data type and its Solidity discriminant convert into
    each other without loss: [as_u8] of the flag of a type is the type's
    discriminant, distinct types have distinct flags, and the block-environment
    mask selects exactly the types 0 to 9. *)
Theorem volatile_type_roundtrip `{BitflagsApi} (laws : BitflagsLaws) `{Profile} ty ty' :
  VolatileDataAccess.as_u8 (VolatileDataAccess.from_type ty) = Ret (access_type_as_u8 ty) ∧
  (VolatileDataAccess.from_type ty = VolatileDataAccess.from_type ty' ↔ ty = ty') ∧
  VolatileDataAccess.has_block_env_access (VolatileDataAccess.from_type ty) =
    bool_decide (access_type_as_u8 ty < 10) ∧
  VolatileDataAccess.has_beneficiary_balance_access (VolatileDataAccess.from_type ty) =
    bool_decide (ty = Beneficiary) ∧
  VolatileDataAccess.has_oracle_access (VolatileDataAccess.from_type ty) =
    bool_decide (ty = Oracle).
Proof.
  rewrite !from_type_spec. unfold VolatileDataAccess.as_u8,
    VolatileDataAccess.has_beneficiary_balance_access, VolatileDataAccess.has_oracle_access.
  rewrite !bf_contains_spec, bf_is_empty_spec. unfold debug_assert.
  split_and!.
  - by destruct debug_assertions, ty.
  - split; [|by intros ->]. by destruct ty, ty'.
  - by destruct ty.
  - by destruct ty.
  - by destruct ty.
Qed.

Lemma volatile_type_roundtrip_witness :
  @VolatileDataAccess.as_u8 reference_bitflags checked_build
    (@VolatileDataAccess.from_type reference_bitflags Oracle) = Ret 11.
Proof.
  apply (@volatile_type_roundtrip reference_bitflags reference_bitflags_laws
    checked_build Oracle Oracle).
Defined.
