(* ===== verification/LimitTypes.v ===== *)
(** * Limit kinds, limit checks and halt reasons

    Models [limit/mod.rs] and the halt reasons of [evm/result.rs]. *)
From S2P Require Import Prelude Spec Deps Volatile.
Open Scope Z_scope.

(** ** [LimitKind] and [LimitCheck] *)
Inductive LimitKind : Set := DataSize | KVUpdate | ComputeGas | StateGrowth.

#[export] Instance LimitKind_eq_dec : EqDecision LimitKind.
Proof. solve_decision. Defined.

Inductive LimitCheck : Set :=
  | WithinLimit
  | ExceedsLimit (kind : LimitKind) (limit used : Z) (frame_local : bool).

#[export] Instance LimitCheck_eq_dec : EqDecision LimitCheck.
Proof. solve_decision. Defined.

Module LimitKind.
Definition as_u8 (self : LimitKind) : Z :=
  match self with DataSize => 0 | KVUpdate => 1 | ComputeGas => 2 | StateGrowth => 3 end.
End LimitKind.

(** ** [MegaHaltReason] *)
Inductive MegaHaltReason :=
  | Base (r : OpHaltReason)
  | DataLimitExceeded (limit actual : Z)
  | KVUpdateLimitExceeded (limit actual : Z)
  | ComputeGasLimitExceeded (limit actual : Z)
  | StateGrowthLimitExceeded (limit actual : Z)
  | SystemTxInvalidCallee (callee : Address)
  | VolatileDataAccessOutOfGas (access_type : VolatileDataAccess) (limit actual : Z).

Module MegaHaltReason.
(** The [From] conversions from the wrapped reasons. *)
Definition from_eth (value : EthHaltReason) : MegaHaltReason := Base (OpBase value).
Definition from_op (value : OpHaltReason) : MegaHaltReason := Base value.

(** [TryFrom<MegaHaltReason> for EthHaltReason]; the conversion of an
    [OpHaltReason] is [op-revm]'s. *)
Section try_into.
Variable op_try_into : OpHaltReason → result EthHaltReason OpHaltReason.
Definition try_into_eth (value : MegaHaltReason) : result EthHaltReason MegaHaltReason :=
  match value with
  | Base reason =>
      match op_try_into reason with Ok e => Ok e | Err o => Err (from_op o) end
  | DataLimitExceeded _ _ | KVUpdateLimitExceeded _ _ | ComputeGasLimitExceeded _ _
  | StateGrowthLimitExceeded _ _ | SystemTxInvalidCallee _
  | VolatileDataAccessOutOfGas _ _ _ => Err value
  end.
End try_into.
End MegaHaltReason.

Module LimitCheck.
Definition exceeded_limit (self : LimitCheck) : bool :=
  match self with WithinLimit => false | ExceedsLimit _ _ _ _ => true end.

Definition within_limit (self : LimitCheck) : bool :=
  match self with WithinLimit => true | ExceedsLimit _ _ _ _ => false end.

Definition is_frame_local (self : LimitCheck) : bool :=
  match self with ExceedsLimit _ _ _ true => true | _ => false end.

Definition revert_data `{AbiApi} (self : LimitCheck) : Bytes :=
  match self with
  | ExceedsLimit kind limit _ _ => abi_MegaLimitExceeded (LimitKind.as_u8 kind) limit
  | WithinLimit => Bytes_new
  end.

Definition maybe_halt_reason (self : LimitCheck) : option MegaHaltReason :=
  match self with
  | ExceedsLimit DataSize limit used _ => Some (DataLimitExceeded limit used)
  | ExceedsLimit KVUpdate limit used _ => Some (KVUpdateLimitExceeded limit used)
  | ExceedsLimit ComputeGas limit used _ => Some (ComputeGasLimitExceeded limit used)
  | ExceedsLimit StateGrowth limit used _ => Some (StateGrowthLimitExceeded limit used)
  | WithinLimit => None
  end.
End LimitCheck.

Lemma within_limit_exceeded c :
  LimitCheck.within_limit c = negb (LimitCheck.exceeded_limit c).
Proof. by destruct c. Qed.

Lemma exceeded_limit_true c :
  LimitCheck.exceeded_limit c = true ↔ ∃ k l u f, c = ExceedsLimit k l u f.
Proof. destruct c; simpl; naive_solver. Qed.
Lemma exceeded_limit_false c : LimitCheck.exceeded_limit c = false ↔ c = WithinLimit.
Proof. by destruct c. Qed.
