(* ===== verification/FrameLimit.v ===== *)
(** * The frame limit tracker

    Models [limit/frame_limit.rs]: one usage entry for the transaction and a
    stack with one entry per call frame.  The [Vec] of the source is a list whose
    head is the top of the stack. *)
From S2P Require Import Prelude Spec Deps Volatile LimitTypes.
Open Scope Z_scope.

Record CallFrameInfo := mkCallFrameInfo {
  target_address : option Address;
  target_updated : bool;
}.

Record FrameLimitEntry (I : Type) := mkEntry {
  limit : Z;
  persistent_usage : Z;
  discardable_usage : Z;
  refund : Z;
  info : I;
}.
Arguments mkEntry {I}.
Arguments limit {I}.
Arguments persistent_usage {I}.
Arguments discardable_usage {I}.
Arguments refund {I}.
Arguments info {I}.

Record FrameLimitTracker (I : Type) := mkTracker {
  tx_entry : FrameLimitEntry unit;
  frame_stack : list (FrameLimitEntry I);
}.
Arguments mkTracker {I}.
Arguments tx_entry {I}.
Arguments frame_stack {I}.

Module FrameLimitEntry.
Section ops.
Context {I : Type} `{Profile}.

Definition new (limit : Z) (info : I) : FrameLimitEntry I :=
  mkEntry limit 0 0 0 info.

Definition used (self : FrameLimitEntry I) : outcome Z :=
  expect (checked_add (persistent_usage self) (discardable_usage self)).

Definition remaining (self : FrameLimitEntry I) : outcome Z :=
  u ← used self;
  Ret (sat_sub (limit self) (sat_sub u (refund self))).

(** [entry.persistent_usage += n], and the same for the other two counters. *)
Definition add_persistent (n : Z) (self : FrameLimitEntry I) :
    outcome (FrameLimitEntry I) :=
  p ← add_u64 (persistent_usage self) n;
  Ret (mkEntry (limit self) p (discardable_usage self) (refund self) (info self)).
Definition add_discardable (n : Z) (self : FrameLimitEntry I) :
    outcome (FrameLimitEntry I) :=
  d ← add_u64 (discardable_usage self) n;
  Ret (mkEntry (limit self) (persistent_usage self) d (refund self) (info self)).
Definition add_refund (n : Z) (self : FrameLimitEntry I) :
    outcome (FrameLimitEntry I) :=
  r ← add_u64 (refund self) n;
  Ret (mkEntry (limit self) (persistent_usage self) (discardable_usage self) r (info self)).
End ops.
End FrameLimitEntry.

Module FrameLimitTracker.
Section ops.
Context {I : Type} `{Profile}.

Definition new (tx_limit : Z) : FrameLimitTracker I :=
  mkTracker (FrameLimitEntry.new tx_limit tt) [].

Definition tx_limit (self : FrameLimitTracker I) : Z := limit (tx_entry self).

Definition reset (self : FrameLimitTracker I) : FrameLimitTracker I :=
  mkTracker (mkEntry (limit (tx_entry self)) 0 0 0 (info (tx_entry self))) [].

Definition current_frame_remaining (self : FrameLimitTracker I) : outcome Z :=
  match frame_stack self with
  | entry :: _ => FrameLimitEntry.remaining entry
  | [] => FrameLimitEntry.remaining (tx_entry self)
  end.

(** The product is computed in [u128] and cast back. *)
Definition max_forward_limit (self : FrameLimitTracker I) : outcome Z :=
  match frame_stack self with
  | entry :: _ =>
      remaining ← FrameLimitEntry.remaining entry;
      Ret (as_u64 ((remaining * constants.rex4.FRAME_LIMIT_NUMERATOR)
                   / constants.rex4.FRAME_LIMIT_DENOMINATOR))
  | [] => Ret (limit (tx_entry self))
  end.

Definition push_frame_with_limit (l : Z) (i : I) (self : FrameLimitTracker I) :
    FrameLimitTracker I :=
  mkTracker (tx_entry self) (FrameLimitEntry.new l i :: frame_stack self).

Definition push_frame (i : I) (self : FrameLimitTracker I) :
    outcome (FrameLimitTracker I) :=
  l ← max_forward_limit self;
  Ret (mkTracker (tx_entry self) (FrameLimitEntry.new l i :: frame_stack self)).

(** What a popped child adds to the entry below it. *)
Definition merge_into {J : Type} (success : bool) (child : FrameLimitEntry I)
    (parent : FrameLimitEntry J) : outcome (FrameLimitEntry J) :=
  parent ← FrameLimitEntry.add_persistent (persistent_usage child) parent;
  if success then
    parent ← FrameLimitEntry.add_discardable (discardable_usage child) parent;
    FrameLimitEntry.add_refund (refund child) parent
  else Ret parent.

Definition pop_frame (success : bool) (self : FrameLimitTracker I) :
    outcome (FrameLimitTracker I * option (FrameLimitEntry I)) :=
  match frame_stack self with
  | [] => Ret (self, None)
  | child :: parent :: rest =>
      parent ← merge_into success child parent;
      Ret (mkTracker (tx_entry self) (parent :: rest), Some child)
  | [child] =>
      tx ← merge_into success child (tx_entry self);
      Ret (mkTracker tx [], Some child)
  end.

Definition exceeds_current_frame_limit (kind : LimitKind) (self : FrameLimitTracker I) :
    outcome LimitCheck :=
  match frame_stack self with
  | entry :: _ =>
      u ← FrameLimitEntry.used entry;
      if decide (limit entry < sat_sub u (refund entry)) then
        Ret (ExceedsLimit kind (limit entry) u true)
      else Ret WithinLimit
  | [] => Ret WithinLimit
  end.

(** [tx_mut] and [frame_mut], as updates through the returned reference. *)
Definition tx_mut (f : FrameLimitEntry unit → outcome (FrameLimitEntry unit))
    (self : FrameLimitTracker I) : outcome (FrameLimitTracker I) :=
  e ← f (tx_entry self);
  Ret (mkTracker e (frame_stack self)).

Definition frame_mut (f : FrameLimitEntry I → outcome (FrameLimitEntry I))
    (self : FrameLimitTracker I) : outcome (FrameLimitTracker I) :=
  match frame_stack self with
  | e :: rest =>
      e ← f e;
      Ret (mkTracker (tx_entry self) (e :: rest))
  | [] => Ret self
  end.

Definition has_active_frame (self : FrameLimitTracker I) : bool :=
  match frame_stack self with [] => false | _ :: _ => true end.

(** The loop of [net_usage], from the bottom of the stack to its top. *)
Fixpoint sum_entries (entries : list (FrameLimitEntry I)) (total_used total_refund : Z) :
    outcome (Z * Z) :=
  match entries with
  | [] => Ret (total_used, total_refund)
  | entry :: entries =>
      u ← FrameLimitEntry.used entry;
      total_used ← add_u64 total_used u;
      total_refund ← add_u64 total_refund (refund entry);
      sum_entries entries total_used total_refund
  end.

Definition net_usage (self : FrameLimitTracker I) : outcome Z :=
  u ← FrameLimitEntry.used (tx_entry self);
  '(total_used, total_refund) ←
    sum_entries (reverse (frame_stack self)) u (refund (tx_entry self));
  Ret (sat_sub total_used total_refund).
End ops.
End FrameLimitTracker.

(** ** The limit of the transaction is fixed *)
Section tx_limit.
Context {I : Type} `{Profile}.
Implicit Types t : FrameLimitTracker I.

Definition keeps_limit {J} (f : FrameLimitEntry J → outcome (FrameLimitEntry J)) : Prop :=
  ∀ e e', f e = Ret e' → limit e' = limit e.

Lemma add_persistent_limit {J} n : keeps_limit (FrameLimitEntry.add_persistent (I:=J) n).
Proof. intros e e' He. unfold FrameLimitEntry.add_persistent in He. by outcome_inv. Qed.
Lemma add_discardable_limit {J} n : keeps_limit (FrameLimitEntry.add_discardable (I:=J) n).
Proof. intros e e' He. unfold FrameLimitEntry.add_discardable in He. by outcome_inv. Qed.
Lemma add_refund_limit {J} n : keeps_limit (FrameLimitEntry.add_refund (I:=J) n).
Proof. intros e e' He. unfold FrameLimitEntry.add_refund in He. by outcome_inv. Qed.

Lemma merge_into_keeps_limit {J} ok (child : FrameLimitEntry I) :
  keeps_limit (FrameLimitTracker.merge_into (J:=J) ok child).
Proof.
  intros e e' He. unfold FrameLimitTracker.merge_into in He. outcome_inv.
  destruct ok; outcome_inv; repeat match goal with
  | Hx : FrameLimitEntry.add_persistent _ _ = Ret _ |- _ => apply add_persistent_limit in Hx
  | Hx : FrameLimitEntry.add_discardable _ _ = Ret _ |- _ => apply add_discardable_limit in Hx
  | Hx : FrameLimitEntry.add_refund _ _ = Ret _ |- _ => apply add_refund_limit in Hx
  end; congruence.
Qed.

Lemma frame_mut_tx_limit f t t' :
  FrameLimitTracker.frame_mut f t = Ret t' →
  FrameLimitTracker.tx_limit t' = FrameLimitTracker.tx_limit t.
Proof.
  unfold FrameLimitTracker.frame_mut. intros Ht. case_match; outcome_inv; done.
Qed.

Lemma tx_mut_tx_limit f t t' :
  keeps_limit f → FrameLimitTracker.tx_mut f t = Ret t' →
  FrameLimitTracker.tx_limit t' = FrameLimitTracker.tx_limit t.
Proof.
  intros Hf Ht. unfold FrameLimitTracker.tx_mut in Ht. outcome_inv.
  unfold FrameLimitTracker.tx_limit. simpl. eauto.
Qed.

Lemma push_frame_tx_limit i t t' :
  FrameLimitTracker.push_frame i t = Ret t' →
  FrameLimitTracker.tx_limit t' = FrameLimitTracker.tx_limit t.
Proof. unfold FrameLimitTracker.push_frame. intros Ht. by outcome_inv. Qed.

Lemma push_frame_with_limit_tx_limit l i t :
  FrameLimitTracker.tx_limit (FrameLimitTracker.push_frame_with_limit l i t) =
  FrameLimitTracker.tx_limit t.
Proof. done. Qed.

Lemma pop_frame_tx_limit ok t t' o :
  FrameLimitTracker.pop_frame ok t = Ret (t', o) →
  FrameLimitTracker.tx_limit t' = FrameLimitTracker.tx_limit t.
Proof.
  unfold FrameLimitTracker.pop_frame. intros Ht. repeat case_match; outcome_inv; try done.
  match goal with Hx : FrameLimitTracker.merge_into _ _ _ = Ret _ |- _ =>
    apply merge_into_keeps_limit in Hx; done end.
Qed.
End tx_limit.

#[export] Hint Resolve add_persistent_limit add_discardable_limit add_refund_limit : rust.

(** Replace tracker operations of the context by what they do to the limit. *)
Ltac tx_limit_inv :=
  repeat match goal with
  | Hx : FrameLimitTracker.frame_mut _ _ = Ret _ |- _ => apply frame_mut_tx_limit in Hx
  | Hx : FrameLimitTracker.tx_mut _ _ = Ret _ |- _ => apply tx_mut_tx_limit in Hx; [|auto with rust]
  | Hx : FrameLimitTracker.push_frame _ _ = Ret _ |- _ => apply push_frame_tx_limit in Hx
  | Hx : FrameLimitTracker.pop_frame _ _ = Ret (_, _) |- _ => apply pop_frame_tx_limit in Hx
  | Hx : FrameLimitTracker.pop_frame _ _ = Ret ?r |- _ =>
      destruct r; simpl in *
  end; rewrite ?push_frame_with_limit_tx_limit in *.

(** ** Ghost quantities: the values of an entry and of a whole tracker, unbounded *)
Section ghost.
Context {I : Type}.

Definition used_of (e : FrameLimitEntry I) : Z := persistent_usage e + discardable_usage e.
(** Net usage of an entry, which the refunds may make negative. *)
Definition net_of (e : FrameLimitEntry I) : Z := used_of e - refund e.
Definition within (e : FrameLimitEntry I) : Prop := Z.max 0 (net_of e) ≤ limit e.
Definition remaining_of (e : FrameLimitEntry I) : Z :=
  Z.max 0 (limit e - Z.max 0 (net_of e)).

Definition entry_ok (e : FrameLimitEntry I) : Prop :=
  in_u64 (limit e) ∧ 0 ≤ persistent_usage e ∧ 0 ≤ discardable_usage e ∧ 0 ≤ refund e ∧
  used_of e ≤ u64_max ∧ refund e ≤ u64_max.

#[export] Instance within_dec (e : FrameLimitEntry I) : Decision (within e).
Proof. unfold within. exact _. Defined.

Definition stack_sum (f : FrameLimitEntry I → Z) (l : list (FrameLimitEntry I)) : Z :=
  foldr (λ e z, f e + z) 0 l.
End ghost.

Section tracker_ghost.
Context {I : Type}.
Definition total_used (t : FrameLimitTracker I) : Z :=
  used_of (tx_entry t) + stack_sum used_of (frame_stack t).
Definition total_refund (t : FrameLimitTracker I) : Z :=
  refund (tx_entry t) + stack_sum refund (frame_stack t).
Definition total_net (t : FrameLimitTracker I) : Z := total_used t - total_refund t.

(** The tracker's counters add up without overflow. *)
Definition tracker_ok (t : FrameLimitTracker I) : Prop :=
  entry_ok (tx_entry t) ∧ Forall entry_ok (frame_stack t) ∧
  total_used t ≤ u64_max ∧ total_refund t ≤ u64_max.
End tracker_ghost.

(** ** Basic lemmas *)
Section entry_lemmas.
Context {I : Type} `{Profile}.
Implicit Types (e : FrameLimitEntry I) (l : list (FrameLimitEntry I)).

Lemma entry_ok_new (n : Z) (i : I) : in_u64 n → entry_ok (FrameLimitEntry.new n i).
Proof. intros. unfold entry_ok, used_of. simpl. u64_lia. Qed.

Lemma used_spec e : entry_ok e → FrameLimitEntry.used e = Ret (used_of e).
Proof.
  intros (_&_&_&_&Hu&_). unfold FrameLimitEntry.used, checked_add.
  rewrite decide_True by (unfold used_of in Hu; lia). done.
Qed.

Lemma remaining_spec e : entry_ok e → FrameLimitEntry.remaining e = Ret (remaining_of e).
Proof.
  intros He. unfold FrameLimitEntry.remaining. rewrite (used_spec e He). simpl.
  unfold sat_sub, remaining_of, net_of. done.
Qed.

Lemma remaining_of_bounds e : entry_ok e → 0 ≤ remaining_of e ≤ limit e.
Proof. unfold entry_ok, remaining_of. u64_lia. Qed.

Lemma add_persistent_spec n e :
  in_u64 (persistent_usage e + n) →
  FrameLimitEntry.add_persistent n e =
    Ret (mkEntry (limit e) (persistent_usage e + n) (discardable_usage e) (refund e) (info e)).
Proof. intros. unfold FrameLimitEntry.add_persistent. by rewrite add_u64_in. Qed.
Lemma add_discardable_spec n e :
  in_u64 (discardable_usage e + n) →
  FrameLimitEntry.add_discardable n e =
    Ret (mkEntry (limit e) (persistent_usage e) (discardable_usage e + n) (refund e) (info e)).
Proof. intros. unfold FrameLimitEntry.add_discardable. by rewrite add_u64_in. Qed.
Lemma add_refund_spec n e :
  in_u64 (refund e + n) →
  FrameLimitEntry.add_refund n e =
    Ret (mkEntry (limit e) (persistent_usage e) (discardable_usage e) (refund e + n) (info e)).
Proof. intros. unfold FrameLimitEntry.add_refund. by rewrite add_u64_in. Qed.

Lemma stack_sum_nonneg (f : FrameLimitEntry I → Z) l :
  (∀ e, e ∈ l → 0 ≤ f e) → 0 ≤ stack_sum f l.
Proof.
  induction l as [|e l IH]; intros Hf; simpl; [lia|].
  pose proof (Hf e ltac:(set_solver)). specialize (IH ltac:(set_solver)). lia.
Qed.
Lemma stack_sum_app (f : FrameLimitEntry I → Z) l l' :
  stack_sum f (l ++ l') = stack_sum f l + stack_sum f l'.
Proof. induction l; simpl; lia. Qed.
Lemma stack_sum_reverse (f : FrameLimitEntry I → Z) l : stack_sum f (reverse l) = stack_sum f l.
Proof.
  induction l as [|e l IH]; [done|]. rewrite reverse_cons, stack_sum_app, IH. simpl. lia.
Qed.

Lemma entry_ok_used_nonneg e : entry_ok e → 0 ≤ used_of e.
Proof. unfold entry_ok, used_of. lia. Qed.
Lemma Forall_used_nonneg (l : list (FrameLimitEntry I)) :
  Forall entry_ok l → 0 ≤ stack_sum used_of l.
Proof.
  rewrite Forall_forall. intros Hl. apply stack_sum_nonneg.
  intros e He. by apply entry_ok_used_nonneg, Hl.
Qed.
Lemma Forall_refund_nonneg (l : list (FrameLimitEntry I)) :
  Forall entry_ok l → 0 ≤ stack_sum refund l.
Proof.
  rewrite Forall_forall. intros Hl. apply stack_sum_nonneg.
  intros e He. destruct (Hl e He) as (_&_&_&?&_). done.
Qed.

Lemma sum_entries_spec l tu tr :
  Forall entry_ok l → 0 ≤ tu → 0 ≤ tr →
  tu + stack_sum used_of l ≤ u64_max → tr + stack_sum refund l ≤ u64_max →
  FrameLimitTracker.sum_entries l tu tr =
    Ret (tu + stack_sum used_of l, tr + stack_sum refund l).
Proof.
  intros Hl. revert tu tr. induction Hl as [|e l He Hl IH]; intros tu tr Htu Htr Hu Hr; simpl.
  { by rewrite !Z.add_0_r. }
  simpl in Hu, Hr. pose proof (Forall_used_nonneg l Hl). pose proof (Forall_refund_nonneg l Hl).
  pose proof (entry_ok_used_nonneg e He). destruct He as (?&?&?&?&?&?) eqn:Heq.
  rewrite used_spec by done. simpl.
  rewrite add_u64_in by u64_lia. simpl. rewrite add_u64_in by u64_lia. simpl.
  rewrite IH by lia. do 2 f_equal; lia.
Qed.
End entry_lemmas.

Section tracker_lemmas.
Context {I : Type} `{Profile}.
Implicit Types (e : FrameLimitEntry I) (t : FrameLimitTracker I).

Lemma net_usage_spec t :
  tracker_ok t → FrameLimitTracker.net_usage t = Ret (Z.max 0 (total_net t)).
Proof.
  intros (Htx&Hst&Hu&Hr). unfold FrameLimitTracker.net_usage.
  rewrite used_spec by done. cbn [mbind outcome_bind].
  pose proof (entry_ok_used_nonneg _ Htx). destruct Htx as (?&?&?&?&?&?) eqn:Heq.
  rewrite sum_entries_spec; rewrite ?stack_sum_reverse; try done.
  rewrite Forall_forall in Hst |- *. intros e He. apply Hst. by apply elem_of_reverse.
Qed.

Lemma tracker_ok_new l : in_u64 l → tracker_ok (FrameLimitTracker.new l : FrameLimitTracker I).
Proof.
  intros Hl. split; [by apply entry_ok_new|]. split; [constructor|].
  unfold total_used, total_refund, used_of, u64_max. simpl. lia.
Qed.

Lemma exceeds_spec kind t :
  Forall entry_ok (frame_stack t) →
  FrameLimitTracker.exceeds_current_frame_limit kind t =
    Ret match frame_stack t with
        | e :: _ =>
            if decide (within e) then WithinLimit
            else ExceedsLimit kind (limit e) (used_of e) true
        | [] => WithinLimit
        end.
Proof.
  intros Hst. unfold FrameLimitTracker.exceeds_current_frame_limit.
  destruct (frame_stack t) as [|e rest]; [done|]. inversion_clear Hst.
  rewrite used_spec by done. simpl. unfold within, net_of, sat_sub.
  repeat case_decide; done || lia.
Qed.
End tracker_lemmas.

(** ** The abstract specification: who still owes which charge

    Every recorded charge is kept, per frame.  Returning from a frame hands its
    charges to the frame below, all of them on success and only the persistent
    ones on failure; usage is the balance of the charges that survived. *)
Inductive charge : Set :=
  | Persistent (n : Z)
  | Discardable (n : Z)
  | Refund (n : Z).

Definition charge_ok (c : charge) : Prop :=
  match c with Persistent n | Discardable n | Refund n => 0 ≤ n end.
Definition charge_size (c : charge) : Z :=
  match c with Persistent n | Discardable n | Refund n => n end.
Definition charge_net (c : charge) : Z :=
  match c with Persistent n | Discardable n => n | Refund n => - n end.
Definition charge_persists (c : charge) : bool :=
  match c with Persistent _ => true | _ => false end.

Definition charges_net (cs : list charge) : Z := foldr (λ c z, charge_net c + z) 0 cs.
Definition charges_size (cs : list charge) : Z := foldr (λ c z, charge_size c + z) 0 cs.
Definition charges_persistent (cs : list charge) : Z :=
  foldr (λ c z, match c with Persistent n => n | _ => 0 end + z) 0 cs.
Definition charges_discardable (cs : list charge) : Z :=
  foldr (λ c z, match c with Discardable n => n | _ => 0 end + z) 0 cs.
Definition charges_refund (cs : list charge) : Z :=
  foldr (λ c z, match c with Refund n => n | _ => 0 end + z) 0 cs.

Inductive tracker_op (I : Type) :=
  | TPush (i : I)
  | TPushLimit (l : Z) (i : I)
  | TPop (success : bool)
  | TCharge (c : charge)
  | TTxCharge (c : charge).
Arguments TPush {I}.
Arguments TPushLimit {I}.
Arguments TPop {I}.
Arguments TCharge {I}.
Arguments TTxCharge {I}.

(** The ledger: the charges of the transaction and of each frame, innermost first. *)
Record ledger := mkLedger { ledger_tx : list charge; ledger_frames : list (list charge) }.

Definition survivors (success : bool) (cs : list charge) : list charge :=
  if success then cs else List.filter charge_persists cs.

Definition ledger_step {I} (op : tracker_op I) (s : ledger) : ledger :=
  match op, ledger_frames s with
  | TPush _, fs | TPushLimit _ _, fs => mkLedger (ledger_tx s) ([] :: fs)
  | TPop _, [] => s
  | TPop ok, [f] => mkLedger (survivors ok f ++ ledger_tx s) []
  | TPop ok, f :: g :: fs => mkLedger (ledger_tx s) ((survivors ok f ++ g) :: fs)
  | TCharge c, [] => s
  | TCharge c, f :: fs => mkLedger (ledger_tx s) ((c :: f) :: fs)
  | TTxCharge c, fs => mkLedger (c :: ledger_tx s) fs
  end.

Section tracker_run.
Context {I : Type} `{Profile}.

Definition record_charge {J : Type} (c : charge) (e : FrameLimitEntry J) :
    outcome (FrameLimitEntry J) :=
  match c with
  | Persistent n => FrameLimitEntry.add_persistent n e
  | Discardable n => FrameLimitEntry.add_discardable n e
  | Refund n => FrameLimitEntry.add_refund n e
  end.

Definition tracker_step (op : tracker_op I) (t : FrameLimitTracker I) :
    outcome (FrameLimitTracker I) :=
  match op with
  | TPush i => FrameLimitTracker.push_frame i t
  | TPushLimit l i => Ret (FrameLimitTracker.push_frame_with_limit l i t)
  | TPop ok => r ← FrameLimitTracker.pop_frame ok t; Ret (fst r)
  | TCharge c => FrameLimitTracker.frame_mut (record_charge c) t
  | TTxCharge c => FrameLimitTracker.tx_mut (record_charge c) t
  end.

Fixpoint tracker_run (ops : list (tracker_op I)) (t : FrameLimitTracker I) :
    outcome (FrameLimitTracker I) :=
  match ops with
  | [] => Ret t
  | op :: ops => t ← tracker_step op t; tracker_run ops t
  end.

Definition op_ok (op : tracker_op I) : Prop :=
  match op with
  | TPushLimit l _ => in_u64 l
  | TCharge c | TTxCharge c => charge_ok c
  | _ => True
  end.
Definition op_size (op : tracker_op I) : Z :=
  match op with TCharge c | TTxCharge c => charge_size c | _ => 0 end.
Definition ops_size (ops : list (tracker_op I)) : Z :=
  foldr (λ op z, op_size op + z) 0 ops.

(** An entry holds the sums of the charges of its frame. *)
Definition entry_holds {J : Type} (e : FrameLimitEntry J) (cs : list charge) : Prop :=
  persistent_usage e = charges_persistent cs ∧
  discardable_usage e = charges_discardable cs ∧
  refund e = charges_refund cs ∧ in_u64 (limit e) ∧ Forall charge_ok cs.

Definition tracker_holds (t : FrameLimitTracker I) (s : ledger) : Prop :=
  entry_holds (tx_entry t) (ledger_tx s) ∧
  Forall2 entry_holds (frame_stack t) (ledger_frames s).

Definition ledger_net (s : ledger) : Z :=
  charges_net (ledger_tx s) + foldr (λ cs z, charges_net cs + z) 0 (ledger_frames s).
Definition ledger_size (s : ledger) : Z :=
  charges_size (ledger_tx s) + foldr (λ cs z, charges_size cs + z) 0 (ledger_frames s).
End tracker_run.

Section ledger_lemmas.
Implicit Types cs : list charge.

Lemma charges_size_split cs :
  charges_size cs = charges_persistent cs + charges_discardable cs + charges_refund cs.
Proof. induction cs as [|[] cs IH]; simpl; lia. Qed.
Lemma charges_net_split cs :
  charges_net cs = charges_persistent cs + charges_discardable cs - charges_refund cs.
Proof. induction cs as [|[] cs IH]; simpl; lia. Qed.
Lemma charges_nonneg cs :
  Forall charge_ok cs →
  0 ≤ charges_persistent cs ∧ 0 ≤ charges_discardable cs ∧ 0 ≤ charges_refund cs.
Proof. induction 1 as [|[] cs Hc _ IH]; simpl in *; lia. Qed.

Lemma charges_persistent_app cs cs' :
  charges_persistent (cs ++ cs') = charges_persistent cs + charges_persistent cs'.
Proof. induction cs as [|[] cs IH]; simpl; lia. Qed.
Lemma charges_discardable_app cs cs' :
  charges_discardable (cs ++ cs') = charges_discardable cs + charges_discardable cs'.
Proof. induction cs as [|[] cs IH]; simpl; lia. Qed.
Lemma charges_refund_app cs cs' :
  charges_refund (cs ++ cs') = charges_refund cs + charges_refund cs'.
Proof. induction cs as [|[] cs IH]; simpl; lia. Qed.

Lemma survivors_failure cs :
  charges_persistent (survivors false cs) = charges_persistent cs ∧
  charges_discardable (survivors false cs) = 0 ∧ charges_refund (survivors false cs) = 0.
Proof. induction cs as [|[] cs IH]; simpl in *; lia. Qed.
Lemma survivors_ok ok cs : Forall charge_ok cs → Forall charge_ok (survivors ok cs).
Proof.
  destruct ok; [done|]. simpl. rewrite !Forall_forall. intros Hcs c Hc.
  apply Hcs. apply list_elem_of_In in Hc. apply list_elem_of_In.
  by apply filter_In in Hc as [? _].
Qed.
Lemma survivors_size ok cs :
  Forall charge_ok cs → charges_size (survivors ok cs) ≤ charges_size cs.
Proof.
  intros Hcs. destruct ok; [done|].
  pose proof (survivors_failure cs). pose proof (charges_nonneg cs Hcs).
  rewrite !charges_size_split. lia.
Qed.
Lemma charges_size_app cs cs' : charges_size (cs ++ cs') = charges_size cs + charges_size cs'.
Proof. induction cs as [|[] cs IH]; simpl; lia. Qed.
Lemma charges_size_nonneg cs : Forall charge_ok cs → 0 ≤ charges_size cs.
Proof. intros Hcs. pose proof (charges_nonneg cs Hcs). rewrite charges_size_split. lia. Qed.
End ledger_lemmas.

Section refinement.
Context {I : Type} `{Profile}.
Implicit Types (t : FrameLimitTracker I) (s : ledger).

Lemma entry_holds_ok {J : Type} (e : FrameLimitEntry J) cs :
  entry_holds e cs → charges_size cs ≤ u64_max → entry_ok e.
Proof.
  intros (Hp&Hd&Hr&Hl&Hcs) Hsz. pose proof (charges_nonneg cs Hcs).
  rewrite charges_size_split in Hsz. unfold entry_ok, used_of. rewrite Hp, Hd, Hr. u64_lia.
Qed.

(** Recording one charge. *)
Lemma record_charge_holds {J : Type} c (e : FrameLimitEntry J) cs :
  entry_holds e cs → charge_ok c → charges_size cs + charge_size c ≤ u64_max →
  ∃ e', record_charge c e = Ret e' ∧ entry_holds e' (c :: cs) ∧ limit e' = limit e.
Proof.
  intros (Hp&Hd&Hr&Hl&Hcs) Hc Hsz. pose proof (charges_nonneg cs Hcs).
  rewrite charges_size_split in Hsz. unfold entry_holds.
  destruct c as [n|n|n]; simpl in *;
    [rewrite add_persistent_spec by (rewrite Hp; u64_lia)
    |rewrite add_discardable_spec by (rewrite Hd; u64_lia)
    |rewrite add_refund_spec by (rewrite Hr; u64_lia)];
    (eexists; split; [done|]; simpl; rewrite Hp, Hd, Hr;
     split_and!; try done; try lia; by constructor).
Qed.

(** Merging a popped child into the entry below it. *)
Lemma merge_into_holds {J : Type} ok (child : FrameLimitEntry I) (parent : FrameLimitEntry J) f g :
  entry_holds child f → entry_holds parent g → charges_size f + charges_size g ≤ u64_max →
  ∃ e', FrameLimitTracker.merge_into ok child parent = Ret e' ∧
    entry_holds e' (survivors ok f ++ g) ∧ limit e' = limit parent.
Proof.
  intros (Hp&Hd&Hr&Hl&Hf) (Hp'&Hd'&Hr'&Hl'&Hg) Hsz.
  pose proof (charges_nonneg f Hf). pose proof (charges_nonneg g Hg).
  rewrite !charges_size_split in Hsz. unfold FrameLimitTracker.merge_into.
  rewrite add_persistent_spec by (rewrite Hp, Hp'; u64_lia). cbn [mbind outcome_bind].
  unfold entry_holds. rewrite charges_persistent_app, charges_discardable_app, charges_refund_app.
  assert (Forall charge_ok (survivors ok f ++ g)).
  { apply Forall_app. split; [by apply survivors_ok|done]. }
  destruct ok.
  - rewrite add_discardable_spec by (simpl; rewrite Hd, Hd'; u64_lia). cbn [mbind outcome_bind].
    rewrite add_refund_spec by (simpl; rewrite Hr, Hr'; u64_lia).
    eexists. split; [done|]. simpl. rewrite Hp, Hd, Hr, Hp', Hd', Hr'.
    split_and!; done || lia.
  - destruct (survivors_failure f) as (->&->&->).
    eexists. split; [done|]. simpl. rewrite Hp, Hp', Hd', Hr'. split_and!; done || lia.
Qed.

Lemma ledger_frames_nonneg (t : FrameLimitTracker I) s :
  tracker_holds t s →
  0 ≤ charges_size (ledger_tx s) ∧
  0 ≤ foldr (λ cs z, charges_size cs + z) 0 (ledger_frames s).
Proof.
  intros [(_&_&_&_&Htx) Hst]. split; [by apply charges_size_nonneg|].
  induction Hst as [|e cs es css (_&_&_&_&Hcs) _ IH]; simpl; [lia|].
  pose proof (charges_size_nonneg cs Hcs). lia.
Qed.

Lemma tracker_holds_ok t s :
  tracker_holds t s → ledger_size s ≤ u64_max →
  tracker_ok t ∧ total_net t = ledger_net s.
Proof.
  intros Hh Hsz. pose proof (ledger_frames_nonneg t s Hh) as [Htx0 Hfr0].
  destruct Hh as [Htx Hst]. unfold ledger_size in Hsz.
  assert (Forall entry_ok (frame_stack t) ∧
    stack_sum used_of (frame_stack t) + stack_sum refund (frame_stack t) =
      foldr (λ cs z, charges_size cs + z) 0 (ledger_frames s) ∧
    stack_sum used_of (frame_stack t) - stack_sum refund (frame_stack t) =
      foldr (λ cs z, charges_net cs + z) 0 (ledger_frames s)) as (Hok&Hsum&Hnet).
  { assert (foldr (λ cs z, charges_size cs + z) 0 (ledger_frames s) ≤ u64_max) as Hfr by lia.
    clear Hsz Hfr0.
    induction Hst as [|e cs es css He Hst IH]; simpl in *; [done|].
    pose proof (charges_size_nonneg cs ltac:(apply He)).
    assert (0 ≤ foldr (λ cs z, charges_size cs + z) 0 css).
    { apply (ledger_frames_nonneg (mkTracker (tx_entry t) es) (mkLedger (ledger_tx s) css)).
      by split. }
    destruct IH as (IH1&IH2&IH3); [lia|].
    split_and!; [constructor; [eapply entry_holds_ok; [done|lia]|done]| |];
      destruct He as (Hp&Hd&Hr&_);
      assert (used_of e = charges_persistent cs + charges_discardable cs) as ->
        by (unfold used_of; congruence); rewrite Hr;
      rewrite ?charges_size_split, ?charges_net_split; lia. }
  pose proof (Forall_used_nonneg _ Hok). pose proof (Forall_refund_nonneg _ Hok).
  assert (entry_ok (tx_entry t)) as Htxok by (eapply entry_holds_ok; [done|lia]).
  unfold tracker_ok, total_net, total_used, total_refund, ledger_net.
  pose proof (charges_size_split (ledger_tx s)). pose proof (charges_net_split (ledger_tx s)).
  pose proof (charges_nonneg (ledger_tx s) ltac:(apply Htx)).
  destruct Htx as (Hp&Hd&Hr&_). unfold used_of in *. rewrite Hp, Hd, Hr in *.
  split_and!; try done; lia.
Qed.
End refinement.

Section refinement_run.
Context {I : Type} `{Profile}.
Implicit Types (t : FrameLimitTracker I) (s : ledger).

Lemma entry_holds_new {J : Type} l (i : J) : in_u64 l → entry_holds (FrameLimitEntry.new l i) [].
Proof. intros Hl. unfold entry_holds. simpl. split_and!; done || constructor. Qed.

Lemma max_forward_limit_spec t :
  tracker_ok t →
  FrameLimitTracker.max_forward_limit t =
    Ret match frame_stack t with
        | e :: _ => remaining_of e * 98 / 100
        | [] => limit (tx_entry t)
        end.
Proof.
  intros (_&Hst&_). unfold FrameLimitTracker.max_forward_limit.
  destruct (frame_stack t) as [|e rest]; [done|]. inversion_clear Hst as [|? ? He].
  rewrite remaining_spec by done. simpl. f_equal. apply as_u64_in.
  pose proof (remaining_of_bounds e He). destruct He as (Hl&_).
  unfold in_u64 in *. Z.to_euclidean_division_equations. lia.
Qed.

Lemma max_forward_limit_in t l :
  tracker_ok t → FrameLimitTracker.max_forward_limit t = Ret l → in_u64 l.
Proof.
  intros Hok. rewrite max_forward_limit_spec by done. intros [= <-].
  destruct Hok as ((Htx&_)&Hst&_). destruct (frame_stack t) as [|e rest]; [done|].
  inversion_clear Hst as [|? ? He]. pose proof (remaining_of_bounds e He).
  destruct He as (Hl&_). unfold in_u64 in *. Z.to_euclidean_division_equations. lia.
Qed.

Lemma tracker_step_refines op t s :
  tracker_holds t s → op_ok op → ledger_size s + op_size op ≤ u64_max →
  ∃ t', tracker_step op t = Ret t' ∧ tracker_holds t' (ledger_step op s) ∧
    ledger_size (ledger_step op s) ≤ ledger_size s + op_size op.
Proof.
  intros Hh Hop Hsz.
  pose proof (ledger_frames_nonneg t s Hh) as [Htx0 Hfr0].
  assert (tracker_ok t) as Hok.
  { apply (tracker_holds_ok t s Hh). destruct op; simpl in *; try lia;
      destruct c; simpl in *; lia. }
  destruct t as [tx st], s as [ltx lfr], Hh as [Htx Hst]. unfold ledger_size in *. simpl in *.
  unfold tracker_step, FrameLimitTracker.pop_frame, FrameLimitTracker.frame_mut,
    FrameLimitTracker.tx_mut, FrameLimitTracker.push_frame.
  destruct op as [i|l i|ok|c|c]; simpl in *.
  - destruct (FrameLimitTracker.max_forward_limit (mkTracker tx st)) as [l|] eqn:Hl.
    2: { by rewrite max_forward_limit_spec in Hl. }
    simpl. eexists. split; [done|].
    split; [|lia]. split; [done|]. simpl. constructor; [|done].
    apply entry_holds_new. by eapply max_forward_limit_in.
  - eexists. split; [done|]. split; [|lia]. split; [done|]. simpl.
    constructor; [|done]. by apply entry_holds_new.
  - inversion Hst as [|e f st' fs He Hst' Heq1 Heq2]; simplify_eq; simpl.
    { eexists. split; [done|]. split; [by split|]. simpl. lia. }
    pose proof (survivors_size ok f ltac:(apply He)).
    inversion Hst' as [|e' g st'' fs' He' Hst'' Heq1 Heq2]; simplify_eq; simpl in *.
    + destruct (merge_into_holds ok e tx f ltx He Htx ltac:(lia)) as (tx'&->&Htx'&_).
      eexists. split; [done|]. simpl. split; [by split|].
      rewrite charges_size_app. lia.
    + assert (0 ≤ foldr (λ cs z, charges_size cs + z) 0 fs').
      { apply (ledger_frames_nonneg (mkTracker tx st'') (mkLedger ltx fs')). by split. }
      destruct (merge_into_holds ok e e' f g He He' ltac:(lia)) as (e''&->&He''&_).
      eexists. split; [done|]. simpl. split; [by split; [|constructor]|].
      rewrite charges_size_app. lia.
  - inversion Hst as [|e f st' fs He Hst' Heq1 Heq2]; simplify_eq; simpl in *.
    { eexists. split; [done|]. split; [by split|]. destruct c; simpl in *; lia. }
    assert (0 ≤ foldr (λ cs z, charges_size cs + z) 0 fs).
    { apply (ledger_frames_nonneg (mkTracker tx st') (mkLedger ltx fs)). by split. }
    destruct (record_charge_holds c e f He Hop ltac:(lia)) as (e'&->&He'&_).
    eexists. split; [done|]. simpl. split; [by split; [|constructor]|]. lia.
  - destruct (record_charge_holds c tx ltx Htx Hop ltac:(lia)) as (tx'&->&Htx'&_).
    eexists. split; [done|]. simpl. split; [by split|]. lia.
Qed.

Lemma op_size_nonneg (op : tracker_op I) : op_ok op → 0 ≤ op_size op.
Proof. destruct op as [| | |[]|[]]; simpl; lia. Qed.
Lemma ops_size_nonneg (ops : list (tracker_op I)) : Forall op_ok ops → 0 ≤ ops_size ops.
Proof. induction 1 as [|op ops Hop _ IH]; simpl; [lia|]. pose proof (op_size_nonneg op Hop). lia. Qed.

Lemma tracker_run_refines ops t s :
  tracker_holds t s → Forall op_ok ops → ledger_size s + ops_size ops ≤ u64_max →
  ∃ t', tracker_run ops t = Ret t' ∧
    tracker_holds t' (foldl (λ s op, ledger_step op s) s ops) ∧
    ledger_size (foldl (λ s op, ledger_step op s) s ops) ≤ u64_max.
Proof.
  intros Hh Hops. revert t s Hh. induction Hops as [|op ops Hop Hops IH]; intros t s Hh Hsz; simpl in *.
  { exists t. repeat split; try apply Hh. lia. }
  pose proof (ops_size_nonneg ops Hops).
  destruct (tracker_step_refines op t s Hh Hop ltac:(lia)) as (t1&->&Hh1&Hsz1).
  apply (IH t1 (ledger_step op s)); [done|]. lia.
Qed.

Lemma new_holds l : in_u64 l → tracker_holds (FrameLimitTracker.new l : FrameLimitTracker I) (mkLedger [] []).
Proof. intros Hl. split; [by apply (entry_holds_new l tt)|constructor]. Qed.
End refinement_run.

(** ** The chain of frame budgets *)
Section budget.
Context {I : Type} `{Profile}.
Implicit Types (t : FrameLimitTracker I) (e : FrameLimitEntry I) (l : list (FrameLimitEntry I)).

(** Every frame's limit is 98% of what the frame below it had left when the
    call started, and has left now; the outermost frame has the whole limit. *)
Fixpoint budget_chain (tx_limit : Z) l : Prop :=
  match l with
  | [] => True
  | e :: rest =>
      limit e = match rest with
                | parent :: _ => remaining_of parent * 98 / 100
                | [] => tx_limit
                end ∧ budget_chain tx_limit rest
  end.

Definition clamped_net e : Z := Z.max 0 (net_of e).

(** With every frame inside its budget, a child's budget plus the usage of all
    the frames below it stays inside the transaction limit. *)
Lemma chain_sum tx_limit l :
  0 ≤ tx_limit → budget_chain tx_limit l → Forall within l →
  match l with
  | [] => True
  | e :: _ => stack_sum clamped_net l + remaining_of e ≤ tx_limit
  end.
Proof.
  intros Htx. induction l as [|e rest IH]; [done|]. intros [He Hrest] Hw.
  inversion_clear Hw as [|? ? Hwe Hwrest]. simpl.
  unfold within in Hwe. unfold clamped_net at 1, remaining_of at 1.
  destruct rest as [|p rest].
  - simpl. lia.
  - specialize (IH Hrest Hwrest).
    assert (0 ≤ remaining_of p) by (unfold remaining_of; lia).
    Z.to_euclidean_division_equations. lia.
Qed.

Lemma chain_geometric tx_limit l e rest :
  0 ≤ tx_limit → budget_chain tx_limit l → Forall entry_ok l → l = e :: rest →
  limit e * 100 ^ Z.of_nat (length rest) ≤ tx_limit * 98 ^ Z.of_nat (length rest).
Proof.
  intros Htx. revert e rest. induction l as [|e' l IH]; intros e rest Hc Hok [= <- <-].
  destruct Hc as [He Hc]. inversion_clear Hok as [|? ? Hoke Hokl].
  destruct l as [|p l]; [simpl in *; lia|].
  specialize (IH p l Hc Hokl eq_refl).
  inversion_clear Hokl as [|? ? Hokp _]. pose proof (remaining_of_bounds p Hokp).
  cbn [length]. rewrite Nat2Z.inj_succ, !Z.pow_succ_r by lia.
  assert (limit e' * 100 ≤ limit p * 98) by (Z.to_euclidean_division_equations; lia).
  assert (0 < 100 ^ Z.of_nat (length l)) by (apply Z.pow_pos_nonneg; lia).
  nia.
Qed.
End budget.

Section budget_run.
Context {I : Type} `{Profile}.
Implicit Types (t : FrameLimitTracker I).

(** The pushes of Rex4: no frame is given a limit by hand. *)
Definition derived_push (op : tracker_op I) : Prop :=
  match op with TPushLimit _ _ => False | _ => True end.

Definition chain_inv l t : Prop :=
  limit (tx_entry t) = l ∧ budget_chain l (frame_stack t).

Lemma record_charge_limit {J : Type} c (e e' : FrameLimitEntry J) :
  record_charge c e = Ret e' → limit e' = limit e.
Proof. destruct c; simpl; intros Hc; unfold FrameLimitEntry.add_persistent,
  FrameLimitEntry.add_discardable, FrameLimitEntry.add_refund in Hc; by outcome_inv. Qed.

Lemma merge_into_limit {J : Type} ok (child : FrameLimitEntry I) (parent e' : FrameLimitEntry J) :
  FrameLimitTracker.merge_into ok child parent = Ret e' → limit e' = limit parent.
Proof.
  unfold FrameLimitTracker.merge_into. intros Hm. outcome_inv.
  match goal with Hp : FrameLimitEntry.add_persistent ?n _ = Ret _ |- _ =>
    apply (record_charge_limit (Persistent n)) in Hp end.
  destruct ok; outcome_inv; [|done].
  match goal with
  | Hd : FrameLimitEntry.add_discardable ?n _ = Ret _,
    Hr : FrameLimitEntry.add_refund ?m _ = Ret _ |- _ =>
    apply (record_charge_limit (Discardable n)) in Hd;
    apply (record_charge_limit (Refund m)) in Hr end.
  congruence.
Qed.

Lemma chain_step op t t' l :
  tracker_ok t → derived_push op → chain_inv l t → tracker_step op t = Ret t' → chain_inv l t'.
Proof.
  intros Hok Hd [Hl Hc] Hstep. destruct t as [tx st]. simpl in *.
  destruct op as [i|?|ok|c|c]; [|done| | |]; simpl in Hstep.
  - unfold FrameLimitTracker.push_frame in Hstep.
    rewrite (max_forward_limit_spec _ Hok) in Hstep. outcome_inv.
    split; [done|]. simpl. split; [|done]. by destruct st.
  - unfold FrameLimitTracker.pop_frame in Hstep.
    destruct st as [|e [|p rest]]; simpl in Hstep; outcome_inv; [done| |];
      match goal with Hm : FrameLimitTracker.merge_into _ _ _ = Ret _ |- _ =>
        apply merge_into_limit in Hm as Hlim end; split; simpl; [congruence|done|done|].
    destruct Hc as (_&Hp&Hrest). split; [congruence|done].
  - unfold FrameLimitTracker.frame_mut in Hstep. destruct st as [|e rest]; simpl in *; outcome_inv; [done|].
    match goal with Hm : record_charge _ _ = Ret _ |- _ =>
      apply record_charge_limit in Hm as Hlim end.
    split; [done|]. simpl. destruct Hc as [He Hrest]. split; [congruence|done].
  - unfold FrameLimitTracker.tx_mut in Hstep. outcome_inv.
    match goal with Hm : record_charge _ _ = Ret _ |- _ =>
      apply record_charge_limit in Hm as Hlim end.
    split; simpl; [congruence|done].
Qed.

Lemma chain_run ops t s t' l :
  tracker_holds t s → Forall op_ok ops → ledger_size s + ops_size ops ≤ u64_max →
  Forall derived_push ops → chain_inv l t → tracker_run ops t = Ret t' → chain_inv l t'.
Proof.
  intros Hh Hops. revert t s Hh.
  induction Hops as [|op ops Hop Hops IH]; intros t s Hh Hsz Hd Hc Hrun; simpl in *.
  { by outcome_inv. }
  inversion_clear Hd as [|? ? Hd1 Hd2]. pose proof (ops_size_nonneg ops Hops).
  pose proof (op_size_nonneg op Hop).
  destruct (tracker_step_refines op t s Hh Hop ltac:(lia)) as (t1&Hst&Hh1&Hsz1).
  rewrite Hst in Hrun. simpl in Hrun.
  destruct (tracker_holds_ok t s Hh ltac:(lia)) as [Hok _].
  eapply (IH t1); [done|lia|done| |done]. by eapply chain_step.
Qed.

Lemma stack_sum_net_le (st : list (FrameLimitEntry I)) :
  stack_sum used_of st - stack_sum refund st ≤ stack_sum clamped_net st.
Proof. induction st as [|e st IH]; simpl; [lia|]. unfold clamped_net, net_of in *. lia. Qed.
End budget_run.

(** ** Properties *)

(** C3: Whatever the sequence of frame pushes, frame returns and charges, as long
    as the charges together fit in a [u64] no counter overflows and nothing
    panics in any build, and [net_usage] is the balance of exactly the charges
    that survived: a frame that failed takes its discardable charges and its
    refunds with it and leaves its persistent charges to its caller. *)
Theorem tracker_refines_ledger {I : Type} `{Profile} l (ops : list (tracker_op I)) :
  in_u64 l → Forall op_ok ops → ops_size ops ≤ u64_max →
  let s := foldl (λ s op, ledger_step op s) (mkLedger [] []) ops in
  ∃ t, tracker_run ops (FrameLimitTracker.new l) = Ret t ∧
    FrameLimitTracker.net_usage t = Ret (Z.max 0 (ledger_net s)) ∧
    length (frame_stack t) = length (ledger_frames s).
Proof.
  intros Hl Hops Hsz s.
  destruct (tracker_run_refines ops _ _ (new_holds l Hl) Hops) as (t&Hrun&Hh&Hs); [done|].
  destruct (tracker_holds_ok t s Hh Hs) as [Hok Hnet].
  exists t. split; [done|]. rewrite net_usage_spec, Hnet by done.
  split; [done|]. apply (Forall2_length _ _ _ (proj2 Hh)).
Qed.

Lemma tracker_refines_ledger_witness :
  let ops := [TTxCharge (Persistent 5); TPush tt; TCharge (Discardable 40); TPush tt;
              TCharge (Persistent 3); TCharge (Discardable 7); TCharge (Refund 2);
              TPop false; TCharge (Refund 10); TPop true] in
  Forall op_ok ops ∧
  ∃ t, @tracker_run unit checked_build ops (FrameLimitTracker.new 100) = Ret t ∧
    @FrameLimitTracker.net_usage unit checked_build t = Ret 38 ∧ length (frame_stack t) = 0%nat.
Proof.
  intros ops. split; [repeat constructor; simpl; lia|].
  apply (@tracker_refines_ledger unit checked_build 100 ops).
  - u64_lia.
  - repeat constructor; simpl; lia.
  - vm_compute. discriminate.
Defined.

(** C10: With Rex4 budgets every frame's limit is, at all times, 98% of what its
    caller has left, the outermost frame's limit is the transaction's, the frame
    at depth [k] never gets more than [limit * (98/100)^k], and while every frame
    is inside its own budget all frames together stay inside the transaction
    limit, so that net usage exceeds it at most by what was charged outside of
    any frame. *)
Theorem rex4_budget_chain {I : Type} `{Profile} l (ops : list (tracker_op I)) t :
  in_u64 l → Forall op_ok ops → ops_size ops ≤ u64_max → Forall derived_push ops →
  tracker_run ops (FrameLimitTracker.new l) = Ret t →
  budget_chain l (frame_stack t) ∧
  (∀ above e below, frame_stack t = above ++ e :: below →
     limit e * 100 ^ Z.of_nat (length below) ≤ l * 98 ^ Z.of_nat (length below)) ∧
  (Forall within (frame_stack t) →
     stack_sum clamped_net (frame_stack t) ≤ l ∧
     total_net t ≤ l + clamped_net (tx_entry t)).
Proof.
  intros Hl Hops Hsz Hd Hrun.
  pose proof (new_holds (I:=I) l Hl) as Hnew.
  destruct (tracker_run_refines ops _ _ Hnew Hops) as (t'&Hrun'&Hh&Hs); [done|].
  rewrite Hrun in Hrun'. injection Hrun' as <-.
  destruct (tracker_holds_ok t _ Hh Hs) as [Hok Hnet].
  assert (chain_inv l t) as [Htx Hc].
  { by eapply (chain_run ops _ _ _ l Hnew). }
  split; [done|]. split.
  - intros above e below Heq. rewrite Heq in Hc. destruct Hok as (_&Hst&_). rewrite Heq in Hst.
    apply Forall_app in Hst as [_ Hst].
    apply (chain_geometric l (e :: below)); [apply Hl| |done|done].
    clear -Hc. induction above as [|a above IH]; [done|]. apply IH, Hc.
  - intros Hw. pose proof (chain_sum l (frame_stack t) ltac:(apply Hl) Hc Hw) as Hsum.
    pose proof (stack_sum_net_le (frame_stack t)).
    assert (stack_sum clamped_net (frame_stack t) ≤ l) as Hle.
    { destruct (frame_stack t) as [|e st]; [simpl; apply Hl|].
      unfold remaining_of in Hsum. lia. }
    split; [done|]. unfold total_net, total_used, total_refund, clamped_net, net_of in *. lia.
Qed.

Lemma rex4_budget_chain_witness :
  let ops := [TPush tt; TCharge (Discardable 40); TPush tt; TCharge (Discardable 7); TPush tt] in
  ∃ t, @tracker_run unit checked_build ops (FrameLimitTracker.new 100) = Ret t ∧
    map limit (frame_stack t) = [49; 58; 100] ∧
    budget_chain 100 (frame_stack t).
Proof.
  intros ops. eexists. split; [vm_compute; reflexivity|]. split; [reflexivity|].
  apply (@rex4_budget_chain unit checked_build 100 ops).
  - u64_lia.
  - repeat constructor; simpl; lia.
  - vm_compute. discriminate.
  - repeat constructor.
  - reflexivity.
Defined.

(** A child that returns inside its Rex4 budget never pushes its caller over
    the caller's own budget, when it succeeded or when its refunds do not exceed
    its discardable usage. *)
Theorem returning_child_keeps_parent_within {I : Type} `{Profile} l ok
    (t t' : FrameLimitTracker I) child parent rest :
  tracker_ok t → frame_stack t = child :: parent :: rest → budget_chain l (frame_stack t) →
  within child → within parent → ok = true ∨ refund child ≤ discardable_usage child →
  FrameLimitTracker.pop_frame ok t = Ret (t', Some child) →
  ∃ parent', frame_stack t' = parent' :: rest ∧ within parent' ∧ limit parent' = limit parent.
Proof.
  intros Hok Hst Hc Hwc Hwp Hside Hpop. rewrite Hst in Hc. destruct Hc as [Hlim _].
  assert (entry_ok child ∧ entry_ok parent) as [Hokc Hokp].
  { destruct Hok as (_&Hall&_). rewrite Hst in Hall. inversion_clear Hall as [|? ? ? Hall'].
    by inversion_clear Hall'. }
  unfold FrameLimitTracker.pop_frame in Hpop. rewrite Hst in Hpop. outcome_inv.
  match goal with Hm : FrameLimitTracker.merge_into _ _ _ = Ret ?p |- _ =>
    rename Hm into Hmerge; exists p end.
  split; [done|]. split; [|by eapply merge_into_limit].
  destruct Hok as (Htx&Hall&Hu&Hr). unfold total_used, total_refund in Hu, Hr. rewrite Hst in *.
  simpl in Hu, Hr. inversion_clear Hall as [|? ? _ Hall1]. inversion_clear Hall1 as [|? ? _ Hall2].
  pose proof (Forall_used_nonneg rest Hall2). pose proof (Forall_refund_nonneg rest Hall2).
  pose proof (entry_ok_used_nonneg _ Htx).
  destruct Htx as (_&_&_&?&_), Hokc as (?&?&?&?&?&?), Hokp as (?&?&?&?&?&?).
  unfold FrameLimitTracker.merge_into in Hmerge. unfold within, remaining_of, net_of, used_of in *.
  rewrite add_persistent_spec in Hmerge by u64_lia. cbn [mbind outcome_bind] in Hmerge.
  destruct ok.
  - rewrite add_discardable_spec in Hmerge by (simpl; u64_lia). cbn [mbind outcome_bind] in Hmerge.
    rewrite add_refund_spec in Hmerge by (simpl; u64_lia). simplify_eq. simpl.
    Z.to_euclidean_division_equations. lia.
  - destruct Hside as [|Hside]; [done|]. simplify_eq. simpl.
    Z.to_euclidean_division_equations. lia.
Qed.

Lemma returning_child_keeps_parent_within_witness :
  let child := mkEntry 58 0 50 10 tt in
  let parent := mkEntry 100 0 40 0 tt in
  ∃ t', @FrameLimitTracker.pop_frame unit checked_build true
      (mkTracker (mkEntry 100 0 0 0 tt) [child; parent]) = Ret (t', Some child) ∧
    ∃ parent', frame_stack t' = [parent'] ∧ within parent' ∧ limit parent' = limit parent.
Proof.
  intros child parent. eexists. split; [reflexivity|].
  apply (@returning_child_keeps_parent_within unit checked_build 100 true
    (mkTracker (mkEntry 100 0 0 0 tt) [child; parent]) _ child parent []).
  - unfold tracker_ok, entry_ok, total_used, total_refund, used_of, in_u64, u64_max. simpl.
    repeat constructor; simpl; lia.
  - done.
  - done.
  - vm_compute. discriminate.
  - vm_compute. discriminate.
  - by left.
  - reflexivity.
Defined.
