(* ===== verification/Trackers.v ===== *)
(** * The four resource trackers

    Models [limit/compute_gas.rs], [limit/data_size.rs], [limit/kv_update.rs] and
    [limit/state_growth.rs].  The trait [TxRuntimeLimit] of [limit/frame_limit.rs]
    is the class of the same name; every tracker is an instance of it, and
    [AdditionalLimit] is written against it. *)
From S2P Require Import Prelude Spec Deps Volatile LimitTypes FrameLimit.
Open Scope Z_scope.

(** ** Interfaces *)

(** [JournalInspectTr], as far as the trackers use it. *)
Class JournalInspectTr (J E Account : Type) := {
  inspect_account_delegated : MegaSpecId → Address → J → J * result Account E;
}.

(** The hooks of [TxRuntimeLimit].  [before_frame_init] returns the tracker and
    the journal also when it fails: what it changed before the error stays. *)
Class TxRuntimeLimit (T J E Gas : Type) := {
  trl_tx_limit : T → Z;
  trl_tx_usage : T → outcome Z;
  trl_reset : T → T;
  trl_check_limit : T → outcome LimitCheck;
  trl_before_tx_start : MegaTransaction → T → outcome T;
  trl_push_empty_frame : T → outcome T;
  trl_before_frame_init : FrameInit → J → T → outcome (T * J * result unit E);
  trl_after_frame_init_on_frame : EthFrame Gas → T → outcome T;
  trl_before_frame_run : EthFrame Gas → T → outcome T;
  trl_after_frame_run : EthFrame Gas → InterpreterAction Gas → T → outcome T;
  trl_before_frame_return_result : bool → FrameResult Gas → T → outcome T;
  trl_after_sstore : SStoreResult → T → outcome T;
  trl_after_log : Z → Z → T → outcome T;
}.

(** The verdict all TX-level checks share. *)
Definition tx_level_check (kind : LimitKind) (limit used : Z) : LimitCheck :=
  if decide (limit < used) then ExceedsLimit kind limit used false else WithinLimit.

(** Popping at a frame return: [assert!(LAST_FRAME || has_active_frame())]. *)
Definition pop_on_return {I Gas} `{Profile} `{InstructionResultApi} (LAST_FRAME : bool)
    (result : FrameResult Gas) (ft : FrameLimitTracker I) : outcome (FrameLimitTracker I) :=
  assert_true (LAST_FRAME || FrameLimitTracker.has_active_frame ft);;
  r ← FrameLimitTracker.pop_frame (ir_is_ok (instruction_result result)) ft;
  Ret (fst r).

Lemma pop_on_return_tx_limit {I Gas} `{Profile} `{InstructionResultApi} last
    (result : FrameResult Gas) (t t' : FrameLimitTracker I) :
  pop_on_return last result t = Ret t' →
  FrameLimitTracker.tx_limit t' = FrameLimitTracker.tx_limit t.
Proof. unfold pop_on_return. intros Ht. outcome_inv. by tx_limit_inv. Qed.

(** ** [ComputeGasTracker] *)
Record ComputeGasTracker := mkComputeGas {
  rex1_enabled : bool;
  cg_rex4_enabled : bool;
  detained_limit : Z;
  cg_frame_tracker : FrameLimitTracker unit;
}.

Module ComputeGasTracker.
Section ops.
Context `{Profile} `{InstructionResultApi} {Gas J E : Type}.

Definition new (spec : MegaSpecId) (tx_limit : Z) : ComputeGasTracker := {|
  rex1_enabled := MegaSpecId.is_enabled spec REX1;
  cg_rex4_enabled := MegaSpecId.is_enabled spec REX4;
  detained_limit := tx_limit;
  cg_frame_tracker := FrameLimitTracker.new tx_limit |}.

Definition with_tracker (self : ComputeGasTracker) (ft : FrameLimitTracker unit) :
    ComputeGasTracker :=
  mkComputeGas (rex1_enabled self) (cg_rex4_enabled self) (detained_limit self) ft.

Definition push_frame (self : ComputeGasTracker) : outcome ComputeGasTracker :=
  ft ← (if cg_rex4_enabled self
        then FrameLimitTracker.push_frame tt (cg_frame_tracker self)
        else Ret (FrameLimitTracker.push_frame_with_limit u64_max tt (cg_frame_tracker self)));
  Ret (with_tracker self ft).

Definition tx_limit (self : ComputeGasTracker) : Z :=
  Z.min (FrameLimitTracker.tx_limit (cg_frame_tracker self)) (detained_limit self).

Definition tx_usage (self : ComputeGasTracker) : outcome Z :=
  FrameLimitTracker.net_usage (cg_frame_tracker self).

Definition set_detained_limit (cap : Z) (self : ComputeGasTracker) :
    outcome ComputeGasTracker :=
  new_limit ← (if cg_rex4_enabled self
               then u ← tx_usage self; Ret (sat_add u cap)
               else Ret cap);
  Ret (mkComputeGas (rex1_enabled self) (cg_rex4_enabled self)
         (Z.min (detained_limit self) new_limit) (cg_frame_tracker self)).

Definition current_call_remaining (self : ComputeGasTracker) : outcome Z :=
  u ← tx_usage self;
  let tx_remaining := sat_sub (tx_limit self) u in
  if cg_rex4_enabled self then
    r ← FrameLimitTracker.current_frame_remaining (cg_frame_tracker self);
    Ret (Z.min r tx_remaining)
  else Ret tx_remaining.

Definition is_detained_exceed (self : ComputeGasTracker) : outcome bool :=
  used ← tx_usage self;
  Ret (bool_decide (detained_limit self < used) &&
       bool_decide (detained_limit self < FrameLimitTracker.tx_limit (cg_frame_tracker self))).

Definition record_gas_used (gas : Z) (self : ComputeGasTracker) :
    outcome ComputeGasTracker :=
  ft ← (if FrameLimitTracker.has_active_frame (cg_frame_tracker self)
        then FrameLimitTracker.frame_mut (FrameLimitEntry.add_persistent gas)
               (cg_frame_tracker self)
        else FrameLimitTracker.tx_mut (FrameLimitEntry.add_persistent gas)
               (cg_frame_tracker self));
  Ret (with_tracker self ft).

Definition reset (self : ComputeGasTracker) : ComputeGasTracker :=
  let ft := FrameLimitTracker.reset (cg_frame_tracker self) in
  mkComputeGas (rex1_enabled self) (cg_rex4_enabled self)
    (if rex1_enabled self then FrameLimitTracker.tx_limit ft else detained_limit self) ft.

Definition tx_check (self : ComputeGasTracker) : outcome LimitCheck :=
  used ← tx_usage self;
  Ret (tx_level_check ComputeGas (tx_limit self) used).

Definition check_limit (self : ComputeGasTracker) : outcome LimitCheck :=
  if cg_rex4_enabled self then
    frame_check ←
      FrameLimitTracker.exceeds_current_frame_limit ComputeGas (cg_frame_tracker self);
    if LimitCheck.exceeded_limit frame_check then Ret frame_check else tx_check self
  else tx_check self.

#[global] Instance limit : TxRuntimeLimit ComputeGasTracker J E Gas := {|
  trl_tx_limit := tx_limit;
  trl_tx_usage := tx_usage;
  trl_reset := reset;
  trl_check_limit := check_limit;
  trl_before_tx_start _ self := Ret self;
  trl_push_empty_frame := push_frame;
  trl_before_frame_init _ journal self :=
    self ← push_frame self; Ret (self, journal, Ok tt);
  trl_after_frame_init_on_frame _ self := Ret self;
  trl_before_frame_run _ self := Ret self;
  trl_after_frame_run _ _ self := Ret self;
  trl_before_frame_return_result LAST_FRAME result self :=
    ft ← pop_on_return LAST_FRAME result (cg_frame_tracker self);
    Ret (with_tracker self ft);
  trl_after_sstore _ self := Ret self;
  trl_after_log _ _ self := Ret self |}.
End ops.
End ComputeGasTracker.

(** ** [DataSizeTracker] *)
Definition BASE_TX_SIZE : Z := 110.
Definition AUTHORIZATION_SIZE : Z := 101.
Definition LOG_TOPIC_SIZE : Z := 32.
Definition SALT_KEY_SIZE : Z := 8.
Definition SALT_VALUE_DELTA_ACCOUNT_INFO_SIZE : Z := 32.
Definition SALT_VALUE_DELTA_STORAGE_SLOT_SIZE : Z := 32.
Definition ACCOUNT_INFO_WRITE_SIZE : Z := SALT_KEY_SIZE + SALT_VALUE_DELTA_ACCOUNT_INFO_SIZE.
Definition STORAGE_SLOT_WRITE_SIZE : Z := SALT_KEY_SIZE + SALT_VALUE_DELTA_STORAGE_SLOT_SIZE.

Record DataSizeTracker := mkDataSize {
  ds_rex4_enabled : bool;
  ds_frame_tracker : FrameLimitTracker CallFrameInfo;
}.

(** [for authorization in tx.authorization_list()]: the charges of the authorities. *)
Fixpoint charge_authorities {I} `{Profile} (amount : Z) (authorities : list (option Address))
    (ft : FrameLimitTracker I) : outcome (FrameLimitTracker I) :=
  match authorities with
  | [] => Ret ft
  | Some _ :: rest =>
      ft ← FrameLimitTracker.tx_mut (FrameLimitEntry.add_persistent amount) ft;
      charge_authorities amount rest ft
  | None :: rest => charge_authorities amount rest ft
  end.

Lemma charge_authorities_tx_limit {I} `{Profile} amount l (ft ft' : FrameLimitTracker I) :
  charge_authorities amount l ft = Ret ft' →
  FrameLimitTracker.tx_limit ft' = FrameLimitTracker.tx_limit ft.
Proof.
  revert ft. induction l as [|[a|] l IH]; intros ft Hl; simpl in Hl; [by simplify_eq| |by apply IH].
  apply bind_Ret in Hl as (f1&Hf1&Hl). rewrite (IH _ Hl). by tx_limit_inv.
Qed.

(** [entry.info.target_address = Some(a)]. *)
Definition set_target_address (a : Address) (e : FrameLimitEntry CallFrameInfo) :
    FrameLimitEntry CallFrameInfo :=
  mkEntry (FrameLimit.limit e) (persistent_usage e) (discardable_usage e) (refund e)
    (mkCallFrameInfo (Some a) (target_updated (info e))).

(** [frame_mut().is_some_and(|entry| !entry.info.target_updated)]. *)
Definition parent_not_updated (ft : FrameLimitTracker CallFrameInfo) : bool :=
  match frame_stack ft with
  | entry :: _ => negb (target_updated (info entry))
  | [] => false
  end.

(** Marking the created account of a CREATE frame, for the two trackers that
    record account updates. *)
Definition record_created_account {Gas} `{Profile} (amount : Z) (frame : EthFrame Gas)
    (ft : FrameLimitTracker CallFrameInfo) : outcome (FrameLimitTracker CallFrameInfo) :=
  if frame_is_create frame then
    created_address ← expect (frame_created_address frame);
    FrameLimitTracker.frame_mut (λ entry,
      assert_true (bool_decide (target_address (info entry) = None));;
      FrameLimitEntry.add_discardable amount (set_target_address created_address entry)) ft
  else Ret ft.

Module DataSizeTracker.
Section ops.
Context `{Profile} `{InstructionResultApi} `{SStoreApi} {Gas J E : Type}.

Definition new (spec : MegaSpecId) (tx_limit : Z) : DataSizeTracker := {|
  ds_rex4_enabled := MegaSpecId.is_enabled spec REX4;
  ds_frame_tracker := FrameLimitTracker.new tx_limit |}.

Definition with_tracker (self : DataSizeTracker) (ft : FrameLimitTracker CallFrameInfo) :
    DataSizeTracker :=
  mkDataSize (ds_rex4_enabled self) ft.

Definition push_frame (i : CallFrameInfo) (self : DataSizeTracker) :
    outcome DataSizeTracker :=
  ft ← (if ds_rex4_enabled self
        then FrameLimitTracker.push_frame i (ds_frame_tracker self)
        else Ret (FrameLimitTracker.push_frame_with_limit u64_max i (ds_frame_tracker self)));
  Ret (with_tracker self ft).

Definition has_active_frame (self : DataSizeTracker) : bool :=
  FrameLimitTracker.has_active_frame (ds_frame_tracker self).

Definition record_discardable (size : Z) (self : DataSizeTracker) :
    outcome DataSizeTracker :=
  ft ← FrameLimitTracker.frame_mut (FrameLimitEntry.add_discardable size)
         (ds_frame_tracker self);
  Ret (with_tracker self ft).

Definition record_refund (size : Z) (self : DataSizeTracker) : outcome DataSizeTracker :=
  ft ← FrameLimitTracker.frame_mut (FrameLimitEntry.add_refund size)
         (ds_frame_tracker self);
  Ret (with_tracker self ft).

Definition tx_limit (self : DataSizeTracker) : Z :=
  FrameLimitTracker.tx_limit (ds_frame_tracker self).
Definition tx_usage (self : DataSizeTracker) : outcome Z :=
  FrameLimitTracker.net_usage (ds_frame_tracker self).
Definition reset (self : DataSizeTracker) : DataSizeTracker :=
  with_tracker self (FrameLimitTracker.reset (ds_frame_tracker self)).

Definition check_limit (self : DataSizeTracker) : outcome LimitCheck :=
  if ds_rex4_enabled self then
    FrameLimitTracker.exceeds_current_frame_limit DataSize (ds_frame_tracker self)
  else
    used ← tx_usage self;
    Ret (tx_level_check DataSize (FrameLimitTracker.tx_limit (ds_frame_tracker self)) used).

(** [iter.sum::<u64>()]. *)
Fixpoint sum_u64 (acc : Z) (l : list Z) : outcome Z :=
  match l with
  | [] => Ret acc
  | x :: l => acc ← add_u64 acc x; sum_u64 acc l
  end.

Definition before_tx_start (tx : MegaTransaction) (self : DataSizeTracker) :
    outcome DataSizeTracker :=
  size ← add_u64 BASE_TX_SIZE (Z.of_nat (length (tx_input tx)));
  access ← match tx_access_list_sizes tx with
           | Some sizes => sum_u64 0 sizes
           | None => Ret 0
           end;
  size ← add_u64 size access;
  auth ← mul_u64 (tx_authorization_list_len tx) AUTHORIZATION_SIZE;
  size ← add_u64 size auth;
  ft ← FrameLimitTracker.tx_mut (FrameLimitEntry.add_persistent size) (ds_frame_tracker self);
  ft ← charge_authorities ACCOUNT_INFO_WRITE_SIZE (tx_authorization_list tx) ft;
  ft ← FrameLimitTracker.tx_mut (FrameLimitEntry.add_persistent ACCOUNT_INFO_WRITE_SIZE) ft;
  Ret (with_tracker self ft).

Definition push_empty_frame (self : DataSizeTracker) : outcome DataSizeTracker :=
  push_frame (mkCallFrameInfo None false) self.

Definition before_frame_init (frame_init : FrameInit) (journal : J) (self : DataSizeTracker) :
    outcome (DataSizeTracker * J * result unit E) :=
  self ← match fi_frame_input frame_init with
    | FrameInputCall call_inputs =>
        let has_transfer := cin_transfers_value call_inputs in
        let parent_needs_update :=
          has_transfer && parent_not_updated (ds_frame_tracker self) in
        self ← push_frame
          (mkCallFrameInfo (Some (cin_target_address call_inputs)) has_transfer) self;
        if has_transfer then
          self ← (if parent_needs_update
                  then record_discardable ACCOUNT_INFO_WRITE_SIZE self else Ret self);
          record_discardable ACCOUNT_INFO_WRITE_SIZE self
        else Ret self
    | FrameInputCreate _ =>
        let parent_needs_update := parent_not_updated (ds_frame_tracker self) in
        self ← push_frame (mkCallFrameInfo None true) self;
        if parent_needs_update
        then record_discardable ACCOUNT_INFO_WRITE_SIZE self else Ret self
    | FrameInputEmpty => Panic
    end;
  Ret (self, journal, Ok tt).

Definition after_frame_init_on_frame (frame : EthFrame Gas) (self : DataSizeTracker) :
    outcome DataSizeTracker :=
  ft ← record_created_account ACCOUNT_INFO_WRITE_SIZE frame (ds_frame_tracker self);
  Ret (with_tracker self ft).

Definition after_frame_run (frame : EthFrame Gas) (action : InterpreterAction Gas)
    (self : DataSizeTracker) : outcome DataSizeTracker :=
  match action with
  | ActionReturn interpreter_result =>
      if frame_is_create frame
      then record_discardable (Z.of_nat (length (ir_output interpreter_result))) self
      else Ret self
  | ActionNewFrame _ => Ret self
  end.

Definition after_sstore (store_result : SStoreResult) (self : DataSizeTracker) :
    outcome DataSizeTracker :=
  if is_original_eq_present store_result then
    if negb (is_original_eq_new store_result)
    then record_discardable STORAGE_SLOT_WRITE_SIZE self else Ret self
  else if is_original_eq_new store_result
  then record_refund STORAGE_SLOT_WRITE_SIZE self else Ret self.

Definition after_log (num_topics data_size : Z) (self : DataSizeTracker) :
    outcome DataSizeTracker :=
  topics ← mul_u64 num_topics LOG_TOPIC_SIZE;
  size ← add_u64 topics data_size;
  record_discardable size self.

#[global] Instance limit : TxRuntimeLimit DataSizeTracker J E Gas := {|
  trl_tx_limit := tx_limit;
  trl_tx_usage := tx_usage;
  trl_reset := reset;
  trl_check_limit := check_limit;
  trl_before_tx_start := before_tx_start;
  trl_push_empty_frame := push_empty_frame;
  trl_before_frame_init := before_frame_init;
  trl_after_frame_init_on_frame := after_frame_init_on_frame;
  trl_before_frame_run _ self := Ret self;
  trl_after_frame_run := after_frame_run;
  trl_before_frame_return_result LAST_FRAME result self :=
    ft ← pop_on_return LAST_FRAME result (ds_frame_tracker self);
    Ret (with_tracker self ft);
  trl_after_sstore := after_sstore;
  trl_after_log := after_log |}.
End ops.
End DataSizeTracker.

(** ** [KVUpdateTracker] *)
Record KVUpdateTracker := mkKVUpdate {
  kv_rex4_enabled : bool;
  kv_frame_tracker : FrameLimitTracker CallFrameInfo;
}.

Module KVUpdateTracker.
Section ops.
Context `{Profile} `{InstructionResultApi} `{SStoreApi} {Gas J E : Type}.

Definition new (spec : MegaSpecId) (tx_limit : Z) : KVUpdateTracker := {|
  kv_rex4_enabled := MegaSpecId.is_enabled spec REX4;
  kv_frame_tracker := FrameLimitTracker.new tx_limit |}.

Definition with_tracker (self : KVUpdateTracker) (ft : FrameLimitTracker CallFrameInfo) :
    KVUpdateTracker :=
  mkKVUpdate (kv_rex4_enabled self) ft.

Definition push_frame (i : CallFrameInfo) (self : KVUpdateTracker) :
    outcome KVUpdateTracker :=
  ft ← (if kv_rex4_enabled self
        then FrameLimitTracker.push_frame i (kv_frame_tracker self)
        else Ret (FrameLimitTracker.push_frame_with_limit u64_max i (kv_frame_tracker self)));
  Ret (with_tracker self ft).

Definition record_discardable (n : Z) (self : KVUpdateTracker) : outcome KVUpdateTracker :=
  ft ← FrameLimitTracker.frame_mut (FrameLimitEntry.add_discardable n)
         (kv_frame_tracker self);
  Ret (with_tracker self ft).

Definition record_refund (n : Z) (self : KVUpdateTracker) : outcome KVUpdateTracker :=
  ft ← FrameLimitTracker.frame_mut (FrameLimitEntry.add_refund n) (kv_frame_tracker self);
  Ret (with_tracker self ft).

Definition tx_limit (self : KVUpdateTracker) : Z :=
  FrameLimitTracker.tx_limit (kv_frame_tracker self).
Definition tx_usage (self : KVUpdateTracker) : outcome Z :=
  FrameLimitTracker.net_usage (kv_frame_tracker self).
Definition reset (self : KVUpdateTracker) : KVUpdateTracker :=
  with_tracker self (FrameLimitTracker.reset (kv_frame_tracker self)).

Definition check_limit (self : KVUpdateTracker) : outcome LimitCheck :=
  if kv_rex4_enabled self then
    FrameLimitTracker.exceeds_current_frame_limit KVUpdate (kv_frame_tracker self)
  else
    used ← tx_usage self;
    Ret (tx_level_check KVUpdate (FrameLimitTracker.tx_limit (kv_frame_tracker self)) used).

Definition before_tx_start (tx : MegaTransaction) (self : KVUpdateTracker) :
    outcome KVUpdateTracker :=
  ft ← charge_authorities 1 (tx_authorization_list tx) (kv_frame_tracker self);
  ft ← FrameLimitTracker.tx_mut (FrameLimitEntry.add_persistent 1) ft;
  Ret (with_tracker self ft).

Definition push_empty_frame (self : KVUpdateTracker) : outcome KVUpdateTracker :=
  push_frame (mkCallFrameInfo None false) self.

Definition before_frame_init (frame_init : FrameInit) (journal : J) (self : KVUpdateTracker) :
    outcome (KVUpdateTracker * J * result unit E) :=
  self ← match fi_frame_input frame_init with
    | FrameInputCall call_inputs =>
        let has_transfer := cin_transfers_value call_inputs in
        let parent_needs_update :=
          has_transfer && parent_not_updated (kv_frame_tracker self) in
        self ← push_frame
          (mkCallFrameInfo (Some (cin_target_address call_inputs)) has_transfer) self;
        if has_transfer then
          self ← (if parent_needs_update then record_discardable 1 self else Ret self);
          record_discardable 1 self
        else Ret self
    | FrameInputCreate _ =>
        let parent_needs_update := parent_not_updated (kv_frame_tracker self) in
        self ← push_frame (mkCallFrameInfo None true) self;
        if parent_needs_update then record_discardable 1 self else Ret self
    | FrameInputEmpty => Panic
    end;
  Ret (self, journal, Ok tt).

Definition after_frame_init_on_frame (frame : EthFrame Gas) (self : KVUpdateTracker) :
    outcome KVUpdateTracker :=
  ft ← record_created_account 1 frame (kv_frame_tracker self);
  Ret (with_tracker self ft).

Definition after_sstore (store_result : SStoreResult) (self : KVUpdateTracker) :
    outcome KVUpdateTracker :=
  if is_original_eq_present store_result then
    if negb (is_original_eq_new store_result) then record_discardable 1 self else Ret self
  else if is_original_eq_new store_result then record_refund 1 self else Ret self.

#[global] Instance limit : TxRuntimeLimit KVUpdateTracker J E Gas := {|
  trl_tx_limit := tx_limit;
  trl_tx_usage := tx_usage;
  trl_reset := reset;
  trl_check_limit := check_limit;
  trl_before_tx_start := before_tx_start;
  trl_push_empty_frame := push_empty_frame;
  trl_before_frame_init := before_frame_init;
  trl_after_frame_init_on_frame := after_frame_init_on_frame;
  trl_before_frame_run _ self := Ret self;
  trl_after_frame_run _ _ self := Ret self;
  trl_before_frame_return_result LAST_FRAME result self :=
    ft ← pop_on_return LAST_FRAME result (kv_frame_tracker self);
    Ret (with_tracker self ft);
  trl_after_sstore := after_sstore;
  trl_after_log _ _ self := Ret self |}.
End ops.
End KVUpdateTracker.

(** ** [StateGrowthTracker] *)
Record StateGrowthTracker := mkStateGrowth {
  sg_spec : MegaSpecId;
  sg_frame_tracker : FrameLimitTracker unit;
}.

Module StateGrowthTracker.
Section ops.
Context `{Profile} `{InstructionResultApi} {Gas J E Account : Type}
  `{JournalInspectTr J E Account} `{AccountApi Account}.

Definition new (spec : MegaSpecId) (tx_limit : Z) : StateGrowthTracker :=
  mkStateGrowth spec (FrameLimitTracker.new tx_limit).

Definition with_tracker (self : StateGrowthTracker) (ft : FrameLimitTracker unit) :
    StateGrowthTracker :=
  mkStateGrowth (sg_spec self) ft.

Definition push_frame (self : StateGrowthTracker) : outcome StateGrowthTracker :=
  ft ← (if MegaSpecId.is_enabled (sg_spec self) REX4
        then FrameLimitTracker.push_frame tt (sg_frame_tracker self)
        else Ret (FrameLimitTracker.push_frame_with_limit u64_max tt (sg_frame_tracker self)));
  Ret (with_tracker self ft).

Definition record_growth (n : Z) (self : StateGrowthTracker) : outcome StateGrowthTracker :=
  ft ← FrameLimitTracker.frame_mut (FrameLimitEntry.add_discardable n)
         (sg_frame_tracker self);
  Ret (with_tracker self ft).

Definition record_refund (n : Z) (self : StateGrowthTracker) : outcome StateGrowthTracker :=
  ft ← FrameLimitTracker.frame_mut (FrameLimitEntry.add_refund n) (sg_frame_tracker self);
  Ret (with_tracker self ft).

Definition tx_limit (self : StateGrowthTracker) : Z :=
  FrameLimitTracker.tx_limit (sg_frame_tracker self).
Definition tx_usage (self : StateGrowthTracker) : outcome Z :=
  FrameLimitTracker.net_usage (sg_frame_tracker self).
Definition reset (self : StateGrowthTracker) : StateGrowthTracker :=
  with_tracker self (FrameLimitTracker.reset (sg_frame_tracker self)).

Definition check_limit (self : StateGrowthTracker) : outcome LimitCheck :=
  if MegaSpecId.is_enabled (sg_spec self) REX4 then
    FrameLimitTracker.exceeds_current_frame_limit StateGrowth (sg_frame_tracker self)
  else
    used ← tx_usage self;
    Ret (tx_level_check StateGrowth (FrameLimitTracker.tx_limit (sg_frame_tracker self)) used).

(** The new frame is pushed before the account is inspected, and stays when
    the inspection fails. *)
Definition before_frame_init (frame_init : FrameInit) (journal : J)
    (self : StateGrowthTracker) : outcome (StateGrowthTracker * J * result unit E) :=
  self ← push_frame self;
  match fi_frame_input frame_init with
  | FrameInputCall call_inputs =>
      if cin_transfers_value call_inputs then
        let '(journal, inspected) :=
          inspect_account_delegated (sg_spec self) (cin_target_address call_inputs) journal in
        match inspected with
        | Err e => Ret (self, journal, Err e)
        | Ok to_account =>
            self ← (if state_clear_aware_is_empty to_account
                    then record_growth 1 self else Ret self);
            Ret (self, journal, Ok tt)
        end
      else Ret (self, journal, Ok tt)
  | FrameInputCreate _ =>
      self ← record_growth 1 self; Ret (self, journal, Ok tt)
  | FrameInputEmpty => Panic
  end.

Definition after_sstore (store_result : SStoreResult) (self : StateGrowthTracker) :
    outcome StateGrowthTracker :=
  match bool_decide (original_value store_result = 0),
        bool_decide (present_value store_result = 0),
        bool_decide (new_value store_result = 0) with
  | true, true, false => record_growth 1 self
  | true, false, true => record_refund 1 self
  | _, _, _ => Ret self
  end.

#[global] Instance limit : TxRuntimeLimit StateGrowthTracker J E Gas := {|
  trl_tx_limit := tx_limit;
  trl_tx_usage := tx_usage;
  trl_reset := reset;
  trl_check_limit := check_limit;
  trl_before_tx_start _ self := Ret self;
  trl_push_empty_frame := push_frame;
  trl_before_frame_init := before_frame_init;
  trl_after_frame_init_on_frame _ self := Ret self;
  trl_before_frame_run _ self := Ret self;
  trl_after_frame_run _ _ self := Ret self;
  trl_before_frame_return_result LAST_FRAME result self :=
    ft ← pop_on_return LAST_FRAME result (sg_frame_tracker self);
    Ret (with_tracker self ft);
  trl_after_sstore := after_sstore;
  trl_after_log _ _ self := Ret self |}.
End ops.
End StateGrowthTracker.

(** ** Storage writes: a sequence of writes to one slot *)
Section sstore_chain.
Context `{Profile} `{SStoreApi} {laws : SStoreLaws}.

(** The store results of writing [vs] in turn to a slot that had the value
    [original] when the transaction started and has [present] now. *)
Fixpoint write_results (original present : Z) (vs : list Z) : list SStoreResult :=
  match vs with
  | [] => []
  | v :: vs =>
      Build_SStoreResult original present v :: write_results original v vs
  end.

Fixpoint run_sstores {T} (f : SStoreResult → T → outcome T) (rs : list SStoreResult) (t : T) :
    outcome T :=
  match rs with
  | [] => Ret t
  | r :: rs => t ← f r t; run_sstores f rs t
  end.

(** What [k] writes may add to the two counters of the current frame. *)
Definition room_for {I} (amount k : Z) (e : FrameLimitEntry I) : Prop :=
  0 ≤ discardable_usage e ∧ 0 ≤ refund e ∧
  discardable_usage e + amount * k ≤ u64_max ∧ refund e + amount * k ≤ u64_max.

(** The entry changed by [d] net units, and only in its two counters. *)
Definition moved_by {I} (d : Z) (ft ft' : FrameLimitTracker I) : Prop :=
  ∃ e e' rest, frame_stack ft = e :: rest ∧ frame_stack ft' = e' :: rest ∧
    tx_entry ft' = tx_entry ft ∧ net_of e' = net_of e + d ∧
    limit e' = limit e ∧ persistent_usage e' = persistent_usage e ∧ info e' = info e.

Lemma run_sstores_moved {T I} (ftk : T → FrameLimitTracker I) (same : T → T → Prop)
    (f : SStoreResult → T → outcome T) (amount : Z) (weight : Z → Z) original :
  PreOrder same → 0 ≤ amount →
  (∀ p v t e rest, frame_stack (ftk t) = e :: rest → room_for amount 1 e →
    ∃ t' e', f (Build_SStoreResult original p v) t = Ret t' ∧ same t t' ∧
      tx_entry (ftk t') = tx_entry (ftk t) ∧ frame_stack (ftk t') = e' :: rest ∧
      net_of e' = net_of e + (weight v - weight p) ∧
      discardable_usage e ≤ discardable_usage e' ≤ discardable_usage e + amount ∧
      refund e ≤ refund e' ≤ refund e + amount ∧
      limit e' = limit e ∧ persistent_usage e' = persistent_usage e ∧ info e' = info e) →
  ∀ vs p t e rest,
  frame_stack (ftk t) = e :: rest → room_for amount (Z.of_nat (length vs)) e →
  ∃ t', run_sstores f (write_results original p vs) t = Ret t' ∧ same t t' ∧
    moved_by (weight (default p (last vs)) - weight p) (ftk t) (ftk t').
Proof.
  intros Hpre Hamt Hstep vs. induction vs as [|v vs IH]; intros p t e rest Hst Hroom.
  { exists t. split; [done|]. split; [reflexivity|]. exists e, e, rest.
    simpl. split_and!; done || lia. }
  cbn [length] in Hroom. rewrite Nat2Z.inj_succ in Hroom.
  assert (room_for amount 1 e) as Hroom1.
  { unfold room_for in *. pose proof (Nat2Z.is_nonneg (length vs)). nia. }
  destruct (Hstep p v t e rest Hst Hroom1)
    as (t1&e1&Hf&Hs1&Htx1&Hst1&Hnet1&Hd1&Hr1&Hl1&Hp1&Hi1).
  destruct (IH v t1 e1 rest Hst1) as (t2&Hrun&Hs2&(e1'&e2&rest'&He1&He2&Htx2&Hnet2&Hl2&Hp2&Hi2)).
  { unfold room_for in *. nia. }
  rewrite Hst1 in He1. injection He1 as <- <-.
  exists t2. cbn [write_results run_sstores]. rewrite Hf. simpl. split; [done|].
  split; [by etrans|]. exists e, e2, rest. split_and!; try congruence.
  rewrite Hnet2, Hnet1.
  destruct vs as [|v' vs]; [simpl; lia|].
  replace (last (v :: v' :: vs)) with (last (v' :: vs)) by done.
  destruct (last (v' :: vs)) as [w|] eqn:Hlast; [simpl; lia|].
  by apply last_None in Hlast.
Qed.

Lemma frame_mut_discardable {I} n (ft : FrameLimitTracker I) e rest :
  frame_stack ft = e :: rest → in_u64 (discardable_usage e + n) →
  FrameLimitTracker.frame_mut (FrameLimitEntry.add_discardable n) ft =
    Ret (mkTracker (tx_entry ft)
      (mkEntry (FrameLimit.limit e) (persistent_usage e) (discardable_usage e + n) (refund e)
         (info e) :: rest)).
Proof.
  intros Hst Hn. unfold FrameLimitTracker.frame_mut. by rewrite Hst, add_discardable_spec.
Qed.
Lemma frame_mut_refund {I} n (ft : FrameLimitTracker I) e rest :
  frame_stack ft = e :: rest → in_u64 (refund e + n) →
  FrameLimitTracker.frame_mut (FrameLimitEntry.add_refund n) ft =
    Ret (mkTracker (tx_entry ft)
      (mkEntry (FrameLimit.limit e) (persistent_usage e) (discardable_usage e) (refund e + n)
         (info e) :: rest)).
Proof.
  intros Hst Hn. unfold FrameLimitTracker.frame_mut. by rewrite Hst, add_refund_spec.
Qed.

Definition differs (amount original v : Z) : Z :=
  if decide (v = original) then 0 else amount.
Definition grows (original v : Z) : Z :=
  if decide (original = 0) then if decide (v = 0) then 0 else 1 else 0.
End sstore_chain.

Ltac solve_sstore_step Hst Hroom :=
  unfold room_for in Hroom;
  first
    [ rewrite (frame_mut_discardable _ _ _ _ Hst) by (unfold in_u64; lia)
    | rewrite (frame_mut_refund _ _ _ _ Hst) by (unfold in_u64; lia)
    | idtac ];
  do 2 eexists; (split; [reflexivity|]); simpl;
  (split_and!; try done; try lia; unfold net_of, used_of; simpl; lia).

Section sstore_lemmas.
Context `{Profile} `{SStoreApi} {laws : SStoreLaws}.

Lemma data_size_sstore original vs p t e rest :
  frame_stack (ds_frame_tracker t) = e :: rest → room_for 40 (Z.of_nat (length vs)) e →
  ∃ t', run_sstores DataSizeTracker.after_sstore (write_results original p vs) t = Ret t' ∧
    ds_rex4_enabled t = ds_rex4_enabled t' ∧
    moved_by (differs 40 original (default p (last vs)) - differs 40 original p)
      (ds_frame_tracker t) (ds_frame_tracker t').
Proof.
  apply (run_sstores_moved ds_frame_tracker (λ t t', ds_rex4_enabled t = ds_rex4_enabled t')
    DataSizeTracker.after_sstore 40 (differs 40 original)).
  { split; [by intros t1|intros t1 t2 t3; congruence]. }
  { done. }
  clear -laws. intros p v t e rest Hst Hroom.
  unfold DataSizeTracker.after_sstore, DataSizeTracker.record_discardable,
    DataSizeTracker.record_refund, differs.
  rewrite is_original_eq_present_spec, is_original_eq_new_spec. simpl.
  unfold STORAGE_SLOT_WRITE_SIZE, SALT_KEY_SIZE, SALT_VALUE_DELTA_STORAGE_SLOT_SIZE.
  repeat (case_bool_decide || case_decide); simplify_eq; simpl; solve_sstore_step Hst Hroom.
Qed.

Lemma kv_update_sstore original vs p t e rest :
  frame_stack (kv_frame_tracker t) = e :: rest → room_for 1 (Z.of_nat (length vs)) e →
  ∃ t', run_sstores KVUpdateTracker.after_sstore (write_results original p vs) t = Ret t' ∧
    kv_rex4_enabled t = kv_rex4_enabled t' ∧
    moved_by (differs 1 original (default p (last vs)) - differs 1 original p)
      (kv_frame_tracker t) (kv_frame_tracker t').
Proof.
  apply (run_sstores_moved kv_frame_tracker (λ t t', kv_rex4_enabled t = kv_rex4_enabled t')
    KVUpdateTracker.after_sstore 1 (differs 1 original)).
  { split; [by intros t1|intros t1 t2 t3; congruence]. }
  { done. }
  clear -laws. intros p v t e rest Hst Hroom.
  unfold KVUpdateTracker.after_sstore, KVUpdateTracker.record_discardable,
    KVUpdateTracker.record_refund, differs.
  rewrite is_original_eq_present_spec, is_original_eq_new_spec. simpl.
  repeat (case_bool_decide || case_decide); simplify_eq; simpl; solve_sstore_step Hst Hroom.
Qed.

Lemma state_growth_sstore original vs p t e rest :
  frame_stack (sg_frame_tracker t) = e :: rest → room_for 1 (Z.of_nat (length vs)) e →
  ∃ t', run_sstores StateGrowthTracker.after_sstore (write_results original p vs) t = Ret t' ∧
    sg_spec t = sg_spec t' ∧
    moved_by (grows original (default p (last vs)) - grows original p)
      (sg_frame_tracker t) (sg_frame_tracker t').
Proof.
  apply (run_sstores_moved sg_frame_tracker (λ t t', sg_spec t = sg_spec t')
    StateGrowthTracker.after_sstore 1 (grows original)).
  { split; [by intros t1|intros t1 t2 t3; congruence]. }
  { done. }
  clear -laws. intros p v t e rest Hst Hroom.
  unfold StateGrowthTracker.after_sstore, StateGrowthTracker.record_growth,
    StateGrowthTracker.record_refund, grows. simpl.
  repeat (case_bool_decide || case_decide); simplify_eq; simpl; solve_sstore_step Hst Hroom.
Qed.
End sstore_lemmas.

(** ** Compute gas, abstractly: a meter of two numbers

    What was used, which no revert takes back, and the detained limit. *)
Inductive cg_op :=
  | CgFrame
  | CgReturn (r : InstructionResult)
  | CgRecord (gas : Z)
  | CgDetain (cap : Z).

Record meter := mkMeter { meter_used : Z; meter_detained : Z }.

Definition meter_step (rex4 : bool) (m : meter) (op : cg_op) : meter :=
  match op with
  | CgFrame | CgReturn _ => m
  | CgRecord gas => mkMeter (meter_used m + gas) (meter_detained m)
  | CgDetain cap =>
      mkMeter (meter_used m)
        (Z.min (meter_detained m) (if rex4 then sat_add (meter_used m) cap else cap))
  end.

Section compute_gas_runs.
Context `{Profile} `{InstructionResultApi}.

Definition cg_step (op : cg_op) (t : ComputeGasTracker) : outcome ComputeGasTracker :=
  match op with
  | CgFrame => ComputeGasTracker.push_frame t
  | CgReturn r =>
      ft ← pop_on_return false
             (FrameResultCall (mkInterpreterResult r Bytes_new tt) (0, 0))
             (cg_frame_tracker t);
      Ret (ComputeGasTracker.with_tracker t ft)
  | CgRecord gas => ComputeGasTracker.record_gas_used gas t
  | CgDetain cap => ComputeGasTracker.set_detained_limit cap t
  end.

Fixpoint cg_run (ops : list cg_op) (t : ComputeGasTracker) : outcome ComputeGasTracker :=
  match ops with
  | [] => Ret t
  | op :: ops => t ← cg_step op t; cg_run ops t
  end.

(** Returns match frames, starting [d] frames deep. *)
Fixpoint well_nested (d : nat) (ops : list cg_op) : Prop :=
  match ops with
  | [] => True
  | CgFrame :: ops => well_nested (S d) ops
  | CgReturn _ :: ops => match d with O => False | S d => well_nested d ops end
  | _ :: ops => well_nested d ops
  end.

Definition cg_op_ok (op : cg_op) : Prop :=
  match op with CgRecord gas => 0 ≤ gas | CgDetain cap => in_u64 cap | _ => True end.
Definition cg_recorded (ops : list cg_op) : Z :=
  foldr (λ op z, match op with CgRecord gas => gas | _ => 0 end + z) 0 ops.

Definition all_persistent (s : ledger) : Prop :=
  Forall (λ c, charge_persists c = true) (ledger_tx s) ∧
  Forall (Forall (λ c, charge_persists c = true)) (ledger_frames s).

Definition cg_inv (d : nat) (t : ComputeGasTracker) (m : meter) : Prop :=
  ∃ s, tracker_holds (cg_frame_tracker t) s ∧ all_persistent s ∧
    ledger_net s = meter_used m ∧ ledger_size s = meter_used m ∧
    length (ledger_frames s) = d ∧ detained_limit t = meter_detained m.

Lemma survivors_persistent ok cs :
  Forall (λ c, charge_persists c = true) cs → survivors ok cs = cs.
Proof.
  destruct ok; [done|]. simpl. induction 1 as [|c cs Hc _ IH]; simpl; [done|].
  by rewrite Hc, IH.
Qed.

Lemma charges_net_app cs cs' : charges_net (cs ++ cs') = charges_net cs + charges_net cs'.
Proof. induction cs as [|[] cs IH]; simpl; lia. Qed.

(** One tracker operation on a ledger of persistent charges. *)
Lemma persistent_step {I} (op : tracker_op I) s :
  all_persistent s →
  match op with TCharge c | TTxCharge c => charge_persists c = true | _ => True end →
  all_persistent (ledger_step op s) ∧
  match op with
  | TPush _ | TPushLimit _ _ =>
      ledger_net (ledger_step op s) = ledger_net s ∧
      ledger_size (ledger_step op s) = ledger_size s ∧
      length (ledger_frames (ledger_step op s)) = S (length (ledger_frames s))
  | TPop _ =>
      ledger_net (ledger_step op s) = ledger_net s ∧
      ledger_size (ledger_step op s) = ledger_size s ∧
      length (ledger_frames (ledger_step op s)) = pred (length (ledger_frames s))
  | TCharge c =>
      ledger_frames s ≠ [] →
      ledger_net (ledger_step op s) = ledger_net s + charge_size c ∧
      ledger_size (ledger_step op s) = ledger_size s + charge_size c ∧
      length (ledger_frames (ledger_step op s)) = length (ledger_frames s)
  | TTxCharge c =>
      ledger_net (ledger_step op s) = ledger_net s + charge_size c ∧
      ledger_size (ledger_step op s) = ledger_size s + charge_size c ∧
      length (ledger_frames (ledger_step op s)) = length (ledger_frames s)
  end.
Proof.
  intros [Htx Hfr] Hc. destruct s as [tx fr]. simpl in *. unfold all_persistent, ledger_net, ledger_size.
  destruct op as [i|l i|ok|c|c]; simpl.
  - split_and!; try done; try lia. by constructor.
  - split_and!; try done; try lia. by constructor.
  - destruct fr as [|f [|g fs]]; simpl; [done| |];
      inversion_clear Hfr as [|? ? Hf Hfr']; try inversion_clear Hfr' as [|? ? Hg Hfs];
      rewrite (survivors_persistent ok f Hf), charges_net_app, charges_size_app;
      split_and!; try lia; try done; try (by apply Forall_app); by constructor; [apply Forall_app|].
  - destruct fr as [|f fs]; simpl; [done|]. inversion_clear Hfr as [|? ? Hf Hfs].
    split; [split; [done|]; by repeat constructor|]. intros _.
    destruct c; simplify_eq/=; lia.
  - split; [split; [by constructor|done]|]. destruct c; simplify_eq/=; lia.
Qed.

Definition next_depth (d : nat) (op : cg_op) : option nat :=
  match op with
  | CgFrame => Some (S d)
  | CgReturn _ => match d with O => None | S d => Some d end
  | _ => Some d
  end.

Lemma well_nested_cons d op ops :
  well_nested d (op :: ops) ↔ ∃ d', next_depth d op = Some d' ∧ well_nested d' ops.
Proof. destruct op; simpl; try destruct d; naive_solver. Qed.

(** Lifting a step of the frame tracker to the compute gas tracker. *)
Lemma cg_lift (op : tracker_op unit) d t m d' m' :
  cg_inv d t m → op_ok op →
  match op with TCharge c | TTxCharge c => charge_persists c = true | _ => True end →
  meter_used m + op_size op ≤ u64_max →
  match op with
  | TPush _ | TPushLimit _ _ => d' = S d ∧ m' = m
  | TPop _ => d' = pred d ∧ m' = m
  | TCharge c => d ≠ 0%nat ∧ d' = d ∧
      m' = mkMeter (meter_used m + charge_size c) (meter_detained m)
  | TTxCharge c => d' = d ∧ m' = mkMeter (meter_used m + charge_size c) (meter_detained m)
  end →
  ∃ ft', tracker_step op (cg_frame_tracker t) = Ret ft' ∧
    cg_inv d' (ComputeGasTracker.with_tracker t ft') m'.
Proof.
  intros (s&Hh&Hp&Hnet&Hsz&Hlen&Hdet) Hop Hc Hroom Hd.
  destruct (tracker_step_refines op _ s Hh Hop ltac:(lia)) as (ft'&Hst&Hh'&_).
  exists ft'. split; [done|]. exists (ledger_step op s).
  destruct (persistent_step op s Hp Hc) as [Hp' Hrest].
  split; [done|]. split; [done|].
  destruct op as [i|l i|ok|c|c]; destruct_and?; subst; cbn [meter_used meter_detained];
    [split_and!; done || lia|split_and!; done || lia|split_and!; done || lia|
     |split_and!; done || lia].
  destruct Hrest as (?&?&?); [by intros Hnil; rewrite Hnil in *|]. split_and!; done || lia.
Qed.

Lemma cg_inv_ok d t m :
  cg_inv d t m → meter_used m ≤ u64_max → 
  tracker_ok (cg_frame_tracker t) ∧ 0 ≤ meter_used m ∧
  ComputeGasTracker.tx_usage t = Ret (meter_used m) ∧
  length (frame_stack (cg_frame_tracker t)) = d.
Proof.
  intros (s&Hh&Hp&Hnet&Hsz&Hlen&Hdet) Hle.
  destruct (tracker_holds_ok _ s Hh ltac:(lia)) as [Hok Htot].
  pose proof (ledger_frames_nonneg _ s Hh). unfold ledger_size in Hsz.
  split_and!; [done|lia| |].
  - unfold ComputeGasTracker.tx_usage. rewrite net_usage_spec by done. f_equal. lia.
  - rewrite <- Hlen. apply (Forall2_length _ _ _ (proj2 Hh)).
Qed.

Lemma cg_step_refines op d d' t m :
  cg_inv d t m → cg_op_ok op → next_depth d op = Some d' →
  meter_used m + cg_recorded [op] ≤ u64_max →
  ∃ t', cg_step op t = Ret t' ∧
    cg_inv d' t' (meter_step (cg_rex4_enabled t) m op) ∧
    cg_rex4_enabled t' = cg_rex4_enabled t ∧ rex1_enabled t' = rex1_enabled t.
Proof.
  intros Hinv Hop Hd Hroom.
  assert (meter_used m ≤ u64_max) as Hm by (destruct op; simpl in *; lia).
  destruct (cg_inv_ok d t m Hinv Hm) as (Hok&Hm0&Hus&Hlen).
  destruct op as [|r|gas|cap]; simpl in Hd, Hop, Hroom |- *.
  - injection Hd as <-. unfold ComputeGasTracker.push_frame. destruct (cg_rex4_enabled t) eqn:Hr4.
    + destruct (cg_lift (TPush tt) d t m (S d) m) as (ft&Hft&Hinv'); try done; try (simpl; lia).
      simpl in Hft. rewrite Hft. simpl. eexists. split; [done|]. split; [done|]. done.
    + destruct (cg_lift (TPushLimit u64_max tt) d t m (S d) m) as (ft&Hft&Hinv');
        try done; try (simpl; lia).
      simpl in Hft. simplify_eq. eexists. split; [done|]. done.
  - destruct d as [|d]; [done|]. injection Hd as <-. unfold pop_on_return.
    unfold FrameLimitTracker.has_active_frame.
    destruct (frame_stack (cg_frame_tracker t)) as [|e st] eqn:Hst; [done|]. simpl.
    unfold instruction_result. simpl.
    destruct (cg_lift (TPop (ir_is_ok r)) (S d) t m d m) as (ft&Hft&Hinv'); try done; try (simpl; lia).
    simpl in Hft. rewrite Hft. simpl. eexists. split; [done|]. done.
  - injection Hd as <-. unfold ComputeGasTracker.record_gas_used, FrameLimitTracker.has_active_frame.
    destruct (frame_stack (cg_frame_tracker t)) as [|e st] eqn:Hst.
    + destruct (cg_lift (TTxCharge (Persistent gas)) d t m d
        (mkMeter (meter_used m + gas) (meter_detained m))) as (ft&Hft&Hinv'); try done; try (simpl; lia).
      change (FrameLimitTracker.tx_mut (FrameLimitEntry.add_persistent gas)
        (cg_frame_tracker t) = Ret ft) in Hft.
      rewrite Hft. simpl. eexists. split; [done|]. done.
    + destruct (cg_lift (TCharge (Persistent gas)) d t m d
        (mkMeter (meter_used m + gas) (meter_detained m))) as (ft&Hft&Hinv'); try done;
        [simpl; lia|simpl in Hlen; split_and!; try done; lia|].
      change (FrameLimitTracker.frame_mut (FrameLimitEntry.add_persistent gas)
        (cg_frame_tracker t) = Ret ft) in Hft.
      rewrite Hft. simpl. eexists. split; [done|]. done.
  - injection Hd as <-. unfold ComputeGasTracker.set_detained_limit.
    destruct Hinv as (s&Hh&Hp&Hnet&Hsz&Hl&Hdet).
    destruct (cg_rex4_enabled t); [rewrite Hus|]; simpl;
      (eexists; split; [done|]; split; [|done]; exists s; simpl; rewrite Hdet; split_and!; done).
Qed.

Lemma cg_run_refines ops d t m :
  cg_inv d t m → Forall cg_op_ok ops → well_nested d ops →
  meter_used m + cg_recorded ops ≤ u64_max →
  ∃ t' d', cg_run ops t = Ret t' ∧
    cg_inv d' t' (foldl (meter_step (cg_rex4_enabled t)) m ops) ∧
    cg_rex4_enabled t' = cg_rex4_enabled t ∧ rex1_enabled t' = rex1_enabled t ∧
    meter_used (foldl (meter_step (cg_rex4_enabled t)) m ops) = meter_used m + cg_recorded ops.
Proof.
  intros Hinv Hops. revert d t m Hinv.
  induction Hops as [|op ops Hop Hops IH]; intros d t m Hinv Hn Hroom.
  { exists t, d. simpl. split_and!; done || lia. }
  apply well_nested_cons in Hn as (d1&Hd1&Hn).
  assert (0 ≤ cg_recorded ops) as Hrec.
  { clear -Hops. induction Hops as [|[] ops Ho _ IH]; simpl in *; lia. }
  simpl in Hroom.
  destruct (cg_step_refines op d d1 t m Hinv Hop Hd1) as (t1&Ht1&Hinv1&Hr4&Hr1).
  { simpl. lia. }
  assert (meter_used (meter_step (cg_rex4_enabled t) m op) = meter_used m + cg_recorded [op])
    as Hu1 by (destruct op; simpl; lia).
  destruct (IH d1 t1 _ Hinv1 Hn) as (t'&d'&Hrun&Hinv'&Hr4'&Hr1'&Hu').
  { rewrite Hu1. simpl. lia. }
  exists t', d'. simpl. rewrite Ht1. simpl. rewrite Hr4 in *.
  split_and!; try congruence; try done. rewrite Hu', Hu1. simpl. lia.
Qed.

(** No step changes the transaction limit of the frame tracker. *)
Lemma tracker_step_limit {I} (op : tracker_op I) ft ft' :
  tracker_step op ft = Ret ft' → FrameLimitTracker.tx_limit ft' = FrameLimitTracker.tx_limit ft.
Proof.
  unfold FrameLimitTracker.tx_limit.
  destruct op as [i|l i|ok|c|c]; simpl; unfold FrameLimitTracker.push_frame,
    FrameLimitTracker.pop_frame, FrameLimitTracker.frame_mut, FrameLimitTracker.tx_mut;
    intros Hst.
  - by outcome_inv.
  - by outcome_inv.
  - destruct (frame_stack ft) as [|e [|p rest]]; outcome_inv; try done.
    by eapply merge_into_limit.
  - destruct (frame_stack ft); outcome_inv; done.
  - outcome_inv. by eapply record_charge_limit.
Qed.

Lemma cg_step_limit op t t' :
  cg_step op t = Ret t' →
  FrameLimitTracker.tx_limit (cg_frame_tracker t') = FrameLimitTracker.tx_limit (cg_frame_tracker t).
Proof.
  destruct op as [|r|gas|cap]; simpl; unfold ComputeGasTracker.push_frame,
    ComputeGasTracker.record_gas_used, ComputeGasTracker.set_detained_limit, pop_on_return;
    intros Hst.
  - outcome_inv. destruct (cg_rex4_enabled t).
    + by apply (tracker_step_limit (TPush tt)).
    + outcome_inv. by apply (tracker_step_limit (TPushLimit u64_max tt)).
  - outcome_inv. match goal with Hp : FrameLimitTracker.pop_frame ?ok _ = Ret _ |- _ =>
      apply (tracker_step_limit (TPop ok)); simpl; by rewrite Hp end.
  - outcome_inv. destruct (FrameLimitTracker.has_active_frame _).
    + by apply (tracker_step_limit (TCharge (Persistent gas))).
    + by apply (tracker_step_limit (TTxCharge (Persistent gas))).
  - by outcome_inv.
Qed.

Lemma cg_new_inv spec limit :
  in_u64 limit → cg_inv 0 (ComputeGasTracker.new spec limit) (mkMeter 0 limit).
Proof.
  intros Hl. exists (mkLedger [] []). by split_and!.
Qed.
End compute_gas_runs.

Section compute_gas_summary.
Context `{Profile} `{InstructionResultApi}.

Lemma cg_run_new spec limit ops :
  in_u64 limit → Forall cg_op_ok ops → well_nested 0 ops → cg_recorded ops ≤ u64_max →
  let rex4 := MegaSpecId.is_enabled spec REX4 in
  let m := foldl (meter_step rex4) (mkMeter 0 limit) ops in
  ∃ t, cg_run ops (ComputeGasTracker.new spec limit) = Ret t ∧
    ComputeGasTracker.tx_usage t = Ret (cg_recorded ops) ∧
    ComputeGasTracker.tx_limit t = meter_detained m ∧
    meter_detained m ≤ limit.
Proof.
  intros Hl Hops Hn Hroom rex4 m.
  destruct (cg_run_refines ops 0 _ _ (cg_new_inv spec limit Hl) Hops Hn) as
    (t&d&Hrun&Hinv&Hr4&Hr1&Hu); [done|].
  exists t. split; [done|]. change (cg_rex4_enabled _) with rex4 in Hinv, Hu.
  fold m in Hinv, Hu. simpl in Hu. assert (meter_used m ≤ u64_max) as Hm by lia.
  destruct (cg_inv_ok d t m Hinv Hm) as (_&_&Hus&_).
  assert (meter_detained m ≤ limit) as Hdet.
  { unfold m. clear. change limit with (meter_detained (mkMeter 0 limit)) at 2.
    generalize (mkMeter 0 limit). induction ops as [|op ops IH]; intros m; simpl; [lia|].
    etrans; [apply IH|]. destruct op; simpl; lia. }
  split; [by rewrite Hus, Hu|]. split; [|done].
  unfold ComputeGasTracker.tx_limit. destruct Hinv as (s&Hh&_&_&_&_&->).
  replace (FrameLimitTracker.tx_limit (cg_frame_tracker t)) with limit; [lia|].
  symmetry. clear -Hrun.
  assert (∀ ops t0 t, cg_run ops t0 = Ret t →
    FrameLimitTracker.tx_limit (cg_frame_tracker t) =
    FrameLimitTracker.tx_limit (cg_frame_tracker t0)) as Hkeep; [|by rewrite (Hkeep _ _ _ Hrun)].
  clear. induction ops as [|op ops IH]; intros t0 t Hrun; simpl in Hrun; [by outcome_inv|].
  outcome_inv. etrans; [by eapply IH|]. by eapply cg_step_limit.
Qed.

Lemma cg_run_app ops ops' t :
  cg_run (ops ++ ops') t = t' ← cg_run ops t; cg_run ops' t'.
Proof.
  revert t. induction ops as [|op ops IH]; intros t; simpl; [done|].
  destruct (cg_step op t); simpl; [apply IH|done].
Qed.
Lemma cg_recorded_app ops ops' : cg_recorded (ops ++ ops') = cg_recorded ops + cg_recorded ops'.
Proof. induction ops as [|[] ops IH]; simpl in *; lia. Qed.
Lemma cg_recorded_nonneg ops : Forall cg_op_ok ops → 0 ≤ cg_recorded ops.
Proof. induction 1 as [|[] ops Ho _ IH]; simpl in *; lia. Qed.
Lemma well_nested_app_l d ops ops' : well_nested d (ops ++ ops') → well_nested d ops.
Proof.
  revert d. induction ops as [|[] ops IH]; intros d; simpl; try apply IH; [done|].
  destruct d; [done|apply IH].
Qed.

Lemma meter_stable (rex4 : bool) (cap : Z) (m : meter) (ops : list cg_op) :
  Forall cg_op_ok ops →
  Forall (λ op, match op with CgDetain c => cap ≤ c | _ => True end) ops →
  meter_detained m ≤ (if rex4 then sat_add (meter_used m) cap else cap) →
  meter_detained (foldl (meter_step rex4) m ops) = meter_detained m.
Proof.
  intros Hops. revert m. induction Hops as [|op ops Hop _ IH]; intros m Hcaps Hle; [done|].
  inversion_clear Hcaps as [|? ? Hcap Hcaps']. simpl.
  assert (meter_detained (meter_step rex4 m op) = meter_detained m) as Heq.
  { destruct op; simpl; try done. destruct rex4; unfold sat_add in *; lia. }
  rewrite IH; [done|done|]. rewrite Heq.
  destruct op, rex4; simpl in *; unfold sat_add in *; lia.
Qed.
End compute_gas_summary.

(** ** Charges at the start of a transaction *)
Section intrinsic.
Context `{Profile}.

(** The authorizations whose authority could be recovered. *)
Definition recovered (l : list (option Address)) : Z :=
  Z.of_nat (length (List.filter (λ a, bool_decide (is_Some a)) l)).

Definition plus_persistent {I} (n : Z) (ft : FrameLimitTracker I) : FrameLimitTracker I :=
  mkTracker (mkEntry (FrameLimit.limit (tx_entry ft)) (persistent_usage (tx_entry ft) + n)
    (discardable_usage (tx_entry ft)) (refund (tx_entry ft)) (info (tx_entry ft)))
    (frame_stack ft).

Lemma tx_mut_persistent {I} n (ft : FrameLimitTracker I) :
  in_u64 (persistent_usage (tx_entry ft) + n) →
  FrameLimitTracker.tx_mut (FrameLimitEntry.add_persistent n) ft = Ret (plus_persistent n ft).
Proof. intros Hn. unfold FrameLimitTracker.tx_mut. by rewrite add_persistent_spec. Qed.

Lemma plus_persistent_plus {I} n m (ft : FrameLimitTracker I) :
  plus_persistent m (plus_persistent n ft) = plus_persistent (n + m) ft.
Proof. unfold plus_persistent. simpl. by rewrite Z.add_assoc. Qed.

Lemma plus_persistent_0 {I} (ft : FrameLimitTracker I) : plus_persistent 0 ft = ft.
Proof. destruct ft as [[]]. unfold plus_persistent. simpl. by rewrite Z.add_0_r. Qed.

Lemma charge_authorities_spec {I} amount l (ft : FrameLimitTracker I) :
  0 ≤ amount → 0 ≤ persistent_usage (tx_entry ft) →
  persistent_usage (tx_entry ft) + amount * recovered l ≤ u64_max →
  charge_authorities amount l ft = Ret (plus_persistent (amount * recovered l) ft).
Proof.
  intros Ha. revert ft. unfold recovered. induction l as [|[a|] l IH]; intros ft H0 Hroom; simpl in *.
  - by rewrite Z.mul_0_r, plus_persistent_0.
  - rewrite Nat2Z.inj_succ in *. pose proof (Nat2Z.is_nonneg
      (length (List.filter (λ a, bool_decide (is_Some a)) l))).
    rewrite tx_mut_persistent by (unfold in_u64; nia). simpl.
    rewrite IH by (simpl; nia). rewrite plus_persistent_plus. do 2 f_equal. lia.
  - by apply IH.
Qed.

Lemma sum_u64_spec acc l :
  0 ≤ acc → Forall (λ x, 0 ≤ x) l → acc + foldr Z.add 0 l ≤ u64_max →
  DataSizeTracker.sum_u64 acc l = Ret (acc + foldr Z.add 0 l).
Proof.
  intros Hacc Hl. revert acc Hacc. induction Hl as [|x l Hx Hl IH]; intros acc Hacc Hroom; simpl in *.
  - by rewrite Z.add_0_r.
  - assert (0 ≤ foldr Z.add 0 l) by (clear -Hl; induction Hl; simpl; lia).
    rewrite add_u64_in by (unfold in_u64; lia). simpl. rewrite IH by lia. f_equal. lia.
Qed.

(** The bytes of a transaction: its base size, its calldata, its access list and
    its authorizations. *)
Definition tx_bytes (tx : MegaTransaction) : Z :=
  110 + Z.of_nat (length (tx_input tx))
  + foldr Z.add 0 (default [] (tx_access_list_sizes tx))
  + tx_authorization_list_len tx * 101.

Definition tx_well_formed (tx : MegaTransaction) : Prop :=
  tx_authorization_list_len tx = Z.of_nat (length (tx_authorization_list tx)) ∧
  Forall (λ x, 0 ≤ x) (default [] (tx_access_list_sizes tx)).
End intrinsic.

(** ** Properties *)

(** C12: Compute gas is never given back: for every well-nested sequence of frames,
    returns of any kind, recorded gas and detentions, the tracker of every spec
    runs without panic, reports as usage the sum of all gas ever recorded, whether
    or not the frames that used it succeeded, and holds the detained limit of the
    two-number meter (an absolute cap before Rex4, usage at the access plus the
    cap from Rex4 on, never above the transaction limit). *)
Theorem compute_gas_refines_meter `{Profile} `{InstructionResultApi} spec limit ops :
  in_u64 limit → Forall cg_op_ok ops → well_nested 0 ops → cg_recorded ops ≤ u64_max →
  let rex4 := MegaSpecId.is_enabled spec REX4 in
  let m := foldl (meter_step rex4) (mkMeter 0 limit) ops in
  ∃ t, cg_run ops (ComputeGasTracker.new spec limit) = Ret t ∧
    ComputeGasTracker.tx_usage t = Ret (cg_recorded ops) ∧
    ComputeGasTracker.tx_limit t = meter_detained m ∧
    meter_detained m ≤ limit.
Proof. apply cg_run_new. Qed.

Definition example_cg_ops : list cg_op :=
  [CgRecord 100; CgFrame; CgRecord 30; CgFrame; CgDetain 50; CgRecord 7; CgReturn Revert;
   CgDetain 50; CgReturn OutOfGas].

Lemma compute_gas_refines_meter_witness :
  ∃ t, @cg_run checked_build reference_instruction_result example_cg_ops
         (ComputeGasTracker.new REX4 1000) = Ret t ∧
    @ComputeGasTracker.tx_usage checked_build t = Ret 137 ∧
    ComputeGasTracker.tx_limit t = 180 ∧ 180 ≤ 1000.
Proof.
  apply (@compute_gas_refines_meter checked_build reference_instruction_result REX4 1000
    example_cg_ops).
  - u64_lia.
  - repeat constructor; simpl; try lia; u64_lia.
  - repeat constructor.
  - vm_compute. discriminate.
Defined.

(** Once volatile data was accessed, applying the cap again at a later
    access never tightens nor loosens the limit: after a detention with [cap],
    later detentions with caps that are not smaller leave the effective limit
    where it was, in every spec. *)
Theorem detention_is_stable `{Profile} `{InstructionResultApi} spec limit ops1 cap ops2 :
  in_u64 limit → Forall cg_op_ok (ops1 ++ CgDetain cap :: ops2) →
  well_nested 0 (ops1 ++ CgDetain cap :: ops2) →
  cg_recorded (ops1 ++ CgDetain cap :: ops2) ≤ u64_max →
  Forall (λ op, match op with CgDetain c => cap ≤ c | _ => True end) ops2 →
  ∃ t1 t2, cg_run (ops1 ++ [CgDetain cap]) (ComputeGasTracker.new spec limit) = Ret t1 ∧
    cg_run ops2 t1 = Ret t2 ∧
    ComputeGasTracker.tx_limit t2 = ComputeGasTracker.tx_limit t1.
Proof.
  intros Hl Hops Hn Hroom Hcaps. set (rex4 := MegaSpecId.is_enabled spec REX4).
  destruct (cg_run_new spec limit (ops1 ++ CgDetain cap :: ops2) Hl Hops Hn Hroom) as (t2&Hrun2&Hus2&Hlim2&_).
  rewrite (cons_middle (CgDetain cap) ops1 ops2), (assoc_L (++)) in *.
  apply well_nested_app_l in Hn. rewrite cg_recorded_app in Hroom.
  apply Forall_app in Hops as [Hops Hops2].
  assert (0 ≤ cg_recorded ops2) as Hrec2 by (by apply cg_recorded_nonneg).
  destruct (cg_run_new spec limit _ Hl Hops Hn ltac:(lia)) as (t1&Hrun1&Hus1&Hlim1&_).
  rewrite cg_run_app, Hrun1 in Hrun2. simpl in Hrun2.
  exists t1, t2. split_and!; [done|done|]. rewrite Hlim2, Hlim1. fold rex4.
  rewrite !foldl_app. simpl. apply (meter_stable _ cap); [done|done|]. simpl. fold rex4. lia.
Qed.

Lemma detention_is_stable_witness :
  ∃ t1 t2,
    @cg_run checked_build reference_instruction_result ([CgRecord 100; CgFrame] ++ [CgDetain 50])
      (ComputeGasTracker.new REX4 1000) = Ret t1 ∧
    @cg_run checked_build reference_instruction_result
      [CgRecord 7; CgDetain 50; CgReturn Revert; CgDetain 60] t1 = Ret t2 ∧
    ComputeGasTracker.tx_limit t2 = ComputeGasTracker.tx_limit t1.
Proof.
  apply (@detention_is_stable checked_build reference_instruction_result REX4 1000
    [CgRecord 100; CgFrame] 50).
  - u64_lia.
  - repeat constructor; simpl; try lia; u64_lia.
  - repeat constructor.
  - vm_compute. discriminate.
  - repeat constructor; lia.
Defined.

(** C14: Any sequence of writes to one storage slot inside a frame costs exactly
    the difference between where the slot ends and where it stood before: with the
    slot's value [original] at the start of the transaction and [p] before the
    writes, the net data size of the frame moves by 40 bytes and its net KV
    updates by 1 precisely when the slot stops (or starts again) to be [original],
    and its net state growth by 1 precisely when a slot that was zero at the start
    becomes non-zero (or zero again); nothing else in the trackers changes. *)
Theorem sstores_charge_net_change `{Profile} `{SStoreApi} (laws : SStoreLaws) original p vs
    ds kv sg eds ekv esg rds rkv rsg :
  frame_stack (ds_frame_tracker ds) = eds :: rds → room_for 40 (Z.of_nat (length vs)) eds →
  frame_stack (kv_frame_tracker kv) = ekv :: rkv → room_for 1 (Z.of_nat (length vs)) ekv →
  frame_stack (sg_frame_tracker sg) = esg :: rsg → room_for 1 (Z.of_nat (length vs)) esg →
  let final := default p (last vs) in
  let writes := write_results original p vs in
  ∃ ds' kv' sg',
    run_sstores DataSizeTracker.after_sstore writes ds = Ret ds' ∧
    run_sstores KVUpdateTracker.after_sstore writes kv = Ret kv' ∧
    run_sstores StateGrowthTracker.after_sstore writes sg = Ret sg' ∧
    moved_by (differs 40 original final - differs 40 original p)
      (ds_frame_tracker ds) (ds_frame_tracker ds') ∧
    moved_by (differs 1 original final - differs 1 original p)
      (kv_frame_tracker kv) (kv_frame_tracker kv') ∧
    moved_by (grows original final - grows original p)
      (sg_frame_tracker sg) (sg_frame_tracker sg').
Proof.
  intros Hds Rds Hkv Rkv Hsg Rsg final writes.
  destruct (data_size_sstore original vs p ds eds rds Hds Rds) as (ds'&?&_&?).
  destruct (kv_update_sstore original vs p kv ekv rkv Hkv Rkv) as (kv'&?&_&?).
  destruct (state_growth_sstore original vs p sg esg rsg Hsg Rsg) as (sg'&?&_&?).
  exists ds', kv', sg'. by split_and!.
Qed.

Lemma sstores_charge_net_change_witness :
  let ds := mkDataSize true (mkTracker (mkEntry 9 0 0 0 tt)
    [mkEntry 900 0 0 0 (mkCallFrameInfo None false)]) in
  let kv := mkKVUpdate true (mkTracker (mkEntry 9 0 0 0 tt)
    [mkEntry 900 0 0 0 (mkCallFrameInfo None false)]) in
  let sg := mkStateGrowth REX4 (mkTracker (mkEntry 9 0 0 0 tt) [mkEntry 900 0 0 0 tt]) in
  ∃ ds' kv' sg',
    @run_sstores _ (@DataSizeTracker.after_sstore checked_build reference_sstore)
      (write_results 0 0 [5; 6; 0; 7]) ds = Ret ds' ∧
    @run_sstores _ (@KVUpdateTracker.after_sstore checked_build reference_sstore)
      (write_results 0 0 [5; 6; 0; 7]) kv = Ret kv' ∧
    @run_sstores _ (@StateGrowthTracker.after_sstore checked_build)
      (write_results 0 0 [5; 6; 0; 7]) sg = Ret sg' ∧
    moved_by 40 (ds_frame_tracker ds) (ds_frame_tracker ds') ∧
    moved_by 1 (kv_frame_tracker kv) (kv_frame_tracker kv') ∧
    moved_by 1 (sg_frame_tracker sg) (sg_frame_tracker sg').
Proof.
  intros ds kv sg.
  eapply (@sstores_charge_net_change checked_build reference_sstore reference_sstore_laws 0 0
    [5; 6; 0; 7] ds kv sg); first [reflexivity | unfold room_for, u64_max; simpl; lia].
Defined.

(** At the start of a transaction the data size tracker is charged, once and
    for all, 110 bytes, the calldata, the access list, 101 bytes per
    authorization, 40 bytes per recovered authority and 40 bytes for the sender;
    the KV tracker one update per recovered authority and one for the sender. *)
Theorem tx_intrinsic_usage `{Profile} spec ds_limit kv_limit tx :
  tx_well_formed tx →
  tx_bytes tx + 40 * recovered (tx_authorization_list tx) + 40 ≤ u64_max →
  let n := recovered (tx_authorization_list tx) in
  ∃ ds kv,
    DataSizeTracker.before_tx_start tx (DataSizeTracker.new spec ds_limit) = Ret ds ∧
    KVUpdateTracker.before_tx_start tx (KVUpdateTracker.new spec kv_limit) = Ret kv ∧
    DataSizeTracker.tx_usage ds = Ret (tx_bytes tx + 40 * n + 40) ∧
    KVUpdateTracker.tx_usage kv = Ret (n + 1) ∧
    DataSizeTracker.has_active_frame ds = false.
Proof.
  intros [Hlen Hacc] Hroom n. fold n in Hroom.
  assert (0 ≤ n) by (unfold n, recovered; lia).
  assert (0 ≤ foldr Z.add 0 (default [] (tx_access_list_sizes tx)))
    by (clear -Hacc; induction Hacc; simpl; lia).
  unfold tx_bytes in Hroom. unfold DataSizeTracker.before_tx_start, KVUpdateTracker.before_tx_start.
  assert (match tx_access_list_sizes tx with
          | Some sizes => DataSizeTracker.sum_u64 0 sizes | None => Ret 0 end =
          Ret (foldr Z.add 0 (default [] (tx_access_list_sizes tx)))) as Hsum.
  { destruct (tx_access_list_sizes tx); simpl in *; [|done]. rewrite sum_u64_spec; done || lia. }
  unfold BASE_TX_SIZE, AUTHORIZATION_SIZE, ACCOUNT_INFO_WRITE_SIZE, SALT_KEY_SIZE,
    SALT_VALUE_DELTA_ACCOUNT_INFO_SIZE.
  rewrite add_u64_in by (unfold in_u64; lia). simpl. rewrite Hsum. simpl.
  rewrite add_u64_in by (unfold in_u64; lia). simpl.
  rewrite mul_u64_in by (unfold in_u64; lia). simpl.
  rewrite add_u64_in by (unfold in_u64; lia). simpl.
  rewrite tx_mut_persistent by (simpl; unfold in_u64; lia). simpl.
  rewrite charge_authorities_spec by (simpl; fold n; lia). simpl.
  rewrite tx_mut_persistent by (simpl; fold n; unfold in_u64; lia). simpl.
  rewrite charge_authorities_spec by (simpl; fold n; lia). simpl.
  rewrite tx_mut_persistent by (simpl; fold n; unfold in_u64; lia). simpl.
  do 2 eexists. split; [reflexivity|]. split; [reflexivity|].
  unfold DataSizeTracker.tx_usage, KVUpdateTracker.tx_usage. simpl. fold n.
  split_and!; [| |done]; unfold FrameLimitTracker.net_usage, FrameLimitEntry.used, checked_add;
    simpl; fold n; rewrite decide_True by lia; simpl; f_equal; unfold sat_sub, tx_bytes; lia.
Qed.

Lemma tx_intrinsic_usage_witness :
  let tx := example_tx [Byte.x01; Byte.x02] (Some [20; 52]) [Some 7; None] 2 in
  ∃ ds kv,
    @DataSizeTracker.before_tx_start checked_build tx (DataSizeTracker.new REX 1000) = Ret ds ∧
    @KVUpdateTracker.before_tx_start checked_build tx (KVUpdateTracker.new REX 1000) = Ret kv ∧
    @DataSizeTracker.tx_usage checked_build ds = Ret 466 ∧
    @KVUpdateTracker.tx_usage checked_build kv = Ret 2 ∧
    DataSizeTracker.has_active_frame ds = false.
Proof.
  intros tx. apply (@tx_intrinsic_usage checked_build REX 1000 1000 tx).
  - split; [reflexivity|]. repeat constructor; lia.
  - vm_compute. discriminate.
Defined.
