(* ===== verification/AdditionalLimit.v ===== *)
(** * The additional limits of a transaction

    Models [limit/limit.rs]: the coordinator of the four trackers, its hooks into
    frame and instruction execution, the sticky exceed flag, the rescue of gas and
    the two ways an exceed ends (a halt of the transaction, or a revert of the
    frame absorbed at its boundary). *)
From S2P Require Import Prelude Spec Deps Volatile LimitTypes FrameLimit Trackers.
Open Scope Z_scope.

Record AdditionalLimit := mkAdditionalLimit {
  has_exceeded_limit : LimitCheck;
  rescued_gas : Z;
  limits : EvmTxRuntimeLimits;
  state_growth : StateGrowthTracker;
  data_size : DataSizeTracker;
  kv_update : KVUpdateTracker;
  compute_gas : ComputeGasTracker;
}.

Record LimitUsage := mkLimitUsage {
  lu_data_size : Z;
  lu_kv_updates : Z;
  lu_compute_gas : Z;
  lu_state_growth : Z;
}.

(** ** The free functions at the end of [limit.rs] *)
Section frame_results.
Context {Gas : Type}.

Definition create_exceeding_interpreter_result (instruction_result : InstructionResult)
    (gas : Gas) (output : Bytes) : InterpreterResult Gas :=
  mkInterpreterResult instruction_result output gas.

Definition create_exceeding_limit_frame_result (instruction_result : InstructionResult)
    (gas : Gas) (return_memory_offset : option (Z * Z)) (output : Bytes) : FrameResult Gas :=
  match return_memory_offset with
  | None =>
      FrameResultCreate (create_exceeding_interpreter_result instruction_result gas output) None
  | Some return_memory_offset =>
      FrameResultCall (create_exceeding_interpreter_result instruction_result gas output)
        return_memory_offset
  end.

Definition mark_interpreter_result_as_exceeding_limit
    (instruction_result : InstructionResult) (output : Bytes)
    (result : InterpreterResult Gas) : InterpreterResult Gas :=
  mkInterpreterResult instruction_result output (ir_gas result).

Definition mark_frame_result_as_exceeding_limit
    (instruction_result : InstructionResult) (output : Bytes)
    (result : FrameResult Gas) : FrameResult Gas :=
  frame_result_map (mark_interpreter_result_as_exceeding_limit instruction_result output) result.
End frame_results.

Module AdditionalLimit.
Section ops.
Context `{Profile} `{InstructionResultApi} `{SStoreApi} `{AbiApi}
  {Gas J E Account : Type} `{GasApi Gas} `{JournalInspectTr J E Account}
  `{AccountApi Account}.

(** Assignments to one field. *)
Definition set_exceeded (v : LimitCheck) (self : AdditionalLimit) :=
  mkAdditionalLimit v (rescued_gas self) (limits self) (state_growth self)
    (data_size self) (kv_update self) (compute_gas self).
Definition set_rescued_gas (v : Z) (self : AdditionalLimit) :=
  mkAdditionalLimit (has_exceeded_limit self) v (limits self) (state_growth self)
    (data_size self) (kv_update self) (compute_gas self).
Definition set_state_growth (v : StateGrowthTracker) (self : AdditionalLimit) :=
  mkAdditionalLimit (has_exceeded_limit self) (rescued_gas self) (limits self) v
    (data_size self) (kv_update self) (compute_gas self).
Definition set_data_size (v : DataSizeTracker) (self : AdditionalLimit) :=
  mkAdditionalLimit (has_exceeded_limit self) (rescued_gas self) (limits self)
    (state_growth self) v (kv_update self) (compute_gas self).
Definition set_kv_update (v : KVUpdateTracker) (self : AdditionalLimit) :=
  mkAdditionalLimit (has_exceeded_limit self) (rescued_gas self) (limits self)
    (state_growth self) (data_size self) v (compute_gas self).
Definition set_compute_gas (v : ComputeGasTracker) (self : AdditionalLimit) :=
  mkAdditionalLimit (has_exceeded_limit self) (rescued_gas self) (limits self)
    (state_growth self) (data_size self) (kv_update self) v.

Definition new (spec : MegaSpecId) (limits : EvmTxRuntimeLimits) : AdditionalLimit := {|
  has_exceeded_limit := WithinLimit;
  rescued_gas := 0;
  AdditionalLimit.limits := limits;
  state_growth := StateGrowthTracker.new spec (tx_state_growth_limit limits);
  data_size := DataSizeTracker.new spec (tx_data_size_limit limits);
  kv_update := KVUpdateTracker.new spec (tx_kv_updates_limit limits);
  compute_gas := ComputeGasTracker.new spec (tx_compute_gas_limit limits) |}.

Definition EXCEEDING_LIMIT_INSTRUCTION_RESULT : InstructionResult := OutOfGas.

Definition exceeding_instruction_result (self : AdditionalLimit) : InstructionResult :=
  if LimitCheck.is_frame_local (has_exceeded_limit self) then Revert
  else EXCEEDING_LIMIT_INSTRUCTION_RESULT.

Definition reset (self : AdditionalLimit) : AdditionalLimit :=
  let self := set_exceeded WithinLimit self in
  let self := set_rescued_gas 0 self in
  let self := set_compute_gas (ComputeGasTracker.reset (compute_gas self)) self in
  let self := set_state_growth (StateGrowthTracker.reset (state_growth self)) self in
  let self := set_data_size (DataSizeTracker.reset (data_size self)) self in
  set_kv_update (KVUpdateTracker.reset (kv_update self)) self.

Definition get_usage (self : AdditionalLimit) : outcome LimitUsage :=
  d ← DataSizeTracker.tx_usage (data_size self);
  k ← KVUpdateTracker.tx_usage (kv_update self);
  c ← ComputeGasTracker.tx_usage (compute_gas self);
  s ← StateGrowthTracker.tx_usage (state_growth self);
  Ret (mkLimitUsage d k c s).

Definition push_empty_frame (self : AdditionalLimit) : outcome AdditionalLimit :=
  sg ← StateGrowthTracker.push_frame (state_growth self);
  ds ← DataSizeTracker.push_empty_frame (data_size self);
  kv ← KVUpdateTracker.push_empty_frame (kv_update self);
  cg ← ComputeGasTracker.push_frame (compute_gas self);
  Ret (set_compute_gas cg (set_kv_update kv (set_data_size ds (set_state_growth sg self)))).

Definition compute_gas_limit (self : AdditionalLimit) : Z :=
  ComputeGasTracker.tx_limit (compute_gas self).

Definition current_call_remaining_compute_gas (self : AdditionalLimit) : outcome Z :=
  ComputeGasTracker.current_call_remaining (compute_gas self).

Definition detained_compute_gas_limit (self : AdditionalLimit) : Z :=
  detained_limit (compute_gas self).

Definition detained_compute_gas_halt_reason (access_type : VolatileDataAccess)
    (self : AdditionalLimit) : outcome (option MegaHaltReason) :=
  exceeds ← ComputeGasTracker.is_detained_exceed (compute_gas self);
  if exceeds : bool then
    actual ← ComputeGasTracker.tx_usage (compute_gas self);
    Ret (Some (VolatileDataAccessOutOfGas access_type
                 (detained_limit (compute_gas self)) actual))
  else Ret None.

Definition set_compute_gas_limit (new_limit : Z) (self : AdditionalLimit) :
    outcome AdditionalLimit :=
  cg ← ComputeGasTracker.set_detained_limit new_limit (compute_gas self);
  Ret (set_compute_gas cg self).

Definition check_limit (self : AdditionalLimit) : outcome (AdditionalLimit * LimitCheck) :=
  if LimitCheck.exceeded_limit (has_exceeded_limit self)
  then Ret (self, has_exceeded_limit self)
  else
    data_size_check ← DataSizeTracker.check_limit (data_size self);
    if LimitCheck.exceeded_limit data_size_check
    then Ret (set_exceeded data_size_check self, data_size_check)
    else
      kv_update_check ← KVUpdateTracker.check_limit (kv_update self);
      if LimitCheck.exceeded_limit kv_update_check
      then Ret (set_exceeded kv_update_check self, kv_update_check)
      else
        compute_gas_check ← ComputeGasTracker.check_limit (compute_gas self);
        if LimitCheck.exceeded_limit compute_gas_check
        then Ret (set_exceeded compute_gas_check self, compute_gas_check)
        else
          state_growth_check ← StateGrowthTracker.check_limit (state_growth self);
          if LimitCheck.exceeded_limit state_growth_check
          then Ret (set_exceeded state_growth_check self, state_growth_check)
          else Ret (self, has_exceeded_limit self).

Definition is_exceeding_limit_halt (halt_reason : OpHaltReason) (self : AdditionalLimit) :
    outcome (AdditionalLimit * bool) :=
  match halt_reason with
  | OpBase HaltOutOfGasBasic =>
      '(self, c) ← check_limit self;
      Ret (self, LimitCheck.exceeded_limit c)
  | _ => Ret (self, false)
  end.

(** The tail [!self.check_limit().exceeded_limit()] of the recording hooks. *)
Definition still_within (self : AdditionalLimit) : outcome (AdditionalLimit * bool) :=
  '(self, c) ← check_limit self;
  Ret (self, negb (LimitCheck.exceeded_limit c)).

Definition record_compute_gas (compute_gas_used : Z) (self : AdditionalLimit) :
    outcome (AdditionalLimit * bool) :=
  cg ← ComputeGasTracker.record_gas_used compute_gas_used (compute_gas self);
  still_within (set_compute_gas cg self).

Definition rescue_gas (gas : Gas) (self : AdditionalLimit) : outcome AdditionalLimit :=
  r ← add_u64 (rescued_gas self) (gas_remaining gas);
  Ret (set_rescued_gas r self).

Definition try_rescue_gas (gas : Gas) (self : AdditionalLimit) : outcome AdditionalLimit :=
  '(self, limit_check) ← check_limit self;
  if LimitCheck.exceeded_limit limit_check && negb (LimitCheck.is_frame_local limit_check)
  then rescue_gas gas self
  else Ret self.

Definition before_tx_start (tx : MegaTransaction) (self : AdditionalLimit) :
    outcome (AdditionalLimit * bool) :=
  ds ← DataSizeTracker.before_tx_start tx (data_size self);
  kv ← KVUpdateTracker.before_tx_start tx (kv_update self);
  still_within (set_kv_update kv (set_data_size ds self)).

(** The frame hooks of the four trackers, through their common interface. *)
Definition on_trackers
    (f : ∀ T, TxRuntimeLimit T J E Gas → T → outcome T) (self : AdditionalLimit) :
    outcome AdditionalLimit :=
  sg ← f _ _ (state_growth self);
  ds ← f _ _ (data_size self);
  kv ← f _ _ (kv_update self);
  cg ← f _ _ (compute_gas self);
  Ret (set_compute_gas cg (set_kv_update kv (set_data_size ds (set_state_growth sg self)))).

(** The four [before_frame_init(frame_init, journal)?] in a row: the first
    error ends the hook, with the changes made so far. *)
Definition init_trackers (frame_init : FrameInit) (journal : J) (self : AdditionalLimit) :
    outcome (AdditionalLimit * J * result unit E) :=
  '(sg, journal, r) ← trl_before_frame_init (Gas:=Gas) frame_init journal (state_growth self);
  let self := set_state_growth sg self in
  match r with
  | Err e => Ret (self, journal, Err e)
  | Ok _ =>
    '(ds, journal, r) ← trl_before_frame_init (Gas:=Gas) frame_init journal (data_size self);
    let self := set_data_size ds self in
    match r with
    | Err e => Ret (self, journal, Err e)
    | Ok _ =>
      '(kv, journal, r) ← trl_before_frame_init (Gas:=Gas) frame_init journal (kv_update self);
      let self := set_kv_update kv self in
      match r with
      | Err e => Ret (self, journal, Err e)
      | Ok _ =>
        '(cg, journal, r) ←
          trl_before_frame_init (Gas:=Gas) frame_init journal (compute_gas self);
        Ret (set_compute_gas cg self, journal, r)
      end
    end
  end.

Definition before_frame_init (frame_init : FrameInit) (journal : J) (self : AdditionalLimit) :
    outcome (AdditionalLimit * J * result (option (FrameResult Gas)) E) :=
  '(self, journal, r) ← init_trackers frame_init journal self;
  match r with
  | Err e => Ret (self, journal, Err e)
  | Ok _ =>
      '(self, c) ← check_limit self;
      if LimitCheck.exceeded_limit c then
        '(gas_limit, return_memory_offset) ←
          match fi_frame_input frame_init with
          | FrameInputCreate inputs => Ret (crin_gas_limit inputs, None)
          | FrameInputCall inputs =>
              Ret (cin_gas_limit inputs, Some (cin_return_memory_offset inputs))
          | FrameInputEmpty => Panic
          end;
        let output := LimitCheck.revert_data (has_exceeded_limit self) in
        let result := create_exceeding_limit_frame_result
          (exceeding_instruction_result self) (gas_new gas_limit) return_memory_offset output in
        self ← try_rescue_gas (frame_result_gas result) self;
        Ret (self, journal, Ok (Some result))
      else Ret (self, journal, Ok None)
  end.

Definition after_frame_init (init_result : ItemOrResult (EthFrame Gas) (FrameResult Gas))
    (self : AdditionalLimit) : outcome AdditionalLimit :=
  match init_result with
  | Item frame =>
      on_trackers (λ T (inst : TxRuntimeLimit T J E Gas),
        trl_after_frame_init_on_frame frame) self
  | Result result => try_rescue_gas (frame_result_gas result) self
  end.

Definition before_frame_run (frame : EthFrame Gas) (self : AdditionalLimit) :
    outcome (AdditionalLimit * option (InterpreterResult Gas)) :=
  self ← on_trackers (λ T (inst : TxRuntimeLimit T J E Gas), trl_before_frame_run frame) self;
  '(self, c) ← check_limit self;
  if LimitCheck.exceeded_limit c then
    let output := LimitCheck.revert_data (has_exceeded_limit self) in
    Ret (self, Some (create_exceeding_interpreter_result
                       (exceeding_instruction_result self) (frame_gas frame) output))
  else Ret (self, None).

Definition after_frame_run (result : FrameResult Gas)
    (gas_remaining_before_process_action : option Z) (self : AdditionalLimit) :
    outcome (AdditionalLimit * FrameResult Gas) :=
  '(self, result) ←
    match gas_remaining_before_process_action with
    | Some gas_remaining_before =>
        let compute_gas_cost :=
          sat_sub gas_remaining_before (gas_remaining (frame_result_gas result)) in
        '(self, within) ← record_compute_gas compute_gas_cost self;
        if within : bool then Ret (self, result)
        else Ret (self, mark_frame_result_as_exceeding_limit
                          (exceeding_instruction_result self) Bytes_new result)
    | None => Ret (self, result)
    end;
  self ← try_rescue_gas (frame_result_gas result) self;
  Ret (self, result).

Definition after_frame_run_instructions (frame : EthFrame Gas)
    (action : InterpreterAction Gas) (self : AdditionalLimit) :
    outcome (AdditionalLimit * InterpreterAction Gas) :=
  self ← on_trackers (λ T (inst : TxRuntimeLimit T J E Gas),
           trl_after_frame_run frame action) self;
  match action with
  | ActionReturn interpreter_result =>
      if frame_is_create frame then
        if LimitCheck.exceeded_limit (has_exceeded_limit self) then
          let output := LimitCheck.revert_data (has_exceeded_limit self) in
          Ret (self, ActionReturn (mark_interpreter_result_as_exceeding_limit
                 (exceeding_instruction_result self) output interpreter_result))
        else
          '(self, c) ← check_limit self;
          if LimitCheck.exceeded_limit c then
            let output := LimitCheck.revert_data (has_exceeded_limit self) in
            Ret (self, ActionReturn (mark_interpreter_result_as_exceeding_limit
                   (exceeding_instruction_result self) output interpreter_result))
          else Ret (self, action)
      else Ret (self, action)
  | ActionNewFrame _ => Ret (self, action)
  end.

Definition before_frame_return_result (LAST_FRAME : bool) (result : FrameResult Gas)
    (self : AdditionalLimit) : outcome (AdditionalLimit * FrameResult Gas) :=
  let duplicate_return_frame_result :=
    LAST_FRAME && negb (DataSizeTracker.has_active_frame (data_size self)) in
  self ← on_trackers (λ T (inst : TxRuntimeLimit T J E Gas),
           trl_before_frame_return_result LAST_FRAME result) self;
  '(self, limit_check) ← check_limit self;
  if LimitCheck.exceeded_limit limit_check && negb duplicate_return_frame_result then
    if LimitCheck.is_frame_local limit_check then
      let output := LimitCheck.revert_data limit_check in
      let self := set_exceeded WithinLimit self in
      Ret (self, frame_result_map (λ r, mkInterpreterResult Revert output (ir_gas r)) result)
    else
      Ret (self, mark_frame_result_as_exceeding_limit
                   EXCEEDING_LIMIT_INSTRUCTION_RESULT Bytes_new result)
  else Ret (self, result).

Definition on_sstore (store_result : SStoreResult) (self : AdditionalLimit) :
    outcome (AdditionalLimit * bool) :=
  self ← on_trackers (λ T (inst : TxRuntimeLimit T J E Gas), trl_after_sstore store_result) self;
  still_within self.

Definition on_log (num_topics data_size : Z) (self : AdditionalLimit) :
    outcome (AdditionalLimit * bool) :=
  ds ← DataSizeTracker.after_log num_topics data_size (AdditionalLimit.data_size self);
  still_within (set_data_size ds self).
End ops.
End AdditionalLimit.

(** ** Hooks as events *)
Section events.
Context `{Profile} `{InstructionResultApi} `{SStoreApi} `{AbiApi}
  {Gas J E Account : Type} `{GasApi Gas} `{JournalInspectTr J E Account}
  `{AccountApi Account}.

Inductive hook_event :=
  | HTxStart (tx : MegaTransaction)
  | HPushEmpty
  | HFrameInit (frame_init : FrameInit) (journal : J)
  | HAfterInit (init_result : ItemOrResult (EthFrame Gas) (FrameResult Gas))
  | HFrameRun (frame : EthFrame Gas)
  | HAfterInstructions (frame : EthFrame Gas) (action : InterpreterAction Gas)
  | HAfterRun (result : FrameResult Gas) (gas_before : option Z)
  | HReturn (last_frame : bool) (result : FrameResult Gas)
  | HSstore (store_result : SStoreResult)
  | HLog (num_topics data_size : Z)
  | HCompute (gas : Z)
  | HDetain (cap : Z).

(** The state after a hook. *)
Definition hook (ev : hook_event) (s : AdditionalLimit) : outcome AdditionalLimit :=
  match ev with
  | HTxStart tx => r ← AdditionalLimit.before_tx_start tx s; Ret (fst r)
  | HPushEmpty => AdditionalLimit.push_empty_frame s
  | HFrameInit fi j =>
      r ← AdditionalLimit.before_frame_init (Gas:=Gas) (E:=E) fi j s; Ret (fst (fst r))
  | HAfterInit r => AdditionalLimit.after_frame_init (J:=J) (E:=E) r s
  | HFrameRun frame => r ← AdditionalLimit.before_frame_run (J:=J) (E:=E) frame s; Ret (fst r)
  | HAfterInstructions frame action =>
      r ← AdditionalLimit.after_frame_run_instructions (J:=J) (E:=E) frame action s; Ret (fst r)
  | HAfterRun result g => r ← AdditionalLimit.after_frame_run result g s; Ret (fst r)
  | HReturn last result =>
      r ← AdditionalLimit.before_frame_return_result (J:=J) (E:=E) last result s; Ret (fst r)
  | HSstore sr => r ← AdditionalLimit.on_sstore (J:=J) (E:=E) (Gas:=Gas) sr s; Ret (fst r)
  | HLog n d => r ← AdditionalLimit.on_log n d s; Ret (fst r)
  | HCompute g => r ← AdditionalLimit.record_compute_gas g s; Ret (fst r)
  | HDetain cap => AdditionalLimit.set_compute_gas_limit cap s
  end.

Fixpoint hooks (evs : list hook_event) (s : AdditionalLimit) : outcome AdditionalLimit :=
  match evs with
  | [] => Ret s
  | ev :: evs => s ← hook ev s; hooks evs s
  end.
End events.

(** ** The checks, abstractly *)
Section checks.
Context `{Profile} `{InstructionResultApi} `{SStoreApi} `{AbiApi}
  {Gas J E Account : Type} `{GasApi Gas} `{JournalInspectTr J E Account}
  `{AccountApi Account}.
Implicit Types s : AdditionalLimit.

(** The first exceeded check of a list. *)
Definition first_exceeded (cs : list LimitCheck) : LimitCheck :=
  default WithinLimit (snd <$> list_find (λ c, LimitCheck.exceeded_limit c = true) cs).

(** The flag only moves from "within" to an exceed that one tracker reports,
    and nothing else moves. *)
Lemma check_limit_cases s s' c :
  AdditionalLimit.check_limit s = Ret (s', c) →
  s' = AdditionalLimit.set_exceeded c s ∧
  (LimitCheck.exceeded_limit (has_exceeded_limit s) = true → c = has_exceeded_limit s) ∧
  (LimitCheck.exceeded_limit (has_exceeded_limit s) = false →
    LimitCheck.exceeded_limit c = true →
    DataSizeTracker.check_limit (data_size s) = Ret c ∨
    KVUpdateTracker.check_limit (kv_update s) = Ret c ∨
    ComputeGasTracker.check_limit (compute_gas s) = Ret c ∨
    StateGrowthTracker.check_limit (state_growth s) = Ret c).
Proof.
  destruct s as [fl rg li sg ds kv cg]. unfold AdditionalLimit.check_limit. simpl.
  destruct (LimitCheck.exceeded_limit fl) eqn:Hfl; intros Hc.
  { by simplify_eq. }
  apply exceeded_limit_false in Hfl as ->.
  repeat (match goal with
  | Hc : (if LimitCheck.exceeded_limit ?c then _ else _) = Ret _ |- _ =>
      destruct (LimitCheck.exceeded_limit c) eqn:?
  | _ => progress outcome_inv
  end); naive_solver.
Qed.

Lemma check_limit_trackers s s' c :
  AdditionalLimit.check_limit s = Ret (s', c) →
  data_size s' = data_size s ∧ kv_update s' = kv_update s ∧ compute_gas s' = compute_gas s ∧
  state_growth s' = state_growth s ∧ rescued_gas s' = rescued_gas s ∧ limits s' = limits s ∧
  has_exceeded_limit s' = c.
Proof. intros (->&_)%check_limit_cases. by destruct s. Qed.
End checks.

(** ** What each group of operations leaves alone *)
Section frames.
Context `{Profile} `{InstructionResultApi} `{SStoreApi} `{AbiApi}
  {Gas J E Account : Type} `{GasApi Gas} `{JournalInspectTr J E Account}
  `{AccountApi Account}.
Implicit Types s : AdditionalLimit.

(** The specs the trackers were created with. *)
Definition spec_ok (spec : MegaSpecId) s : Prop :=
  ds_rex4_enabled (data_size s) = MegaSpecId.is_enabled spec REX4 ∧
  kv_rex4_enabled (kv_update s) = MegaSpecId.is_enabled spec REX4 ∧
  cg_rex4_enabled (compute_gas s) = MegaSpecId.is_enabled spec REX4 ∧
  rex1_enabled (compute_gas s) = MegaSpecId.is_enabled spec REX1 ∧
  sg_spec (state_growth s) = spec.

(** The transaction limits of the four trackers. *)
Definition tx_limits s : Z * Z * Z * Z :=
  (FrameLimitTracker.tx_limit (ds_frame_tracker (data_size s)),
   FrameLimitTracker.tx_limit (kv_frame_tracker (kv_update s)),
   FrameLimitTracker.tx_limit (cg_frame_tracker (compute_gas s)),
   FrameLimitTracker.tx_limit (sg_frame_tracker (state_growth s))).

(** The exceed flag is kept, and so are the specs and the limits. *)
Definition same_control s s' : Prop :=
  has_exceeded_limit s' = has_exceeded_limit s ∧
  rescued_gas s' = rescued_gas s ∧ limits s' = limits s ∧ tx_limits s' = tx_limits s ∧
  ds_rex4_enabled (data_size s') = ds_rex4_enabled (data_size s) ∧
  kv_rex4_enabled (kv_update s') = kv_rex4_enabled (kv_update s) ∧
  cg_rex4_enabled (compute_gas s') = cg_rex4_enabled (compute_gas s) ∧
  rex1_enabled (compute_gas s') = rex1_enabled (compute_gas s) ∧
  sg_spec (state_growth s') = sg_spec (state_growth s).

#[export] Instance same_control_preorder : PreOrder same_control.
Proof.
  split.
  - intros s. by unfold same_control.
  - unfold same_control. intros s1 s2 s3 H12 H23. destruct_and?. split_and!; congruence.
Qed.

(** A tracker hook that keeps the spec a tracker was created with. *)
Definition keeps_spec (f : ∀ T, TxRuntimeLimit T J E Gas → T → outcome T) : Prop :=
  (∀ t t', f _ StateGrowthTracker.limit t = Ret t' →
    FrameLimitTracker.tx_limit (sg_frame_tracker t') =
      FrameLimitTracker.tx_limit (sg_frame_tracker t) ∧ sg_spec t' = sg_spec t) ∧
  (∀ t t', f _ DataSizeTracker.limit t = Ret t' →
    FrameLimitTracker.tx_limit (ds_frame_tracker t') =
      FrameLimitTracker.tx_limit (ds_frame_tracker t) ∧ ds_rex4_enabled t' = ds_rex4_enabled t) ∧
  (∀ t t', f _ KVUpdateTracker.limit t = Ret t' →
    FrameLimitTracker.tx_limit (kv_frame_tracker t') =
      FrameLimitTracker.tx_limit (kv_frame_tracker t) ∧ kv_rex4_enabled t' = kv_rex4_enabled t) ∧
  (∀ t t', f _ ComputeGasTracker.limit t = Ret t' →
    FrameLimitTracker.tx_limit (cg_frame_tracker t') =
      FrameLimitTracker.tx_limit (cg_frame_tracker t) ∧
    cg_rex4_enabled t' = cg_rex4_enabled t ∧ rex1_enabled t' = rex1_enabled t).

Lemma on_trackers_same_control f s s' :
  keeps_spec f → AdditionalLimit.on_trackers f s = Ret s' → same_control s s'.
Proof.
  intros (Hsg&Hds&Hkv&Hcg) Hon. unfold AdditionalLimit.on_trackers in Hon. outcome_inv.
  repeat match goal with
  | Hf : f _ _ _ = Ret _ |- _ =>
      first [apply Hsg in Hf as [??]|apply Hds in Hf as [??]|apply Hkv in Hf as [??]
            |apply Hcg in Hf as (?&?&?)]
  end.
  unfold same_control, tx_limits. simpl. split_and!; congruence.
Qed.

Ltac keeps_spec_tac :=
  unfold keeps_spec; split_and!; intros t t' Ht; simpl in Ht; unfold
    DataSizeTracker.after_frame_init_on_frame, DataSizeTracker.after_frame_run,
    DataSizeTracker.after_sstore, DataSizeTracker.record_discardable,
    DataSizeTracker.record_refund,
    KVUpdateTracker.after_frame_init_on_frame, KVUpdateTracker.after_sstore,
    KVUpdateTracker.record_discardable, KVUpdateTracker.record_refund,
    StateGrowthTracker.after_sstore, StateGrowthTracker.record_growth,
    StateGrowthTracker.record_refund, record_created_account in Ht;
  repeat (case_match || outcome_inv); simplify_eq/=;
  repeat match goal with
  | Hx : pop_on_return _ _ _ = Ret _ |- _ => apply pop_on_return_tx_limit in Hx
  end; tx_limit_inv; split_and?; simpl; congruence.

Lemma keeps_spec_after_init (frame : EthFrame Gas) :
  keeps_spec (λ T (inst : TxRuntimeLimit T J E Gas), trl_after_frame_init_on_frame frame).
Proof. keeps_spec_tac. Qed.
Lemma keeps_spec_frame_run (frame : EthFrame Gas) :
  keeps_spec (λ T (inst : TxRuntimeLimit T J E Gas), trl_before_frame_run frame).
Proof. keeps_spec_tac. Qed.
Lemma keeps_spec_after_run (frame : EthFrame Gas) action :
  keeps_spec (λ T (inst : TxRuntimeLimit T J E Gas), trl_after_frame_run frame action).
Proof. keeps_spec_tac. Qed.
Lemma keeps_spec_return last (result : FrameResult Gas) :
  keeps_spec (λ T (inst : TxRuntimeLimit T J E Gas), trl_before_frame_return_result last result).
Proof. keeps_spec_tac. Qed.
Lemma keeps_spec_sstore sr :
  keeps_spec (λ T (inst : TxRuntimeLimit T J E Gas), trl_after_sstore sr).
Proof. keeps_spec_tac. Qed.

Lemma init_trackers_same_control fi (j : J) s s' j' r :
  AdditionalLimit.init_trackers (Gas:=Gas) (E:=E) fi j s = Ret (s', j', r) → same_control s s'.
Proof.
  unfold AdditionalLimit.init_trackers. simpl.
  unfold StateGrowthTracker.before_frame_init, DataSizeTracker.before_frame_init,
    KVUpdateTracker.before_frame_init, StateGrowthTracker.push_frame,
    DataSizeTracker.push_frame, KVUpdateTracker.push_frame, ComputeGasTracker.push_frame,
    DataSizeTracker.record_discardable, KVUpdateTracker.record_discardable,
    StateGrowthTracker.record_growth.
  intros Hr. repeat (outcome_inv || case_match); tx_limit_inv; unfold same_control, tx_limits;
    simpl; rewrite ?push_frame_with_limit_tx_limit; split_and!; congruence.
Qed.
End frames.

(** ** The control skeleton of the hooks

    Every hook is a sequence of four kinds of steps on the control state (the
    exceed flag and the rescued gas): tracker updates that leave it alone, checks,
    rescues under a TX-level exceed, and the absorption of a frame-local one. *)
Section control.
Context `{Profile} `{InstructionResultApi} `{SStoreApi} `{AbiApi}
  {Gas J E Account : Type} `{GasApi Gas} `{JournalInspectTr J E Account}
  `{AccountApi Account}.
Implicit Types s : AdditionalLimit.

Inductive control_step : AdditionalLimit → AdditionalLimit → Prop :=
  | ControlSame s s' : same_control s s' → control_step s s'
  | ControlCheck s s' c : AdditionalLimit.check_limit s = Ret (s', c) → control_step s s'
  | ControlRescue s s' (gas : Gas) k l u :
      has_exceeded_limit s = ExceedsLimit k l u false →
      AdditionalLimit.rescue_gas gas s = Ret s' → control_step s s'
  | ControlAbsorb s :
      LimitCheck.is_frame_local (has_exceeded_limit s) = true →
      control_step s (AdditionalLimit.set_exceeded WithinLimit s).

Lemma still_within_control s s' b :
  AdditionalLimit.still_within s = Ret (s', b) → rtc control_step s s'.
Proof.
  unfold AdditionalLimit.still_within. intros Hs.
  destruct (AdditionalLimit.check_limit s) as [[s1 c]|] eqn:Hc; simplify_eq/=.
  apply rtc_once. by eapply ControlCheck.
Qed.

Lemma try_rescue_control (gas : Gas) s s' :
  AdditionalLimit.try_rescue_gas gas s = Ret s' → rtc control_step s s'.
Proof.
  unfold AdditionalLimit.try_rescue_gas. intros Hs.
  destruct (AdditionalLimit.check_limit s) as [[s1 c]|] eqn:Hc; simplify_eq/=.
  eapply rtc_l; [by eapply ControlCheck|].
  apply check_limit_trackers in Hc as (_&_&_&_&_&_&<-).
  destruct (has_exceeded_limit s1) as [|k l u []] eqn:Hfl; simpl in Hs; simplify_eq; try done.
  apply rtc_once. by eapply ControlRescue.
Qed.

Lemma same_control_rtc s s' : same_control s s' → rtc control_step s s'.
Proof. intros. by apply rtc_once, ControlSame. Qed.
Lemma check_control s s' c :
  AdditionalLimit.check_limit s = Ret (s', c) → rtc control_step s s'.
Proof. intros. eapply rtc_once, ControlCheck. done. Qed.

Lemma before_frame_init_control fi (j : J) s s' j' r :
  AdditionalLimit.before_frame_init (Gas:=Gas) (E:=E) fi j s = Ret (s', j', r) →
  rtc control_step s s'.
Proof.
  unfold AdditionalLimit.before_frame_init. intros Hs.
  destruct (AdditionalLimit.init_trackers fi j s) as [[[s1 j1] [[]|e]]|] eqn:Hi; simplify_eq/=;
    apply init_trackers_same_control, same_control_rtc in Hi; [|done].
  etrans; [exact Hi|].
  destruct (AdditionalLimit.check_limit s1) as [[s2 c]|] eqn:Hc; simplify_eq/=.
  etrans; [by eapply check_control|].
  destruct (LimitCheck.exceeded_limit c); [|by simplify_eq].
  apply bind_Ret in Hs as ([gl off]&_&Hs). simpl in Hs.
  apply bind_Ret in Hs as (s3&Hr&Hs). simplify_eq. by eapply try_rescue_control.
Qed.

Lemma after_frame_run_control result g s s' r' :
  AdditionalLimit.after_frame_run (Gas:=Gas) result g s = Ret (s', r') → rtc control_step s s'.
Proof.
  unfold AdditionalLimit.after_frame_run, AdditionalLimit.record_compute_gas. intros Hs.
  apply bind_Ret in Hs as ([s1 r1]&Hh1&Hs). simpl in Hs.
  apply bind_Ret in Hs as (s2&Hh2&Hs). simplify_eq. apply try_rescue_control in Hh2.
  etrans; [|exact Hh2]. destruct g as [g|]; [|by simplify_eq].
  apply bind_Ret in Hh1 as ([s3 b]&Hh3&Hh1). simpl in Hh1.
  assert (s3 = s1) as -> by (destruct b; by simplify_eq).
  apply bind_Ret in Hh3 as (cg&Hcg&Hh3). apply still_within_control in Hh3.
  etrans; [|exact Hh3]. apply same_control_rtc.
  unfold ComputeGasTracker.record_gas_used in Hcg. outcome_inv; case_match; tx_limit_inv;
    unfold same_control, tx_limits; simpl; split_and!; congruence.
Qed.

Lemma after_instructions_control (frame : EthFrame Gas) action s s' a' :
  AdditionalLimit.after_frame_run_instructions (J:=J) (E:=E) frame action s = Ret (s', a') →
  rtc control_step s s'.
Proof.
  unfold AdditionalLimit.after_frame_run_instructions. intros Hs.
  apply bind_Ret in Hs as (s1&Hh1&Hs).
  apply on_trackers_same_control, same_control_rtc in Hh1; [|apply keeps_spec_after_run].
  etrans; [exact Hh1|]. destruct action as [r|]; [|by simplify_eq].
  destruct (frame_is_create frame); [|by simplify_eq].
  destruct (LimitCheck.exceeded_limit (has_exceeded_limit s1)); [by simplify_eq|].
  destruct (AdditionalLimit.check_limit s1) as [[s2 c]|] eqn:Hc; simplify_eq/=.
  etrans; [by eapply check_control|]. destruct (LimitCheck.exceeded_limit c); by simplify_eq.
Qed.

Lemma return_control last (result : FrameResult Gas) s s' r' :
  AdditionalLimit.before_frame_return_result (J:=J) (E:=E) last result s = Ret (s', r') →
  rtc control_step s s'.
Proof.
  unfold AdditionalLimit.before_frame_return_result. intros Hs.
  apply bind_Ret in Hs as (s1&Hh1&Hs).
  apply on_trackers_same_control, same_control_rtc in Hh1; [|apply keeps_spec_return].
  etrans; [exact Hh1|].
  destruct (AdditionalLimit.check_limit s1) as [[s2 c]|] eqn:Hc; simplify_eq/=.
  etrans; [by eapply check_control|].
  apply check_limit_trackers in Hc as (_&_&_&_&_&_&<-).
  destruct (LimitCheck.exceeded_limit _ && _); [|by simplify_eq].
  destruct (LimitCheck.is_frame_local (has_exceeded_limit s2)) eqn:Hl; simplify_eq; [|done].
  apply rtc_once. by constructor.
Qed.

Ltac same_control_tac :=
  apply same_control_rtc; repeat (outcome_inv || case_match); tx_limit_inv;
  repeat match goal with
  | Hx : charge_authorities _ _ _ = Ret _ |- _ => apply charge_authorities_tx_limit in Hx
  end;
  unfold same_control, tx_limits; simpl; rewrite ?push_frame_with_limit_tx_limit;
  split_and!; congruence.

Lemma hook_control ev s s' :
  hook (Gas:=Gas) (J:=J) (E:=E) ev s = Ret s' → rtc control_step s s'.
Proof.
  destruct ev as [tx| |fi j|r|frame|frame action|result g|last result|sr|n d|g|cap]; simpl; intros Hs.
  - apply bind_Ret in Hs as ([s1 b]&Hs&[= <-]). unfold AdditionalLimit.before_tx_start in Hs.
    unfold DataSizeTracker.before_tx_start, KVUpdateTracker.before_tx_start in Hs. outcome_inv.
    etrans; [|by eapply still_within_control]. same_control_tac.
  - unfold AdditionalLimit.push_empty_frame, StateGrowthTracker.push_frame,
      DataSizeTracker.push_empty_frame, DataSizeTracker.push_frame,
      KVUpdateTracker.push_empty_frame, KVUpdateTracker.push_frame,
      ComputeGasTracker.push_frame in Hs. outcome_inv. same_control_tac.
  - apply bind_Ret in Hs as ([[s1 j1] r]&Hs&[= <-]). by eapply before_frame_init_control.
  - destruct r as [frame|r]; [|by eapply try_rescue_control].
    eapply same_control_rtc, on_trackers_same_control; [apply keeps_spec_after_init|done].
  - apply bind_Ret in Hs as ([s1 r]&Hs&[= <-]). unfold AdditionalLimit.before_frame_run in Hs.
    apply bind_Ret in Hs as (s2&Hh2&Hs).
    apply on_trackers_same_control, same_control_rtc in Hh2; [|apply keeps_spec_frame_run].
    etrans; [exact Hh2|].
    destruct (AdditionalLimit.check_limit s2) as [[s3 c]|] eqn:Hc; simplify_eq/=.
    etrans; [by eapply check_control|]. destruct (LimitCheck.exceeded_limit c); by simplify_eq.
  - apply bind_Ret in Hs as ([s1 r]&Hs&[= <-]). by eapply after_instructions_control.
  - apply bind_Ret in Hs as ([s1 r]&Hs&[= <-]). by eapply after_frame_run_control.
  - apply bind_Ret in Hs as ([s1 r]&Hs&[= <-]). by eapply return_control.
  - apply bind_Ret in Hs as ([s1 b]&Hs&[= <-]). apply bind_Ret in Hs as (s2&Hh2&Hs).
    apply on_trackers_same_control, same_control_rtc in Hh2; [|apply keeps_spec_sstore].
    etrans; [exact Hh2|]. by eapply still_within_control.
  - apply bind_Ret in Hs as ([s1 b]&Hs&[= <-]). unfold AdditionalLimit.on_log,
      DataSizeTracker.after_log, DataSizeTracker.record_discardable in Hs. outcome_inv.
    etrans; [|by eapply still_within_control]. same_control_tac.
  - apply bind_Ret in Hs as ([s1 b]&Hs&[= <-]). unfold AdditionalLimit.record_compute_gas,
      ComputeGasTracker.record_gas_used in Hs. outcome_inv.
    etrans; [|by eapply still_within_control]. same_control_tac.
  - unfold AdditionalLimit.set_compute_gas_limit, ComputeGasTracker.set_detained_limit in Hs.
    outcome_inv. same_control_tac.
Qed.

Lemma hooks_control evs s s' :
  hooks (Gas:=Gas) (J:=J) (E:=E) evs s = Ret s' → rtc control_step s s'.
Proof.
  revert s. induction evs as [|ev evs IH]; intros s Hs; simpl in Hs; [by simplify_eq|].
  apply bind_Ret in Hs as (s1&Hh1&Hs). etrans; [by eapply hook_control|]. by apply IH.
Qed.
End control.
