(* ===== verification/LimitTheory.v ===== *)
(** * What the additional limits guarantee

    Theorems about [AdditionalLimit]: the order of the checks, the finality of a
    transaction-level exceed, which exceeds are frame-local, what is rescued, how
    a frame-local exceed is absorbed, and that no hook panics. *)
From S2P Require Import Prelude Spec Deps Volatile LimitTypes FrameLimit Trackers AdditionalLimit.
Open Scope Z_scope.

(** ** Invariants of the control skeleton *)
Section control_invariants.
Context `{Profile} `{InstructionResultApi} `{SStoreApi} `{AbiApi}
  {Gas J E Account : Type} `{GasApi Gas} `{JournalInspectTr J E Account}
  `{AccountApi Account}.
Implicit Types s : AdditionalLimit.

Lemma control_spec spec s s' :
  rtc (control_step (Gas:=Gas)) s s' → spec_ok spec s → spec_ok spec s'.
Proof.
  induction 1 as [s|s s1 s' Hstep _ IH]; [done|]. intros Hs. apply IH. clear IH.
  destruct Hstep as [s s1 Hsame|s s1 c Hc|s s1 gas k l u Hfl Hr|s Hl].
  - unfold same_control, spec_ok in *. destruct_and?. split_and!; congruence.
  - apply check_limit_trackers in Hc. unfold spec_ok in *. destruct_and?.
    split_and!; congruence.
  - unfold AdditionalLimit.rescue_gas in Hr. by outcome_inv.
  - done.
Qed.

Lemma control_final s s' k l u :
  rtc (control_step (Gas:=Gas)) s s' →
  has_exceeded_limit s = ExceedsLimit k l u false →
  has_exceeded_limit s' = ExceedsLimit k l u false.
Proof.
  induction 1 as [s|s s1 s' Hstep _ IH]; [done|]. intros Hs. apply IH. clear IH.
  destruct Hstep as [s s1 Hsame|s s1 c Hc|s s1 gas k' l' u' Hfl Hr|s Hl].
  - destruct Hsame as (->&_). done.
  - pose proof (check_limit_cases s s1 c Hc) as (->&Hsticky&_). simpl.
    rewrite Hs in Hsticky. by apply Hsticky.
  - unfold AdditionalLimit.rescue_gas in Hr. by outcome_inv.
  - by rewrite Hs in Hl.
Qed.

(** Which exceeds a spec can raise. *)
Definition locality (spec : MegaSpecId) (c : LimitCheck) : Prop :=
  match c with
  | WithinLimit => True
  | ExceedsLimit k _ _ true => MegaSpecId.is_enabled spec REX4 = true
  | ExceedsLimit k _ _ false =>
      MegaSpecId.is_enabled spec REX4 = true → k = ComputeGas
  end.

Lemma tx_level_locality spec k l u :
  (MegaSpecId.is_enabled spec REX4 = true → k = ComputeGas) →
  locality spec (tx_level_check k l u).
Proof. intros Hk. unfold tx_level_check. by case_decide. Qed.

Lemma exceeds_frame_local {I} spec k (ft : FrameLimitTracker I) c :
  MegaSpecId.is_enabled spec REX4 = true →
  FrameLimitTracker.exceeds_current_frame_limit k ft = Ret c → locality spec c.
Proof.
  intros Hr. unfold FrameLimitTracker.exceeds_current_frame_limit.
  destruct (frame_stack ft); intros Hc; outcome_inv; [done|]. case_decide; by simplify_eq.
Qed.

Lemma tracker_check_locality spec s c :
  spec_ok spec s →
  DataSizeTracker.check_limit (data_size s) = Ret c ∨
  KVUpdateTracker.check_limit (kv_update s) = Ret c ∨
  ComputeGasTracker.check_limit (compute_gas s) = Ret c ∨
  StateGrowthTracker.check_limit (state_growth s) = Ret c → locality spec c.
Proof.
  intros (Hds&Hkv&Hcg&_&Hsg) Hc.
  unfold DataSizeTracker.check_limit, KVUpdateTracker.check_limit,
    ComputeGasTracker.check_limit, ComputeGasTracker.tx_check, StateGrowthTracker.check_limit in Hc.
  rewrite Hds, Hkv, Hcg, Hsg in Hc.
  destruct (MegaSpecId.is_enabled spec REX4) eqn:Hr4.
  - destruct Hc as [Hc|[Hc|[Hc|Hc]]]; try by eapply exceeds_frame_local.
    apply bind_Ret in Hc as (fc&Hf&Hc). destruct (LimitCheck.exceeded_limit fc).
    + simplify_eq. by eapply exceeds_frame_local.
    + outcome_inv. by apply tx_level_locality.
  - destruct Hc as [Hc|[Hc|[Hc|Hc]]]; outcome_inv; apply tx_level_locality; congruence.
Qed.

Lemma control_locality spec s s' :
  rtc (control_step (Gas:=Gas)) s s' → spec_ok spec s →
  locality spec (has_exceeded_limit s) → locality spec (has_exceeded_limit s').
Proof.
  induction 1 as [s|s s1 s' Hstep _ IH]; [done|]. intros Hs Hloc.
  apply IH; [eapply control_spec; [by apply rtc_once|done]|]. clear IH.
  destruct Hstep as [s s1 Hsame|s s1 c Hc|s s1 gas k' l' u' Hfl Hr|s Hl].
  - by destruct Hsame as (->&_).
  - pose proof (check_limit_cases s s1 c Hc) as (->&Hsticky&Hfresh). simpl.
    destruct (LimitCheck.exceeded_limit (has_exceeded_limit s)) eqn:Hex.
    + by rewrite Hsticky.
    + destruct (LimitCheck.exceeded_limit c) eqn:Hexc.
      * apply (tracker_check_locality spec s); auto.
      * by apply exceeded_limit_false in Hexc as ->.
  - unfold AdditionalLimit.rescue_gas in Hr. by outcome_inv.
  - done.
Qed.

(** Gas is rescued only under a transaction-level exceed. *)
Lemma control_rescue s s' :
  rtc (control_step (Gas:=Gas)) s s' →
  rescued_gas s' = rescued_gas s ∨
  ∃ k l u, has_exceeded_limit s' = ExceedsLimit k l u false.
Proof.
  induction 1 as [s|s s1 s' Hstep Hrest IH]; [by left|].
  destruct IH as [IH|IH]; [|by right]. rewrite IH.
  destruct Hstep as [s s1 Hsame|s s1 c Hc|s s1 gas k l u Hfl Hr|s Hl].
  - left. by destruct Hsame as (_&->&_).
  - left. by apply check_limit_trackers in Hc as (_&_&_&_&->&_).
  - right. exists k, l, u. eapply control_final; [done|].
    unfold AdditionalLimit.rescue_gas in Hr. by outcome_inv.
  - by left.
Qed.

Lemma new_spec_ok spec limits : spec_ok spec (AdditionalLimit.new spec limits).
Proof. done. Qed.
End control_invariants.

(** ** Trackers of a known depth and size *)
Section sized.
Context {I : Type} `{Profile}.
Implicit Types ft : FrameLimitTracker I.

(** [n] frames deep, with all charges kept so far adding up to at most [m]. *)
Definition sized (n : nat) (m : Z) ft : Prop :=
  ∃ s, tracker_holds ft s ∧ ledger_size s ≤ m ∧ length (ledger_frames s) = n.

Lemma sized_mono n m m' ft : sized n m ft → m ≤ m' → sized n m' ft.
Proof. intros (s&?&?&?) Hm. exists s. split_and!; done || lia. Qed.

Lemma sized_new l : in_u64 l → sized 0 0 (FrameLimitTracker.new l).
Proof. intros Hl. exists (mkLedger [] []). by split_and!; [apply new_holds| |]. Qed.

Lemma sized_nonneg n m ft : sized n m ft → 0 ≤ m.
Proof.
  intros (s&Hh&Hs&_). pose proof (ledger_frames_nonneg ft s Hh).
  unfold ledger_size in Hs. lia.
Qed.

Lemma sized_length n m ft : sized n m ft → length (frame_stack ft) = n.
Proof. intros (s&[_ Hf]&_&<-). by apply Forall2_length in Hf. Qed.

Lemma sized_ok n m ft : sized n m ft → m ≤ u64_max → tracker_ok ft.
Proof. intros (s&Hh&Hs&_) Hm. apply (tracker_holds_ok ft s Hh). lia. Qed.

Lemma sized_usage n m ft :
  sized n m ft → m ≤ u64_max → ∃ u, FrameLimitTracker.net_usage ft = Ret u.
Proof. intros Hs Hm. eexists. eapply net_usage_spec, sized_ok; done. Qed.

Lemma sized_exceeds n m ft k :
  sized n m ft → m ≤ u64_max →
  ∃ c, FrameLimitTracker.exceeds_current_frame_limit k ft = Ret c.
Proof. intros Hs Hm. eexists. apply exceeds_spec. by apply (sized_ok _ _ _ Hs). Qed.

Definition next_frames (op : tracker_op I) (n : nat) : nat :=
  match op with
  | TPush _ | TPushLimit _ _ => S n
  | TPop _ => pred n
  | _ => n
  end.

Lemma ledger_step_frames (op : tracker_op I) s :
  length (ledger_frames (ledger_step op s)) = next_frames op (length (ledger_frames s)).
Proof. destruct op, s as [tx [|f [|g fs]]]; done. Qed.

Lemma sized_step op n m ft :
  sized n m ft → op_ok op → m + op_size op ≤ u64_max →
  ∃ ft', tracker_step op ft = Ret ft' ∧ sized (next_frames op n) (m + op_size op) ft'.
Proof.
  intros (s&Hh&Hs&Hl) Hop Hm.
  destruct (tracker_step_refines op ft s Hh Hop ltac:(lia)) as (ft'&Hft&Hh'&Hs').
  exists ft'. split; [done|]. exists (ledger_step op s).
  rewrite ledger_step_frames, Hl. split_and!; done || lia.
Qed.

(** The two ways a tracker pushes a frame. *)
Lemma sized_push (rex4 : bool) i n m ft :
  sized n m ft → m ≤ u64_max →
  ∃ ft', (if rex4 then FrameLimitTracker.push_frame i ft
          else Ret (FrameLimitTracker.push_frame_with_limit u64_max i ft)) = Ret ft' ∧
    sized (S n) m ft'.
Proof.
  intros Hs Hm. destruct rex4.
  - destruct (sized_step (TPush i) n m ft Hs) as (ft'&Hft&Hs'); [done|simpl; lia|].
    exists ft'. split; [done|]. simpl in Hs'. by rewrite Z.add_0_r in Hs'.
  - destruct (sized_step (TPushLimit u64_max i) n m ft Hs) as (ft'&Hft&Hs'); [done|simpl; lia|].
    simpl in Hft. exists ft'. split; [done|]. simpl in Hs'. by rewrite Z.add_0_r in Hs'.
Qed.

Lemma sized_charge c n m ft :
  sized n m ft → charge_ok c → m + charge_size c ≤ u64_max →
  ∃ ft', FrameLimitTracker.frame_mut (record_charge c) ft = Ret ft' ∧
    sized n (m + charge_size c) ft'.
Proof. intros Hs Hc Hm. by apply (sized_step (TCharge c) n m ft Hs). Qed.

Lemma sized_tx_charge k n m ft :
  sized n m ft → 0 ≤ k → m + k ≤ u64_max →
  ∃ ft', FrameLimitTracker.tx_mut (FrameLimitEntry.add_persistent k) ft = Ret ft' ∧
    sized n (m + k) ft'.
Proof. intros Hs Hk Hm. by apply (sized_step (TTxCharge (Persistent k)) n m ft Hs). Qed.

Lemma sized_pop `{InstructionResultApi} {Gas} last (r : FrameResult Gas) n m ft :
  sized n m ft → m ≤ u64_max → last = true ∨ n ≠ 0%nat →
  ∃ ft', pop_on_return last r ft = Ret ft' ∧ sized (pred n) m ft'.
Proof.
  intros Hs Hm Hn. unfold pop_on_return.
  assert (last || FrameLimitTracker.has_active_frame ft = true) as ->.
  { destruct last; [done|]. destruct Hn as [|Hn]; [done|].
    apply sized_length in Hs. unfold FrameLimitTracker.has_active_frame.
    by destruct (frame_stack ft). }
  simpl. destruct (sized_step (TPop (ir_is_ok (instruction_result r))) n m ft Hs)
    as (ft'&Hft&Hs'); [done|simpl; lia|].
  exists ft'. split; [done|]. simpl in Hs'. by rewrite Z.add_0_r in Hs'.
Qed.

Lemma sized_authorities amount l n m ft :
  sized n m ft → 0 ≤ amount → m + amount * recovered l ≤ u64_max →
  ∃ ft', charge_authorities amount l ft = Ret ft' ∧ sized n (m + amount * recovered l) ft'.
Proof.
  intros Hs Ha. revert m ft Hs. unfold recovered.
  induction l as [|[a|] l IH]; intros m ft Hs Hm; simpl in *.
  - exists ft. rewrite Z.mul_0_r, Z.add_0_r. done.
  - rewrite Nat2Z.inj_succ in *. pose proof (Nat2Z.is_nonneg
      (length (List.filter (λ a, bool_decide (is_Some a)) l))).
    destruct (sized_tx_charge amount n m ft Hs Ha ltac:(nia)) as (ft1&->&Hs1). simpl.
    destruct (IH _ _ Hs1 ltac:(nia)) as (ft2&->&Hs2).
    exists ft2. split; [done|]. eapply sized_mono; [done|nia].
  - by apply IH.
Qed.
End sized.

(** A created account is recorded in a frame that has no address yet. *)
Lemma sized_created `{Profile} {Gas} amount (frame : EthFrame Gas) n m ft :
  sized n m ft → 0 ≤ amount → m + amount ≤ u64_max →
  (frame_is_create frame = true →
    match frame_stack ft with e :: _ => target_address (info e) = None | [] => True end) →
  ∃ ft', record_created_account amount frame ft = Ret ft' ∧ sized n (m + amount) ft'.
Proof.
  intros Hs Ha Hm Hcr. unfold record_created_account, frame_is_create, frame_created_address in *.
  destruct (frame_data frame) as [|a]; [exists ft; split; [done|]; eapply sized_mono; [done|lia]|].
  specialize (Hcr eq_refl) as Hinfo. simpl.
  unfold FrameLimitTracker.frame_mut.
  destruct (frame_stack ft) as [|e rest] eqn:Hst.
  { exists ft. split; [done|]. eapply sized_mono; [done|lia]. }
  rewrite bool_decide_true by done. simpl.
  destruct Hs as (s&[Htx Hf]&Hs&Hl). rewrite Hst in Hf.
  destruct (ledger_frames s) as [|f fs] eqn:Hlf; inversion_clear Hf as [|? ? ? ? He Hrest].
  assert (tracker_holds (mkTracker (tx_entry ft) (set_target_address a e :: rest)) s) as Hh'.
  { split; [done|]. rewrite Hlf. constructor; [|done]. exact He. }
  destruct (sized_charge (Discardable amount) n m
    (mkTracker (tx_entry ft) (set_target_address a e :: rest))) as (ft'&Hft&Hs').
  - exists s. rewrite Hlf. done.
  - done.
  - done.
  - exists ft'. split; [|done]. exact Hft.
Qed.

(** ** Well-formed states of the additional limits *)
Section total.
Context `{Profile} `{InstructionResultApi} `{SStoreApi} `{AbiApi}
  {Gas J E Account : Type} `{GasApi Gas} {gas_laws : GasLaws Gas}
  `{JournalInspectTr J E Account} `{AccountApi Account}.
Implicit Types s : AdditionalLimit.

(** The four stacks are [n] frames deep, the call stack's depth, and nothing
    recorded so far adds up to more than [m]. *)
Definition al_ok (n : nat) (m : Z) s : Prop :=
  sized n m (sg_frame_tracker (state_growth s)) ∧
  sized n m (ds_frame_tracker (data_size s)) ∧
  sized n m (kv_frame_tracker (kv_update s)) ∧
  sized n m (cg_frame_tracker (compute_gas s)) ∧
  0 ≤ rescued_gas s ≤ m.

Lemma al_ok_mono n m m' s : al_ok n m s → m ≤ m' → al_ok n m' s.
Proof.
  unfold al_ok. intros Ha Hm. destruct_and?. split_and!; try lia; by eapply sized_mono.
Qed.
Lemma al_ok_exceeded n m c s : al_ok n m s → al_ok n m (AdditionalLimit.set_exceeded c s).
Proof. done. Qed.

(** [check_limit] always answers, and only moves the flag. *)
Lemma check_limit_total n m s :
  al_ok n m s → m ≤ u64_max →
  ∃ c, AdditionalLimit.check_limit s = Ret (AdditionalLimit.set_exceeded c s, c).
Proof.
  intros (Hsg&Hds&Hkv&Hcg&_) Hm.
  assert (∃ r, AdditionalLimit.check_limit s = Ret r) as [[s' c] Hr].
  { unfold AdditionalLimit.check_limit, DataSizeTracker.check_limit,
      KVUpdateTracker.check_limit, ComputeGasTracker.check_limit, ComputeGasTracker.tx_check,
      StateGrowthTracker.check_limit, DataSizeTracker.tx_usage, KVUpdateTracker.tx_usage,
      ComputeGasTracker.tx_usage, StateGrowthTracker.tx_usage.
    destruct (sized_exceeds _ _ _ DataSize Hds Hm) as (?&->).
    destruct (sized_exceeds _ _ _ KVUpdate Hkv Hm) as (?&->).
    destruct (sized_exceeds _ _ _ ComputeGas Hcg Hm) as (?&->).
    destruct (sized_exceeds _ _ _ StateGrowth Hsg Hm) as (?&->).
    destruct (sized_usage _ _ _ Hds Hm) as (?&->).
    destruct (sized_usage _ _ _ Hkv Hm) as (?&->).
    destruct (sized_usage _ _ _ Hcg Hm) as (?&->).
    destruct (sized_usage _ _ _ Hsg Hm) as (?&->).
    repeat (case_match; simpl); eauto. }
  exists c. rewrite Hr. by apply check_limit_cases in Hr as (->&_).
Qed.

Lemma still_within_total n m s :
  al_ok n m s → m ≤ u64_max →
  ∃ s' b, AdditionalLimit.still_within s = Ret (s', b) ∧ al_ok n m s'.
Proof.
  intros Hs Hm. destruct (check_limit_total n m s Hs Hm) as (c&Hc).
  unfold AdditionalLimit.still_within. rewrite Hc. simpl. eauto using al_ok_exceeded.
Qed.

Lemma try_rescue_total n m (g : Gas) s :
  al_ok n m s → m + gas_remaining g ≤ u64_max →
  ∃ s', AdditionalLimit.try_rescue_gas g s = Ret s' ∧ al_ok n (m + gas_remaining g) s'.
Proof.
  intros Hs Hm. pose proof (gas_remaining_range g) as [Hg _].
  destruct (check_limit_total n m s Hs ltac:(lia)) as (c&Hc).
  unfold AdditionalLimit.try_rescue_gas. rewrite Hc. simpl.
  assert (al_ok n (m + gas_remaining g) s) as Hs' by (eapply al_ok_mono; [done|lia]).
  destruct (LimitCheck.exceeded_limit c && _); [|eauto using al_ok_exceeded].
  destruct Hs as (_&_&_&_&Hr). unfold AdditionalLimit.rescue_gas. simpl.
  rewrite add_u64_in by (unfold in_u64; lia). simpl. eexists. split; [done|].
  destruct Hs' as (?&?&?&?&_). split_and!; try done; simpl; lia.
Qed.

(** Hooks that run one update per tracker. *)
Lemma on_trackers_total (f : ∀ T, TxRuntimeLimit T J E Gas → T → outcome T) n n' m m' s :
  al_ok n m s → m ≤ m' →
  (∃ t, f _ StateGrowthTracker.limit (state_growth s) = Ret t ∧ sized n' m' (sg_frame_tracker t)) →
  (∃ t, f _ DataSizeTracker.limit (data_size s) = Ret t ∧ sized n' m' (ds_frame_tracker t)) →
  (∃ t, f _ KVUpdateTracker.limit (kv_update s) = Ret t ∧ sized n' m' (kv_frame_tracker t)) →
  (∃ t, f _ ComputeGasTracker.limit (compute_gas s) = Ret t ∧ sized n' m' (cg_frame_tracker t)) →
  ∃ s', AdditionalLimit.on_trackers f s = Ret s' ∧ al_ok n' m' s' ∧
    has_exceeded_limit s' = has_exceeded_limit s.
Proof.
  intros (_&_&_&_&Hr) Hm (?&Hsg&?) (?&Hds&?) (?&Hkv&?) (?&Hcg&?).
  unfold AdditionalLimit.on_trackers. rewrite Hsg, Hds, Hkv, Hcg. simpl.
  eexists. split; [done|]. split; [|done]. split_and!; try done; simpl; lia.
Qed.

Lemma push_empty_total n m s :
  al_ok n m s → m ≤ u64_max →
  ∃ s', AdditionalLimit.push_empty_frame s = Ret s' ∧ al_ok (S n) m s'.
Proof.
  intros (Hsg&Hds&Hkv&Hcg&Hr) Hm.
  unfold AdditionalLimit.push_empty_frame, StateGrowthTracker.push_frame,
    DataSizeTracker.push_empty_frame, DataSizeTracker.push_frame,
    KVUpdateTracker.push_empty_frame, KVUpdateTracker.push_frame, ComputeGasTracker.push_frame.
  destruct (sized_push (MegaSpecId.is_enabled (sg_spec (state_growth s)) REX4) tt _ _ _ Hsg Hm)
    as (?&->&?).
  destruct (sized_push (ds_rex4_enabled (data_size s)) (mkCallFrameInfo None false) _ _ _ Hds Hm)
    as (?&->&?).
  destruct (sized_push (kv_rex4_enabled (kv_update s)) (mkCallFrameInfo None false) _ _ _ Hkv Hm)
    as (?&->&?).
  destruct (sized_push (cg_rex4_enabled (compute_gas s)) tt _ _ _ Hcg Hm) as (?&->&?).
  simpl. eexists. split; [done|]. split_and!; try done; apply Hr.
Qed.

(** The inspection of a callee that is sent value fails, and with it the initialisation. *)
Definition inspection_fails (spec : MegaSpecId) (fi : FrameInit) (j : J) : bool :=
  match fi_frame_input fi with
  | FrameInputCall ci =>
      cin_transfers_value ci &&
      match (inspect_account_delegated spec (cin_target_address ci) j).2 with
      | Ok _ => false
      | Err _ => true
      end
  | _ => false
  end.

Definition frame_input_ok (fi : FrameInit) : Prop := fi_frame_input fi ≠ FrameInputEmpty.

Lemma ds_push_total i n m t :
  sized n m (ds_frame_tracker t) → m ≤ u64_max →
  ∃ t', DataSizeTracker.push_frame i t = Ret t' ∧ sized (S n) m (ds_frame_tracker t').
Proof.
  intros Hs Hm. unfold DataSizeTracker.push_frame.
  destruct (sized_push (ds_rex4_enabled t) i _ _ _ Hs Hm) as (ft&->&Hs'). simpl. eauto.
Qed.
Lemma ds_record_total k n m t :
  sized n m (ds_frame_tracker t) → 0 ≤ k → m + k ≤ u64_max →
  ∃ t', DataSizeTracker.record_discardable k t = Ret t' ∧ sized n (m + k) (ds_frame_tracker t').
Proof.
  intros Hs Hk Hm. unfold DataSizeTracker.record_discardable.
  destruct (sized_charge (Discardable k) _ _ _ Hs Hk Hm) as (ft&Hft&Hs').
  change (FrameLimitTracker.frame_mut (FrameLimitEntry.add_discardable k)
    (ds_frame_tracker t) = Ret ft) in Hft.
  rewrite Hft. simpl. eauto.
Qed.
Lemma kv_push_total i n m t :
  sized n m (kv_frame_tracker t) → m ≤ u64_max →
  ∃ t', KVUpdateTracker.push_frame i t = Ret t' ∧ sized (S n) m (kv_frame_tracker t').
Proof.
  intros Hs Hm. unfold KVUpdateTracker.push_frame.
  destruct (sized_push (kv_rex4_enabled t) i _ _ _ Hs Hm) as (ft&->&Hs'). simpl. eauto.
Qed.
Lemma kv_record_total k n m t :
  sized n m (kv_frame_tracker t) → 0 ≤ k → m + k ≤ u64_max →
  ∃ t', KVUpdateTracker.record_discardable k t = Ret t' ∧ sized n (m + k) (kv_frame_tracker t').
Proof.
  intros Hs Hk Hm. unfold KVUpdateTracker.record_discardable.
  destruct (sized_charge (Discardable k) _ _ _ Hs Hk Hm) as (ft&Hft&Hs').
  change (FrameLimitTracker.frame_mut (FrameLimitEntry.add_discardable k)
    (kv_frame_tracker t) = Ret ft) in Hft.
  rewrite Hft. simpl. eauto.
Qed.

Lemma ds_init_total n m fi (j : J) t :
  sized n m (ds_frame_tracker t) → m + 80 ≤ u64_max → frame_input_ok fi →
  ∃ t', DataSizeTracker.before_frame_init (E:=E) fi j t = Ret (t', j, Ok tt) ∧
    sized (S n) (m + 80) (ds_frame_tracker t').
Proof.
  intros Hs Hm Hfi. unfold DataSizeTracker.before_frame_init, frame_input_ok in *.
  change ACCOUNT_INFO_WRITE_SIZE with 40.
  destruct (fi_frame_input fi) as [ci|ci|]; [| |done].
  - destruct (ds_push_total (mkCallFrameInfo (Some (cin_target_address ci))
      (cin_transfers_value ci)) _ _ _ Hs ltac:(lia)) as (t1&->&Hs1). simpl.
    destruct (cin_transfers_value ci); simpl;
      [|eexists; split; [done|]; eapply sized_mono; [done|lia]].
    destruct (parent_not_updated (ds_frame_tracker t)); simpl.
    + destruct (ds_record_total 40 _ _ _ Hs1) as (t2&->&Hs2); [lia..|]. simpl.
      destruct (ds_record_total 40 _ _ _ Hs2) as (t3&->&Hs3); [lia..|]. simpl.
      eexists. split; [done|]. eapply sized_mono; [done|lia].
    + destruct (ds_record_total 40 _ _ _ Hs1) as (t2&->&Hs2); [lia..|]. simpl.
      eexists. split; [done|]. eapply sized_mono; [done|lia].
  - destruct (ds_push_total (mkCallFrameInfo None true) _ _ _ Hs ltac:(lia)) as (t1&->&Hs1).
    simpl. destruct (parent_not_updated (ds_frame_tracker t)); simpl.
    + destruct (ds_record_total 40 _ _ _ Hs1) as (t2&->&Hs2); [lia..|]. simpl.
      eexists. split; [done|]. eapply sized_mono; [done|lia].
    + simpl. eexists. split; [done|]. eapply sized_mono; [done|lia].
Qed.

Lemma kv_init_total n m fi (j : J) t :
  sized n m (kv_frame_tracker t) → m + 80 ≤ u64_max → frame_input_ok fi →
  ∃ t', KVUpdateTracker.before_frame_init (E:=E) fi j t = Ret (t', j, Ok tt) ∧
    sized (S n) (m + 80) (kv_frame_tracker t').
Proof.
  intros Hs Hm Hfi. unfold KVUpdateTracker.before_frame_init, frame_input_ok in *.
  destruct (fi_frame_input fi) as [ci|ci|]; [| |done].
  - destruct (kv_push_total (mkCallFrameInfo (Some (cin_target_address ci))
      (cin_transfers_value ci)) _ _ _ Hs ltac:(lia)) as (t1&->&Hs1). simpl.
    destruct (cin_transfers_value ci); simpl;
      [|eexists; split; [done|]; eapply sized_mono; [done|lia]].
    destruct (parent_not_updated (kv_frame_tracker t)); simpl.
    + destruct (kv_record_total 1 _ _ _ Hs1) as (t2&->&Hs2); [lia..|]. simpl.
      destruct (kv_record_total 1 _ _ _ Hs2) as (t3&->&Hs3); [lia..|]. simpl.
      eexists. split; [done|]. eapply sized_mono; [done|lia].
    + destruct (kv_record_total 1 _ _ _ Hs1) as (t2&->&Hs2); [lia..|]. simpl.
      eexists. split; [done|]. eapply sized_mono; [done|lia].
  - destruct (kv_push_total (mkCallFrameInfo None true) _ _ _ Hs ltac:(lia)) as (t1&->&Hs1).
    simpl. destruct (parent_not_updated (kv_frame_tracker t)); simpl.
    + destruct (kv_record_total 1 _ _ _ Hs1) as (t2&->&Hs2); [lia..|]. simpl.
      eexists. split; [done|]. eapply sized_mono; [done|lia].
    + simpl. eexists. split; [done|]. eapply sized_mono; [done|lia].
Qed.

Lemma sg_record_total c n m t :
  sized n m (sg_frame_tracker t) → charge_ok c → m + charge_size c ≤ u64_max →
  ∃ ft, FrameLimitTracker.frame_mut (record_charge c) (sg_frame_tracker t) = Ret ft ∧
    sized n (m + charge_size c) ft.
Proof. intros. by apply sized_charge. Qed.

Lemma sg_growth_total n m t :
  sized n m (sg_frame_tracker t) → m + 1 ≤ u64_max →
  ∃ t', StateGrowthTracker.record_growth 1 t = Ret t' ∧ sized n (m + 1) (sg_frame_tracker t').
Proof.
  intros Hs Hm. unfold StateGrowthTracker.record_growth.
  destruct (sg_record_total (Discardable 1) _ _ _ Hs) as (ft&Hft&Hs'); [done|done|].
  change (FrameLimitTracker.frame_mut (FrameLimitEntry.add_discardable 1)
    (sg_frame_tracker t) = Ret ft) in Hft.
  rewrite Hft. simpl. eauto.
Qed.

Lemma sg_init_total n m fi (j : J) t :
  sized n m (sg_frame_tracker t) → m + 80 ≤ u64_max → frame_input_ok fi →
  inspection_fails (sg_spec t) fi j = false →
  ∃ t' j', StateGrowthTracker.before_frame_init fi j t = Ret (t', j', Ok tt) ∧
    sized (S n) (m + 80) (sg_frame_tracker t').
Proof.
  intros Hs Hm Hfi Hins. unfold StateGrowthTracker.before_frame_init, StateGrowthTracker.push_frame.
  destruct (sized_push (MegaSpecId.is_enabled (sg_spec t) REX4) tt _ _ _ Hs ltac:(lia))
    as (ft&->&Hs1). simpl.
  change ft with (sg_frame_tracker (StateGrowthTracker.with_tracker t ft)) in Hs1.
  unfold inspection_fails, frame_input_ok in *. destruct (fi_frame_input fi) as [ci|ci|]; [| |done].
  - destruct (cin_transfers_value ci); simpl in Hins;
      [|do 2 eexists; split; [done|]; eapply sized_mono; [done|lia]].
    destruct (inspect_account_delegated _ _ _) as [j' [acc|e]]; [|done].
    destruct (state_clear_aware_is_empty acc).
    + destruct (sg_growth_total _ _ _ Hs1 ltac:(lia)) as (t2&->&Hs2). simpl.
      do 2 eexists. split; [done|]. eapply sized_mono; [done|lia].
    + simpl. do 2 eexists. split; [done|]. eapply sized_mono; [done|lia].
  - destruct (sg_growth_total _ _ _ Hs1 ltac:(lia)) as (t2&->&Hs2). simpl.
    do 2 eexists. split; [done|]. eapply sized_mono; [done|lia].
Qed.

(** A failed inspection is an error of the hook, not a panic. *)
Lemma frame_init_aborts n m fi j s :
  al_ok n m s → m ≤ u64_max → inspection_fails (sg_spec (state_growth s)) fi j = true →
  ∃ s' j' e, AdditionalLimit.before_frame_init (Gas:=Gas) fi j s = Ret (s', j', Err e).
Proof.
  intros (Hsg&_) Hm Hins. unfold AdditionalLimit.before_frame_init, AdditionalLimit.init_trackers. simpl.
  unfold StateGrowthTracker.before_frame_init, StateGrowthTracker.push_frame.
  destruct (sized_push (MegaSpecId.is_enabled (sg_spec (state_growth s)) REX4) tt _ _ _ Hsg Hm)
    as (ft&->&_). simpl.
  unfold inspection_fails in Hins. destruct (fi_frame_input fi) as [ci|ci|]; [|done..].
  destruct (cin_transfers_value ci); [|done]. simpl in Hins.
  destruct (inspect_account_delegated _ _ _) as [j' [acc|e]]; [done|]. by do 3 eexists.
Qed.

(** An input that is neither a call nor a create is taken to be unreachable. *)
Lemma frame_init_empty fi j s :
  fi_frame_input fi = FrameInputEmpty →
  AdditionalLimit.before_frame_init (Gas:=Gas) (E:=E) fi j s = Panic.
Proof.
  intros Hfi. unfold AdditionalLimit.before_frame_init, AdditionalLimit.init_trackers. simpl.
  unfold StateGrowthTracker.before_frame_init. rewrite Hfi.
  by destruct (StateGrowthTracker.push_frame _).
Qed.

Lemma init_trackers_total n m fi j s :
  al_ok n m s → m + 80 ≤ u64_max → frame_input_ok fi →
  inspection_fails (sg_spec (state_growth s)) fi j = false →
  ∃ s' j', AdditionalLimit.init_trackers (Gas:=Gas) fi j s = Ret (s', j', Ok tt) ∧
    al_ok (S n) (m + 80) s'.
Proof.
  intros (Hsg&Hds&Hkv&Hcg&Hr) Hm Hfi Hins.
  unfold AdditionalLimit.init_trackers. simpl. unfold ComputeGasTracker.push_frame.
  destruct (sg_init_total _ _ _ _ _ Hsg Hm Hfi Hins) as (sg&j'&->&Hsg1). simpl.
  destruct (ds_init_total _ _ _ j' _ Hds Hm Hfi) as (ds&->&Hds1). simpl.
  destruct (kv_init_total _ _ _ j' _ Hkv Hm Hfi) as (kv&->&Hkv1). simpl.
  destruct (sized_push (cg_rex4_enabled (compute_gas s)) tt _ _ _ Hcg ltac:(lia))
    as (fcg&->&Hcg1). simpl.
  do 2 eexists. split; [done|]. split_and!; try done; simpl; try lia.
  eapply sized_mono; [done|lia].
Qed.

(** ** The cost and the precondition of a hook *)
Definition event_cost (ev : hook_event (Gas:=Gas) (J:=J)) : Z :=
  match ev with
  | HTxStart tx => tx_bytes tx + 40 * recovered (tx_authorization_list tx) + 40
  | HFrameInit fi _ =>
      80 + match fi_frame_input fi with
           | FrameInputCall ci => cin_gas_limit ci
           | FrameInputCreate ci => crin_gas_limit ci
           | FrameInputEmpty => 0
           end
  | HAfterInit (Item _) => 40
  | HAfterInit (Result r) => gas_remaining (frame_result_gas r)
  | HAfterInstructions _ (ActionReturn r) => Z.of_nat (length (ir_output r))
  | HAfterRun r g => default 0 g + gas_remaining (frame_result_gas r)
  | HSstore _ => 40
  | HLog n d => n * 32 + d
  | HCompute g => g
  | _ => 0
  end.

(** The top frame of a tracker has no address yet. *)
Definition address_free (ft : FrameLimitTracker CallFrameInfo) : Prop :=
  match frame_stack ft with e :: _ => target_address (info e) = None | [] => True end.
Definition addresses_free s : Prop :=
  address_free (ds_frame_tracker (data_size s)) ∧ address_free (kv_frame_tracker (kv_update s)).

(** What a hook is called with, at [n] frames; [created] says that the hook before it
    initialised the frame of a create. *)
Definition event_ok (n : nat) (created : bool) (ev : hook_event (Gas:=Gas) (J:=J)) : Prop :=
  match ev with
  | HTxStart tx => tx_well_formed tx
  | HFrameInit fi _ =>
      match fi_frame_input fi with
      | FrameInputCall ci => in_u64 (cin_gas_limit ci)
      | FrameInputCreate ci => in_u64 (crin_gas_limit ci)
      | FrameInputEmpty => False
      end
  | HAfterInit (Item frame) => frame_is_create frame = true → created = true
  | HAfterRun _ (Some g) => 0 ≤ g
  | HReturn last _ => last = true ∨ n ≠ 0%nat
  | HLog t d => 0 ≤ t ∧ 0 ≤ d
  | HCompute g => 0 ≤ g
  | _ => True
  end.

Definition creates (ev : hook_event (Gas:=Gas) (J:=J)) : bool :=
  match ev with
  | HFrameInit fi _ => match fi_frame_input fi with FrameInputCreate _ => true | _ => false end
  | _ => false
  end.
(** The hook answers with an error, which ends the transaction. *)
Definition aborts (spec : MegaSpecId) (ev : hook_event (Gas:=Gas) (J:=J)) : bool :=
  match ev with HFrameInit fi j => inspection_fails spec fi j | _ => false end.

Definition next_n (n : nat) (ev : hook_event (Gas:=Gas) (J:=J)) : nat :=
  match ev with
  | HPushEmpty | HFrameInit _ _ => S n
  | HReturn _ _ => pred n
  | _ => n
  end.

Lemma tx_bytes_nonneg tx : tx_well_formed tx → 0 ≤ tx_bytes tx.
Proof.
  intros [Hl Ha]. unfold tx_bytes.
  assert (0 ≤ foldr Z.add 0 (default [] (tx_access_list_sizes tx)))
    by (clear -Ha; induction Ha; simpl; lia). lia.
Qed.
Lemma recovered_nonneg l : 0 ≤ recovered l.
Proof. unfold recovered. lia. Qed.

Lemma event_cost_nonneg n created ev : event_ok n created ev → 0 ≤ event_cost ev.
Proof.
  assert (∀ g : Gas, 0 ≤ gas_remaining g) as Hg by (intros g; apply gas_remaining_range).
  destruct ev as [tx| |fi j|[frame|r]|frame|frame [r|fi]|r [g|]|last r|sr|t d|g|cap]; simpl;
    intros Hok; try lia.
  - pose proof (tx_bytes_nonneg tx Hok). pose proof (recovered_nonneg (tx_authorization_list tx)). lia.
  - destruct (fi_frame_input fi); unfold in_u64 in *; lia.
  - apply Hg.
  - pose proof (Hg (frame_result_gas r)). lia.
  - pose proof (Hg (frame_result_gas r)). lia.
Qed.

Lemma tx_start_total n m tx s :
  al_ok n m s → tx_well_formed tx →
  m + (tx_bytes tx + 40 * recovered (tx_authorization_list tx) + 40) ≤ u64_max →
  ∃ s' b, AdditionalLimit.before_tx_start tx s = Ret (s', b) ∧
    al_ok n (m + (tx_bytes tx + 40 * recovered (tx_authorization_list tx) + 40)) s'.
Proof.
  intros (Hsg&Hds&Hkv&Hcg&Hr) Htx Hroom. pose proof (sized_nonneg _ _ _ Hds) as Hm.
  pose proof (recovered_nonneg (tx_authorization_list tx)) as Hrec.
  destruct Htx as [Hlen Hacc]. unfold tx_bytes in *.
  assert (0 ≤ foldr Z.add 0 (default [] (tx_access_list_sizes tx)))
    by (clear -Hacc; induction Hacc; simpl; lia).
  assert (match tx_access_list_sizes tx with
          | Some sizes => DataSizeTracker.sum_u64 0 sizes | None => Ret 0 end =
          Ret (foldr Z.add 0 (default [] (tx_access_list_sizes tx)))) as Hsum.
  { destruct (tx_access_list_sizes tx); simpl in *; [|done]. rewrite sum_u64_spec; done || lia. }
  unfold AdditionalLimit.before_tx_start, DataSizeTracker.before_tx_start,
    KVUpdateTracker.before_tx_start, BASE_TX_SIZE, AUTHORIZATION_SIZE.
  change ACCOUNT_INFO_WRITE_SIZE with 40.
  rewrite add_u64_in by (unfold in_u64; lia). simpl. rewrite Hsum. simpl.
  rewrite add_u64_in by (unfold in_u64; lia). simpl.
  rewrite mul_u64_in by (unfold in_u64; lia). simpl.
  rewrite add_u64_in by (unfold in_u64; lia). simpl.
  set (size := 110 + Z.of_nat (length (tx_input tx)) +
    foldr Z.add 0 (default [] (tx_access_list_sizes tx)) + tx_authorization_list_len tx * 101) in *.
  assert (0 ≤ size) by (unfold size; lia).
  destruct (sized_tx_charge size _ _ _ Hds) as (f1&->&Hs1); [lia..|]. simpl.
  destruct (sized_authorities 40 (tx_authorization_list tx) _ _ _ Hs1)
    as (f2&->&Hs2); [lia..|]. simpl.
  destruct (sized_tx_charge 40 _ _ _ Hs2) as (f3&->&Hs3); [lia..|]. simpl.
  destruct (sized_authorities 1 (tx_authorization_list tx) _ _ _ Hkv)
    as (f4&->&Hs4); [lia..|]. simpl.
  destruct (sized_tx_charge 1 _ _ _ Hs4) as (f5&->&Hs5); [lia..|]. simpl.
  apply still_within_total; [|lia]. split_and!; simpl; try lia;
    (eapply sized_mono; [done|lia]).
Qed.

Lemma after_instructions_total n m (frame : EthFrame Gas) action s :
  al_ok n m s →
  m + event_cost (HAfterInstructions frame action) ≤ u64_max →
  ∃ s' a', AdditionalLimit.after_frame_run_instructions (J:=J) (E:=E) frame action s =
      Ret (s', a') ∧ al_ok n (m + event_cost (HAfterInstructions frame action)) s'.
Proof.
  intros Hs Hroom. set (c := event_cost (HAfterInstructions frame action)) in *.
  assert (0 ≤ c) as Hc by by apply (event_cost_nonneg n false).
  unfold AdditionalLimit.after_frame_run_instructions.
  destruct (on_trackers_total (λ T (inst : TxRuntimeLimit T J E Gas),
    trl_after_frame_run frame action) n n m (m + c) s) as (s1&->&Hs1&_); try done; try lia;
    destruct Hs as (Hsg&Hds&Hkv&Hcg&Hr); simpl;
    try (eexists; split; [done|]; eapply sized_mono; [done|lia]).
  - unfold DataSizeTracker.after_frame_run. subst c.
    destruct action as [r|fi]; [destruct (frame_is_create frame)|].
    + by apply ds_record_total.
    + eexists. split; [done|]. eapply sized_mono; [done|lia].
    + eexists. split; [done|]. eapply sized_mono; [done|lia].
  - simpl. destruct action as [r|fi]; [|by eauto].
    destruct (frame_is_create frame); [|by eauto].
    destruct (LimitCheck.exceeded_limit (has_exceeded_limit s1)); [by eauto|].
    destruct (check_limit_total _ _ _ Hs1 Hroom) as (ck&->). simpl.
    destruct (LimitCheck.exceeded_limit ck); eauto using al_ok_exceeded.
Qed.

Lemma record_compute_total n m g s :
  al_ok n m s → 0 ≤ g → m + g ≤ u64_max →
  ∃ s' b, AdditionalLimit.record_compute_gas g s = Ret (s', b) ∧ al_ok n (m + g) s'.
Proof.
  intros (Hsg&Hds&Hkv&Hcg&Hr) Hg Hm. unfold AdditionalLimit.record_compute_gas,
    ComputeGasTracker.record_gas_used.
  assert (∃ ft, (if FrameLimitTracker.has_active_frame (cg_frame_tracker (compute_gas s))
      then FrameLimitTracker.frame_mut (FrameLimitEntry.add_persistent g)
             (cg_frame_tracker (compute_gas s))
      else FrameLimitTracker.tx_mut (FrameLimitEntry.add_persistent g)
             (cg_frame_tracker (compute_gas s))) = Ret ft ∧ sized n (m + g) ft) as (ft&->&Hft).
  { destruct (FrameLimitTracker.has_active_frame _).
    - by apply (sized_charge (Persistent g)).
    - by apply sized_tx_charge. }
  simpl. apply still_within_total; [|done].
  split_and!; simpl; try lia; try done; (eapply sized_mono; [done|lia]).
Qed.

Lemma frame_init_total n m created fi j s :
  al_ok n m s → event_ok n created (HFrameInit fi j) →
  inspection_fails (sg_spec (state_growth s)) fi j = false →
  m + event_cost (HFrameInit fi j) ≤ u64_max →
  ∃ s' j' r, AdditionalLimit.before_frame_init (Gas:=Gas) (E:=E) fi j s = Ret (s', j', r) ∧
    al_ok (S n) (m + event_cost (HFrameInit fi j)) s'.
Proof.
  intros Hs Hg Hins Hroom. simpl in Hroom, Hg |- *. unfold AdditionalLimit.before_frame_init.
  destruct (init_trackers_total n m fi j s Hs) as (s1&j1&->&Hs1); [| |done|].
  { destruct (fi_frame_input fi); unfold in_u64 in *; lia. }
  { unfold frame_input_ok. by destruct (fi_frame_input fi). }
  simpl. destruct (check_limit_total _ _ _ Hs1) as (c&->).
  { destruct (fi_frame_input fi); unfold in_u64 in *; lia. }
  simpl. destruct (LimitCheck.exceeded_limit c).
  - destruct (fi_frame_input fi) as [ci|ci|]; [| |done]; simpl.
    + destruct (try_rescue_total (S n) (m + 80) (gas_new (cin_gas_limit ci))
        (AdditionalLimit.set_exceeded c s1)) as (s2&Hs2&Hok2); [done| |].
      { rewrite gas_remaining_new by done. lia. }
      unfold frame_result_gas, create_exceeding_interpreter_result. simpl. rewrite Hs2. simpl.
      do 3 eexists. split; [done|]. rewrite gas_remaining_new in Hok2 by done.
      eapply al_ok_mono; [done|lia].
    + destruct (try_rescue_total (S n) (m + 80) (gas_new (crin_gas_limit ci))
        (AdditionalLimit.set_exceeded c s1)) as (s2&Hs2&Hok2); [done| |].
      { rewrite gas_remaining_new by done. lia. }
      unfold frame_result_gas, create_exceeding_interpreter_result. simpl. rewrite Hs2. simpl.
      do 3 eexists. split; [done|]. rewrite gas_remaining_new in Hok2 by done.
      eapply al_ok_mono; [done|lia].
  - do 3 eexists. split; [done|]. apply al_ok_exceeded. eapply al_ok_mono; [done|].
    destruct (fi_frame_input fi); unfold in_u64 in *; lia.
Qed.

(** The frame of a create is made without an address. *)
Lemma ds_record_free k t t' :
  DataSizeTracker.record_discardable k t = Ret t' → address_free (ds_frame_tracker t) →
  address_free (ds_frame_tracker t').
Proof.
  unfold DataSizeTracker.record_discardable, FrameLimitTracker.frame_mut, address_free.
  destruct (frame_stack (ds_frame_tracker t)) as [|e rest] eqn:Hf; intros Hr Ht.
  - injection Hr as <-. simpl. by rewrite Hf.
  - unfold FrameLimitEntry.add_discardable in Hr. outcome_inv. done.
Qed.
Lemma kv_record_free k t t' :
  KVUpdateTracker.record_discardable k t = Ret t' → address_free (kv_frame_tracker t) →
  address_free (kv_frame_tracker t').
Proof.
  unfold KVUpdateTracker.record_discardable, FrameLimitTracker.frame_mut, address_free.
  destruct (frame_stack (kv_frame_tracker t)) as [|e rest] eqn:Hf; intros Hr Ht.
  - injection Hr as <-. simpl. by rewrite Hf.
  - unfold FrameLimitEntry.add_discardable in Hr. outcome_inv. done.
Qed.
Lemma pushed_free (rex4 : bool) i ft ft' :
  (if rex4 then FrameLimitTracker.push_frame i ft
   else Ret (FrameLimitTracker.push_frame_with_limit u64_max i ft)) = Ret ft' →
  target_address i = None → address_free ft'.
Proof. destruct rex4; intros Hp Hi; [unfold FrameLimitTracker.push_frame in Hp|]; by outcome_inv. Qed.

Lemma ds_create_free fi ci (j j' : J) t t' (x : result unit E) :
  fi_frame_input fi = FrameInputCreate ci →
  DataSizeTracker.before_frame_init fi j t = Ret (t', j', x) →
  x = Ok tt ∧ address_free (ds_frame_tracker t').
Proof.
  unfold DataSizeTracker.before_frame_init, DataSizeTracker.push_frame. intros -> Hb.
  apply bind_Ret in Hb as (t1&Hb&[= <- _ <-]). split; [done|]. outcome_inv.
  destruct (parent_not_updated _); outcome_inv; [eapply ds_record_free; [done|]|];
    by eapply pushed_free.
Qed.
Lemma kv_create_free fi ci (j j' : J) t t' (x : result unit E) :
  fi_frame_input fi = FrameInputCreate ci →
  KVUpdateTracker.before_frame_init fi j t = Ret (t', j', x) →
  x = Ok tt ∧ address_free (kv_frame_tracker t').
Proof.
  unfold KVUpdateTracker.before_frame_init, KVUpdateTracker.push_frame. intros -> Hb.
  apply bind_Ret in Hb as (t1&Hb&[= <- _ <-]). split; [done|]. outcome_inv.
  destruct (parent_not_updated _); outcome_inv; [eapply kv_record_free; [done|]|];
    by eapply pushed_free.
Qed.

Lemma init_trackers_free fi ci (j j' : J) s s' x :
  fi_frame_input fi = FrameInputCreate ci →
  AdditionalLimit.init_trackers (Gas:=Gas) (E:=E) fi j s = Ret (s', j', x) → addresses_free s'.
Proof.
  intros Hfi Hi. unfold AdditionalLimit.init_trackers in Hi. simpl in Hi.
  apply bind_Ret in Hi as ([[sg j1] y]&Hsg&Hi). unfold StateGrowthTracker.before_frame_init in Hsg.
  rewrite Hfi in Hsg. apply bind_Ret in Hsg as (sg1&_&Hsg). apply bind_Ret in Hsg as (sg2&_&[= _ _ <-]).
  apply bind_Ret in Hi as ([[ds j2] y]&Hds&Hi). apply (ds_create_free _ ci) in Hds as [-> Hds]; [|done].
  apply bind_Ret in Hi as ([[kv j3] y]&Hkv&Hi). apply (kv_create_free _ ci) in Hkv as [-> Hkv]; [|done].
  apply bind_Ret in Hi as ([[cg j4] y]&_&Hi). by injection Hi as <- _ _.
Qed.

Lemma addresses_free_checked s s' c :
  AdditionalLimit.check_limit s = Ret (s', c) → addresses_free s → addresses_free s'.
Proof. intros (Hds&Hkv&_)%check_limit_trackers. unfold addresses_free. by rewrite Hds, Hkv. Qed.

Lemma create_init_free fi (j : J) s s' :
  creates (HFrameInit fi j) = true →
  hook (Gas:=Gas) (E:=E) (HFrameInit fi j) s = Ret s' → addresses_free s'.
Proof.
  simpl. destruct (fi_frame_input fi) as [ci|ci|] eqn:Hfi; [done| |done]. intros _ Hb.
  apply bind_Ret in Hb as ([[s0 j0] r]&Hb&[= <-]). unfold AdditionalLimit.before_frame_init in Hb.
  apply bind_Ret in Hb as ([[s1 j1] x]&Hi%(init_trackers_free _ ci)&Hb); [|done].
  destruct x as [[]|e]; [|by injection Hb as <- _ _].
  apply bind_Ret in Hb as ([s2 c]&Hc&Hb). apply addresses_free_checked in Hc; [|done].
  destruct (LimitCheck.exceeded_limit c); [|by injection Hb as <- _ _]. rewrite Hfi in Hb. simpl in Hb.
  apply bind_Ret in Hb as (s3&Hr&[= <- _ _]). unfold AdditionalLimit.try_rescue_gas in Hr.
  apply bind_Ret in Hr as ([s4 c']&Hc'&Hr). apply addresses_free_checked in Hc'; [|done].
  destruct (_ && _); [|by injection Hr as <-].
  unfold AdditionalLimit.rescue_gas in Hr. by apply bind_Ret in Hr as (n&_&[= <-]).
Qed.

Lemma after_init_total n m created r s :
  al_ok n m s → event_ok n created (HAfterInit r) → (created = true → addresses_free s) → m + event_cost (HAfterInit (J:=J) r) ≤ u64_max →
  ∃ s', AdditionalLimit.after_frame_init (J:=J) (E:=E) r s = Ret s' ∧
    al_ok n (m + event_cost (HAfterInit (J:=J) r)) s'.
Proof.
  intros Hs Hok Hfree Hroom. destruct r as [frame|r]; simpl in *; [|by apply try_rescue_total].
  destruct (on_trackers_total (λ T (inst : TxRuntimeLimit T J E Gas),
    trl_after_frame_init_on_frame frame) n n m (m + 40) s) as (s1&Hs1&Hok1&_);
    try done; try lia; destruct Hs as (Hsg&Hds&Hkv&Hcg&Hr); simpl;
    try (eexists; split; [done|]; eapply sized_mono; [done|lia]).
  - unfold DataSizeTracker.after_frame_init_on_frame. change ACCOUNT_INFO_WRITE_SIZE with 40.
    destruct (sized_created 40 frame _ _ _ Hds) as (ft&->&Hft); [lia|lia| |simpl; by eauto].
    intros Hc. apply Hfree. by apply Hok.
  - unfold KVUpdateTracker.after_frame_init_on_frame.
    destruct (sized_created 1 frame _ _ _ Hkv) as (ft&->&Hft); [lia|lia| |].
    + intros Hc. apply Hfree. by apply Hok.
    + simpl. eexists. split; [done|]. eapply sized_mono; [done|lia].
  - eauto.
Qed.

Lemma after_run_total n m created r g s :
  al_ok n m s → event_ok n created (HAfterRun r g) → m + event_cost (HAfterRun (J:=J) r g) ≤ u64_max →
  ∃ s' r', AdditionalLimit.after_frame_run r g s = Ret (s', r') ∧
    al_ok n (m + event_cost (HAfterRun (J:=J) r g)) s'.
Proof.
  intros Hs Hok Hroom. simpl in Hroom, Hok |- *. unfold AdditionalLimit.after_frame_run.
  pose proof (gas_remaining_range (frame_result_gas r)) as [Hgr _].
  assert (∀ i o, frame_result_gas (mark_frame_result_as_exceeding_limit i o r) =
    frame_result_gas r) as Hmark by by destruct r.
  destruct g as [g|]; simpl in *.
  - destruct (record_compute_total n m (sat_sub g (gas_remaining (frame_result_gas r))) s Hs)
      as (s1&b&->&Hs1); [unfold sat_sub; lia|unfold sat_sub; lia|]. simpl.
    assert (al_ok n (m + g) s1) as Hs1' by (eapply al_ok_mono; [done|unfold sat_sub; lia]).
    destruct (try_rescue_total n (m + g) (frame_result_gas r) s1 Hs1') as (s2&Hs2&Hok2); [lia|].
    destruct b; simpl; rewrite ?Hmark, Hs2; simpl; do 2 eexists; (split; [done|]);
      (eapply al_ok_mono; [done|lia]).
  - destruct (try_rescue_total n m (frame_result_gas r) s Hs) as (s2&->&Hok2); [lia|].
    simpl. do 2 eexists. split; [done|]. eapply al_ok_mono; [done|lia].
Qed.

Lemma return_total n m last (r : FrameResult Gas) s :
  al_ok n m s → m ≤ u64_max → last = true ∨ n ≠ 0%nat →
  ∃ s' r', AdditionalLimit.before_frame_return_result (J:=J) (E:=E) last r s = Ret (s', r') ∧
    al_ok (pred n) m s'.
Proof.
  intros Hs Hm Hn. unfold AdditionalLimit.before_frame_return_result.
  destruct (on_trackers_total (λ T (inst : TxRuntimeLimit T J E Gas),
    trl_before_frame_return_result last r) n (pred n) m m s) as (s1&->&Hs1&_);
    try done; destruct Hs as (Hsg&Hds&Hkv&Hcg&Hr); simpl.
  - destruct (sized_pop last r _ _ _ Hsg Hm Hn) as (ft&->&?). simpl. eauto.
  - destruct (sized_pop last r _ _ _ Hds Hm Hn) as (ft&->&?). simpl. eauto.
  - destruct (sized_pop last r _ _ _ Hkv Hm Hn) as (ft&->&?). simpl. eauto.
  - destruct (sized_pop last r _ _ _ Hcg Hm Hn) as (ft&->&?). simpl. eauto.
  - destruct (check_limit_total _ _ _ Hs1 Hm) as (c&->). simpl.
    destruct (LimitCheck.exceeded_limit c && _); [|by eauto].
    destruct (LimitCheck.is_frame_local c); eauto.
Qed.

Lemma sstore_total n m sr s :
  al_ok n m s → m + 40 ≤ u64_max →
  ∃ s' b, AdditionalLimit.on_sstore (J:=J) (E:=E) (Gas:=Gas) sr s = Ret (s', b) ∧
    al_ok n (m + 40) s'.
Proof.
  intros Hs Hm. unfold AdditionalLimit.on_sstore.
  destruct (on_trackers_total (λ T (inst : TxRuntimeLimit T J E Gas), trl_after_sstore sr)
    n n m (m + 40) s) as (s1&->&Hs1&_); try done; try lia.
  - destruct Hs as (Hsg&_). simpl. unfold StateGrowthTracker.after_sstore,
      StateGrowthTracker.record_growth, StateGrowthTracker.record_refund.
    destruct (sg_record_total (Discardable 1) _ _ _ Hsg) as (ft&Hft&Hs1); [done|simpl; lia|].
    destruct (sg_record_total (Refund 1) _ _ _ Hsg) as (ft'&Hft'&Hs1'); [done|simpl; lia|].
    change (FrameLimitTracker.frame_mut (FrameLimitEntry.add_discardable 1)
      (sg_frame_tracker (state_growth s)) = Ret ft) in Hft.
    change (FrameLimitTracker.frame_mut (FrameLimitEntry.add_refund 1)
      (sg_frame_tracker (state_growth s)) = Ret ft') in Hft'.
    repeat case_bool_decide;
      try (rewrite Hft || rewrite Hft'); simpl; eexists; (split; [done|]); simpl;
      (eapply sized_mono; [done|simpl; lia]).
  - destruct Hs as (_&Hds&_). simpl. unfold DataSizeTracker.after_sstore.
    change STORAGE_SLOT_WRITE_SIZE with 40.
    destruct (ds_record_total 40 _ _ _ Hds) as (t1&Ht1&Hs1); [lia|lia|].
    destruct (sized_charge (Refund 40) _ _ _ Hds) as (ft'&Hft'&Hs1'); [done|simpl; lia|].
    change (FrameLimitTracker.frame_mut (FrameLimitEntry.add_refund 40)
      (ds_frame_tracker (data_size s)) = Ret ft') in Hft'.
    unfold DataSizeTracker.record_refund. rewrite Hft', Ht1. simpl.
    destruct (is_original_eq_present sr), (is_original_eq_new sr); simpl; eexists;
      (split; [done|]); simpl; (eapply sized_mono; [done|simpl; lia]).
  - destruct Hs as (_&_&Hkv&_). simpl. unfold KVUpdateTracker.after_sstore.
    destruct (kv_record_total 1 _ _ _ Hkv) as (t1&Ht1&Hs1); [lia|lia|].
    destruct (sized_charge (Refund 1) _ _ _ Hkv) as (ft'&Hft'&Hs1'); [done|simpl; lia|].
    change (FrameLimitTracker.frame_mut (FrameLimitEntry.add_refund 1)
      (kv_frame_tracker (kv_update s)) = Ret ft') in Hft'.
    unfold KVUpdateTracker.record_refund. rewrite Hft', Ht1. simpl.
    destruct (is_original_eq_present sr), (is_original_eq_new sr); simpl; eexists;
      (split; [done|]); simpl; (eapply sized_mono; [done|simpl; lia]).
  - destruct Hs as (_&_&_&Hcg&_). eexists. split; [done|]. eapply sized_mono; [done|lia].
  - simpl. by apply still_within_total.
Qed.

Lemma hook_total n m created ev s :
  al_ok n m s → event_ok n created ev → (created = true → addresses_free s) →
  aborts (sg_spec (state_growth s)) ev = false → m + event_cost ev ≤ u64_max →
  ∃ s', hook (Gas:=Gas) (J:=J) (E:=E) ev s = Ret s' ∧ al_ok (next_n n ev) (m + event_cost ev) s'.
Proof.
  intros Hs Hok Hfree Hab Hroom.
  destruct ev as [tx| |fi j|r|frame|frame action|r g|last r|sr|t d|g|cap]; simpl next_n.
  - destruct (tx_start_total n m tx s Hs Hok Hroom) as (s'&b&Hh&Hs'). simpl. rewrite Hh. simpl. eauto.
  - simpl in *. rewrite Z.add_0_r in *. by apply push_empty_total.
  - destruct (frame_init_total n m created fi j s Hs Hok Hab Hroom) as (s'&j'&r&Hh&Hs').
    simpl. rewrite Hh. simpl. eauto.
  - by apply (after_init_total n m created).
  - simpl in *. rewrite Z.add_0_r in *. unfold AdditionalLimit.before_frame_run.
    destruct (on_trackers_total (λ T (inst : TxRuntimeLimit T J E Gas),
      trl_before_frame_run frame) n n m m s) as (s1&->&Hs1&_); try done;
      try (destruct Hs as (?&?&?&?&?); simpl; by eauto).
    simpl. destruct (check_limit_total _ _ _ Hs1 Hroom) as (c&->). simpl.
    destruct (LimitCheck.exceeded_limit c); simpl; eauto.
  - destruct (after_instructions_total n m frame action s Hs Hroom) as (s'&a&Hh&Hs').
    unfold hook. rewrite Hh. simpl. eauto.
  - destruct (after_run_total n m created r g s Hs Hok Hroom) as (s'&r'&Hh&Hs').
    unfold hook. rewrite Hh. simpl. eauto.
  - simpl in *. rewrite Z.add_0_r in *.
    destruct (return_total n m last r s Hs Hroom Hok) as (s'&r'&->&Hs'). simpl. eauto.
  - destruct (sstore_total n m sr s Hs Hroom) as (s'&b&Hh&Hs'). unfold hook. rewrite Hh. simpl. eauto.
  - simpl in *. unfold AdditionalLimit.on_log, DataSizeTracker.after_log, LOG_TOPIC_SIZE.
    pose proof (sized_nonneg _ _ _ (proj1 Hs)).
    rewrite mul_u64_in by (unfold in_u64; lia). simpl.
    rewrite add_u64_in by (unfold in_u64; lia). simpl.
    destruct Hs as (Hsg&Hds&Hkv&Hcg&Hr).
    destruct (ds_record_total (t * 32 + d) _ _ _ Hds) as (t1&->&Hs1); [lia|lia|]. simpl.
    destruct (still_within_total n (m + (t * 32 + d)) (AdditionalLimit.set_data_size t1 s))
      as (s'&b&->&Hs'); [|done|simpl; by eauto].
    split_and!; simpl; try done; try lia; (eapply sized_mono; [done|lia]).
  - destruct (record_compute_total n m g s Hs Hok Hroom) as (s'&b&Hh&Hs').
    unfold hook. rewrite Hh. simpl. eauto.
  - simpl in *. rewrite Z.add_0_r in *. unfold AdditionalLimit.set_compute_gas_limit,
      ComputeGasTracker.set_detained_limit, ComputeGasTracker.tx_usage.
    destruct Hs as (Hsg&Hds&Hkv&Hcg&Hr). destruct (sized_usage _ _ _ Hcg Hroom) as (u&->).
    destruct (cg_rex4_enabled (compute_gas s)); simpl; eexists; split; done.
Qed.

(** The hooks of a transaction, as the handler calls them from [n] frames on: a return has a
    frame to end, the frame that an initialisation was answered with is a create only if
    the input was, and nothing follows an initialisation that failed. *)
Fixpoint well_nested (spec : MegaSpecId) (n : nat) (created : bool)
    (evs : list (hook_event (Gas:=Gas) (J:=J))) : Prop :=
  match evs with
  | [] => True
  | ev :: evs =>
      event_ok n created ev ∧
      if aborts spec ev then evs = [] else well_nested spec (next_n n ev) (creates ev) evs
  end.

Definition trace_cost (evs : list (hook_event (Gas:=Gas) (J:=J))) : Z :=
  foldr (λ ev z, Z.max 0 (event_cost ev) + z) 0 evs.

Lemma trace_cost_nonneg evs : 0 ≤ trace_cost evs.
Proof. induction evs; simpl; lia. Qed.

Lemma hook_spec ev s s' spec :
  spec_ok spec s → hook (Gas:=Gas) (J:=J) (E:=E) ev s = Ret s' → spec_ok spec s'.
Proof. intros Hs Hh. eapply control_spec; [by eapply hook_control|done]. Qed.

Lemma hooks_total spec n m created evs s :
  al_ok n m s → spec_ok spec s → (created = true → addresses_free s) →
  well_nested spec n created evs → m + trace_cost evs ≤ u64_max →
  ∃ s', hooks (E:=E) evs s = Ret s' ∧
    (existsb (aborts spec) evs = false → al_ok (foldl next_n n evs) (m + trace_cost evs) s').
Proof.
  revert n m created s. induction evs as [|ev evs IH]; intros n m created s Hs Hspec Hfree Htr Hroom; simpl in *.
  { rewrite Z.add_0_r. eauto. }
  destruct Htr as [Hok Htr]. pose proof (event_cost_nonneg n created ev Hok).
  pose proof (trace_cost_nonneg evs). pose proof Hspec as (_&_&_&_&Hsg).
  destruct (aborts spec ev) eqn:Hab.
  - subst evs. destruct ev as [| |fi j| | | | | | | | |]; try done. simpl in Hab |- *. rewrite <-Hsg in Hab.
    destruct (frame_init_aborts n m fi j s Hs) as (s'&j'&e&->); [lia|done|]. simpl. by eexists.
  - assert (aborts (sg_spec (state_growth s)) ev = false) as Hab' by by rewrite Hsg.
    destruct (hook_total n m created ev s Hs Hok Hfree Hab') as (s1&Hh&Hs1); [lia|]. rewrite Hh. simpl.
    destruct (IH _ _ (creates ev) s1 Hs1) as (s2&->&Hs2); [by eapply hook_spec| |done|lia|].
    { intros Hc. destruct ev as [| |fi j| | | | | | | | |]; try done. by eapply create_init_free. }
    eexists. split; [done|]. intros Hno. eapply al_ok_mono; [by apply Hs2|lia].
Qed.

Definition limits_in_u64 (l : EvmTxRuntimeLimits) : Prop :=
  in_u64 (tx_data_size_limit l) ∧ in_u64 (tx_kv_updates_limit l) ∧
  in_u64 (tx_compute_gas_limit l) ∧ in_u64 (tx_state_growth_limit l).

Lemma new_al_ok spec l : limits_in_u64 l → al_ok 0 0 (AdditionalLimit.new spec l).
Proof.
  intros (?&?&?&?). split_and!; simpl; try lia; by apply sized_new.
Qed.
End total.

(** ** A reference journal, for the witnesses: every account is empty, and 66 cannot be read *)
#[local] Instance reference_journal : JournalInspectTr unit unit bool := {|
  inspect_account_delegated _ a j := (j, if decide (a = 66) then Err tt else Ok true) |}.
#[local] Instance reference_account : AccountApi bool := {|
  state_clear_aware_is_empty b := b |}.
#[local] Existing Instances checked_build reference_instruction_result reference_sstore
  reference_abi reference_gas.

Definition example_limits : EvmTxRuntimeLimits := mkEvmTxRuntimeLimits 1000 10 5000 5 2000 1000.
Definition example_tx : MegaTransaction :=
  example_tx [Byte.x01; Byte.x02] None [] 0.
Definition example_call_to (target : Address) (value : bool) : FrameInit :=
  Build_FrameInit 1 (FrameInputCall (Build_CallInputs target target 1
    (if value then ValueTransfer 1 else ValueApparent 0) 300 (0, 0) [] SchemeCall)).
Definition example_call := example_call_to 7.
Definition example_create : FrameInit := Build_FrameInit 2 (FrameInputCreate (Build_CreateInputs 7 200)).
Definition example_frame (data : FrameData) : ItemOrResult (EthFrame RefGas) (FrameResult RefGas) :=
  Item (Build_EthFrame _ data (mkRefGas 300 300)).
Definition example_result (r : InstructionResult) : FrameResult RefGas :=
  FrameResultCall (mkInterpreterResult r [] (mkRefGas 300 120)) (0, 0).
Definition example_events : list (hook_event (Gas:=RefGas) (J:=unit)) :=
  [HTxStart example_tx; HCompute 21;
   HFrameInit (example_call true) tt; HAfterInit (example_frame FrameDataCall); HCompute 100;
   HSstore (Build_SStoreResult 0 0 5); HLog 2 10;
   HFrameInit example_create tt; HAfterInit (example_frame (FrameDataCreate 70)); HCompute 30;
   HReturn false (example_result Stop);
   HPushEmpty; HReturn false (example_result Stop);
   HFrameInit (example_call false) tt; HAfterInit (example_frame FrameDataCall);
   HCompute 40; HReturn false (example_result Revert); HReturn true (example_result Stop)].
Definition failing_events : list (hook_event (Gas:=RefGas) (J:=unit)) :=
  [HTxStart example_tx; HFrameInit example_create tt; HAfterInit (example_frame (FrameDataCreate 70));
   HFrameInit (example_call_to 66 true) tt].

(** ** Properties *)

(** C4: No hook panics.  Let the hooks of a transaction be called as the handler calls them:
    its start, initialisations of frames for calls and creates, what [revm] made of the
    input right after its initialisation, instruction hooks and returns, in any order in
    which every return matches a frame, and nothing after an initialisation whose
    inspection of the callee failed.  If the recorded amounts together fit in a [u64], no
    assertion fails: in particular a created account has an address and was not recorded
    before, and the frame stacks are not empty at a return; no counter overflows in any
    build, and without a failed inspection the four trackers stay exactly as deep as the
    call stack.  The third kind of frame input, which the code marks as unreachable, does
    panic. *)
Theorem hooks_never_panic `{Profile} `{InstructionResultApi} `{SStoreApi} `{AbiApi}
    {Gas J E Account : Type} `{GasApi Gas} (gas_laws : GasLaws Gas)
    `{JournalInspectTr J E Account} `{AccountApi Account}
    spec l (evs : list (hook_event (Gas:=Gas) (J:=J))) :
  limits_in_u64 l → well_nested spec 0 false evs → trace_cost evs ≤ u64_max →
  (∃ s, hooks (E:=E) evs (AdditionalLimit.new spec l) = Ret s ∧
    (existsb (aborts spec) evs = false →
     length (frame_stack (sg_frame_tracker (state_growth s))) = foldl next_n 0%nat evs ∧
     length (frame_stack (ds_frame_tracker (data_size s))) = foldl next_n 0%nat evs ∧
     length (frame_stack (kv_frame_tracker (kv_update s))) = foldl next_n 0%nat evs ∧
     length (frame_stack (cg_frame_tracker (compute_gas s))) = foldl next_n 0%nat evs ∧
     rescued_gas s ≤ trace_cost evs)) ∧
  ∀ fi (j : J) s, fi_frame_input fi = FrameInputEmpty →
    AdditionalLimit.before_frame_init (Gas:=Gas) (E:=E) fi j s = Panic.
Proof.
  intros Hl Htr Hroom. split; [|intros fi j s; apply frame_init_empty].
  destruct (hooks_total spec 0 0 false evs _ (new_al_ok spec l Hl) (new_spec_ok spec l))
    as (s&Hh&Hok); [done|done|lia|].
  exists s. split; [done|]. intros (Hsg&Hds&Hkv&Hcg&Hr)%Hok.
  split_and!; try (by eapply sized_length). lia.
Qed.

(** A call with value, whose contract creates another; a call that is intercepted; and a
    create in which the inspection of a callee fails. *)
Lemma hooks_never_panic_witness :
  (∃ s, hooks (E:=unit) example_events (AdditionalLimit.new REX4 example_limits) = Ret s ∧
    length (frame_stack (ds_frame_tracker (data_size s))) = 0%nat ∧
    FrameLimitTracker.net_usage (ds_frame_tracker (data_size s)) = Ret 346) ∧
  ∃ s, hooks (E:=unit) failing_events (AdditionalLimit.new REX4 example_limits) = Ret s.
Proof.
  split.
  - destruct (hooks_never_panic (E:=unit) reference_gas_laws REX4 example_limits example_events)
      as [(s&Hs&Hlen) _]; [repeat split; simpl; u64_lia| |vm_compute; discriminate|].
    { vm_compute. naive_solver. }
    exists s. split; [exact Hs|]. destruct (Hlen eq_refl) as (_&Hds&_). split; [exact Hds|].
    vm_compute in Hs. injection Hs as <-. vm_compute. reflexivity.
  - destruct (hooks_never_panic (E:=unit) reference_gas_laws REX4 example_limits failing_events)
      as [(s&Hs&_) _]; [repeat split; simpl; u64_lia| |vm_compute; discriminate|by exists s].
    vm_compute. naive_solver.
Defined.

(** [check_limit] reports a recorded exceed again and again; without one it
    reports the first exceeded limit in the order data size, KV updates, compute
    gas, state growth, records it, and changes nothing else. *)
Theorem check_limit_first_exceeded `{Profile} s c_data c_kv c_compute c_growth :
  DataSizeTracker.check_limit (data_size s) = Ret c_data →
  KVUpdateTracker.check_limit (kv_update s) = Ret c_kv →
  ComputeGasTracker.check_limit (compute_gas s) = Ret c_compute →
  StateGrowthTracker.check_limit (state_growth s) = Ret c_growth →
  let c := if LimitCheck.exceeded_limit (has_exceeded_limit s) then has_exceeded_limit s
           else first_exceeded [c_data; c_kv; c_compute; c_growth] in
  AdditionalLimit.check_limit s = Ret (AdditionalLimit.set_exceeded c s, c) ∧
  AdditionalLimit.check_limit (AdditionalLimit.set_exceeded c s) =
    Ret (AdditionalLimit.set_exceeded c s, c).
Proof.
  intros Hd Hk Hc Hg. unfold AdditionalLimit.check_limit, first_exceeded.
  destruct s as [fl rg li sg ds kv cg]. simpl in *.
  destruct (LimitCheck.exceeded_limit fl) eqn:Hfl; simpl; [by rewrite Hfl|].
  apply exceeded_limit_false in Hfl as ->. rewrite Hd, Hk, Hc, Hg.
  destruct c_data; simpl; [|done]. destruct c_kv; simpl; [|done].
  destruct c_compute; simpl; [|done]. by destruct c_growth.
Qed.

Lemma check_limit_first_exceeded_witness :
  let s := AdditionalLimit.set_kv_update
    (mkKVUpdate false (mkTracker (mkEntry 10 12 0 0 tt) []))
    (AdditionalLimit.set_compute_gas
      (mkComputeGas true false 50 (mkTracker (mkEntry 100 60 0 0 tt) []))
      (AdditionalLimit.new REX example_limits)) in
  let c := ExceedsLimit KVUpdate 10 12 false in
  AdditionalLimit.check_limit s = Ret (AdditionalLimit.set_exceeded c s, c) ∧
  AdditionalLimit.check_limit (AdditionalLimit.set_exceeded c s) =
    Ret (AdditionalLimit.set_exceeded c s, c).
Proof.
  intros s c.
  apply (check_limit_first_exceeded s WithinLimit c (ExceedsLimit ComputeGas 50 60 false)
    WithinLimit); reflexivity.
Defined.

(** C5: A transaction-level exceed is final: once it is recorded no hook, in no
    order, clears or replaces it before [reset]; every later recording hook
    answers that the limit is exceeded, and every later frame start is refused
    with [OutOfGas]. *)
Theorem tx_exceed_is_final `{Profile} `{InstructionResultApi} `{SStoreApi} `{AbiApi}
    {Gas J E Account : Type} `{GasApi Gas} `{JournalInspectTr J E Account} `{AccountApi Account}
    (evs : list (hook_event (Gas:=Gas) (J:=J))) s s' k l u :
  has_exceeded_limit s = ExceedsLimit k l u false →
  hooks (E:=E) evs s = Ret s' →
  has_exceeded_limit s' = ExceedsLimit k l u false ∧
  AdditionalLimit.still_within s' = Ret (s', false) ∧
  (∀ frame, AdditionalLimit.before_frame_run (Gas:=Gas) (J:=J) (E:=E) frame s' =
    Ret (s', Some (mkInterpreterResult OutOfGas
      (abi_MegaLimitExceeded (LimitKind.as_u8 k) l) (frame_gas frame)))).
Proof.
  intros Hs Hh. apply hooks_control in Hh. pose proof (control_final s s' k l u Hh Hs) as Hs'.
  assert (AdditionalLimit.check_limit s' = Ret (s', has_exceeded_limit s')) as Hc.
  { unfold AdditionalLimit.check_limit. by rewrite Hs'. }
  split; [done|]. split.
  - unfold AdditionalLimit.still_within. rewrite Hc, Hs'. done.
  - intros frame. unfold AdditionalLimit.before_frame_run.
    assert (AdditionalLimit.on_trackers (λ T (inst : TxRuntimeLimit T J E Gas),
      trl_before_frame_run frame) s' = Ret s') as -> by by destruct s'.
    simpl. rewrite Hc. simpl. unfold AdditionalLimit.exceeding_instruction_result.
    by rewrite Hs'.
Qed.

Lemma tx_exceed_is_final_witness :
  let s := AdditionalLimit.set_exceeded (ExceedsLimit DataSize 100 140 false)
             (AdditionalLimit.new REX example_limits) in
  ∃ s', hooks (E:=unit) example_events s = Ret s' ∧
    has_exceeded_limit s' = ExceedsLimit DataSize 100 140 false ∧
    AdditionalLimit.still_within s' = Ret (s', false) ∧
    (∀ frame, AdditionalLimit.before_frame_run (Gas:=RefGas) (J:=unit) (E:=unit) frame s' =
      Ret (s', Some (mkInterpreterResult OutOfGas
        (abi_MegaLimitExceeded (LimitKind.as_u8 DataSize) 100) (frame_gas frame)))).
Proof.
  intros s. eexists. split; [vm_compute; reflexivity|].
  apply (tx_exceed_is_final (E:=unit) example_events s); reflexivity.
Defined.

(** Before Rex4 every recorded exceed is transaction-level, so it halts the
    transaction; from Rex4 on, data size, KV update and state growth exceeds are
    always frame-local, and only compute gas can still exceed at transaction
    level. *)
Theorem exceed_locality `{Profile} `{InstructionResultApi} `{SStoreApi} `{AbiApi}
    {Gas J E Account : Type} `{GasApi Gas} `{JournalInspectTr J E Account} `{AccountApi Account}
    spec limits (evs : list (hook_event (Gas:=Gas) (J:=J))) s k l u frame_local :
  hooks (E:=E) evs (AdditionalLimit.new spec limits) = Ret s →
  has_exceeded_limit s = ExceedsLimit k l u frame_local →
  (MegaSpecId.is_enabled spec REX4 = false → frame_local = false) ∧
  (MegaSpecId.is_enabled spec REX4 = true → k ≠ ComputeGas → frame_local = true).
Proof.
  intros Hh Hfl. apply hooks_control in Hh.
  pose proof (control_locality spec _ s Hh (new_spec_ok spec limits) I) as Hloc.
  rewrite Hfl in Hloc. simpl in Hloc. destruct frame_local.
  - split; [by rewrite Hloc|done].
  - split; [done|]. intros Hr4 Hk. by apply Hloc in Hr4.
Qed.

Lemma exceed_locality_witness :
  ∃ s, hooks (E:=unit) [HTxStart example_tx; HFrameInit (example_call false) tt; HLog 40 10]
      (AdditionalLimit.new REX4 example_limits) = Ret s ∧
    has_exceeded_limit s = ExceedsLimit DataSize 1000 1290 true ∧
    (MegaSpecId.is_enabled REX4 REX4 = false → true = false) ∧
    (MegaSpecId.is_enabled REX4 REX4 = true → DataSize ≠ ComputeGas → true = true).
Proof.
  eexists. split; [vm_compute; reflexivity|]. split; [reflexivity|].
  refine (exceed_locality (E:=unit) REX4 example_limits
    [HTxStart example_tx; HFrameInit (example_call false) tt; HLog 40 10] _
    DataSize 1000 1290 true _ _); vm_compute; reflexivity.
Defined.

(** C11: A frame whose exceed was recorded returns in one of two ways.  A frame-local
    exceed is absorbed at the frame's boundary: the flag is cleared, the result
    becomes a [Revert] that carries the encoded [MegaLimitExceeded(kind, limit)]
    and keeps the frame's gas, so the caller goes on with the gas that was left.
    A transaction-level exceed stays recorded and the result becomes [OutOfGas]
    with empty output.  Neither rescues gas here, and both leave the trackers one
    frame shallower. *)
Theorem exceeded_frame_returns `{Profile} `{InstructionResultApi} `{SStoreApi} `{AbiApi}
    {Gas J E Account : Type} `{GasApi Gas} (gas_laws : GasLaws Gas)
    `{JournalInspectTr J E Account} `{AccountApi Account}
    n m s last (r : FrameResult Gas) k l u frame_local :
  al_ok (S n) m s → m ≤ u64_max →
  has_exceeded_limit s = ExceedsLimit k l u frame_local →
  ∃ s', AdditionalLimit.before_frame_return_result (J:=J) (E:=E) last r s =
      Ret (s', frame_result_map (λ i,
        if frame_local
        then mkInterpreterResult Revert (abi_MegaLimitExceeded (LimitKind.as_u8 k) l) (ir_gas i)
        else mkInterpreterResult OutOfGas [] (ir_gas i)) r) ∧
    has_exceeded_limit s' = (if frame_local then WithinLimit else has_exceeded_limit s) ∧
    rescued_gas s' = rescued_gas s ∧ al_ok n m s'.
Proof.
  intros Hs Hm Hfl.
  assert (last = true ∨ S n ≠ 0%nat) as Hn by by right.
  pose proof (return_total (E:=E) (J:=J) (S n) m last r s Hs Hm Hn) as (s'&r'&Hret&Hs').
  pose proof Hret as Hdef. unfold AdditionalLimit.before_frame_return_result in Hdef.
  apply bind_Ret in Hdef as (s1&Hs1&Hdef).
  pose proof (on_trackers_same_control _ _ _ (keeps_spec_return last r) Hs1) as (Hf1&Hr1&_).
  assert (AdditionalLimit.check_limit s1 = Ret (s1, ExceedsLimit k l u frame_local)) as Hc.
  { unfold AdditionalLimit.check_limit. by rewrite Hf1, Hfl. }
  rewrite Hc in Hdef. simpl in Hdef.
  assert (DataSizeTracker.has_active_frame (data_size s) = true) as Hact.
  { destruct Hs as (_&Hds&_). apply sized_length in Hds.
    unfold DataSizeTracker.has_active_frame, FrameLimitTracker.has_active_frame.
    by destruct (frame_stack (ds_frame_tracker (data_size s))). }
  rewrite Hact, andb_false_r in Hdef. simpl in Hdef. rewrite Hret.
  destruct frame_local; simplify_eq/=; eexists; (split; [done|]); split_and!; done || congruence.
Qed.

Lemma exceeded_frame_returns_witness :
  let s := AdditionalLimit.set_exceeded (ExceedsLimit DataSize 100 140 true)
    (mkAdditionalLimit WithinLimit 0 example_limits
      (mkStateGrowth REX4 (mkTracker (mkEntry 5 0 0 0 tt) [mkEntry 5 0 0 0 tt]))
      (mkDataSize true (mkTracker (mkEntry 5 0 0 0 tt)
         [mkEntry 100 0 140 0 (mkCallFrameInfo None false)]))
      (mkKVUpdate true (mkTracker (mkEntry 5 0 0 0 tt)
         [mkEntry 5 0 0 0 (mkCallFrameInfo None false)]))
      (mkComputeGas true true 50 (mkTracker (mkEntry 50 0 0 0 tt) [mkEntry 50 0 0 0 tt]))) in
  ∃ s', AdditionalLimit.before_frame_return_result (J:=unit) (E:=unit) false
      (example_result OutOfGas) s =
      Ret (s', FrameResultCall (mkInterpreterResult Revert
        (abi_MegaLimitExceeded 0 100) (mkRefGas 300 120)) (0, 0)) ∧
    has_exceeded_limit s' = WithinLimit ∧ rescued_gas s' = 0 ∧ al_ok 0 140 s'.
Proof.
  intros s.
  refine (exceeded_frame_returns (E:=unit) (J:=unit) reference_gas_laws 0 140 s false
    (example_result OutOfGas) DataSize 100 140 true _ _ _).
  - unfold al_ok. split_and!; simpl; try lia.
    + exists (mkLedger [] [[]]). split; [|vm_compute; split; [discriminate|done]].
      repeat constructor; simpl; u64_lia.
    + exists (mkLedger [] [[Discardable 140]]). split; [|vm_compute; split; [discriminate|done]].
      repeat constructor; simpl; u64_lia.
    + exists (mkLedger [] [[]]). split; [|vm_compute; split; [discriminate|done]].
      repeat constructor; simpl; u64_lia.
    + exists (mkLedger [] [[]]). split; [|vm_compute; split; [discriminate|done]].
      repeat constructor; simpl; u64_lia.
  - vm_compute. discriminate.
  - reflexivity.
Defined.

(** Gas is rescued for the sender only under a transaction-level exceed: if the
    rescued amount changed over a sequence of hooks, a transaction-level exceed is
    recorded at its end; and when [try_rescue_gas] runs under one it adds exactly
    the remaining gas it is given, while under a frame-local exceed or none it adds
    nothing. *)
Theorem rescue_only_on_tx_exceed `{Profile} `{InstructionResultApi} `{SStoreApi} `{AbiApi}
    {Gas J E Account : Type} `{GasApi Gas} `{JournalInspectTr J E Account} `{AccountApi Account}
    (evs : list (hook_event (Gas:=Gas) (J:=J))) s s' (gas : Gas) :
  hooks (E:=E) evs s = Ret s' →
  LimitCheck.exceeded_limit (has_exceeded_limit s') = true →
  in_u64 (rescued_gas s' + gas_remaining gas) →
  (rescued_gas s' ≠ rescued_gas s → LimitCheck.is_frame_local (has_exceeded_limit s') = false) ∧
  AdditionalLimit.try_rescue_gas gas s' =
    Ret (if LimitCheck.is_frame_local (has_exceeded_limit s') then s'
         else AdditionalLimit.set_rescued_gas (rescued_gas s' + gas_remaining gas) s').
Proof.
  intros Hh Hex Hroom. apply hooks_control in Hh. split.
  - intros Hne. destruct (control_rescue s s' Hh) as [|(k&l&u&->)]; [congruence|done].
  - unfold AdditionalLimit.try_rescue_gas, AdditionalLimit.check_limit. rewrite Hex. simpl.
    rewrite Hex. destruct (LimitCheck.is_frame_local (has_exceeded_limit s')); simpl; [done|].
    unfold AdditionalLimit.rescue_gas. by rewrite add_u64_in.
Qed.

Lemma rescue_only_on_tx_exceed_witness :
  let evs := [HTxStart example_tx; HFrameInit (example_call false) tt; HCompute 6000;
              HAfterRun (example_result Stop) None] in
  ∃ s', hooks (E:=unit) evs (AdditionalLimit.new REX example_limits) = Ret s' ∧
    rescued_gas s' = 120 ∧
    AdditionalLimit.try_rescue_gas (mkRefGas 50 30) s' =
      Ret (AdditionalLimit.set_rescued_gas 150 s').
Proof.
  intros evs. eexists. split; [vm_compute; reflexivity|]. split; [reflexivity|].
  refine (proj2 (rescue_only_on_tx_exceed (E:=unit) evs (AdditionalLimit.new REX example_limits)
    _ (mkRefGas 50 30) _ _ _)); [vm_compute; reflexivity|reflexivity|simpl; u64_lia].
Defined.

(** Where a state of the limits comes from: its specs, its configured limits and
    the limits of its trackers never change. *)
Definition origin spec lim (s : AdditionalLimit) : Prop :=
  spec_ok spec s ∧ limits s = lim ∧ tx_limits s = tx_limits (AdditionalLimit.new spec lim).

Lemma origin_new spec lim : origin spec lim (AdditionalLimit.new spec lim).
Proof. by repeat split. Qed.

(** [reset], on a state of known origin. *)
Lemma origin_reset `{Profile} spec lim s :
  origin spec lim s →
  AdditionalLimit.reset s =
    if MegaSpecId.is_enabled spec REX1 then AdditionalLimit.new spec lim
    else AdditionalLimit.set_compute_gas
           (mkComputeGas false (MegaSpecId.is_enabled spec REX4) (detained_limit (compute_gas s))
              (FrameLimitTracker.new (tx_compute_gas_limit lim)))
           (AdditionalLimit.new spec lim).
Proof.
  destruct s as [ex rg lims [sp [[? ? ? ? []] sgs]] [d4 [[? ? ? ? []] dss]] [k4 [[? ? ? ? []] kvs]]
    [r1 c4 det [[? ? ? ? []] cgs]]].
  unfold origin, spec_ok, tx_limits, FrameLimitTracker.tx_limit. simpl.
  intros ((->&->&->&->&->)&->&[= -> -> -> ->]).
  unfold AdditionalLimit.reset, ComputeGasTracker.reset, FrameLimitTracker.tx_limit,
    AdditionalLimit.new, ComputeGasTracker.new. simpl.
  by destruct (MegaSpecId.is_enabled spec REX1).
Qed.

Section origins.
Context `{Profile} `{InstructionResultApi} `{SStoreApi} `{AbiApi}
  {Gas J E Account : Type} `{GasApi Gas} `{JournalInspectTr J E Account}
  `{AccountApi Account}.

Lemma control_origin spec lim s s' :
  rtc (control_step (Gas:=Gas)) s s' → origin spec lim s → origin spec lim s'.
Proof.
  intros Hs (Hspec&Hlim&Htx). split; [by eapply control_spec|]. clear Hspec.
  revert Hlim Htx. induction Hs as [s|s s1 s' Hstep _ IH]; [done|]. intros Hlim Htx.
  assert (limits s1 = limits s ∧ tx_limits s1 = tx_limits s) as [He1 He2];
    [|apply IH; congruence].
  destruct Hstep as [s s1 (_&_&?&?&_)|s s1 c Hc|s s1 gas k l u Hfl Hr|s Hl]; [done| | |done].
  - by apply check_limit_cases in Hc as (->&_).
  - unfold AdditionalLimit.rescue_gas in Hr. by outcome_inv.
Qed.

Lemma hooks_origin spec lim (evs : list (hook_event (Gas:=Gas) (J:=J))) s s' :
  hooks (E:=E) evs s = Ret s' → origin spec lim s → origin spec lim s'.
Proof. intros Hs. eapply control_origin, hooks_control, Hs. Qed.
End origins.

(** [reset] undoes a transaction completely: whatever hooks ran since the limits
    were created, from Rex1 on the limits are exactly those of [new] again, with the
    same specs and the same configured limits, no exceed, no rescued gas, no frame
    and no usage.  Before Rex1 one thing survives, the detained compute gas limit of
    the previous transaction. *)
Theorem reset_restores_new `{Profile} `{InstructionResultApi} `{SStoreApi} `{AbiApi}
    {Gas J E Account : Type} `{GasApi Gas} `{JournalInspectTr J E Account} `{AccountApi Account}
    spec lim (evs : list (hook_event (Gas:=Gas) (J:=J))) s :
  hooks (E:=E) evs (AdditionalLimit.new spec lim) = Ret s →
  AdditionalLimit.reset s =
    if MegaSpecId.is_enabled spec REX1 then AdditionalLimit.new spec lim
    else AdditionalLimit.set_compute_gas
           (mkComputeGas false (MegaSpecId.is_enabled spec REX4) (detained_limit (compute_gas s))
              (FrameLimitTracker.new (tx_compute_gas_limit lim)))
           (AdditionalLimit.new spec lim).
Proof. intros Hs. eapply origin_reset, hooks_origin; [exact Hs|apply origin_new]. Qed.

Lemma reset_restores_new_witness :
  let evs := [HTxStart example_tx; HFrameInit (example_call false) tt; HCompute 6000;
              HAfterRun (example_result Stop) None] in
  ∃ s, hooks (E:=unit) evs (AdditionalLimit.new REX1 example_limits) = Ret s ∧
    has_exceeded_limit s ≠ WithinLimit ∧
    AdditionalLimit.reset s = AdditionalLimit.new REX1 example_limits.
Proof.
  intros evs. eexists. split; [vm_compute; reflexivity|]. split; [discriminate|].
  refine (reset_restores_new (E:=unit) REX1 example_limits evs _ _). vm_compute. reflexivity.
Defined.
