(* ===== verification/Hardfork.v ===== *)
(** * Hardforks

    Models [block/hardfork.rs]: the hardforks of MegaETH and the specs they
    activate, the trait [MegaHardforks] with its default methods, and the
    configuration that maps hardforks to fork conditions. *)
From S2P Require Import Prelude Spec.
Open Scope Z_scope.

Inductive MegaHardfork : Set :=
  | MiniRex | MiniRex1 | MiniRex2 | Rex | Rex1 | Rex2 | Rex3 | Rex4.

#[export] Instance MegaHardfork_eq_dec : EqDecision MegaHardfork.
Proof. solve_decision. Defined.

(** ** The hardfork crates: [alloy_hardforks] and [alloy_op_hardforks] *)
Inductive ForkCondition : Set :=
  | ForkBlock (n : Z)
  | ForkTTD (activation_block_number : Z) (fork_block : option Z) (total_difficulty : Z)
  | ForkTimestamp (t : Z)
  | ForkNever.

#[export] Instance ForkCondition_eq_dec : EqDecision ForkCondition.
Proof. solve_decision. Defined.

Inductive EthereumHardfork : Set :=
  | Frontier | Homestead | Dao | Tangerine | SpuriousDragon | Byzantium | Constantinople
  | Petersburg | Istanbul | Berlin | London | Paris | Shanghai | Cancun | Prague.
Inductive OpHardfork : Set :=
  | Bedrock | Regolith | Canyon | Ecotone | Fjord | Granite | Holocene | Isthmus.

(** [ForkCondition::active_at_timestamp] and the names the [hardfork!] macro
    generates. *)
Class ForkApi := {
  active_at_timestamp : ForkCondition → Z → bool;
  ethereum_name : EthereumHardfork → string;
  op_name : OpHardfork → string;
  mega_name : MegaHardfork → string;
}.

Class ForkLaws `{ForkApi} : Prop := {
  active_timestamp t ts : active_at_timestamp (ForkTimestamp t) ts = bool_decide (t ≤ ts);
  active_never ts : active_at_timestamp ForkNever ts = false;
  mega_name_inj h h' : mega_name h = mega_name h' → h = h';
}.

Module MegaHardfork.
Definition spec_id (self : MegaHardfork) : MegaSpecId :=
  match self with
  | MiniRex => MINI_REX
  | MiniRex1 => EQUIVALENCE
  | MiniRex2 => MINI_REX
  | Rex => REX
  | Rex1 => REX1
  | Rex2 => REX2
  | Rex3 => REX3
  | Rex4 => REX4
  end.
End MegaHardfork.

(** ** The trait [MegaHardforks] *)
Class MegaHardforks (T : Type) := {
  mega_fork_activation : T → MegaHardfork → ForkCondition;
}.

Module MegaHardforks.
Section methods.
Context `{ForkApi} {T : Type} `{MegaHardforks T}.

Definition is_mini_rex_active_at_timestamp (self : T) (timestamp : Z) : bool :=
  active_at_timestamp (mega_fork_activation self MiniRex) timestamp.
Definition is_mini_rex_1_active_at_timestamp (self : T) (timestamp : Z) : bool :=
  active_at_timestamp (mega_fork_activation self MiniRex1) timestamp.
Definition is_mini_rex_2_active_at_timestamp (self : T) (timestamp : Z) : bool :=
  active_at_timestamp (mega_fork_activation self MiniRex2) timestamp.
Definition is_rex_active_at_timestamp (self : T) (timestamp : Z) : bool :=
  active_at_timestamp (mega_fork_activation self Rex) timestamp.
Definition is_rex_1_active_at_timestamp (self : T) (timestamp : Z) : bool :=
  active_at_timestamp (mega_fork_activation self Rex1) timestamp.
Definition is_rex_2_active_at_timestamp (self : T) (timestamp : Z) : bool :=
  active_at_timestamp (mega_fork_activation self Rex2) timestamp.
Definition is_rex_3_active_at_timestamp (self : T) (timestamp : Z) : bool :=
  active_at_timestamp (mega_fork_activation self Rex3) timestamp.
Definition is_rex_4_active_at_timestamp (self : T) (timestamp : Z) : bool :=
  active_at_timestamp (mega_fork_activation self Rex4) timestamp.

Definition first_hardfork_block (self : T) (fork : MegaHardfork) (parent_timestamp : Z)
    (current_number_and_timestamp : Z * Z) : bool :=
  let '(current_number, current_timestamp) := current_number_and_timestamp in
  active_at_timestamp (mega_fork_activation self fork) current_timestamp &&
  (bool_decide (current_number = 1) ||
   negb (active_at_timestamp (mega_fork_activation self fork) parent_timestamp)).

Definition hardfork (self : T) (timestamp : Z) : option MegaHardfork :=
  if is_rex_4_active_at_timestamp self timestamp then Some Rex4
  else if is_rex_3_active_at_timestamp self timestamp then Some Rex3
  else if is_rex_2_active_at_timestamp self timestamp then Some Rex2
  else if is_rex_1_active_at_timestamp self timestamp then Some Rex1
  else if is_rex_active_at_timestamp self timestamp then Some Rex
  else if is_mini_rex_2_active_at_timestamp self timestamp then Some MiniRex2
  else if is_mini_rex_1_active_at_timestamp self timestamp then Some MiniRex1
  else if is_mini_rex_active_at_timestamp self timestamp then Some MiniRex
  else None.

Definition spec_id (self : T) (timestamp : Z) : MegaSpecId :=
  if is_rex_4_active_at_timestamp self timestamp then REX4
  else if is_rex_3_active_at_timestamp self timestamp then REX3
  else if is_rex_2_active_at_timestamp self timestamp then REX2
  else if is_rex_1_active_at_timestamp self timestamp then REX1
  else if is_rex_active_at_timestamp self timestamp then REX
  else if is_mini_rex_2_active_at_timestamp self timestamp then MINI_REX
  else if is_mini_rex_1_active_at_timestamp self timestamp then EQUIVALENCE
  else if is_mini_rex_active_at_timestamp self timestamp then MINI_REX
  else EQUIVALENCE.
End methods.
End MegaHardforks.

(** ** [MegaHardforkConfig]: a boxed hardfork is known by its name *)
Record MegaHardforkConfig := mkHardforkConfig {
  hardforks : list (string * ForkCondition);
}.

Module MegaHardforkConfig.
Section ops.
Context `{ForkApi}.

Definition new : MegaHardforkConfig := mkHardforkConfig
  [(ethereum_name Frontier, ForkBlock 0);
   (ethereum_name Homestead, ForkBlock 0);
   (ethereum_name Dao, ForkBlock 0);
   (ethereum_name Tangerine, ForkBlock 0);
   (ethereum_name SpuriousDragon, ForkBlock 0);
   (ethereum_name Byzantium, ForkBlock 0);
   (ethereum_name Constantinople, ForkBlock 0);
   (ethereum_name Petersburg, ForkBlock 0);
   (ethereum_name Istanbul, ForkBlock 0);
   (ethereum_name Berlin, ForkBlock 0);
   (ethereum_name London, ForkBlock 0);
   (ethereum_name Paris, ForkTTD 0 None 0);
   (op_name Bedrock, ForkBlock 0);
   (op_name Regolith, ForkTimestamp 0);
   (ethereum_name Shanghai, ForkTimestamp 0);
   (op_name Canyon, ForkTimestamp 0);
   (ethereum_name Cancun, ForkTimestamp 0);
   (op_name Ecotone, ForkTimestamp 0);
   (op_name Fjord, ForkTimestamp 0);
   (op_name Granite, ForkTimestamp 0);
   (op_name Holocene, ForkTimestamp 0);
   (ethereum_name Prague, ForkTimestamp 0);
   (op_name Isthmus, ForkTimestamp 0)].

(** [From<Iterator>]. *)
Definition from_iter (iter : list (string * ForkCondition)) : MegaHardforkConfig :=
  mkHardforkConfig iter.

(** The position of the first entry with the name, then an update in place or a
    push. *)
Definition insert (name : string) (condition : ForkCondition) (self : MegaHardforkConfig) :
    MegaHardforkConfig :=
  match list_find (λ e, fst e = name) (hardforks self) with
  | Some (index, _) => mkHardforkConfig (<[index := (name, condition)]> (hardforks self))
  | None => mkHardforkConfig (hardforks self ++ [(name, condition)])
  end.

Definition get (name : string) (self : MegaHardforkConfig) : option ForkCondition :=
  (λ r, snd (snd r)) <$> list_find (λ e, fst e = name) (hardforks self).

Definition without (hardfork : MegaHardfork) (self : MegaHardforkConfig) : MegaHardforkConfig :=
  mkHardforkConfig (List.filter (λ e, negb (bool_decide (fst e = mega_name hardfork)))
                      (hardforks self)).

(** [with] of the source. *)
Definition with_ (name : string) (condition : ForkCondition) (self : MegaHardforkConfig) :
    MegaHardforkConfig :=
  insert name condition self.

Definition with_all_activated (self : MegaHardforkConfig) : MegaHardforkConfig :=
  let self := insert (mega_name MiniRex) (ForkTimestamp 0) self in
  let self := insert (mega_name MiniRex1) (ForkTimestamp 0) self in
  let self := insert (mega_name MiniRex2) (ForkTimestamp 0) self in
  let self := insert (mega_name Rex) (ForkTimestamp 0) self in
  let self := insert (mega_name Rex1) (ForkTimestamp 0) self in
  let self := insert (mega_name Rex2) (ForkTimestamp 0) self in
  let self := insert (mega_name Rex3) (ForkTimestamp 0) self in
  insert (mega_name Rex4) (ForkTimestamp 0) self.

Definition fork_activation (name : string) (self : MegaHardforkConfig) : ForkCondition :=
  match get name self with Some condition => condition | None => ForkNever end.

Definition ethereum_fork_activation (fork : EthereumHardfork) (self : MegaHardforkConfig) :=
  fork_activation (ethereum_name fork) self.
Definition op_fork_activation (fork : OpHardfork) (self : MegaHardforkConfig) :=
  fork_activation (op_name fork) self.

#[global] Instance mega_hardforks : MegaHardforks MegaHardforkConfig := {|
  mega_fork_activation self fork := fork_activation (mega_name fork) self |}.
End ops.
End MegaHardforkConfig.

(** ** Lemmas *)
Section config_lemmas.
Context `{ForkApi} {laws : ForkLaws}.
Implicit Types c : MegaHardforkConfig.

Lemma list_find_insert_same {A} (k : string) (l : list (string * A)) i e v :
  list_find (λ e, fst e = k) l = Some (i, e) →
  list_find (λ e, fst e = k) (<[i := (k, v)]> l) = Some (i, (k, v)).
Proof.
  revert i e. induction l as [|[k' v'] l IH]; intros i e; simpl; [done|].
  case_decide as Hk; simpl in Hk.
  - intros [= <- <-]. simpl. by rewrite decide_True.
  - destruct (list_find _ l) as [[j e']|] eqn:Hf; simpl; [|done]. intros [= <- <-].
    simpl. rewrite decide_False by done. by rewrite (IH j e').
Qed.

Lemma list_find_insert_other {A} (k k' : string) (l : list (string * A)) i e v :
  k ≠ k' → list_find (λ e, fst e = k) l = Some (i, e) →
  snd <$> list_find (λ e, fst e = k') (<[i := (k, v)]> l) =
  snd <$> list_find (λ e, fst e = k') l.
Proof.
  intros Hne. revert i e. induction l as [|[k1 v1] l IH]; intros i e; simpl; [done|].
  case_decide as Hk; simpl in Hk.
  - intros [= <- <-]. simpl. subst k1. by rewrite !decide_False by done.
  - destruct (list_find (λ e, fst e = k) l) as [[j e']|] eqn:Hf; simpl; [|done].
    intros [= <- <-]. simpl. case_decide; [done|].
    specialize (IH j e' eq_refl).
    destruct (list_find (λ e, fst e = k') (<[j:=_]> l)), (list_find (λ e, fst e = k') l);
      simpl in *; congruence.
Qed.

Lemma list_find_snoc {A} (k : string) (l : list (string * A)) e :
  list_find (λ e, fst e = k) (l ++ [e]) =
    match list_find (λ e, fst e = k) l with
    | Some r => Some r
    | None => if decide (fst e = k) then Some (length l, e) else None
    end.
Proof.
  induction l as [|e' l IH]; simpl; [by case_decide|].
  destruct (decide (e'.1 = k)); [done|].
  rewrite IH. destruct (list_find _ l) as [[]|]; simpl; [done|]. by case_decide.
Qed.

Lemma get_insert_same name cond c :
  MegaHardforkConfig.get name (MegaHardforkConfig.insert name cond c) = Some cond.
Proof.
  unfold MegaHardforkConfig.get, MegaHardforkConfig.insert.
  destruct (list_find _ (hardforks c)) as [[i e]|] eqn:Hf; simpl.
  - by rewrite (list_find_insert_same _ _ _ e).
  - rewrite list_find_snoc, Hf. simpl. by rewrite decide_True.
Qed.

Lemma get_insert_other name name' cond c :
  name ≠ name' →
  MegaHardforkConfig.get name' (MegaHardforkConfig.insert name cond c) =
  MegaHardforkConfig.get name' c.
Proof.
  intros Hne. unfold MegaHardforkConfig.get, MegaHardforkConfig.insert.
  destruct (list_find _ (hardforks c)) as [[i e]|] eqn:Hf; simpl.
  - pose proof (list_find_insert_other name name' (hardforks c) i e cond Hne Hf) as Heq.
    destruct (list_find (λ e, fst e = name') (<[i:=_]> (hardforks c))),
      (list_find (λ e, fst e = name') (hardforks c)); simpl in *; congruence.
  - rewrite list_find_snoc. destruct (list_find (λ e, fst e = name') _); [done|].
    simpl. by rewrite decide_False.
Qed.

Lemma list_find_filter_name {A} (k k' : string) (l : list (string * A)) :
  snd <$> list_find (λ e, fst e = k') (List.filter (λ e, negb (bool_decide (fst e = k))) l) =
  if decide (k = k') then None else snd <$> list_find (λ e, fst e = k') l.
Proof.
  assert (∀ (o : option (nat * (string * A))),
    snd <$> (prod_map S id <$> o) = snd <$> o) as Hmap by by intros [[]|].
  induction l as [|[k1 v1] l IH]; simpl; [by case_decide|].
  case_bool_decide as Hk; simpl in *.
  - rewrite IH. case_decide; [done|]. rewrite decide_False by congruence. by rewrite Hmap.
  - destruct (decide (k1 = k')) as [->|Hne]; simpl.
    + by rewrite (decide_False (P := k = k')) by congruence.
    + rewrite !Hmap. apply IH.
Qed.

Lemma get_without h name c :
  MegaHardforkConfig.get name (MegaHardforkConfig.without h c) =
    if decide (mega_name h = name) then None else MegaHardforkConfig.get name c.
Proof.
  unfold MegaHardforkConfig.get, MegaHardforkConfig.without. simpl.
  pose proof (list_find_filter_name (mega_name h) name (hardforks c)) as Heq.
  assert (∀ (o o' : option (nat * (string * ForkCondition))),
    snd <$> o = snd <$> o' → (λ r, snd (snd r)) <$> o = (λ r, snd (snd r)) <$> o') as Hsnd.
  { intros [[]|] [[]|]; simpl; congruence. }
  case_decide; [|by apply Hsnd].
  by destruct (list_find _ (List.filter _ _)).
Qed.
End config_lemmas.

(** ** Reference instance, for the witnesses: the macro's names are the
    identifiers *)
Definition reference_mega_name (h : MegaHardfork) : string :=
  match h with
  | MiniRex => "MiniRex" | MiniRex1 => "MiniRex1" | MiniRex2 => "MiniRex2" | Rex => "Rex"
  | Rex1 => "Rex1" | Rex2 => "Rex2" | Rex3 => "Rex3" | Rex4 => "Rex4"
  end%string.

Definition reference_active (c : ForkCondition) (ts : Z) : bool :=
  match c with ForkTimestamp t => bool_decide (t ≤ ts) | _ => false end.

#[local] Instance reference_forks : ForkApi := {|
  active_at_timestamp := reference_active;
  ethereum_name _ := "Ethereum"%string;
  op_name _ := "Optimism"%string;
  mega_name := reference_mega_name |}.

#[local] Instance reference_forks_laws : ForkLaws.
Proof. split; [done|done|]. by intros [] []. Qed.

(** ** What the hardfork tables promise *)

(** The order of activation: the position in the enum. *)
Definition fork_rank (h : MegaHardfork) : Z :=
  match h with
  | MiniRex => 0 | MiniRex1 => 1 | MiniRex2 => 2 | Rex => 3
  | Rex1 => 4 | Rex2 => 5 | Rex3 => 6 | Rex4 => 7
  end.

Section selection.
Context `{ForkApi} {T : Type} `{MegaHardforks T}.

Definition is_active (self : T) (h : MegaHardfork) (ts : Z) : bool :=
  active_at_timestamp (mega_fork_activation self h) ts.

(** The hardfork in force is the last one in the table that is active. *)
Definition latest_active (self : T) (ts : Z) (h : MegaHardfork) : Prop :=
  is_active self h ts = true ∧ ∀ h', fork_rank h < fork_rank h' → is_active self h' ts = false.

(** at every timestamp, for every schedule (also one whose forks are not
    activated in order), [hardfork] is the latest active hardfork of the enum,
    it is [None] exactly when none is active, and [spec_id] is the spec of that
    hardfork, [EQUIVALENCE] when there is none: the two cascades of conditions
    never disagree. *)
Theorem hardfork_and_spec_agree (self : T) (ts : Z) :
  (∀ h, MegaHardforks.hardfork self ts = Some h ↔ latest_active self ts h) ∧
  (MegaHardforks.hardfork self ts = None ↔ ∀ h, is_active self h ts = false) ∧
  MegaHardforks.spec_id self ts =
    match MegaHardforks.hardfork self ts with
    | Some h => MegaHardfork.spec_id h
    | None => EQUIVALENCE
    end.
Proof.
  assert (MegaHardforks.hardfork self ts = None → ∀ h, is_active self h ts = false) as Hnone.
  { unfold MegaHardforks.hardfork. intros Hh h. unfold is_active. repeat case_match; try done.
    by destruct h. }
  assert (∀ h, MegaHardforks.hardfork self ts = Some h → latest_active self ts h) as Hsome.
  { intros h. unfold MegaHardforks.hardfork, latest_active, is_active.
    repeat case_match; intros [= <-]; split; try done; intros [] Hlt; simpl in Hlt; done || lia. }
  split_and!.
  - intros h. split; [apply Hsome|]. intros [Hact Hlast].
    destruct (MegaHardforks.hardfork self ts) as [h'|] eqn:Hh.
    + destruct (Hsome h' eq_refl) as [Hact' Hlast'].
      destruct (Z.lt_trichotomy (fork_rank h) (fork_rank h')) as [Hlt|[Heq|Hlt]].
      * rewrite (Hlast h' Hlt) in Hact'. done.
      * destruct h, h'; done || (simpl in Heq; lia).
      * rewrite (Hlast' h Hlt) in Hact. done.
    + rewrite (Hnone eq_refl h) in Hact. done.
  - split; [apply Hnone|]. intros Hall.
    destruct (MegaHardforks.hardfork self ts) as [h|] eqn:Hh; [|done].
    destruct (Hsome h eq_refl) as [Hact _]. by rewrite Hall in Hact.
  - unfold MegaHardforks.spec_id, MegaHardforks.hardfork. by repeat case_match.
Qed.

(** A chain: block [n] has number [n] and timestamp [ts n], block 0 is the genesis. *)
Definition is_first (self : T) (fork : MegaHardfork) (ts : nat → Z) (n : nat) : bool :=
  MegaHardforks.first_hardfork_block self fork (ts (n - 1)%nat) (Z.of_nat n, ts n).

(** on a chain whose timestamps never decrease, the blocks at which a
    timestamp-activated hardfork runs its one-time set-up are exactly one: two
    blocks for which [first_hardfork_block] holds are the same block, and once
    the fork is active at a block after the genesis there is such a block at or
    before it (also when the fork is active from the genesis on). *)
Theorem first_hardfork_block_unique `{!ForkLaws} (self : T) fork t (ts : nat → Z) :
  mega_fork_activation self fork = ForkTimestamp t →
  (∀ m n, (m ≤ n)%nat → ts m ≤ ts n) →
  (∀ m n, (1 ≤ m)%nat → (1 ≤ n)%nat →
     is_first self fork ts m = true → is_first self fork ts n = true → m = n) ∧
  (∀ n, (1 ≤ n)%nat → is_active self fork (ts n) = true →
     ∃ m, (1 ≤ m ≤ n)%nat ∧ is_first self fork ts m = true).
Proof.
  intros Hcond Hmono.
  assert (∀ n, is_first self fork ts n = true ↔
    t ≤ ts n ∧ (n = 1%nat ∨ ts (n - 1)%nat < t)) as Hfirst.
  { intros n. unfold is_first, MegaHardforks.first_hardfork_block.
    rewrite Hcond, !active_timestamp, andb_true_iff, orb_true_iff, negb_true_iff,
      bool_decide_eq_false, !bool_decide_eq_true. lia. }
  assert (∀ m n, (1 ≤ m)%nat → (m < n)%nat → is_first self fork ts m = true →
    is_first self fork ts n = true → False) as Hlt.
  { intros m n Hm Hmn [Hact _]%Hfirst [_ [->|Hpar]]%Hfirst; [lia|].
    specialize (Hmono m (n - 1)%nat ltac:(lia)). lia. }
  split.
  - intros m n Hm Hn Hfm Hfn. destruct (Nat.lt_trichotomy m n) as [?|[?|?]]; [|done|];
      exfalso; eauto.
  - unfold is_active. rewrite Hcond. induction n as [|n IH]; intros Hn; [lia|].
    rewrite active_timestamp, bool_decide_eq_true. intros Hact.
    destruct (decide (n = 0%nat)) as [->|Hn0].
    { exists 1%nat. split; [lia|]. apply Hfirst. auto. }
    destruct (decide (t ≤ ts n)) as [Hle|Hgt].
    + destruct IH as (m & Hm & Hf); [lia| |exists m; split; [lia|done]].
      by rewrite active_timestamp, bool_decide_eq_true.
    + exists (S n). split; [lia|]. apply Hfirst. rewrite Nat.sub_succ, Nat.sub_0_r. lia.
Qed.
End selection.

Lemma first_hardfork_block_unique_witness :
  let c := MegaHardforkConfig.insert (mega_name Rex2) (ForkTimestamp 25) MegaHardforkConfig.new in
  let ts := λ n : nat, 10 * Z.of_nat n in
  (∃ m, (1 ≤ m ≤ 4)%nat ∧ is_first c Rex2 ts m = true) ∧ is_first c Rex2 ts 3 = true.
Proof.
  split; [|vm_compute; reflexivity].
  apply (first_hardfork_block_unique
    (MegaHardforkConfig.insert (mega_name Rex2) (ForkTimestamp 25) MegaHardforkConfig.new)
    Rex2 25 (λ n : nat, 10 * Z.of_nat n)).
  - vm_compute. reflexivity.
  - intros m n Hmn. lia.
  - lia.
  - vm_compute. reflexivity.
Defined.

Section config_spec.
Context `{ForkApi} {laws : ForkLaws}.

Lemma activation_insert h name cond c :
  mega_fork_activation (MegaHardforkConfig.insert name cond c) h =
    if decide (name = mega_name h) then cond else mega_fork_activation c h.
Proof.
  unfold mega_fork_activation. simpl. unfold MegaHardforkConfig.fork_activation.
  case_decide as Hname; [by rewrite Hname, get_insert_same|by rewrite get_insert_other].
Qed.

(** a hardfork configuration is a map from names to fork conditions: a
    hardfork set with [with] has that condition whatever was set before and no
    other hardfork changes, one taken out with [without] is never active again
    and no other hardfork changes, and [with_all_activated] runs the latest spec
    at every timestamp of every chain, whatever the configuration was. *)
Theorem config_is_a_map (c : MegaHardforkConfig) (h h' : MegaHardfork) cond ts :
  0 ≤ ts →
  mega_fork_activation (MegaHardforkConfig.with_ (mega_name h) cond c) h' =
    (if decide (h = h') then cond else mega_fork_activation c h') ∧
  mega_fork_activation (MegaHardforkConfig.without h c) h' =
    (if decide (h = h') then ForkNever else mega_fork_activation c h') ∧
  mega_fork_activation (MegaHardforkConfig.with_all_activated c) h = ForkTimestamp 0 ∧
  MegaHardforks.spec_id (MegaHardforkConfig.with_all_activated c) ts = REX4.
Proof.
  intros Hts.
  assert (∀ h, mega_fork_activation (MegaHardforkConfig.with_all_activated c) h =
    ForkTimestamp 0) as Hall.
  { intros k. unfold MegaHardforkConfig.with_all_activated. rewrite !activation_insert.
    destruct k; repeat (case_decide; [done|]); congruence. }
  split_and!.
  - unfold MegaHardforkConfig.with_. rewrite activation_insert.
    destruct (decide (h = h')) as [->|Hne]; [by rewrite decide_True|].
    rewrite decide_False; [done|]. intros Hname%mega_name_inj. done.
  - unfold mega_fork_activation. simpl. unfold MegaHardforkConfig.fork_activation.
    rewrite get_without. destruct (decide (h = h')) as [->|Hne]; [by rewrite decide_True|].
    rewrite decide_False; [done|]. intros Hname%mega_name_inj. done.
  - apply Hall.
  - unfold MegaHardforks.spec_id, MegaHardforks.is_rex_4_active_at_timestamp.
    rewrite Hall, active_timestamp. by rewrite bool_decide_true.
Qed.
End config_spec.

Lemma config_is_a_map_witness :
  mega_fork_activation (MegaHardforkConfig.without Rex4
    (MegaHardforkConfig.with_all_activated MegaHardforkConfig.new)) Rex4 = ForkNever.
Proof.
  destruct (config_is_a_map (MegaHardforkConfig.with_all_activated MegaHardforkConfig.new)
    Rex4 Rex4 ForkNever 0) as (_ & Hwithout & _); [lia|].
  rewrite Hwithout. vm_compute. reflexivity.
Defined.
