(* ===== verification/BlockLimit.v ===== *)
(** * Block limits

    Models [block/limit.rs] and the limit errors of [block/result.rs]: the
    configuration [BlockLimits], the running totals [BlockLimiter] with the check
    made before a transaction and the update made after it. *)
From S2P Require Import Prelude Spec Deps LimitTypes Hardfork.
Open Scope Z_scope.

(** ** The limit errors of [block/result.rs] *)
Module MegaTxLimitExceededError.
Inductive t : Set :=
  | TransactionGasLimit (tx_gas_limit limit : Z)
  | TransactionEncodeSizeLimit (tx_size limit : Z)
  | DataAvailabilitySizeLimit (da_size limit : Z).

Definition usage (self : t) : Z :=
  match self with
  | TransactionGasLimit u _ | TransactionEncodeSizeLimit u _ | DataAvailabilitySizeLimit u _ => u
  end.
Definition limit (self : t) : Z :=
  match self with
  | TransactionGasLimit _ l | TransactionEncodeSizeLimit _ l | DataAvailabilitySizeLimit _ l => l
  end.
Definition is_nonce_too_low (self : t) : bool := false.
End MegaTxLimitExceededError.

Module MegaBlockLimitExceededError.
Inductive t : Set :=
  | TransactionDataLimit (block_used limit : Z)
  | KVUpdateLimit (block_used limit : Z)
  | ComputeGasLimit (block_used limit : Z)
  | TransactionEncodeSizeLimit (block_used tx_used limit : Z)
  | DataAvailabilitySizeLimit (block_used tx_used limit : Z)
  | StateGrowthLimit (block_used limit : Z).

Definition block_used (self : t) : Z :=
  match self with
  | TransactionDataLimit u _ | KVUpdateLimit u _ | ComputeGasLimit u _
  | TransactionEncodeSizeLimit u _ _ | DataAvailabilitySizeLimit u _ _
  | StateGrowthLimit u _ => u
  end.
Definition limit (self : t) : Z :=
  match self with
  | TransactionDataLimit _ l | KVUpdateLimit _ l | ComputeGasLimit _ l
  | TransactionEncodeSizeLimit _ _ l | DataAvailabilitySizeLimit _ _ l
  | StateGrowthLimit _ l => l
  end.
Definition is_nonce_too_low (self : t) : bool := false.
End MegaBlockLimitExceededError.

(** The boxed [InvalidTxError] the limiter reports, and the [alloy_evm] errors it
    builds.  [OtherError] stands for every error that other code builds. *)
Inductive InvalidTxError : Set :=
  | TxLimitError (e : MegaTxLimitExceededError.t)
  | BlockLimitError (e : MegaBlockLimitExceededError.t).

Inductive BlockValidationError : Set :=
  | InvalidTx (hash : Z) (error : InvalidTxError)
  | TransactionGasLimitMoreThanAvailableBlockGas
      (transaction_gas_limit block_available_gas : Z)
  | MissingParentBeaconBlockRoot
  | CancunGenesisParentBeaconBlockRootNotZero (parent_beacon_block_root : Z)
  | BlockHashContractCall (message : string)
  | BeaconRootContractCall (parent_beacon_block_root : Z) (message : string).

Inductive BlockExecutionError : Set :=
  | Validation (e : BlockValidationError)
  | OtherError (message : string)
  | EvmError (message : string) (hash : Z).

(** ** [BlockLimits] *)
Module BlockLimits.
Record t := mk {
  tx_gas_limit : Z;
  block_gas_limit : Z;
  tx_encode_size_limit : Z;
  block_txs_encode_size_limit : Z;
  tx_da_size_limit : Z;
  block_da_size_limit : Z;
  tx_data_limit : Z;
  block_txs_data_limit : Z;
  tx_kv_update_limit : Z;
  block_kv_update_limit : Z;
  tx_compute_gas_limit : Z;
  block_compute_gas_limit : Z;
  tx_state_growth_limit : Z;
  block_state_growth_limit : Z;
  block_env_access_compute_gas_limit : Z;
  oracle_access_compute_gas_limit : Z;
}.

Definition no_limits : t := {|
  tx_gas_limit := u64_max;
  block_gas_limit := u64_max;
  tx_encode_size_limit := u64_max;
  block_txs_encode_size_limit := u64_max;
  tx_da_size_limit := u64_max;
  block_da_size_limit := u64_max;
  tx_data_limit := u64_max;
  block_txs_data_limit := u64_max;
  tx_kv_update_limit := u64_max;
  block_kv_update_limit := u64_max;
  tx_compute_gas_limit := u64_max;
  block_compute_gas_limit := u64_max;
  tx_state_growth_limit := u64_max;
  block_state_growth_limit := u64_max;
  block_env_access_compute_gas_limit := u64_max;
  oracle_access_compute_gas_limit := u64_max|}.

Definition with_tx_runtime_limits (limits : EvmTxRuntimeLimits) (self : t) : t := {|
  tx_gas_limit := tx_gas_limit self;
  block_gas_limit := block_gas_limit self;
  tx_encode_size_limit := tx_encode_size_limit self;
  block_txs_encode_size_limit := block_txs_encode_size_limit self;
  tx_da_size_limit := tx_da_size_limit self;
  block_da_size_limit := block_da_size_limit self;
  tx_data_limit := Spec.tx_data_size_limit limits;
  block_txs_data_limit := block_txs_data_limit self;
  tx_kv_update_limit := Spec.tx_kv_updates_limit limits;
  block_kv_update_limit := block_kv_update_limit self;
  tx_compute_gas_limit := Spec.tx_compute_gas_limit limits;
  block_compute_gas_limit := block_compute_gas_limit self;
  tx_state_growth_limit := Spec.tx_state_growth_limit limits;
  block_state_growth_limit := block_state_growth_limit self;
  block_env_access_compute_gas_limit := Spec.block_env_access_compute_gas_limit limits;
  oracle_access_compute_gas_limit := Spec.oracle_access_compute_gas_limit limits|}.

Definition with_tx_gas_limit (limit : Z) (self : t) : t := {|
  tx_gas_limit := limit;
  block_gas_limit := block_gas_limit self;
  tx_encode_size_limit := tx_encode_size_limit self;
  block_txs_encode_size_limit := block_txs_encode_size_limit self;
  tx_da_size_limit := tx_da_size_limit self;
  block_da_size_limit := block_da_size_limit self;
  tx_data_limit := tx_data_limit self;
  block_txs_data_limit := block_txs_data_limit self;
  tx_kv_update_limit := tx_kv_update_limit self;
  block_kv_update_limit := block_kv_update_limit self;
  tx_compute_gas_limit := tx_compute_gas_limit self;
  block_compute_gas_limit := block_compute_gas_limit self;
  tx_state_growth_limit := tx_state_growth_limit self;
  block_state_growth_limit := block_state_growth_limit self;
  block_env_access_compute_gas_limit := block_env_access_compute_gas_limit self;
  oracle_access_compute_gas_limit := oracle_access_compute_gas_limit self|}.

Definition with_block_gas_limit (limit : Z) (self : t) : t := {|
  tx_gas_limit := tx_gas_limit self;
  block_gas_limit := limit;
  tx_encode_size_limit := tx_encode_size_limit self;
  block_txs_encode_size_limit := block_txs_encode_size_limit self;
  tx_da_size_limit := tx_da_size_limit self;
  block_da_size_limit := block_da_size_limit self;
  tx_data_limit := tx_data_limit self;
  block_txs_data_limit := block_txs_data_limit self;
  tx_kv_update_limit := tx_kv_update_limit self;
  block_kv_update_limit := block_kv_update_limit self;
  tx_compute_gas_limit := tx_compute_gas_limit self;
  block_compute_gas_limit := block_compute_gas_limit self;
  tx_state_growth_limit := tx_state_growth_limit self;
  block_state_growth_limit := block_state_growth_limit self;
  block_env_access_compute_gas_limit := block_env_access_compute_gas_limit self;
  oracle_access_compute_gas_limit := oracle_access_compute_gas_limit self|}.

Definition with_tx_encode_size_limit (limit : Z) (self : t) : t := {|
  tx_gas_limit := tx_gas_limit self;
  block_gas_limit := block_gas_limit self;
  tx_encode_size_limit := limit;
  block_txs_encode_size_limit := block_txs_encode_size_limit self;
  tx_da_size_limit := tx_da_size_limit self;
  block_da_size_limit := block_da_size_limit self;
  tx_data_limit := tx_data_limit self;
  block_txs_data_limit := block_txs_data_limit self;
  tx_kv_update_limit := tx_kv_update_limit self;
  block_kv_update_limit := block_kv_update_limit self;
  tx_compute_gas_limit := tx_compute_gas_limit self;
  block_compute_gas_limit := block_compute_gas_limit self;
  tx_state_growth_limit := tx_state_growth_limit self;
  block_state_growth_limit := block_state_growth_limit self;
  block_env_access_compute_gas_limit := block_env_access_compute_gas_limit self;
  oracle_access_compute_gas_limit := oracle_access_compute_gas_limit self|}.

Definition with_block_txs_encode_size_limit (limit : Z) (self : t) : t := {|
  tx_gas_limit := tx_gas_limit self;
  block_gas_limit := block_gas_limit self;
  tx_encode_size_limit := tx_encode_size_limit self;
  block_txs_encode_size_limit := limit;
  tx_da_size_limit := tx_da_size_limit self;
  block_da_size_limit := block_da_size_limit self;
  tx_data_limit := tx_data_limit self;
  block_txs_data_limit := block_txs_data_limit self;
  tx_kv_update_limit := tx_kv_update_limit self;
  block_kv_update_limit := block_kv_update_limit self;
  tx_compute_gas_limit := tx_compute_gas_limit self;
  block_compute_gas_limit := block_compute_gas_limit self;
  tx_state_growth_limit := tx_state_growth_limit self;
  block_state_growth_limit := block_state_growth_limit self;
  block_env_access_compute_gas_limit := block_env_access_compute_gas_limit self;
  oracle_access_compute_gas_limit := oracle_access_compute_gas_limit self|}.

Definition with_tx_da_size_limit (limit : Z) (self : t) : t := {|
  tx_gas_limit := tx_gas_limit self;
  block_gas_limit := block_gas_limit self;
  tx_encode_size_limit := tx_encode_size_limit self;
  block_txs_encode_size_limit := block_txs_encode_size_limit self;
  tx_da_size_limit := limit;
  block_da_size_limit := block_da_size_limit self;
  tx_data_limit := tx_data_limit self;
  block_txs_data_limit := block_txs_data_limit self;
  tx_kv_update_limit := tx_kv_update_limit self;
  block_kv_update_limit := block_kv_update_limit self;
  tx_compute_gas_limit := tx_compute_gas_limit self;
  block_compute_gas_limit := block_compute_gas_limit self;
  tx_state_growth_limit := tx_state_growth_limit self;
  block_state_growth_limit := block_state_growth_limit self;
  block_env_access_compute_gas_limit := block_env_access_compute_gas_limit self;
  oracle_access_compute_gas_limit := oracle_access_compute_gas_limit self|}.

Definition with_block_da_size_limit (limit : Z) (self : t) : t := {|
  tx_gas_limit := tx_gas_limit self;
  block_gas_limit := block_gas_limit self;
  tx_encode_size_limit := tx_encode_size_limit self;
  block_txs_encode_size_limit := block_txs_encode_size_limit self;
  tx_da_size_limit := tx_da_size_limit self;
  block_da_size_limit := limit;
  tx_data_limit := tx_data_limit self;
  block_txs_data_limit := block_txs_data_limit self;
  tx_kv_update_limit := tx_kv_update_limit self;
  block_kv_update_limit := block_kv_update_limit self;
  tx_compute_gas_limit := tx_compute_gas_limit self;
  block_compute_gas_limit := block_compute_gas_limit self;
  tx_state_growth_limit := tx_state_growth_limit self;
  block_state_growth_limit := block_state_growth_limit self;
  block_env_access_compute_gas_limit := block_env_access_compute_gas_limit self;
  oracle_access_compute_gas_limit := oracle_access_compute_gas_limit self|}.

Definition with_tx_data_limit (limit : Z) (self : t) : t := {|
  tx_gas_limit := tx_gas_limit self;
  block_gas_limit := block_gas_limit self;
  tx_encode_size_limit := tx_encode_size_limit self;
  block_txs_encode_size_limit := block_txs_encode_size_limit self;
  tx_da_size_limit := tx_da_size_limit self;
  block_da_size_limit := block_da_size_limit self;
  tx_data_limit := limit;
  block_txs_data_limit := block_txs_data_limit self;
  tx_kv_update_limit := tx_kv_update_limit self;
  block_kv_update_limit := block_kv_update_limit self;
  tx_compute_gas_limit := tx_compute_gas_limit self;
  block_compute_gas_limit := block_compute_gas_limit self;
  tx_state_growth_limit := tx_state_growth_limit self;
  block_state_growth_limit := block_state_growth_limit self;
  block_env_access_compute_gas_limit := block_env_access_compute_gas_limit self;
  oracle_access_compute_gas_limit := oracle_access_compute_gas_limit self|}.

Definition with_block_txs_data_limit (limit : Z) (self : t) : t := {|
  tx_gas_limit := tx_gas_limit self;
  block_gas_limit := block_gas_limit self;
  tx_encode_size_limit := tx_encode_size_limit self;
  block_txs_encode_size_limit := block_txs_encode_size_limit self;
  tx_da_size_limit := tx_da_size_limit self;
  block_da_size_limit := block_da_size_limit self;
  tx_data_limit := tx_data_limit self;
  block_txs_data_limit := limit;
  tx_kv_update_limit := tx_kv_update_limit self;
  block_kv_update_limit := block_kv_update_limit self;
  tx_compute_gas_limit := tx_compute_gas_limit self;
  block_compute_gas_limit := block_compute_gas_limit self;
  tx_state_growth_limit := tx_state_growth_limit self;
  block_state_growth_limit := block_state_growth_limit self;
  block_env_access_compute_gas_limit := block_env_access_compute_gas_limit self;
  oracle_access_compute_gas_limit := oracle_access_compute_gas_limit self|}.

Definition with_tx_kv_update_limit (limit : Z) (self : t) : t := {|
  tx_gas_limit := tx_gas_limit self;
  block_gas_limit := block_gas_limit self;
  tx_encode_size_limit := tx_encode_size_limit self;
  block_txs_encode_size_limit := block_txs_encode_size_limit self;
  tx_da_size_limit := tx_da_size_limit self;
  block_da_size_limit := block_da_size_limit self;
  tx_data_limit := tx_data_limit self;
  block_txs_data_limit := block_txs_data_limit self;
  tx_kv_update_limit := limit;
  block_kv_update_limit := block_kv_update_limit self;
  tx_compute_gas_limit := tx_compute_gas_limit self;
  block_compute_gas_limit := block_compute_gas_limit self;
  tx_state_growth_limit := tx_state_growth_limit self;
  block_state_growth_limit := block_state_growth_limit self;
  block_env_access_compute_gas_limit := block_env_access_compute_gas_limit self;
  oracle_access_compute_gas_limit := oracle_access_compute_gas_limit self|}.

Definition with_block_kv_update_limit (limit : Z) (self : t) : t := {|
  tx_gas_limit := tx_gas_limit self;
  block_gas_limit := block_gas_limit self;
  tx_encode_size_limit := tx_encode_size_limit self;
  block_txs_encode_size_limit := block_txs_encode_size_limit self;
  tx_da_size_limit := tx_da_size_limit self;
  block_da_size_limit := block_da_size_limit self;
  tx_data_limit := tx_data_limit self;
  block_txs_data_limit := block_txs_data_limit self;
  tx_kv_update_limit := tx_kv_update_limit self;
  block_kv_update_limit := limit;
  tx_compute_gas_limit := tx_compute_gas_limit self;
  block_compute_gas_limit := block_compute_gas_limit self;
  tx_state_growth_limit := tx_state_growth_limit self;
  block_state_growth_limit := block_state_growth_limit self;
  block_env_access_compute_gas_limit := block_env_access_compute_gas_limit self;
  oracle_access_compute_gas_limit := oracle_access_compute_gas_limit self|}.

Definition with_tx_compute_gas_limit (limit : Z) (self : t) : t := {|
  tx_gas_limit := tx_gas_limit self;
  block_gas_limit := block_gas_limit self;
  tx_encode_size_limit := tx_encode_size_limit self;
  block_txs_encode_size_limit := block_txs_encode_size_limit self;
  tx_da_size_limit := tx_da_size_limit self;
  block_da_size_limit := block_da_size_limit self;
  tx_data_limit := tx_data_limit self;
  block_txs_data_limit := block_txs_data_limit self;
  tx_kv_update_limit := tx_kv_update_limit self;
  block_kv_update_limit := block_kv_update_limit self;
  tx_compute_gas_limit := limit;
  block_compute_gas_limit := block_compute_gas_limit self;
  tx_state_growth_limit := tx_state_growth_limit self;
  block_state_growth_limit := block_state_growth_limit self;
  block_env_access_compute_gas_limit := block_env_access_compute_gas_limit self;
  oracle_access_compute_gas_limit := oracle_access_compute_gas_limit self|}.

Definition with_block_compute_gas_limit (limit : Z) (self : t) : t := {|
  tx_gas_limit := tx_gas_limit self;
  block_gas_limit := block_gas_limit self;
  tx_encode_size_limit := tx_encode_size_limit self;
  block_txs_encode_size_limit := block_txs_encode_size_limit self;
  tx_da_size_limit := tx_da_size_limit self;
  block_da_size_limit := block_da_size_limit self;
  tx_data_limit := tx_data_limit self;
  block_txs_data_limit := block_txs_data_limit self;
  tx_kv_update_limit := tx_kv_update_limit self;
  block_kv_update_limit := block_kv_update_limit self;
  tx_compute_gas_limit := tx_compute_gas_limit self;
  block_compute_gas_limit := limit;
  tx_state_growth_limit := tx_state_growth_limit self;
  block_state_growth_limit := block_state_growth_limit self;
  block_env_access_compute_gas_limit := block_env_access_compute_gas_limit self;
  oracle_access_compute_gas_limit := oracle_access_compute_gas_limit self|}.

Definition with_tx_state_growth_limit (limit : Z) (self : t) : t := {|
  tx_gas_limit := tx_gas_limit self;
  block_gas_limit := block_gas_limit self;
  tx_encode_size_limit := tx_encode_size_limit self;
  block_txs_encode_size_limit := block_txs_encode_size_limit self;
  tx_da_size_limit := tx_da_size_limit self;
  block_da_size_limit := block_da_size_limit self;
  tx_data_limit := tx_data_limit self;
  block_txs_data_limit := block_txs_data_limit self;
  tx_kv_update_limit := tx_kv_update_limit self;
  block_kv_update_limit := block_kv_update_limit self;
  tx_compute_gas_limit := tx_compute_gas_limit self;
  block_compute_gas_limit := block_compute_gas_limit self;
  tx_state_growth_limit := limit;
  block_state_growth_limit := block_state_growth_limit self;
  block_env_access_compute_gas_limit := block_env_access_compute_gas_limit self;
  oracle_access_compute_gas_limit := oracle_access_compute_gas_limit self|}.

Definition with_block_state_growth_limit (limit : Z) (self : t) : t := {|
  tx_gas_limit := tx_gas_limit self;
  block_gas_limit := block_gas_limit self;
  tx_encode_size_limit := tx_encode_size_limit self;
  block_txs_encode_size_limit := block_txs_encode_size_limit self;
  tx_da_size_limit := tx_da_size_limit self;
  block_da_size_limit := block_da_size_limit self;
  tx_data_limit := tx_data_limit self;
  block_txs_data_limit := block_txs_data_limit self;
  tx_kv_update_limit := tx_kv_update_limit self;
  block_kv_update_limit := block_kv_update_limit self;
  tx_compute_gas_limit := tx_compute_gas_limit self;
  block_compute_gas_limit := block_compute_gas_limit self;
  tx_state_growth_limit := tx_state_growth_limit self;
  block_state_growth_limit := limit;
  block_env_access_compute_gas_limit := block_env_access_compute_gas_limit self;
  oracle_access_compute_gas_limit := oracle_access_compute_gas_limit self|}.

Definition with_block_env_access_compute_gas_limit (limit : Z) (self : t) : t := {|
  tx_gas_limit := tx_gas_limit self;
  block_gas_limit := block_gas_limit self;
  tx_encode_size_limit := tx_encode_size_limit self;
  block_txs_encode_size_limit := block_txs_encode_size_limit self;
  tx_da_size_limit := tx_da_size_limit self;
  block_da_size_limit := block_da_size_limit self;
  tx_data_limit := tx_data_limit self;
  block_txs_data_limit := block_txs_data_limit self;
  tx_kv_update_limit := tx_kv_update_limit self;
  block_kv_update_limit := block_kv_update_limit self;
  tx_compute_gas_limit := tx_compute_gas_limit self;
  block_compute_gas_limit := block_compute_gas_limit self;
  tx_state_growth_limit := tx_state_growth_limit self;
  block_state_growth_limit := block_state_growth_limit self;
  block_env_access_compute_gas_limit := limit;
  oracle_access_compute_gas_limit := oracle_access_compute_gas_limit self|}.

Definition with_oracle_access_compute_gas_limit (limit : Z) (self : t) : t := {|
  tx_gas_limit := tx_gas_limit self;
  block_gas_limit := block_gas_limit self;
  tx_encode_size_limit := tx_encode_size_limit self;
  block_txs_encode_size_limit := block_txs_encode_size_limit self;
  tx_da_size_limit := tx_da_size_limit self;
  block_da_size_limit := block_da_size_limit self;
  tx_data_limit := tx_data_limit self;
  block_txs_data_limit := block_txs_data_limit self;
  tx_kv_update_limit := tx_kv_update_limit self;
  block_kv_update_limit := block_kv_update_limit self;
  tx_compute_gas_limit := tx_compute_gas_limit self;
  block_compute_gas_limit := block_compute_gas_limit self;
  tx_state_growth_limit := tx_state_growth_limit self;
  block_state_growth_limit := block_state_growth_limit self;
  block_env_access_compute_gas_limit := block_env_access_compute_gas_limit self;
  oracle_access_compute_gas_limit := limit|}.

Definition from_hardfork_and_block_gas_limit (hardfork : MegaHardfork) (block_gas_limit : Z) : t :=
  let spec := MegaHardfork.spec_id hardfork in
  let tx_runtime_limits := EvmTxRuntimeLimits.from_spec spec in
  let limits := with_block_gas_limit block_gas_limit
    (with_tx_runtime_limits tx_runtime_limits no_limits) in
  match hardfork with
  | Rex | Rex1 | Rex2 | Rex3 | Rex4 =>
      with_block_state_growth_limit constants.rex.BLOCK_STATE_GROWTH_LIMIT
        (with_block_kv_update_limit constants.mini_rex.BLOCK_KV_UPDATE_LIMIT
          (with_block_txs_data_limit constants.mini_rex.BLOCK_DATA_LIMIT limits))
  | MiniRex | MiniRex2 =>
      with_block_kv_update_limit constants.mini_rex.BLOCK_KV_UPDATE_LIMIT
        (with_block_txs_data_limit constants.mini_rex.BLOCK_DATA_LIMIT limits)
  | MiniRex1 => limits
  end.

Definition to_evm_tx_runtime_limits (self : t) : EvmTxRuntimeLimits := {|
  Spec.tx_data_size_limit := tx_data_limit self;
  Spec.tx_kv_updates_limit := tx_kv_update_limit self;
  Spec.tx_compute_gas_limit := tx_compute_gas_limit self;
  Spec.tx_state_growth_limit := tx_state_growth_limit self;
  Spec.block_env_access_compute_gas_limit := block_env_access_compute_gas_limit self;
  Spec.oracle_access_compute_gas_limit := oracle_access_compute_gas_limit self |}.
End BlockLimits.

(** ** [BlockLimiter] *)
Record BlockLimiter := mkBlockLimiter {
  limits : BlockLimits.t;
  block_gas_used : Z;
  block_tx_size_used : Z;
  block_da_size_used : Z;
  block_data_used : Z;
  block_kv_updates_used : Z;
  block_compute_gas_used : Z;
  block_state_growth_used : Z;
}.

Definition to_block_limiter (self : BlockLimits.t) : BlockLimiter :=
  {| limits := self; block_gas_used := 0; block_data_used := 0; block_kv_updates_used := 0;
     block_tx_size_used := 0; block_da_size_used := 0; block_compute_gas_used := 0;
     block_state_growth_used := 0 |}.

Module BlockLimiter.
Section ops.
Context `{Profile}.

Definition new (limits : BlockLimits.t) : BlockLimiter :=
  {| limits := limits; block_gas_used := 0; block_data_used := 0; block_kv_updates_used := 0;
     block_tx_size_used := 0; block_da_size_used := 0; block_compute_gas_used := 0;
     block_state_growth_used := 0 |}.

Definition invalid_tx (hash : Z) (error : InvalidTxError) :
    outcome (result unit BlockExecutionError) :=
  Ret (Err (Validation (InvalidTx hash error))).

Definition pre_execution_check (self : BlockLimiter) (tx_hash gas_limit tx_size da_size : Z)
    (is_deposit : bool) : outcome (result unit BlockExecutionError) :=
  let lim := limits self in
  if bool_decide (gas_limit > BlockLimits.tx_gas_limit lim) then
    invalid_tx tx_hash (TxLimitError (MegaTxLimitExceededError.TransactionGasLimit
      gas_limit (BlockLimits.tx_gas_limit lim)))
  else
  gas_after ← add_u64 (block_gas_used self) gas_limit;
  if bool_decide (gas_after > BlockLimits.block_gas_limit lim) then
    block_available_gas ← sub_u64 (BlockLimits.block_gas_limit lim) (block_gas_used self);
    Ret (Err (Validation (TransactionGasLimitMoreThanAvailableBlockGas
      gas_limit block_available_gas)))
  else if bool_decide (tx_size > BlockLimits.tx_encode_size_limit lim) then
    invalid_tx tx_hash (TxLimitError (MegaTxLimitExceededError.TransactionEncodeSizeLimit
      tx_size (BlockLimits.tx_encode_size_limit lim)))
  else
  size_after ← add_u64 tx_size (block_tx_size_used self);
  if bool_decide (size_after > BlockLimits.block_txs_encode_size_limit lim) then
    invalid_tx tx_hash (BlockLimitError (MegaBlockLimitExceededError.TransactionEncodeSizeLimit
      (block_tx_size_used self) tx_size (BlockLimits.block_txs_encode_size_limit lim)))
  else
  da_check ←
    (if negb is_deposit then
       if bool_decide (da_size > BlockLimits.tx_da_size_limit lim) then
         invalid_tx tx_hash (TxLimitError (MegaTxLimitExceededError.DataAvailabilitySizeLimit
           da_size (BlockLimits.tx_da_size_limit lim)))
       else
       da_after ← add_u64 da_size (block_da_size_used self);
       if bool_decide (da_after > BlockLimits.block_da_size_limit lim) then
         invalid_tx tx_hash (BlockLimitError
           (MegaBlockLimitExceededError.DataAvailabilitySizeLimit
             (block_da_size_used self) da_size (BlockLimits.block_da_size_limit lim)))
       else Ret (Ok tt)
     else Ret (Ok tt));
  match da_check with
  | Err e => Ret (Err e)
  | Ok _ =>
  if bool_decide (block_data_used self >= BlockLimits.block_txs_data_limit lim) then
    invalid_tx tx_hash (BlockLimitError (MegaBlockLimitExceededError.TransactionDataLimit
      (block_data_used self) (BlockLimits.block_txs_data_limit lim)))
  else if bool_decide (block_kv_updates_used self >= BlockLimits.block_kv_update_limit lim) then
    invalid_tx tx_hash (BlockLimitError (MegaBlockLimitExceededError.KVUpdateLimit
      (block_kv_updates_used self) (BlockLimits.block_kv_update_limit lim)))
  else if bool_decide (block_compute_gas_used self >= BlockLimits.block_compute_gas_limit lim) then
    invalid_tx tx_hash (BlockLimitError (MegaBlockLimitExceededError.ComputeGasLimit
      (block_compute_gas_used self) (BlockLimits.block_compute_gas_limit lim)))
  else if bool_decide (block_state_growth_used self >= BlockLimits.block_state_growth_limit lim) then
    invalid_tx tx_hash (BlockLimitError (MegaBlockLimitExceededError.StateGrowthLimit
      (block_state_growth_used self) (BlockLimits.block_state_growth_limit lim)))
  else Ret (Ok tt)
  end.

Definition post_execution_update_raw (gas_used tx_size da_size tx_data kv_updates
    compute_gas_used state_growth_used : Z) (is_deposit : bool) (self : BlockLimiter) :
    outcome BlockLimiter :=
  gas' ← add_u64 (block_gas_used self) gas_used;
  size' ← add_u64 (block_tx_size_used self) tx_size;
  da' ← (if negb is_deposit then add_u64 (block_da_size_used self) da_size
         else Ret (block_da_size_used self));
  data' ← add_u64 (block_data_used self) tx_data;
  kv' ← add_u64 (block_kv_updates_used self) kv_updates;
  compute' ← add_u64 (block_compute_gas_used self) compute_gas_used;
  growth' ← add_u64 (block_state_growth_used self) state_growth_used;
  Ret {| limits := limits self;
         block_gas_used := gas';
         block_tx_size_used := size';
         block_da_size_used := da';
         block_data_used := data';
         block_kv_updates_used := kv';
         block_compute_gas_used := compute';
         block_state_growth_used := growth' |}.

Definition is_block_limit_reached (self : BlockLimiter) : bool :=
  let lim := limits self in
  bool_decide (block_gas_used self >= BlockLimits.block_gas_limit lim) ||
  bool_decide (block_tx_size_used self >= BlockLimits.block_txs_encode_size_limit lim) ||
  bool_decide (block_da_size_used self >= BlockLimits.block_da_size_limit lim) ||
  bool_decide (block_data_used self >= BlockLimits.block_txs_data_limit lim) ||
  bool_decide (block_kv_updates_used self >= BlockLimits.block_kv_update_limit lim) ||
  bool_decide (block_compute_gas_used self >= BlockLimits.block_compute_gas_limit lim) ||
  bool_decide (block_state_growth_used self >= BlockLimits.block_state_growth_limit lim).
End ops.
End BlockLimiter.

(** ** What the block limiter promises

    A candidate of the block builder: what is known of a transaction before it
    runs and what its execution uses. *)
Record candidate := mkCandidate {
  c_hash : Z; c_gas_limit : Z; c_tx_size : Z; c_da_size : Z; c_is_deposit : bool;
  c_gas_used : Z; c_data : Z; c_kv : Z; c_compute : Z; c_growth : Z;
}.

(** The data-availability size that counts: that of a deposit does not. *)
Definition c_counted_da (c : candidate) : Z := if c_is_deposit c then 0 else c_da_size c.

Definition total (f : candidate → Z) (cs : list candidate) : Z :=
  foldr (λ c acc, f c + acc) 0 cs.

(** The totals of a limiter are the sums over the transactions included so far. *)
Definition accounts_for (self : BlockLimiter) (cs : list candidate) : Prop :=
  block_gas_used self = total c_gas_used cs ∧
  block_tx_size_used self = total c_tx_size cs ∧
  block_da_size_used self = total c_counted_da cs ∧
  block_data_used self = total c_data cs ∧
  block_kv_updates_used self = total c_kv cs ∧
  block_compute_gas_used self = total c_compute cs ∧
  block_state_growth_used self = total c_growth cs.

(** What admission means, as a conjunction of the limits in the source. *)
Record admissible (self : BlockLimiter) (c : candidate) : Prop := {
  adm_tx_gas : c_gas_limit c ≤ BlockLimits.tx_gas_limit (limits self);
  adm_block_gas :
    block_gas_used self + c_gas_limit c ≤ BlockLimits.block_gas_limit (limits self);
  adm_tx_size : c_tx_size c ≤ BlockLimits.tx_encode_size_limit (limits self);
  adm_block_size :
    block_tx_size_used self + c_tx_size c ≤
      BlockLimits.block_txs_encode_size_limit (limits self);
  adm_tx_da : c_is_deposit c = false → c_da_size c ≤ BlockLimits.tx_da_size_limit (limits self);
  adm_block_da : c_is_deposit c = false →
    block_da_size_used self + c_da_size c ≤ BlockLimits.block_da_size_limit (limits self);
  adm_data : block_data_used self < BlockLimits.block_txs_data_limit (limits self);
  adm_kv : block_kv_updates_used self < BlockLimits.block_kv_update_limit (limits self);
  adm_compute : block_compute_gas_used self < BlockLimits.block_compute_gas_limit (limits self);
  adm_growth : block_state_growth_used self < BlockLimits.block_state_growth_limit (limits self);
}.

(** What a reported error says is so: the transaction is the rejected one, and
    the numbers in the error show the excess. *)
Definition tx_error_truthful (self : BlockLimiter) (c : candidate)
    (e : MegaTxLimitExceededError.t) : Prop :=
  MegaTxLimitExceededError.limit e < MegaTxLimitExceededError.usage e ∧
  match e with
  | MegaTxLimitExceededError.TransactionGasLimit u l =>
      u = c_gas_limit c ∧ l = BlockLimits.tx_gas_limit (limits self)
  | MegaTxLimitExceededError.TransactionEncodeSizeLimit u l =>
      u = c_tx_size c ∧ l = BlockLimits.tx_encode_size_limit (limits self)
  | MegaTxLimitExceededError.DataAvailabilitySizeLimit u l =>
      c_is_deposit c = false ∧ u = c_da_size c ∧ l = BlockLimits.tx_da_size_limit (limits self)
  end.

Definition block_error_truthful (self : BlockLimiter) (c : candidate)
    (e : MegaBlockLimitExceededError.t) : Prop :=
  match e with
  | MegaBlockLimitExceededError.TransactionEncodeSizeLimit u x l =>
      u = block_tx_size_used self ∧ x = c_tx_size c ∧
      l = BlockLimits.block_txs_encode_size_limit (limits self) ∧ l < u + x
  | MegaBlockLimitExceededError.DataAvailabilitySizeLimit u x l =>
      c_is_deposit c = false ∧ u = block_da_size_used self ∧ x = c_da_size c ∧
      l = BlockLimits.block_da_size_limit (limits self) ∧ l < u + x
  | MegaBlockLimitExceededError.TransactionDataLimit u l =>
      u = block_data_used self ∧ l = BlockLimits.block_txs_data_limit (limits self) ∧ l ≤ u
  | MegaBlockLimitExceededError.KVUpdateLimit u l =>
      u = block_kv_updates_used self ∧ l = BlockLimits.block_kv_update_limit (limits self) ∧ l ≤ u
  | MegaBlockLimitExceededError.ComputeGasLimit u l =>
      u = block_compute_gas_used self ∧
      l = BlockLimits.block_compute_gas_limit (limits self) ∧ l ≤ u
  | MegaBlockLimitExceededError.StateGrowthLimit u l =>
      u = block_state_growth_used self ∧
      l = BlockLimits.block_state_growth_limit (limits self) ∧ l ≤ u
  end.

Definition error_truthful (self : BlockLimiter) (c : candidate) (e : BlockExecutionError) : Prop :=
  match e with
  | Validation (InvalidTx hash (TxLimitError e)) =>
      hash = c_hash c ∧ tx_error_truthful self c e
  | Validation (InvalidTx hash (BlockLimitError e)) =>
      hash = c_hash c ∧ block_error_truthful self c e
  | Validation (TransactionGasLimitMoreThanAvailableBlockGas gas available) =>
      gas = c_gas_limit c ∧ 0 ≤ available < gas ∧
      available = BlockLimits.block_gas_limit (limits self) - block_gas_used self
  | _ => False
  end.

(** The sums of the check stay in a [u64] and the block is not over its gas limit. *)
Record check_fits (self : BlockLimiter) (c : candidate) : Prop := {
  fits_gas : 0 ≤ c_gas_limit c ∧ 0 ≤ block_gas_used self ∧
    block_gas_used self + c_gas_limit c ≤ u64_max;
  fits_size : 0 ≤ c_tx_size c ∧ 0 ≤ block_tx_size_used self ∧
    c_tx_size c + block_tx_size_used self ≤ u64_max;
  fits_da : 0 ≤ c_da_size c ∧ 0 ≤ block_da_size_used self ∧
    c_da_size c + block_da_size_used self ≤ u64_max;
  fits_available :
    block_gas_used self ≤ BlockLimits.block_gas_limit (limits self) ≤ u64_max;
}.

Section limiter.
Context {P : Profile}.

Definition check (self : BlockLimiter) (c : candidate) :
    outcome (result unit BlockExecutionError) :=
  BlockLimiter.pre_execution_check self (c_hash c) (c_gas_limit c) (c_tx_size c) (c_da_size c)
    (c_is_deposit c).

Definition charge (c : candidate) (self : BlockLimiter) : outcome BlockLimiter :=
  BlockLimiter.post_execution_update_raw (c_gas_used c) (c_tx_size c) (c_da_size c) (c_data c)
    (c_kv c) (c_compute c) (c_growth c) (c_is_deposit c) self.

(** Offer the candidates in order: an admitted one is run and charged, a rejected
    one is skipped. *)
Fixpoint fill_block (self : BlockLimiter) (cs : list candidate) :
    outcome (BlockLimiter * list candidate) :=
  match cs with
  | [] => Ret (self, [])
  | c :: cs =>
      r ← check self c;
      match r with
      | Err _ => fill_block self cs
      | Ok _ =>
          self' ← charge c self;
          '(last, included) ← fill_block self' cs;
          Ret (last, c :: included)
      end
  end.

Lemma add_u64_fits a b : 0 ≤ a + b ≤ u64_max → add_u64 a b = Ret (a + b).
Proof. intros Hfit. unfold add_u64, fit_u64. by rewrite decide_True. Qed.
Lemma sub_u64_fits a b : 0 ≤ a - b ≤ u64_max → sub_u64 a b = Ret (a - b).
Proof. intros Hfit. unfold sub_u64, fit_u64. by rewrite decide_True. Qed.

Lemma charge_fits c self :
  (∀ x y, (x, y) ∈ [(block_gas_used self, c_gas_used c); (block_tx_size_used self, c_tx_size c);
     (block_da_size_used self, c_counted_da c); (block_data_used self, c_data c);
     (block_kv_updates_used self, c_kv c); (block_compute_gas_used self, c_compute c);
     (block_state_growth_used self, c_growth c)] → 0 ≤ x + y ≤ u64_max) →
  charge c self = Ret (mkBlockLimiter (limits self)
    (block_gas_used self + c_gas_used c) (block_tx_size_used self + c_tx_size c)
    (block_da_size_used self + c_counted_da c) (block_data_used self + c_data c)
    (block_kv_updates_used self + c_kv c) (block_compute_gas_used self + c_compute c)
    (block_state_growth_used self + c_growth c)).
Proof.
  intros Hfit. unfold charge, BlockLimiter.post_execution_update_raw.
  assert ((if negb (c_is_deposit c) then add_u64 (block_da_size_used self) (c_da_size c)
           else Ret (block_da_size_used self)) =
          Ret (block_da_size_used self + c_counted_da c)) as ->.
  { specialize (Hfit (block_da_size_used self) (c_counted_da c)). unfold c_counted_da in *.
    destruct (c_is_deposit c); simpl; [f_equal; lia|].
    apply add_u64_fits, Hfit. rewrite !elem_of_cons. tauto. }
  rewrite !add_u64_fits; [done|..]; apply Hfit; rewrite !elem_of_cons; tauto.
Qed.

Lemma pre_check_char (self : BlockLimiter) (c : candidate) :
  check_fits self c →
  ∃ r, check self c = Ret r ∧ (r = Ok tt ↔ admissible self c) ∧
    ∀ e, r = Err e → error_truthful self c e.
Proof.
  intros [Hgas Hsize Hda Hav]. unfold check, BlockLimiter.pre_execution_check.
  rewrite !add_u64_fits, sub_u64_fits by lia. unfold BlockLimiter.invalid_tx. simpl.
  destruct (c_is_deposit c) eqn:Hdep; simpl;
  repeat (case_bool_decide; simpl); eexists; (split; [reflexivity|]);
    (split; [split; [intros [=]; split; congruence || lia|intros []; try done; exfalso;
      try rewrite Hdep in *; naive_solver lia]|]); intros e [=]; subst e; simpl; repeat split; simpl; done || lia.
Qed.

(** C16: in every build, as long as the sums fit in a [u64] and the gas already
    used is within the block's gas limit, the pre-execution check returns without
    a panic; it accepts exactly the admissible transactions (each of the ten
    limits, the two data-availability ones for non-deposits only); and an error
    names the offered transaction, the configured limit and the usage, and these
    numbers show the excess (the usage is over the limit; the available gas is
    the limit minus the used gas and less than what was asked for). *)
Theorem pre_execution_check_exact (self : BlockLimiter) (c : candidate) :
  check_fits self c →
  ∃ r, check self c = Ret r ∧ (r = Ok tt ↔ admissible self c) ∧
    ∀ e, r = Err e → error_truthful self c e.
Proof. apply pre_check_char. Qed.

Lemma total_app f cs cs' : total f (cs ++ cs') = total f cs + total f cs'.
Proof. induction cs; simpl; lia. Qed.

(** A candidate whose numbers are at most [Q] and that uses at most the gas it
    declared. *)
Definition sane (Q : Z) (c : candidate) : Prop :=
  0 ≤ c_gas_used c ≤ c_gas_limit c ∧ c_gas_limit c ≤ Q ∧
  0 ≤ c_tx_size c ≤ Q ∧ 0 ≤ c_da_size c ≤ Q ∧ 0 ≤ c_data c ≤ Q ∧
  0 ≤ c_kv c ≤ Q ∧ 0 ≤ c_compute c ≤ Q ∧ 0 ≤ c_growth c ≤ Q.

(** The state of a block: the limits are kept, the totals are the sums over the
    included transactions; the pre-execution resources are within their limits,
    and each other resource was below its limit before the last transaction. *)
Record block_ok (lim : BlockLimits.t) (cs : list candidate) (self : BlockLimiter) : Prop := {
  ok_limits : limits self = lim;
  ok_totals : accounts_for self cs;
  ok_gas : total c_gas_used cs ≤ BlockLimits.block_gas_limit lim;
  ok_size : total c_tx_size cs ≤ BlockLimits.block_txs_encode_size_limit lim;
  ok_da : total c_counted_da cs ≤ BlockLimits.block_da_size_limit lim;
  ok_overshoot : ∀ before c, cs = before ++ [c] →
    total c_data before < BlockLimits.block_txs_data_limit lim ∧
    total c_kv before < BlockLimits.block_kv_update_limit lim ∧
    total c_compute before < BlockLimits.block_compute_gas_limit lim ∧
    total c_growth before < BlockLimits.block_state_growth_limit lim;
}.

Lemma total_bound Q f cs :
  0 ≤ Q → Forall (λ c, 0 ≤ f c ≤ Q) cs → 0 ≤ total f cs ≤ Z.of_nat (length cs) * Q.
Proof. intros HQ. induction 1; simpl; lia. Qed.

Lemma sane_totals Q cs :
  0 ≤ Q → Forall (sane Q) cs →
  ∀ f, f ∈ [c_gas_used; c_tx_size; c_counted_da; c_data; c_kv; c_compute; c_growth] →
  0 ≤ total f cs ≤ Z.of_nat (length cs) * Q.
Proof.
  intros HQ Hsane f Hf. apply total_bound; [done|]. eapply Forall_impl; [exact Hsane|].
  unfold sane. intros c Hc. repeat (apply elem_of_cons in Hf as [->|Hf]);
    [..|by apply elem_of_nil in Hf]; unfold c_counted_da; try case_match; lia.
Qed.

Lemma block_ok_step Q lim cs self c :
  0 ≤ Q → Forall (sane Q) cs → sane Q c → (Z.of_nat (length cs) + 1) * Q ≤ u64_max →
  0 ≤ BlockLimits.block_da_size_limit lim ≤ u64_max →
  0 ≤ BlockLimits.block_gas_limit lim ≤ u64_max →
  block_ok lim cs self →
  (∃ e, check self c = Ret (Err e) ∧ ¬ admissible self c) ∨
  check self c = Ret (Ok tt) ∧ admissible self c ∧
  ∃ self', charge c self = Ret self' ∧ block_ok lim (cs ++ [c]) self'.
Proof.
  intros HQ Hcs Hc Hmax Hda Hgl [Hlim Htot Hgas Hsize Hdas Hover].
  pose proof (sane_totals Q cs HQ Hcs) as Hb.
  destruct Htot as (Hg & Hs & Hd & Hdat & Hk & Hco & Hgr).
  pose proof (Hb c_gas_used ltac:(rewrite !elem_of_cons; tauto)).
  pose proof (Hb c_tx_size ltac:(rewrite !elem_of_cons; tauto)).
  pose proof (Hb c_counted_da ltac:(rewrite !elem_of_cons; tauto)).
  pose proof (Hb c_data ltac:(rewrite !elem_of_cons; tauto)).
  pose proof (Hb c_kv ltac:(rewrite !elem_of_cons; tauto)).
  pose proof (Hb c_compute ltac:(rewrite !elem_of_cons; tauto)).
  pose proof (Hb c_growth ltac:(rewrite !elem_of_cons; tauto)).
  destruct (pre_check_char self c) as (r & Hr & Hadm & _).
  { split; rewrite ?Hg, ?Hs, ?Hd, ?Hlim; unfold sane in Hc; lia. }
  destruct r as [[]|e]; [right|left; exists e; split; [done|by intros ?%Hadm]].
  assert (admissible self c) as Ha by by apply Hadm.
  split_and!; [done|done|]. eexists. split.
  - apply charge_fits. unfold sane, c_counted_da in *.
    intros x y Hxy. repeat (apply elem_of_cons in Hxy as [[= -> ->]|Hxy]);
      [..|by apply elem_of_nil in Hxy]; try case_match; lia.
  - destruct Ha as [? ? ? ? Htd Hbd ? ? ? ?].
    assert (block_da_size_used self + c_counted_da c ≤ BlockLimits.block_da_size_limit lim).
    { unfold c_counted_da. destruct (c_is_deposit c); [lia|].
      specialize (Hbd eq_refl). rewrite <- Hlim. lia. }
    split; simpl; rewrite ?total_app; simpl; rewrite ?Hlim in *; [done|..|
      intros before c' [-> [= ->]]%app_inj_tail; lia]; unfold sane in Hc; [|lia..].
    repeat split; simpl; rewrite total_app; simpl; lia.
Qed.

Lemma fill_block_ok Q lim cs : ∀ done self,
  0 ≤ Q → Forall (sane Q) done → Forall (sane Q) cs →
  (Z.of_nat (length done + length cs) + 1) * Q ≤ u64_max →
  0 ≤ BlockLimits.block_da_size_limit lim ≤ u64_max →
  0 ≤ BlockLimits.block_gas_limit lim ≤ u64_max →
  block_ok lim done self →
  ∃ self' included, fill_block self cs = Ret (self', included) ∧
    included `sublist_of` cs ∧ block_ok lim (done ++ included) self'.
Proof.
  induction cs as [|c cs IH]; intros before self HQ Hd Hcs Hmax Hda Hgl Hok.
  - exists self, []. rewrite app_nil_r. done.
  - apply Forall_cons in Hcs as [Hc Hcs]. simpl in Hmax.
    destruct (block_ok_step Q lim before self c) as
      [(e & He & _)|(Hck & _ & self1 & Hch & Hok1)]; [done|done|done|nia|done|done|done|..].
    + destruct (IH before self) as (self' & inc & Hf & Hsub & Hok'); [done|done|done|nia|done|done|done|].
      exists self', inc. simpl. rewrite He. simpl. split_and!; [done|by apply sublist_cons|done].
    + destruct (IH (before ++ [c]) self1) as (self' & inc & Hf & Hsub & Hok'); [done|
        by apply Forall_app; split; [|constructor]|done| |done|done|done|].
      { rewrite length_app. simpl. nia. }
      exists self', (c :: inc). simpl. rewrite Hck. simpl. rewrite Hch. simpl. rewrite Hf. simpl.
      rewrite <- app_assoc in Hok'. split_and!; [done|by apply sublist_skip|done].
Qed.

(** C15: filling a block from any list of candidates whose numbers are small
    enough for the sums to fit never panics, in any build; what is included is a
    sub-list of what was offered; the limiter's totals are the sums over the
    included transactions (data availability over the non-deposits); gas,
    transaction size and data availability stay within the block's limits; and
    data, key-value updates, compute gas and state growth were each below the
    block's limit before the last transaction, so they exceed it by at most that
    one transaction. *)
Theorem filled_block_within_limits Q lim cs :
  0 ≤ Q → Forall (sane Q) cs → (Z.of_nat (length cs) + 1) * Q ≤ u64_max →
  0 ≤ BlockLimits.block_da_size_limit lim ≤ u64_max →
  0 ≤ BlockLimits.block_gas_limit lim ≤ u64_max →
  0 ≤ BlockLimits.block_txs_encode_size_limit lim →
  ∃ self included, fill_block (to_block_limiter lim) cs = Ret (self, included) ∧
    included `sublist_of` cs ∧ block_ok lim included self.
Proof.
  intros HQ Hcs Hmax Hda Hgl Hsl.
  apply (fill_block_ok Q lim cs [] (to_block_limiter lim)); try done.
  split; simpl; try lia; [done|repeat split|].
  intros before c Hnil. by destruct before.
Qed.

(** Later states of the same block: other transactions have been charged. *)
Record later (self self' : BlockLimiter) : Prop := {
  later_limits : limits self' = limits self;
  later_gas : block_gas_used self ≤ block_gas_used self';
  later_size : block_tx_size_used self ≤ block_tx_size_used self';
  later_da : block_da_size_used self ≤ block_da_size_used self';
  later_data : block_data_used self ≤ block_data_used self';
  later_kv : block_kv_updates_used self ≤ block_kv_updates_used self';
  later_compute : block_compute_gas_used self ≤ block_compute_gas_used self';
  later_growth : block_state_growth_used self ≤ block_state_growth_used self';
}.

Lemma admissible_antitone self self' c :
  later self self' → admissible self' c → admissible self c.
Proof.
  intros [Hl] []. rewrite Hl in *.
  split; try lia; intros Hd; repeat match goal with H : _ → _ |- _ => specialize (H Hd) end; lia.
Qed.

Lemma charge_later Q c self self' :
  sane Q c → overflow_checks = true → charge c self = Ret self' → later self self'.
Proof.
  intros Hc Hchk. unfold charge, BlockLimiter.post_execution_update_raw, sane in *.
  assert (∀ a b x, add_u64 a b = Ret x → x = a + b) as Hadd.
  { intros a b x. unfold add_u64, fit_u64. case_decide; [by intros [= ->]|by rewrite Hchk]. }
  intros Hr. outcome_inv. repeat match goal with
  | Hx : add_u64 _ _ = Ret _ |- _ => apply Hadd in Hx; subst
  end.
  split; simpl; try done; try lia. destruct (c_is_deposit c); simpl in *; outcome_inv; [lia|].
  match goal with Hx : add_u64 _ _ = Ret _ |- _ => apply Hadd in Hx; subst end. lia.
Qed.

(** a transaction that the check rejects stays rejected for the rest of the
    block: whatever other transactions have been charged since (the totals only
    grow), the check does not accept it, so a builder loses nothing by skipping
    it for good. *)
Theorem rejection_is_permanent self self' c e :
  check_fits self c → check_fits self' c → later self self' →
  check self c = Ret (Err e) →
  ∃ e', check self' c = Ret (Err e').
Proof.
  intros Hf Hf' Hl He.
  destruct (pre_check_char self c Hf) as (r & Hr & Hadm & _).
  destruct (pre_check_char self' c Hf') as ([[]|e'] & Hr' & Hadm' & _); [|by exists e'].
  assert (r = Ok tt) as -> by by apply Hadm, (admissible_antitone self self' c Hl), Hadm'.
  rewrite Hr in He. done.
Qed.

(** once [is_block_limit_reached] holds the block is closed: no transaction
    that declares some gas, has a body and is not a deposit of size zero is
    accepted, with one exception that the source intends: a deposit may still
    enter when data availability is the only resource that is used up. *)
Theorem limit_reached_closes_block self c :
  check_fits self c → 0 < c_gas_limit c → 0 < c_tx_size c → 0 < c_da_size c →
  BlockLimiter.is_block_limit_reached self = true →
  check self c = Ret (Ok tt) →
  c_is_deposit c = true ∧
  BlockLimits.block_da_size_limit (limits self) ≤ block_da_size_used self ∧
  block_gas_used self < BlockLimits.block_gas_limit (limits self) ∧
  block_tx_size_used self < BlockLimits.block_txs_encode_size_limit (limits self).
Proof.
  intros Hf Hg Hs Hd Hreach Hck.
  destruct (pre_check_char self c Hf) as (r & Hr & Hadm & _).
  rewrite Hr in Hck. injection Hck as ->. destruct Hadm as [Hadm _].
  destruct (Hadm eq_refl) as [? ? ? ? Htd Hbd ? ? ? ?].
  unfold BlockLimiter.is_block_limit_reached in Hreach. simpl in Hreach.
  rewrite !orb_true_iff, !bool_decide_eq_true in Hreach.
  destruct (c_is_deposit c); [split_and!; [done|lia..]|].
  specialize (Htd eq_refl). specialize (Hbd eq_refl). lia.
Qed.

(** a deposit is exempt from data availability: its size changes neither the
    verdict of the check nor any total of the block, in any build. *)
Theorem deposit_da_is_exempt self hash gas_limit tx_size da da'
    gas_used tx_data kv compute growth :
  BlockLimiter.pre_execution_check self hash gas_limit tx_size da true =
    BlockLimiter.pre_execution_check self hash gas_limit tx_size da' true ∧
  BlockLimiter.post_execution_update_raw gas_used tx_size da tx_data kv compute growth true self =
    BlockLimiter.post_execution_update_raw gas_used tx_size da' tx_data kv compute growth true
      self ∧
  ∀ self', BlockLimiter.post_execution_update_raw gas_used tx_size da tx_data kv compute growth
    true self = Ret self' → block_da_size_used self' = block_da_size_used self.
Proof.
  split_and!; [done|done|]. unfold BlockLimiter.post_execution_update_raw. simpl.
  intros self' Hr. by outcome_inv.
Qed.
End limiter.

(** [block_gas_used + gas_limit] is an unchecked sum.  With no limit on the
    gas of a transaction, and some gas already used in the block, a transaction
    that declares the largest gas limit makes the sum wrap around in a build
    without overflow checks and is accepted, though it asks for more gas than the
    block has left; with overflow checks the check panics instead of rejecting
    it. *)
Theorem gas_check_wraps lim used hash size :
  let self := mkBlockLimiter lim used 0 0 0 0 0 0 in
  BlockLimits.tx_gas_limit lim = u64_max →
  0 < used ≤ BlockLimits.block_gas_limit lim ∧ BlockLimits.block_gas_limit lim < u64_max →
  0 ≤ size ≤ u64_max ∧ size ≤ BlockLimits.tx_encode_size_limit lim ∧
    size ≤ BlockLimits.block_txs_encode_size_limit lim →
  0 < BlockLimits.block_txs_data_limit lim ∧ 0 < BlockLimits.block_kv_update_limit lim ∧
    0 < BlockLimits.block_compute_gas_limit lim ∧ 0 < BlockLimits.block_state_growth_limit lim →
  @BlockLimiter.pre_execution_check release_build self hash u64_max size 0 true = Ret (Ok tt) ∧
  @BlockLimiter.pre_execution_check checked_build self hash u64_max size 0 true = Panic ∧
  BlockLimits.block_gas_limit lim < used + u64_max.
Proof.
  intros self Htx Hused Hsize Hpost. unfold BlockLimiter.pre_execution_check. simpl.
  rewrite Htx, bool_decide_false by lia.
  assert (@add_u64 release_build used u64_max = Ret (used - 1)) as ->.
  { unfold add_u64, fit_u64. rewrite decide_False by lia. simpl. f_equal.
    replace (used + u64_max) with (used - 1 + 1 * (u64_max + 1)) by lia.
    rewrite Z.mod_add by done. apply Z.mod_small. lia. }
  assert (@add_u64 checked_build used u64_max = Panic) as ->.
  { unfold add_u64, fit_u64. by rewrite decide_False by lia. }
  split_and!; [|done|lia]. simpl.
  rewrite !bool_decide_false by lia. rewrite add_u64_fits by lia. simpl.
  by rewrite !bool_decide_false by lia.
Qed.

Lemma gas_check_wraps_witness :
  let lim := BlockLimits.with_block_gas_limit 30000000 BlockLimits.no_limits in
  @BlockLimiter.pre_execution_check release_build (mkBlockLimiter lim 21000 0 0 0 0 0 0)
    7 u64_max 100 0 true = Ret (Ok tt).
Proof.
  apply (gas_check_wraps (BlockLimits.with_block_gas_limit 30000000 BlockLimits.no_limits)
    21000 7 100); simpl; unfold u64_max; lia.
Defined.

(** the limits of a hardfork are coherent with its spec: the runtime limits
    of a transaction read back from them are those of the spec, the gas limit is
    the block's, no single-transaction limit is above the block's limit for the
    same resource, and nothing is limited at a hardfork that runs the equivalence
    spec. *)
Theorem hardfork_limits_coherent (h : MegaHardfork) (gas : Z) :
  let lim := BlockLimits.from_hardfork_and_block_gas_limit h gas in
  BlockLimits.to_evm_tx_runtime_limits lim = EvmTxRuntimeLimits.from_spec (MegaHardfork.spec_id h) ∧
  BlockLimits.block_gas_limit lim = gas ∧
  BlockLimits.tx_data_limit lim ≤ BlockLimits.block_txs_data_limit lim ∧
  BlockLimits.tx_kv_update_limit lim ≤ BlockLimits.block_kv_update_limit lim ∧
  BlockLimits.tx_compute_gas_limit lim ≤ BlockLimits.block_compute_gas_limit lim ∧
  BlockLimits.tx_state_growth_limit lim ≤ BlockLimits.block_state_growth_limit lim ∧
  (MegaHardfork.spec_id h = EQUIVALENCE →
     lim = BlockLimits.with_block_gas_limit gas BlockLimits.no_limits).
Proof. destruct h; simpl; split_and!; try done. Qed.

(** ** A concrete block for the witnesses *)
Definition example_limits : BlockLimits.t :=
  BlockLimits.from_hardfork_and_block_gas_limit Rex4 30000000.
Definition example_candidates : list candidate :=
  [mkCandidate 1 21000 110 100 false 21000 310 2 21000 0;
   mkCandidate 2 29999000 200 150 false 50000 999 7 45000 1;
   mkCandidate 3 1000000 300 0 true 900000 12000000 9 850000 4;
   mkCandidate 4 1000000 300 250 false 900000 2000000 9 850000 4;
   mkCandidate 5 30000 90 80 false 30000 100 1 21000 0].

Lemma hardfork_limits_coherent_witness :
  BlockLimits.from_hardfork_and_block_gas_limit MiniRex1 5 =
    BlockLimits.with_block_gas_limit 5 BlockLimits.no_limits.
Proof.
  destruct (hardfork_limits_coherent MiniRex1 5) as (_ & _ & _ & _ & _ & _ & Heq).
  apply Heq. reflexivity.
Defined.

Lemma pre_execution_check_exact_witness :
  let self := mkBlockLimiter example_limits 50000 0 0 0 0 0 0 in
  ∃ r, @check checked_build self (mkCandidate 9 29960000 1 1 false 0 0 0 0 0) = Ret r ∧
    r = Err (Validation (TransactionGasLimitMoreThanAvailableBlockGas 29960000 29950000)).
Proof.
  destruct (@pre_execution_check_exact checked_build
    (mkBlockLimiter example_limits 50000 0 0 0 0 0 0)
    (mkCandidate 9 29960000 1 1 false 0 0 0 0 0)) as (r & Hr & _).
  - split; simpl; unfold u64_max; lia.
  - exists r. split; [exact Hr|]. vm_compute in Hr. injection Hr as <-. reflexivity.
Defined.

Lemma filled_block_within_limits_witness :
  ∃ self included,
    @fill_block checked_build (to_block_limiter example_limits) example_candidates =
      Ret (self, included) ∧ map c_hash included = [1; 3; 4] ∧
    block_ok example_limits included self.
Proof.
  destruct (@filled_block_within_limits checked_build 100000000 example_limits example_candidates)
    as (self & inc & Hfill & _ & Hok).
  - lia.
  - repeat constructor; simpl; lia.
  - vm_compute. discriminate.
  - split; vm_compute; discriminate.
  - split; vm_compute; discriminate.
  - vm_compute. discriminate.
  - exists self, inc. split_and!; [exact Hfill| |exact Hok].
    vm_compute in Hfill. injection Hfill as <- <-. reflexivity.
Defined.

Lemma rejection_is_permanent_witness :
  let c := mkCandidate 9 29960000 1 1 false 0 0 0 0 0 in
  ∃ e, @check checked_build (mkBlockLimiter example_limits 60000 5 5 5 5 5 5) c = Ret (Err e).
Proof.
  eapply (@rejection_is_permanent checked_build (mkBlockLimiter example_limits 50000 0 0 0 0 0 0)).
  - split; simpl; unfold u64_max; lia.
  - split; simpl; unfold u64_max; lia.
  - split; simpl; lia || reflexivity.
  - vm_compute. reflexivity.
Defined.

Lemma limit_reached_closes_block_witness :
  c_is_deposit (mkCandidate 9 21000 1 1 true 0 0 0 0 0) = true.
Proof.
  apply (@limit_reached_closes_block checked_build
    (mkBlockLimiter (BlockLimits.with_block_da_size_limit 10 example_limits) 50000 0 10 0 0 0 0)
    (mkCandidate 9 21000 1 1 true 0 0 0 0 0)); try (simpl; lia).
  - split; simpl; unfold u64_max; lia.
  - vm_compute. reflexivity.
  - vm_compute. reflexivity.
Defined.
