(* ===== verification/EvmState.v ===== *)
(** * EVM states and how they are merged

    Models [evm/state.rs]: the accounts of [revm] as the source reads and writes
    them, and [merge_evm_state], which folds the state of one transaction into an
    accumulated state. *)
From S2P Require Import Prelude Deps.
Open Scope Z_scope.
#[local] Set Warnings "-notation-for-abbreviation".

(** ** Accounts of [revm] *)
(** The bits of [AccountStatus]; a status is the set of its bits. *)
Inductive AccountFlag : Set :=
  | Created | SelfDestructed | Touched | LoadedAsNotExisting | Cold
  | CreatedLocal | SelfDestructedLocal.

#[export] Instance AccountFlag_eq_dec : EqDecision AccountFlag.
Proof. solve_decision. Defined.

Definition flag_index (f : AccountFlag) : positive :=
  match f with
  | Created => 1 | SelfDestructed => 2 | Touched => 3 | LoadedAsNotExisting => 4
  | Cold => 5 | CreatedLocal => 6 | SelfDestructedLocal => 7
  end.

Definition flag_of_index (p : positive) : option AccountFlag :=
  match p with
  | 1 => Some Created | 2 => Some SelfDestructed | 3 => Some Touched
  | 4 => Some LoadedAsNotExisting | 5 => Some Cold | 6 => Some CreatedLocal
  | 7 => Some SelfDestructedLocal | _ => None
  end%positive.

#[export] Instance AccountFlag_countable : Countable AccountFlag.
Proof. refine {| encode := flag_index; decode := flag_of_index |}. by intros []. Defined.

Definition AccountStatus := gset AccountFlag.

Record AccountInfo (Bytecode : Type) := mkAccountInfo {
  balance : Z;
  nonce : Z;
  code_hash : Z;
  code : option Bytecode;
}.
Arguments mkAccountInfo {Bytecode}.
Arguments balance {Bytecode}.
Arguments nonce {Bytecode}.
Arguments code_hash {Bytecode}.
Arguments code {Bytecode}.

Record EvmStorageSlot := mkSlot {
  slot_original_value : U256;
  slot_present_value : U256;
  slot_transaction_id : Z;
  is_cold : bool;
}.

Notation EvmStorage := (gmap U256 EvmStorageSlot) (only parsing).

Record Account (Bytecode : Type) := mkAccount {
  info : AccountInfo Bytecode;
  transaction_id : Z;
  storage : EvmStorage;
  status : AccountStatus;
}.
Arguments mkAccount {Bytecode}.
Arguments info {Bytecode}.
Arguments transaction_id {Bytecode}.
Arguments storage {Bytecode}.
Arguments status {Bytecode}.

Notation EvmState Bytecode := (gmap Address (Account Bytecode)) (only parsing).

(** What [revm] provides beyond the shape of these types: the hash of the empty
    code, the default account info, the address a bytecode delegates to when it
    is an EIP-7702 designator, and a bytecode from raw bytes. *)
Class RevmState (Bytecode : Type) := {
  KECCAK_EMPTY : Z;
  AccountInfo_default : AccountInfo Bytecode;
  eip7702_address : Bytecode → option Address;
  Bytecode_new_raw : Bytes → Bytecode;
}.

(** The default info is that of an account without code. *)
Class RevmStateLaws (Bytecode : Type) `{RevmState Bytecode} : Prop := {
  default_code_hash : code_hash AccountInfo_default = KECCAK_EMPTY;
  default_code_plain : code AccountInfo_default ≫= eip7702_address = None;
}.

(** Methods of these types that the source calls. *)
Section revm_accounts.
Context {Bytecode : Type}.
Implicit Types a : Account Bytecode.

Definition Account_default (i : AccountInfo Bytecode) : Account Bytecode :=
  mkAccount i 0 ∅ ∅.

Definition with_status (s : AccountStatus) a : Account Bytecode :=
  mkAccount (info a) (transaction_id a) (storage a) s.
Definition with_storage (s : EvmStorage) a : Account Bytecode :=
  mkAccount (info a) (transaction_id a) s (status a).
Definition with_info (i : AccountInfo Bytecode) a : Account Bytecode :=
  mkAccount i (transaction_id a) (storage a) (status a).

Definition contains (f : AccountFlag) (s : AccountStatus) : bool := bool_decide (f ∈ s).
Definition is_selfdestructed a : bool := contains SelfDestructed (status a).
Definition is_created a : bool := contains Created (status a).
Definition mark_cold a : Account Bytecode := with_status ({[Cold]} ∪ status a) a.
Definition mark_touch a : Account Bytecode := with_status ({[Touched]} ∪ status a) a.
Definition mark_created a : Account Bytecode := with_status ({[Created]} ∪ status a) a.
Definition unmark_created_locally a : Account Bytecode :=
  with_status (status a ∖ {[CreatedLocal]}) a.
Definition unmark_selfdestructed_locally a : Account Bytecode :=
  with_status (status a ∖ {[SelfDestructedLocal]}) a.
Definition mark_slot_cold (s : EvmStorageSlot) : EvmStorageSlot :=
  mkSlot (slot_original_value s) (slot_present_value s) (slot_transaction_id s) true.
End revm_accounts.

(** ** Merging: [evm/state.rs] *)
Section merge.
Context {Bytecode : Type} {revm : RevmState Bytecode}.

Definition merge_account_status (this other : AccountStatus) : outcome AccountStatus :=
  _ ← assert_true (negb (contains SelfDestructed other));
  let other := other ∖ {[Cold; CreatedLocal; SelfDestructedLocal]} in
  let this := if contains SelfDestructed this && contains Created other
              then this ∖ {[SelfDestructed]} else this in
  Ret (this ∪ other).

(** One iteration of the loop over the slots of [other]. *)
Definition merge_slot (this : EvmStorage) (entry : U256 * EvmStorageSlot) : EvmStorage :=
  let '(slot, slot_value) := entry in
  match this !! slot with
  | None => <[slot := mark_slot_cold slot_value]> this
  | Some this_slot =>
      <[slot := mkSlot (slot_original_value this_slot) (slot_present_value slot_value)
                  (slot_transaction_id this_slot) (is_cold this_slot)]> this
  end.

Definition merge_evm_storage (this other : EvmStorage) : EvmStorage :=
  foldl merge_slot this (map_to_list other).

Definition merge_account_state (this other : Account Bytecode) (merge_status : bool) : outcome (Account Bytecode) :=
  let merged := with_storage (merge_evm_storage (storage this) (storage other))
                  (with_info (info other) this) in
  if merge_status then
    s ← merge_account_status (status this) (status other);
    Ret (with_status s merged)
  else Ret merged.

(** One iteration of the loop over the accounts of [other]. *)
Definition merge_entry (merge_status : bool) (entry : Address * Account Bytecode) (this : EvmState Bytecode) :
    outcome (EvmState Bytecode) :=
  let '(address, account) := entry in
  if is_selfdestructed account then
    _ ← assert_true (is_created account);
    let empty_account := mark_touch (Account_default AccountInfo_default) in
    match this !! address with
    | Some occupied =>
        let empty_account :=
          if contains Cold (status occupied) then mark_cold empty_account else empty_account in
        Ret (<[address := empty_account]> this)
    | None => Ret (<[address := mark_cold empty_account]> this)
    end
  else
    match this !! address with
    | None =>
        let merged_account := mark_cold account in
        let merged_account := with_storage (mark_slot_cold <$> storage merged_account)
                                merged_account in
        let merged_account := unmark_created_locally merged_account in
        let merged_account := unmark_selfdestructed_locally merged_account in
        Ret (<[address := merged_account]> this)
    | Some this_account =>
        merged ← merge_account_state this_account account merge_status;
        Ret (<[address := merged]> this)
    end.

Fixpoint merge_entries (merge_status : bool) (entries : list (Address * Account Bytecode))
    (this : EvmState Bytecode) : outcome (EvmState Bytecode) :=
  match entries with
  | [] => Ret this
  | e :: entries => this ← merge_entry merge_status e this; merge_entries merge_status entries this
  end.

(** A hash map is iterated in an unspecified order: [map_to_list] fixes one, and
    the theorems hold of every order. *)
Definition merge_evm_state_optional_status (this other : EvmState Bytecode) (merge_status : bool) :
    outcome (EvmState Bytecode) :=
  merge_entries merge_status (map_to_list other) this.

Definition merge_evm_state (this other : EvmState Bytecode) : outcome (EvmState Bytecode) :=
  merge_evm_state_optional_status this other true.

(** ** What merging promises *)

Definition merged_slot (this : option EvmStorageSlot) (other : option EvmStorageSlot) :
    option EvmStorageSlot :=
  match this, other with
  | s, None => s
  | None, Some o => Some (mark_slot_cold o)
  | Some s, Some o =>
      Some (mkSlot (slot_original_value s) (slot_present_value o) (slot_transaction_id s)
              (is_cold s))
  end.

Lemma merge_slots_lookup (l : list (U256 * EvmStorageSlot)) (this : EvmStorage) k :
  NoDup l.*1 →
  foldl merge_slot this l !! k = merged_slot (this !! k) ((list_to_map l : EvmStorage) !! k).
Proof.
  revert this. induction l as [|[k' o] l IH]; intros this Hnd.
  { simpl. rewrite lookup_empty. by destruct (this !! k). }
  apply NoDup_cons in Hnd as [Hk' Hnd]. cbn [foldl]. rewrite IH by done. cbn [list_to_map foldr].
  simpl. destruct (decide (k' = k)) as [->|Hne].
  - rewrite lookup_insert_eq. rewrite (not_elem_of_list_to_map_1 l k Hk').
    destruct (this !! k); simpl; by rewrite lookup_insert_eq.
  - rewrite lookup_insert_ne by done. f_equal.
    destruct (this !! k'); by rewrite lookup_insert_ne.
Qed.

Lemma merge_evm_storage_lookup this other k :
  merge_evm_storage this other !! k = merged_slot (this !! k) (other !! k).
Proof.
  unfold merge_evm_storage. rewrite merge_slots_lookup by apply NoDup_fst_map_to_list.
  by rewrite list_to_map_to_list.
Qed.

Lemma merge_evm_storage_merge this other :
  merge_evm_storage this other = merge merged_slot this other.
Proof.
  apply map_eq. intros k. rewrite merge_evm_storage_lookup, lookup_merge.
  by destruct (this !! k), (other !! k).
Qed.

(** The status after a merge: [SelfDestructed] ends when the account is created
    again, coldness and the flags of one transaction come from the base. *)
Definition merged_status (this other : AccountStatus) : AccountStatus :=
  (if decide (SelfDestructed ∈ this ∧ Created ∈ other) then this ∖ {[SelfDestructed]} else this)
  ∪ (other ∖ {[Cold; CreatedLocal; SelfDestructedLocal]}).

(** An account that was not in the base enters it cold, and without the flags
    that only matter within its transaction. *)
Definition fresh_account (o : Account Bytecode) : Account Bytecode :=
  mkAccount (info o) (transaction_id o) (mark_slot_cold <$> storage o)
    (({[Cold]} ∪ status o) ∖ {[CreatedLocal; SelfDestructedLocal]}).

Definition merged_account (merge_status : bool) (this other : option (Account Bytecode)) :
    option (Account Bytecode) :=
  match other with
  | None => this
  | Some o =>
      if decide (SelfDestructed ∈ status o) then
        Some (mkAccount AccountInfo_default 0 ∅
          (match this with
           | Some t => if decide (Cold ∈ status t) then {[Touched; Cold]} else {[Touched]}
           | None => {[Touched; Cold]}
           end))
      else
        match this with
        | None => Some (fresh_account o)
        | Some t =>
            Some (mkAccount (info o) (transaction_id t)
              (merge merged_slot (storage t) (storage o))
              (if merge_status then merged_status (status t) (status o) else status t))
        end
  end.

(** EIP-6780: only an account created in the same transaction is destroyed. *)
Definition eip6780 (other : list (Address * Account Bytecode)) : Prop :=
  Forall (λ e, SelfDestructed ∈ status e.2 → Created ∈ status e.2) other.

Lemma merge_account_status_spec this other :
  SelfDestructed ∉ other → merge_account_status this other = Ret (merged_status this other).
Proof.
  intros Ho. unfold merge_account_status, merged_status, contains.
  rewrite (bool_decide_false (SelfDestructed ∈ other)) by done. simpl. f_equal. f_equal.
  destruct (decide (SelfDestructed ∈ this ∧ Created ∈ other)) as [[Hs Hc]|Hn].
  - rewrite !bool_decide_true by set_solver. done.
  - destruct (bool_decide (SelfDestructed ∈ this)) eqn:Hs; [|done].
    apply bool_decide_eq_true in Hs. rewrite bool_decide_false; [done|set_solver].
Qed.

Lemma merge_entry_spec ms a o (this : EvmState Bytecode) :
  (SelfDestructed ∈ status o → Created ∈ status o) →
  merge_entry ms (a, o) this =
    Ret (from_option (λ acc, <[a := acc]> this) this (merged_account ms (this !! a) (Some o))).
Proof.
  intros H6780. unfold merge_entry, merged_account, is_selfdestructed, is_created, contains.
  destruct (decide (SelfDestructed ∈ status o)) as [Hs|Hs].
  - rewrite !bool_decide_true by auto. simpl. unfold mark_cold, mark_touch, with_status. simpl.
    destruct (this !! a) as [t|]; simpl.
    + unfold contains. case_decide as Hc; [rewrite bool_decide_true by done|
        rewrite bool_decide_false by done]; do 3 f_equal; set_solver.
    + by do 3 f_equal.
  - rewrite bool_decide_false by done. destruct (this !! a) as [t|]; simpl.
    + unfold merge_account_state. rewrite merge_account_status_spec by done.
      destruct ms; simpl; unfold with_status, with_storage, with_info; simpl;
        by rewrite merge_evm_storage_merge.
    + unfold fresh_account, unmark_selfdestructed_locally, unmark_created_locally, with_status,
        with_storage, mark_cold. simpl. do 3 f_equal. set_solver.
Qed.

Lemma merge_entry_panics ms a o (this : EvmState Bytecode) :
  SelfDestructed ∈ status o → Created ∉ status o → merge_entry ms (a, o) this = Panic.
Proof.
  intros Hs Hc. unfold merge_entry, is_selfdestructed, is_created, contains.
  by rewrite (bool_decide_true _ Hs), (bool_decide_false _ Hc).
Qed.

Lemma merge_entries_spec ms entries : ∀ this : EvmState Bytecode,
  NoDup entries.*1 → eip6780 entries →
  ∃ r, merge_entries ms entries this = Ret r ∧
    ∀ a, r !! a = merged_account ms (this !! a) ((list_to_map entries : EvmState Bytecode) !! a).
Proof.
  induction entries as [|[a o] entries IH]; intros this Hnd H6780.
  { by exists this. }
  apply NoDup_cons in Hnd as [Hna Hnd]. apply Forall_cons in H6780 as [Ho H6780]. cbn [merge_entries].
  rewrite merge_entry_spec by done. cbn [mbind outcome_bind].
  destruct (IH (from_option (λ acc, <[a := acc]> this) this
    (merged_account ms (this !! a) (Some o))) Hnd H6780) as (r & Hr & Hlk).
  exists r. split; [done|]. intros b. rewrite Hlk. simpl. destruct (decide (a = b)) as [->|Hne].
  - rewrite lookup_insert_eq, (not_elem_of_list_to_map_1 _ _ Hna). simpl.
    case_decide; simpl; [by rewrite lookup_insert_eq|].
    destruct (this !! b); simpl; by rewrite lookup_insert_eq.
  - rewrite lookup_insert_ne by done. f_equal.
    case_decide; simpl; [by rewrite lookup_insert_ne|].
    destruct (this !! a); simpl; by rewrite lookup_insert_ne.
Qed.

Lemma merge_entries_panics ms entries : ∀ this : EvmState Bytecode,
  ¬ eip6780 entries → merge_entries ms entries this = Panic.
Proof.
  unfold eip6780. induction entries as [|[a o] entries IH]; intros this Hn.
  { destruct Hn. constructor. }
  cbn [merge_entries].
  destruct (decide (SelfDestructed ∈ status o)) as [Hs|Hs];
    [destruct (decide (Created ∈ status o)) as [Hc|Hc]|].
  3:{ rewrite merge_entry_spec by done. apply IH. intros Hall. apply Hn. by constructor. }
  - rewrite merge_entry_spec by done. apply IH. intros Hall. apply Hn. by constructor.
  - by rewrite merge_entry_panics.
Qed.

(** C40: Merging the state of a transaction into an accumulated state depends on
    no iteration order and acts address by address: an account the transaction
    did not load is untouched; a destroyed one becomes an empty touched account
    (as cold as it was); a new one enters cold, with cold slots and without the
    flags of its transaction; for the others balance, nonce, code and present slot
    values are the transaction's while coldness and original slot values are the
    base's.  It panics exactly on a state that breaks EIP-6780, and no account of
    the result is marked destroyed that was not so in the base. *)
Theorem merge_is_pointwise ms (this other : EvmState Bytecode) entries :
  entries ≡ₚ map_to_list other →
  (eip6780 entries → ∃ r, merge_entries ms entries this = Ret r ∧
     merge_evm_state_optional_status this other ms = Ret r ∧
     (∀ a, r !! a = merged_account ms (this !! a) (other !! a)) ∧
     ∀ a acc, r !! a = Some acc → SelfDestructed ∈ status acc →
       ∃ t, this !! a = Some t ∧ SelfDestructed ∈ status t) ∧
  (¬ eip6780 entries → merge_entries ms entries this = Panic).
Proof.
  intros Hperm. split; [intros H6780|apply merge_entries_panics].
  assert (eip6780 (map_to_list other)) as H6780'.
  { unfold eip6780 in *. by rewrite <- Hperm. }
  assert (NoDup entries.*1) as Hnd. { rewrite Hperm. apply NoDup_fst_map_to_list. }
  destruct (merge_entries_spec ms entries this Hnd H6780) as (r & Hr & Hlk).
  destruct (merge_entries_spec ms (map_to_list other) this) as (r' & Hr' & Hlk');
    [apply NoDup_fst_map_to_list|done|].
  rewrite list_to_map_to_list in Hlk'.
  assert (list_to_map entries = other) as Hmap.
  { rewrite <- (list_to_map_to_list other). by apply list_to_map_proper. }
  rewrite Hmap in Hlk.
  assert (r = r') as <-. { apply map_eq. intros a. by rewrite Hlk, Hlk'. }
  exists r. split_and!; [done|done|done|].
  intros a acc. rewrite Hlk. unfold merged_account.
  destruct (other !! a) as [o|]; [|by eauto].
  case_decide as Hs.
  - intros [= <-]. simpl. destruct (this !! a) as [t|]; [case_decide|]; set_solver.
  - destruct (this !! a) as [t|]; intros [= <-]; simpl; [|set_solver].
    destruct ms; [|by eauto]. unfold merged_status. case_decide; [set_solver|].
    intros [Ht|Ho]%elem_of_union; [by eauto|set_solver].
Qed.

(** *** Batches *)
Definition not_destroyed (s : option (Account Bytecode)) : Prop :=
  ∀ acc, s = Some acc → SelfDestructed ∉ status acc.

Lemma merged_slot_assoc a b c :
  merged_slot (merged_slot a b) c = merged_slot a (merged_slot b c).
Proof. by destruct a, b, c. Qed.

Lemma merged_slot_fresh b c :
  mark_slot_cold <$> merged_slot b c = merged_slot (mark_slot_cold <$> b) c.
Proof. by destruct b, c. Qed.

Lemma merged_status_assoc (a b c : AccountStatus) :
  SelfDestructed ∉ b → SelfDestructed ∉ c →
  merged_status (merged_status a b) c = merged_status a (merged_status b c).
Proof.
  intros Hb Hc. unfold merged_status at 2 4.
  rewrite (decide_False (P := SelfDestructed ∈ b ∧ Created ∈ c)) by set_solver.
  unfold merged_status.
  destruct (decide (SelfDestructed ∈ a)) as [Ha|Ha].
  - destruct (decide (Created ∈ b)) as [Hcb|Hcb], (decide (Created ∈ c)) as [Hcc|Hcc];
      repeat case_decide; set_solver.
  - repeat case_decide; set_solver.
Qed.

Lemma fresh_status_merged (b c : AccountStatus) :
  SelfDestructed ∉ b → SelfDestructed ∉ c →
  merged_status (({[Cold]} ∪ b) ∖ {[CreatedLocal; SelfDestructedLocal]}) c =
  ({[Cold]} ∪ merged_status b c) ∖ {[CreatedLocal; SelfDestructedLocal]}.
Proof. intros Hb Hc. unfold merged_status. repeat case_decide; set_solver. Qed.

Lemma merged_status_alive (b c : AccountStatus) :
  SelfDestructed ∉ b → SelfDestructed ∉ c → SelfDestructed ∉ merged_status b c.
Proof. intros Hb Hc. unfold merged_status. case_decide; set_solver. Qed.

Lemma merged_not_destroyed b c :
  not_destroyed b → not_destroyed c → not_destroyed (merged_account true b c).
Proof.
  intros Hb Hc acc. unfold merged_account. destruct c as [c|]; [|apply Hb].
  specialize (Hc c eq_refl). rewrite decide_False by done.
  destruct b as [b|]; intros [= <-]; simpl; [|set_solver].
  specialize (Hb b eq_refl). by apply merged_status_alive.
Qed.

Lemma merged_account_assoc a b c :
  not_destroyed b → not_destroyed c →
  merged_account true (merged_account true a b) c =
  merged_account true a (merged_account true b c).
Proof.
  intros Hb Hc. pose proof (merged_not_destroyed b c Hb Hc) as Hbc.
  destruct c as [c|]; [|done]. destruct b as [b|].
  2:{ simpl. specialize (Hc c eq_refl). rewrite !(decide_False (P := SelfDestructed ∈ status c)) by done.
      simpl. rewrite (decide_False (P := SelfDestructed ∈ _ ∖ _)) by set_solver.
      unfold fresh_account. destruct a as [a|]; simpl; f_equal.
      - f_equal.
        + apply map_eq. intros k. rewrite !lookup_merge, lookup_fmap.
          destruct (storage a !! k), (storage c !! k); done.
        + unfold merged_status. simpl. repeat case_decide; set_solver.
      - f_equal; [|set_solver].
        apply map_eq. intros k. rewrite !lookup_fmap. by destruct (storage c !! k). }
  specialize (Hb b eq_refl). specialize (Hc c eq_refl). simpl in *.
  rewrite !(decide_False (P := SelfDestructed ∈ status b)) by done.
  rewrite !(decide_False (P := SelfDestructed ∈ status c)) by done.
  simpl. rewrite (decide_False (P := SelfDestructed ∈ merged_status (status b) (status c)))
    by by apply merged_status_alive.
  destruct a as [a|]; simpl; f_equal.
  - f_equal; [|by apply merged_status_assoc].
    apply map_eq. intros k. rewrite !lookup_merge.
    by destruct (storage a !! k), (storage b !! k), (storage c !! k).
  - unfold fresh_account. simpl. f_equal; [|by apply fresh_status_merged].
    apply map_eq. intros k. rewrite lookup_fmap, !lookup_merge, lookup_fmap.
    by destruct (storage b !! k), (storage c !! k).
Qed.

Definition alive (m : EvmState Bytecode) : Prop := ∀ a, not_destroyed (m !! a).

Lemma alive_eip6780 m : alive m → eip6780 (map_to_list m).
Proof.
  intros Hal. apply Forall_forall. intros [a o] Ho Hs. apply elem_of_map_to_list in Ho.
  by destruct (Hal a o Ho).
Qed.

Lemma merge_evm_state_spec this m :
  alive m → ∃ r, merge_evm_state this m = Ret r ∧
    ∀ a, r !! a = merged_account true (this !! a) (m !! a).
Proof.
  intros Hal%alive_eip6780.
  destruct (merge_entries_spec true (map_to_list m) this) as (r & Hr & Hlk);
    [apply NoDup_fst_map_to_list|done|].
  rewrite list_to_map_to_list in Hlk. by exists r.
Qed.

(** merging is associative, so the accumulated state does not depend on how
    transactions are grouped into batches: merging two states into the base one
    after the other gives the same accounts, storage, statuses and coldness as
    merging their merge, as long as neither destroys an account. *)
Theorem merge_in_batches (base first second : EvmState Bytecode) :
  alive first → alive second →
  ∃ r, (m ← merge_evm_state base first; merge_evm_state m second) = Ret r ∧
    (m ← merge_evm_state first second; merge_evm_state base m) = Ret r.
Proof.
  intros H1 H2.
  destruct (merge_evm_state_spec base first H1) as (r1 & Hr1 & Hl1).
  destruct (merge_evm_state_spec r1 second H2) as (r & Hr & Hl).
  destruct (merge_evm_state_spec first second H2) as (r2 & Hr2 & Hl2).
  destruct (merge_evm_state_spec base r2) as (r' & Hr' & Hl').
  { intros a. rewrite Hl2. by apply merged_not_destroyed. }
  exists r. rewrite Hr1, Hr2. simpl. split; [done|]. rewrite Hr'. f_equal.
  apply map_eq. intros a. rewrite Hl, Hl', Hl1, Hl2. symmetry. by apply merged_account_assoc.
Qed.
End merge.

(** ** Concrete states for the witnesses: a bytecode is a number, and the numbers
    from 100 on delegate *)
#[local] Instance reference_revm : RevmState Z := {|
  KECCAK_EMPTY := 0;
  AccountInfo_default := mkAccountInfo 0 0 0 None;
  eip7702_address b := if decide (100 ≤ b) then Some (b - 100) else None;
  Bytecode_new_raw bs := Z.of_nat (length bs) |}.

#[local] Instance reference_revm_laws : RevmStateLaws Z.
Proof. by split. Qed.

Definition example_account (n : Z) (s : AccountStatus) (slots : EvmStorage) : Account Z :=
  mkAccount (mkAccountInfo n n 0 None) 3 slots s.
Definition example_base : EvmState Z :=
  {[1 := example_account 5 {[Touched]} {[7 := mkSlot 1 2 3 false]}]}.
Definition example_transfer : EvmState Z :=
  {[1 := example_account 4 {[Touched; Cold]} {[7 := mkSlot 2 9 4 true; 8 := mkSlot 0 1 4 false]};
    2 := example_account 1 {[Touched; Created; CreatedLocal]} ∅]}.
Definition example_destroyed : EvmState Z :=
  {[2 := example_account 0 {[Touched; Created; SelfDestructed]} ∅]}.

Lemma merge_is_pointwise_witness :
  ∃ r, merge_evm_state_optional_status example_base example_destroyed true = Ret r ∧
    r !! 2 = Some (mkAccount (mkAccountInfo 0 0 0 None) 0 ∅ {[Touched; Cold]}).
Proof.
  destruct (merge_is_pointwise true example_base example_destroyed
    (map_to_list example_destroyed)) as [Hok _]; [reflexivity|].
  destruct Hok as (r & _ & Hr & Hlk & _).
  - repeat constructor.
  - exists r. split; [exact Hr|]. rewrite Hlk. vm_compute. reflexivity.
Defined.

Lemma example_transfer_alive : alive example_transfer.
Proof.
  intros a acc Ha. refine (proj1 (bool_decide_eq_false _) _). unfold example_transfer in Ha.
  apply lookup_insert_Some in Ha as [[_ <-]|[_ Ha]]; [by vm_compute|].
  apply lookup_singleton_Some in Ha as [_ <-]. by vm_compute.
Qed.

Lemma merge_in_batches_witness :
  ∃ r, (m ← merge_evm_state example_base example_transfer;
        merge_evm_state m example_transfer) = Ret r ∧
    (storage <$> r !! 1) = Some {[7 := mkSlot 1 9 3 false; 8 := mkSlot 0 1 4 true]}.
Proof.
  destruct (merge_in_batches example_base example_transfer example_transfer
    example_transfer_alive example_transfer_alive) as (r & Hr & _).
  exists r. split; [exact Hr|]. vm_compute in Hr. injection Hr as <-. vm_compute. reflexivity.
Defined.
