(* ===== verification/StorageGas.v ===== *)
(** * Dynamic storage gas

    Models [external/gas.rs] and [external/salt.rs]: the price of storage, which
    scales with the capacity of the SALT bucket that is written, and the cache of
    bucket multipliers. *)
From S2P Require Import Prelude Spec Deps.
Open Scope Z_scope.

(** ** [external/salt.rs] *)
Definition MIN_BUCKET_SIZE_BITS : Z := 8.
Definition MIN_BUCKET_SIZE : Z := Z.shiftl 1 MIN_BUCKET_SIZE_BITS.

Class SaltEnv (S E : Type) := {
  get_bucket_capacity : S → Z → result Z E;
  bucket_id_for_account : Address → Z;
  bucket_id_for_slot : Address → U256 → Z;
}.

(** The no-op implementation; its error type is uninhabited. *)
#[export] Instance EmptyExternalEnv : SaltEnv unit Empty_set := {|
  get_bucket_capacity _ _ := Ok MIN_BUCKET_SIZE;
  bucket_id_for_account _ := 0;
  bucket_id_for_slot _ _ := 0 |}.

(** ** [DynamicGasCost] *)
Record DynamicGasCost (S : Type) := mkDynamicGasCost {
  gas_spec : MegaSpecId;
  parent_block : Z;
  salt_env : S;
  bucket_cost_mulitipers : gmap Z Z;
}.
Arguments mkDynamicGasCost {S}.
Arguments gas_spec {S}.
Arguments parent_block {S}.
Arguments salt_env {S}.
Arguments bucket_cost_mulitipers {S}.

Module DynamicGasCost.
Section ops.
Context `{Profile} {S E : Type} {salt : SaltEnv S E}.
Implicit Types self : DynamicGasCost S.

Definition new (spec : MegaSpecId) (salt_env : S) (parent_block : Z) : DynamicGasCost S :=
  mkDynamicGasCost spec parent_block salt_env ∅.

Definition reset (parent_block : Z) self : DynamicGasCost S :=
  mkDynamicGasCost (gas_spec self) parent_block (salt_env self) ∅.

Definition get_bucket_ids self : list Z := (map_to_list (bucket_cost_mulitipers self)).*1.

Definition load_bucket_cost_multiplier (bucket_id : Z) self : DynamicGasCost S * result Z E :=
  match bucket_cost_mulitipers self !! bucket_id with
  | Some multiplier => (self, Ok multiplier)
  | None =>
      match get_bucket_capacity (salt_env self) bucket_id with
      | Err e => (self, Err e)
      | Ok capacity =>
          let multiplier := capacity / MIN_BUCKET_SIZE in
          (mkDynamicGasCost (gas_spec self) (parent_block self) (salt_env self)
             (<[bucket_id := multiplier]> (bucket_cost_mulitipers self)),
           Ok multiplier)
      end
  end.

Definition sstore_set_gas (address : Address) (key : U256) self :
    outcome (DynamicGasCost S * result Z E) :=
  let bucket_id := bucket_id_for_slot address key in
  let '(self, r) := load_bucket_cost_multiplier bucket_id self in
  match r with
  | Err e => Ret (self, Err e)
  | Ok multiplier =>
      gas ← (if MegaSpecId.is_enabled (gas_spec self) REX then
               m ← sub_u64 multiplier 1;
               mul_u64 constants.rex.SSTORE_SET_STORAGE_GAS_BASE m
             else mul_u64 constants.mini_rex.SSTORE_SET_STORAGE_GAS multiplier);
      Ret (self, Ok gas)
  end.

Definition new_account_gas (address : Address) self : outcome (DynamicGasCost S * result Z E) :=
  let bucket_id := bucket_id_for_account address in
  let '(self, r) := load_bucket_cost_multiplier bucket_id self in
  match r with
  | Err e => Ret (self, Err e)
  | Ok multiplier =>
      gas ← (if MegaSpecId.is_enabled (gas_spec self) REX then
               m ← sub_u64 multiplier 1;
               mul_u64 constants.rex.NEW_ACCOUNT_STORAGE_GAS_BASE m
             else mul_u64 constants.mini_rex.NEW_ACCOUNT_STORAGE_GAS multiplier);
      Ret (self, Ok gas)
  end.

Definition create_contract_gas (address : Address) self :
    outcome (DynamicGasCost S * result Z E) :=
  let bucket_id := bucket_id_for_account address in
  let '(self, r) := load_bucket_cost_multiplier bucket_id self in
  match r with
  | Err e => Ret (self, Err e)
  | Ok multiplier =>
      gas ← (if MegaSpecId.is_enabled (gas_spec self) REX then
               m ← sub_u64 multiplier 1;
               mul_u64 constants.rex.CONTRACT_CREATION_STORAGE_GAS_BASE m
             else mul_u64 constants.mini_rex.NEW_ACCOUNT_STORAGE_GAS multiplier);
      Ret (self, Ok gas)
  end.

(** [on_new_block]: [block.number.to::<u64>()] panics when the number does not fit. *)
Definition on_new_block (block_number : U256) self : outcome (DynamicGasCost S) :=
  if decide (in_u64 block_number) then Ret (reset (sat_sub block_number 1) self) else Panic.
End ops.
End DynamicGasCost.

(** ** What the prices are *)
Section prices.
Context `{Profile} {S E : Type} {salt : SaltEnv S E}.

Inductive query :=
  | QSlot (address : Address) (key : U256)
  | QNewAccount (address : Address)
  | QCreate (address : Address).

Definition ask (q : query) (self : DynamicGasCost S) : outcome (DynamicGasCost S * result Z E) :=
  match q with
  | QSlot a k => DynamicGasCost.sstore_set_gas a k self
  | QNewAccount a => DynamicGasCost.new_account_gas a self
  | QCreate a => DynamicGasCost.create_contract_gas a self
  end.

Fixpoint ask_all (qs : list query) (self : DynamicGasCost S) :
    outcome (DynamicGasCost S * list (result Z E)) :=
  match qs with
  | [] => Ret (self, [])
  | q :: qs =>
      '(self, r) ← ask q self;
      '(self, rs) ← ask_all qs self;
      Ret (self, r :: rs)
  end.

Definition query_bucket (q : query) : Z :=
  match q with
  | QSlot a k => bucket_id_for_slot a k
  | QNewAccount a | QCreate a => bucket_id_for_account a
  end.

(** The base price, by spec; [REX] charges for the capacity above the minimum only. *)
Definition base_price (spec : MegaSpecId) (q : query) : Z :=
  if MegaSpecId.is_enabled spec REX then
    match q with
    | QSlot _ _ => constants.rex.SSTORE_SET_STORAGE_GAS_BASE
    | QNewAccount _ => constants.rex.NEW_ACCOUNT_STORAGE_GAS_BASE
    | QCreate _ => constants.rex.CONTRACT_CREATION_STORAGE_GAS_BASE
    end
  else
    match q with
    | QSlot _ _ => constants.mini_rex.SSTORE_SET_STORAGE_GAS
    | QNewAccount _ | QCreate _ => constants.mini_rex.NEW_ACCOUNT_STORAGE_GAS
    end.

(** The price without a cache. *)
Definition price (spec : MegaSpecId) (env : S) (q : query) : result Z E :=
  match get_bucket_capacity env (query_bucket q) with
  | Err e => Err e
  | Ok capacity =>
      Ok (base_price spec q *
          (capacity / 256 - (if MegaSpecId.is_enabled spec REX then 1 else 0)))
  end.

(** Every bucket has at least the minimum capacity, and less than [2^46] slots. *)
Definition capacities_ok (env : S) : Prop :=
  ∀ b c, get_bucket_capacity env b = Ok c → MIN_BUCKET_SIZE ≤ c < 70368744177664.

Definition cache_ok (self : DynamicGasCost S) : Prop :=
  ∀ b m, bucket_cost_mulitipers self !! b = Some m →
    ∃ c, get_bucket_capacity (salt_env self) b = Ok c ∧ m = c / 256.

Lemma load_multiplier_spec b self :
  cache_ok self →
  ∃ self', DynamicGasCost.load_bucket_cost_multiplier b self =
      (self', match get_bucket_capacity (salt_env self) b with
              | Ok c => Ok (c / 256) | Err e => Err e end) ∧
    cache_ok self' ∧ gas_spec self' = gas_spec self ∧ salt_env self' = salt_env self ∧
    dom (bucket_cost_mulitipers self') =
      match get_bucket_capacity (salt_env self) b with
      | Ok _ => {[b]} ∪ dom (bucket_cost_mulitipers self)
      | Err _ => dom (bucket_cost_mulitipers self)
      end.
Proof.
  intros Hc. unfold DynamicGasCost.load_bucket_cost_multiplier.
  destruct (bucket_cost_mulitipers self !! b) as [m|] eqn:Hm.
  - destruct (Hc b m Hm) as (c & Hcap & ->). rewrite Hcap. exists self.
    apply elem_of_dom_2 in Hm. split_and!; try done. set_solver.
  - destruct (get_bucket_capacity (salt_env self) b) as [c|e] eqn:Hcap; [|by exists self].
    eexists. split; [reflexivity|]. split_and!; try done; [|simpl; by rewrite dom_insert_L].
    intros b' m'. simpl. destruct (decide (b = b')) as [<-|Hne].
    + rewrite lookup_insert_eq. intros [= <-]. by exists c.
    + rewrite lookup_insert_ne by done. apply Hc.
Qed.

Lemma price_arith spec q c :
  MIN_BUCKET_SIZE ≤ c < 70368744177664 →
  (if MegaSpecId.is_enabled spec REX
   then m ← sub_u64 (c / 256) 1; mul_u64 (base_price spec q) m
   else mul_u64 (base_price spec q) (c / 256)) =
  Ret (base_price spec q * (c / 256 - (if MegaSpecId.is_enabled spec REX then 1 else 0))).
Proof.
  change MIN_BUCKET_SIZE with 256. intros Hc.
  assert (1 ≤ c / 256 < 274877906944) by (split; [apply Z.div_le_lower_bound|
    apply Z.div_lt_upper_bound]; lia).
  assert (0 ≤ base_price spec q ≤ 2000000) by
    (unfold base_price; destruct (MegaSpecId.is_enabled spec REX), q; vm_compute; split; discriminate).
  destruct (MegaSpecId.is_enabled spec REX).
  - rewrite sub_u64_in by (unfold in_u64, u64_max; lia). simpl.
    apply mul_u64_in. unfold in_u64, u64_max. nia.
  - rewrite Z.sub_0_r. apply mul_u64_in. unfold in_u64, u64_max. nia.
Qed.

Lemma ask_spec q self :
  cache_ok self → capacities_ok (salt_env self) →
  ∃ self', ask q self = Ret (self', price (gas_spec self) (salt_env self) q) ∧
    cache_ok self' ∧ gas_spec self' = gas_spec self ∧ salt_env self' = salt_env self ∧
    dom (bucket_cost_mulitipers self') =
      match get_bucket_capacity (salt_env self) (query_bucket q) with
      | Ok _ => {[query_bucket q]} ∪ dom (bucket_cost_mulitipers self)
      | Err _ => dom (bucket_cost_mulitipers self)
      end.
Proof.
  intros Hc Hcaps.
  destruct (load_multiplier_spec (query_bucket q) self Hc) as (self' & Hl & Hc' & Hs & He & Hd).
  exists self'. split; [|done].
  assert (∀ c, get_bucket_capacity (salt_env self) (query_bucket q) = Ok c →
    MIN_BUCKET_SIZE ≤ c < 70368744177664) as Hb by eauto.
  unfold price. pose proof (λ c Hx, price_arith (gas_spec self) q c (Hb c Hx)) as Har.
  destruct q as [a k|a|a]; simpl in *;
    unfold DynamicGasCost.sstore_set_gas, DynamicGasCost.new_account_gas,
      DynamicGasCost.create_contract_gas; rewrite Hl;
    (destruct (get_bucket_capacity _ _) as [c|e]; [|done]); specialize (Har c eq_refl);
    unfold base_price in *; rewrite Hs; destruct (MegaSpecId.is_enabled (gas_spec self) REX);
    by rewrite Har.
Qed.

(** C17: the cache of multipliers is transparent.  From a new or reset calculator,
    over any sequence of slot, account and contract creations, no step panics,
    every answer is the price computed from the bucket's capacity as if nothing
    were cached (an error of the SALT environment is reported and not cached), and
    the bucket ids it reports are exactly the buckets of the queries that were
    answered.  At [REX] and later a bucket of minimum capacity is free. *)
Theorem storage_gas_refines_price spec env parent qs :
  capacities_ok env →
  ∃ self', ask_all qs (DynamicGasCost.new spec env parent) =
      Ret (self', map (price spec env) qs) ∧
    (∀ b, b ∈ DynamicGasCost.get_bucket_ids self' ↔
       ∃ q c, q ∈ qs ∧ query_bucket q = b ∧ get_bucket_capacity env b = Ok c) ∧
    (MegaSpecId.is_enabled spec REX = true →
       ∀ q, get_bucket_capacity env (query_bucket q) = Ok MIN_BUCKET_SIZE →
       price spec env q = Ok 0).
Proof.
  intros Hcaps.
  assert (∀ self, cache_ok self → gas_spec self = spec → salt_env self = env →
    ∃ self', ask_all qs self = Ret (self', map (price spec env) qs) ∧
      ∀ b, b ∈ dom (bucket_cost_mulitipers self') ↔
        b ∈ dom (bucket_cost_mulitipers self) ∨
        ∃ q c, q ∈ qs ∧ query_bucket q = b ∧ get_bucket_capacity env b = Ok c) as Hall.
  { induction qs as [|q qs IH]; intros self Hc Hs He.
    { exists self. split; [done|]. intros b. split; [by left|].
      intros [?|(q & c & Hq & _)]; [done|]. by apply elem_of_nil in Hq. }
    destruct (ask_spec q self) as (self1 & Hask & Hc1 & Hs1 & He1 & Hd1); [done|by rewrite He|].
    destruct (IH self1) as (self2 & Hask2 & Hd2); [done|congruence|congruence|].
    exists self2. simpl. rewrite Hask. simpl. rewrite Hask2. simpl. rewrite Hs, He. split; [done|].
    intros b. rewrite Hd2, Hd1, He.
    destruct (get_bucket_capacity env (query_bucket q)) as [c|e] eqn:Hcap.
    - rewrite elem_of_union, elem_of_singleton. split.
      + intros [[->|?]|(q' & c' & Hq' & Hrest)]; [right|by left|right].
        * exists q, c. split_and!; [by left|done|done].
        * exists q', c'. split; [by right|done].
      + intros [?|(q' & c' & Hq' & Hb & Hcap')]; [by auto|].
        apply elem_of_cons in Hq' as [->|Hq']; [by auto|]. right. eauto.
    - split.
      + intros [?|(q' & c' & Hq' & Hrest)]; [by left|right]. exists q', c'. split; [by right|done].
      + intros [?|(q' & c' & Hq' & Hb & Hcap')]; [by auto|].
        apply elem_of_cons in Hq' as [->|Hq']; [congruence|]. right. eauto. }
  destruct (Hall (DynamicGasCost.new spec env parent)) as (self' & Hask & Hd);
    [intros b m Hm; simpl in Hm; by rewrite lookup_empty in Hm|done|done|].
  exists self'. split_and!; [done| |].
  - intros b. unfold DynamicGasCost.get_bucket_ids.
    assert (b ∈ (map_to_list (bucket_cost_mulitipers self')).*1 ↔
      b ∈ dom (bucket_cost_mulitipers self')) as ->.
    { rewrite elem_of_dom, list_elem_of_fmap. split.
      - intros ([b' m] & -> & Hm). apply elem_of_map_to_list in Hm. by exists m.
      - intros [m Hm]. exists (b, m). by rewrite elem_of_map_to_list. }
    rewrite Hd. simpl. rewrite dom_empty_L. set_solver.
  - intros Hrex q Hcap. unfold price. rewrite Hcap, Hrex. f_equal. apply Z.mul_0_r.
Qed.
End prices.

(** A SALT environment whose buckets grow with their number; buckets ending in 9
    are missing. *)
#[local] Instance example_salt : SaltEnv unit string := {|
  get_bucket_capacity _ b := if decide (b mod 10 = 9) then Err "no bucket"%string
                             else Ok (256 * (1 + b mod 10));
  bucket_id_for_account a := a mod 10;
  bucket_id_for_slot a k := (a + k) mod 10 |}.

Lemma storage_gas_refines_price_witness :
  ∃ self', @ask_all checked_build unit string
    example_salt
    [QSlot 1 1; QNewAccount 0; QCreate 9; QSlot 0 2] (DynamicGasCost.new REX4 tt 5) =
    Ret (self', [Ok 40000; Ok 0; Err "no bucket"%string; Ok 40000]).
Proof.
  edestruct (@storage_gas_refines_price checked_build unit string
    example_salt
    REX4 tt 5 [QSlot 1 1; QNewAccount 0; QCreate 9; QSlot 0 2]) as (self' & Hask & _).
  - intros b c. simpl. case_decide; [done|]. intros [= <-].
    pose proof (Z.mod_pos_bound b 10 ltac:(done)). change MIN_BUCKET_SIZE with 256. lia.
  - exists self'. rewrite Hask. vm_compute. reflexivity.
Defined.
