(* ===== verification/Inspect.v ===== *)
(** * Inspecting the journal

    Models the second half of [evm/host.rs]: [inspect_account] and the
    implementation of [JournalInspectTr] for [Journal], which read accounts and
    slots without warming them. *)
From S2P Require Import Prelude Spec Deps EvmState Trackers.
Open Scope Z_scope.

(** ** The database: every read may fail, and may change what it caches *)
Class Database (DB E Bytecode : Type) := {
  basic : Address → DB → DB * result (option (AccountInfo Bytecode)) E;
  code_by_hash : Z → DB → DB * result Bytecode E;
  db_storage : Address → U256 → DB → DB * result U256 E;
}.

(** Reads do not change what a database answers. *)
Class DatabaseLaws (DB E Bytecode : Type) `{Database DB E Bytecode} : Prop := {
  basic_pure a db : (basic a db).1 = db;
  code_by_hash_pure h db : (code_by_hash h db).1 = db;
  db_storage_pure a k db : (db_storage a k db).1 = db;
}.

Record Journal (DB Bytecode : Type) := mkJournal {
  j_state : EvmState Bytecode;
  j_database : DB;
  j_transaction_id : Z;
}.
Arguments mkJournal {DB Bytecode}.
Arguments j_state {DB Bytecode}.
Arguments j_database {DB Bytecode}.
Arguments j_transaction_id {DB Bytecode}.

Section inspect.
Context {DB E Bytecode : Type} {revm : RevmState Bytecode} {db : Database DB E Bytecode}.

(** [AccountInfo::into], [Account::new_not_existing] and [EvmStorageSlot::new] of [revm]. *)
Definition account_from_info (i : AccountInfo Bytecode) : Account Bytecode :=
  mkAccount i 0 ∅ ∅.
Definition new_not_existing (transaction_id : Z) : Account Bytecode :=
  mkAccount AccountInfo_default transaction_id ∅ {[LoadedAsNotExisting]}.
Definition new_slot (value : U256) (transaction_id : Z) : EvmStorageSlot :=
  mkSlot value value transaction_id false.

Definition with_state (s : EvmState Bytecode) (j : Journal DB Bytecode) : Journal DB Bytecode :=
  mkJournal s (j_database j) (j_transaction_id j).
Definition with_database (d : DB) (j : Journal DB Bytecode) : Journal DB Bytecode :=
  mkJournal (j_state j) d (j_transaction_id j).
Definition with_code (c : Bytecode) (a : Account Bytecode) : Account Bytecode :=
  with_info (mkAccountInfo (balance (info a)) (nonce (info a)) (code_hash (info a)) (Some c)) a.

(** A returned [&mut Account] is the account and the place it lives in: the
    address it is stored under. *)
Definition inspect_account (address : Address) (j : Journal DB Bytecode) :
    Journal DB Bytecode * result (Address * Account Bytecode) E :=
  match j_state j !! address with
  | Some account =>
      if negb (bool_decide (code_hash (info account) = KECCAK_EMPTY)) &&
         match code (info account) with None => true | Some _ => false end then
        let '(d, r) := code_by_hash (code_hash (info account)) (j_database j) in
        match r with
        | Err e => (with_database d j, Err e)
        | Ok c =>
            let account := with_code c account in
            (with_state (<[address := account]> (j_state j)) (with_database d j),
             Ok (address, account))
        end
      else (j, Ok (address, account))
  | None =>
      let '(d, r) := basic address (j_database j) in
      match r with
      | Err e => (with_database d j, Err e)
      | Ok o =>
          let account := match o with
                         | Some i => account_from_info i
                         | None => new_not_existing (j_transaction_id j)
                         end in
          let account := mark_cold account in
          (with_state (<[address := account]> (j_state j)) (with_database d j),
           Ok (address, account))
      end
  end.

Definition delegated (account : Account Bytecode) : option Address :=
  code (info account) ≫= eip7702_address.

(** The loop of the specs before [REX4]; the fuel bounds its iterations. *)
Fixpoint follow (fuel : nat) (visited : list Address) (current : Address) (j : Journal DB Bytecode) :
    option (Journal DB Bytecode * result (Address * Account Bytecode) E) :=
  match fuel with
  | O => None
  | S fuel =>
      let '(j, r) := inspect_account current j in
      match r with
      | Err e => Some (j, Err e)
      | Ok (_, account) =>
          match delegated account with
          | None => Some (j, Ok (current, account))
          | Some next =>
              if bool_decide (next ∈ visited) then Some (j, Ok (current, account))
              else follow fuel (visited ++ [current]) next j
          end
      end
  end.

Definition inspect_account_delegated (fuel : nat) (spec : MegaSpecId) (address : Address)
    (j : Journal DB Bytecode) : option (Journal DB Bytecode * result (Address * Account Bytecode) E) :=
  let '(j, r) := inspect_account address j in
  match r with
  | Err e => Some (j, Err e)
  | Ok (_, account) =>
      match delegated account with
      | None => Some (j, Ok (address, account))
      | Some delegated_address =>
          if MegaSpecId.is_enabled spec REX4 then Some (inspect_account delegated_address j)
          else follow fuel [address] delegated_address j
      end
  end.

(** The place an account of [inspect_storage] is looked up in. *)
Definition inspect_owner (fuel : nat) (spec : MegaSpecId) (address : Address) (j : Journal DB Bytecode) :
    option (Journal DB Bytecode * result (Address * Account Bytecode) E) :=
  if MegaSpecId.is_enabled spec REX4 then Some (inspect_account address j)
  else inspect_account_delegated fuel spec address j.

(** [None] is running out of fuel, [Panic] a failed [unwrap]. *)
Definition inspect_storage (fuel : nat) (spec : MegaSpecId) (address : Address) (key : U256)
    (j : Journal DB Bytecode) : option (outcome (Journal DB Bytecode * result EvmStorageSlot E)) :=
  '(j, r) ← inspect_owner fuel spec address j;
  match r with
  | Err e => Some (Ret (j, Err e))
  | Ok (_, account) =>
      if bool_decide (is_Some (storage account !! key)) then
        '(j, r) ← inspect_owner fuel spec address j;
        match r with
        | Err e => Some (Ret (j, Err e))
        | Ok (_, account) =>
            Some (slot ← expect (storage account !! key); Ret (j, Ok slot))
        end
      else
        let '(d, r) := db_storage address key (j_database j) in
        let j := with_database d j in
        match r with
        | Err e => Some (Ret (j, Err e))
        | Ok value =>
            let slot := mark_slot_cold (new_slot value (j_transaction_id j)) in
            '(j, r) ← inspect_owner fuel spec address j;
            match r with
            | Err e => Some (Ret (j, Err e))
            | Ok (owner, account) =>
                let account := with_storage (<[key := slot]> (storage account)) account in
                Some (slot ← expect (storage account !! key);
                      Ret (with_state (<[owner := account]> (j_state j)) j, Ok slot))
            end
        end
  end.

(** ** The places the trackers look at *)

(** The journal as the trackers use it: out of fuel is not an outcome of the code,
    and [delegation_terminates] gives a fuel that is enough. *)
#[export] Instance journal_inspect_tr (fuel : nat) (out_of_fuel : E) :
    JournalInspectTr (Journal DB Bytecode) E (Account Bytecode) := {|
  Trackers.inspect_account_delegated spec address j :=
    match inspect_account_delegated fuel spec address j with
    | Some (j, Ok (_, account)) => (j, Ok account)
    | Some (j, Err e) => (j, Err e)
    | None => (j, Err out_of_fuel)
    end |}.

(** ** Inspection does not warm anything *)

(** What inspection may do to an account: load its code, add cold slots; and load
    an account that was not there, as a cold one. *)
Definition account_inspected (o o' : option (Account Bytecode)) : Prop :=
  match o with
  | Some a => ∃ a', o' = Some a' ∧ status a' = status a ∧ transaction_id a' = transaction_id a ∧
      balance (info a') = balance (info a) ∧ nonce (info a') = nonce (info a) ∧
      code_hash (info a') = code_hash (info a) ∧
      (code (info a') = code (info a) ∨ code (info a) = None) ∧
      ∀ k, match storage a !! k with
           | Some s => storage a' !! k = Some s
           | None => ∀ s, storage a' !! k = Some s → is_cold s = true
           end
  | None => ∀ a', o' = Some a' →
      Cold ∈ status a' ∧ ∀ k s, storage a' !! k = Some s → is_cold s = true
  end.

Definition inspected (j j' : Journal DB Bytecode) : Prop :=
  j_transaction_id j' = j_transaction_id j ∧
  ∀ a, account_inspected (j_state j !! a) (j_state j' !! a).

Lemma account_inspected_refl o : account_inspected o o ∨ o = None.
Proof.
  destruct o as [a|]; [left|by right]. exists a. split_and!; try done; [by left|].
  intros k. by destruct (storage a !! k).
Qed.

Lemma account_inspected_trans o o' o'' :
  account_inspected o o' → account_inspected o' o'' → account_inspected o o''.
Proof.
  destruct o as [a|]; simpl.
  - intros (a' & -> & ? & ? & ? & ? & ? & Hc & Hs) (a'' & -> & ? & ? & ? & ? & ? & Hc' & Hs').
    exists a''. split_and!; try congruence.
    + destruct Hc as [Hc|Hc]; [|by right]. destruct Hc' as [Hc'|Hc']; [left|right]; congruence.
    + intros k. specialize (Hs k). specialize (Hs' k).
      destruct (storage a !! k) as [s|]; [by rewrite Hs in Hs'|].
      destruct (storage a' !! k) as [s'|]; [|done].
      intros s Hk. rewrite Hs' in Hk. injection Hk as <-. by apply Hs.
  - intros Hn. destruct o' as [a'|]; [|done].
    destruct (Hn a' eq_refl) as [Hcold Hs].
    intros (a'' & -> & Hst & _ & _ & _ & _ & _ & Hs') a [= <-]. rewrite Hst.
    split; [done|]. intros k s Hk. specialize (Hs' k). specialize (Hs k).
    destruct (storage a' !! k) as [s'|]; [|by apply Hs'].
    rewrite Hs' in Hk. injection Hk as <-. by apply Hs.
Qed.

Lemma inspected_refl j : inspected j j.
Proof.
  split; [done|]. intros a. destruct (account_inspected_refl (j_state j !! a)) as [?|Hn]; [done|].
  by rewrite Hn.
Qed.

Lemma inspected_trans j j' j'' : inspected j j' → inspected j' j'' → inspected j j''.
Proof.
  intros [Ht Hs] [Ht' Hs']. split; [congruence|].
  intros a. eapply account_inspected_trans; [apply Hs|apply Hs'].
Qed.

(** Setting one account to an inspected version of what it was. *)
Lemma inspected_set j a acc :
  account_inspected (j_state j !! a) (Some acc) →
  inspected j (with_state (<[a := acc]> (j_state j)) j).
Proof.
  intros Ha. split; [done|]. intros b. simpl. destruct (decide (a = b)) as [<-|Hne].
  - by rewrite lookup_insert_eq.
  - rewrite lookup_insert_ne by done. apply inspected_refl.
Qed.

Lemma inspect_account_inspected a j : inspected j (inspect_account a j).1.
Proof.
  unfold inspect_account. destruct (j_state j !! a) as [acc|] eqn:Ha.
  - destruct (negb _ && _) eqn:Hcond; [|apply inspected_refl].
    apply andb_true_iff in Hcond as [_ Hcode].
    destruct (code (info acc)) as [c|] eqn:Hc; [done|].
    destruct (code_by_hash _ _) as [d [c|e]]; simpl; [|exact (inspected_refl j)].
    apply (inspected_set (with_database d j)). simpl. rewrite Ha.
    exists (with_code c acc). split_and!; try done; [by right|].
    intros k. simpl. by destruct (storage acc !! k).
  - destruct (basic a (j_database j)) as [d [o|e]]; simpl; [|exact (inspected_refl j)].
    apply (inspected_set (with_database d j)). simpl. rewrite Ha. intros a' [= <-].
    split; [|by destruct o; intros k s Hk; simpl in Hk; rewrite lookup_empty in Hk].
    destruct o; simpl; set_solver.
Qed.

(** The returned reference is where the account is. *)
Lemma inspect_account_owner a j j' owner acc :
  inspect_account a j = (j', Ok (owner, acc)) → owner = a ∧ j_state j' !! a = Some acc.
Proof.
  unfold inspect_account. destruct (j_state j !! a) as [acc0|] eqn:Ha.
  - destruct (negb _ && _); [|by intros [= <- <- <-]].
    destruct (code_by_hash _ _) as [d [c|e]]; [|done]. intros [= <- <- <-].
    split; [done|]. simpl. by rewrite lookup_insert_eq.
  - destruct (basic a (j_database j)) as [d [o|e]]; [|done]. intros [= <- <- <-].
    split; [done|]. simpl. by rewrite lookup_insert_eq.
Qed.

Lemma inspect_account_others a j b :
  b ≠ a → j_state (inspect_account a j).1 !! b = j_state j !! b.
Proof.
  intros Hne. unfold inspect_account. destruct (j_state j !! a) as [acc|].
  - destruct (negb _ && _); [|done].
    destruct (code_by_hash _ _) as [d [c|e]]; simpl; [by rewrite lookup_insert_ne|done].
  - destruct (basic a (j_database j)) as [d [o|e]]; simpl; [by rewrite lookup_insert_ne|done].
Qed.

Lemma follow_inspected fuel : ∀ visited current j j' r,
  follow fuel visited current j = Some (j', r) → inspected j j'.
Proof.
  induction fuel as [|fuel IH]; intros visited current j j' r; [done|]. simpl.
  pose proof (inspect_account_inspected current j) as Hi.
  destruct (inspect_account current j) as [j1 [[o acc]|e]]; simpl in Hi; [|by intros [= <- _]].
  destruct (delegated acc) as [next|]; [|by intros [= <- _]].
  case_bool_decide; [by intros [= <- _]|]. intros Hf%IH. by eapply inspected_trans.
Qed.

(** inspecting an account, through any delegation and in every spec, also when
    the database fails on the way, is invisible to the gas schedule: no account
    that the journal holds changes its status, balance, nonce, code hash or slots
    (at most its code is filled in), and every account that it adds is cold. *)
Theorem inspection_never_warms fuel spec address j j' r :
  inspect_account_delegated fuel spec address j = Some (j', r) → inspected j j'.
Proof.
  unfold inspect_account_delegated. pose proof (inspect_account_inspected address j) as Hi.
  destruct (inspect_account address j) as [j1 [[o acc]|e]]; simpl in Hi; [|by intros [= <- _]].
  destruct (delegated acc) as [d|]; [|by intros [= <- _]]. destruct (MegaSpecId.is_enabled _ _).
  - intros [= Hd]. pose proof (inspect_account_inspected d j1) as Hi1. rewrite Hd in Hi1.
    by eapply inspected_trans.
  - intros Hf%follow_inspected. by eapply inspected_trans.
Qed.

(** The slots of an account that is not held are none. *)
Definition held_storage (j : Journal DB Bytecode) (a : Address) : EvmStorage :=
  from_option storage ∅ (j_state j !! a).

Lemma inspect_account_storage a j j' o acc :
  inspect_account a j = (j', Ok (o, acc)) →
  storage acc = held_storage j a ∧ held_storage j' a = held_storage j a.
Proof.
  intros Hi. destruct (inspect_account_owner _ _ _ _ _ Hi) as [-> Hacc].
  assert (storage acc = held_storage j a) as Hs; [|split; [done|]].
  2:{ unfold held_storage at 1. by rewrite Hacc. }
  revert Hi. unfold inspect_account, held_storage. destruct (j_state j !! a) as [acc0|]; simpl.
  - destruct (negb _ && _); [|by intros [= _ <-]].
    destruct (code_by_hash _ _) as [d [c|e]]; [|done]. by intros [= _ <-].
  - destruct (basic _ _) as [d [[i|]|e]]; [| |done]; by intros [= _ <-].
Qed.

(** Adding a cold slot where there is none. *)
Lemma inspected_new_slot j a acc key slot :
  j_state j !! a = Some acc → storage acc !! key = None → is_cold slot = true →
  inspected j (with_state
    (<[a := with_storage (<[key := slot]> (storage acc)) acc]> (j_state j)) j).
Proof.
  intros Ha Hnone Hcold. apply inspected_set. rewrite Ha. eexists.
  split_and!; [reflexivity|done..|by left|]. intros k. simpl. destruct (decide (key = k)) as [<-|Hne].
  - rewrite lookup_insert_eq, Hnone. by intros s [= <-].
  - rewrite lookup_insert_ne by done. by destruct (storage acc !! k).
Qed.

(** from [REX4] on, inspecting a slot never panics and never runs out of steps,
    and it reads the storage of the address it is asked for: no other account
    changes, nothing is warmed, a slot the journal holds is returned as it is,
    and any other is returned, and kept, as a cold slot with the database's value. *)
Theorem inspect_storage_isolated fuel spec address key j :
  MegaSpecId.is_enabled spec REX4 = true →
  ∃ j' r, inspect_storage fuel spec address key j = Some (Ret (j', r)) ∧
    inspected j j' ∧
    (∀ b, b ≠ address → j_state j' !! b = j_state j !! b) ∧
    ∀ slot, r = Ok slot →
      held_storage j' address !! key = Some slot ∧
      (held_storage j address !! key = Some slot ∨
       held_storage j address !! key = None ∧
       slot_present_value slot = slot_original_value slot ∧ is_cold slot = true ∧
       ∃ d, (db_storage address key d).2 = Ok (slot_present_value slot)).
Proof.
  intros Hspec. unfold inspect_storage, inspect_owner. rewrite Hspec.
  pose proof (inspect_account_inspected address j) as Hi1.
  pose proof (inspect_account_others address j) as Ho1.
  destruct (inspect_account address j) as [j1 [[o1 a1]|e]] eqn:Hj1; simpl in *;
    [|by exists j1, (Err e)].
  destruct (inspect_account_storage _ _ _ _ _ Hj1) as [-> Hh1].
  case_bool_decide as Hin.
  - pose proof (inspect_account_inspected address j1) as Hi2.
    pose proof (inspect_account_others address j1) as Ho2.
    destruct (inspect_account address j1) as [j2 [[o2 a2]|e]] eqn:Hj2; simpl in *.
    2:{ exists j2, (Err e). split_and!; [done|by eapply inspected_trans| |done].
        intros b Hb. by rewrite Ho2, Ho1. }
    destruct (inspect_account_storage _ _ _ _ _ Hj2) as [-> Hh2].
    rewrite Hh1. destruct Hin as [slot Hslot]. rewrite Hslot. simpl.
    exists j2, (Ok slot). split_and!; [done|by eapply inspected_trans| |].
    { intros b Hb. by rewrite Ho2, Ho1. }
    intros s [= <-]. rewrite Hh2, Hh1. auto.
  - destruct (db_storage address key (j_database j1)) as [d [value|e]] eqn:Hdb;
      [|by exists (with_database d j1), (Err e)].
    pose proof (inspect_account_inspected address (with_database d j1)) as Hi2.
    pose proof (inspect_account_others address (with_database d j1)) as Ho2.
    destruct (inspect_account address (with_database d j1)) as [j2 [[o2 a2]|e]] eqn:Hj2; simpl in *.
    2:{ exists j2, (Err e). split_and!; [done|by eapply inspected_trans; [exact Hi1|]| |done].
        intros b Hb. by rewrite Ho2, Ho1. }
    destruct (inspect_account_owner _ _ _ _ _ Hj2) as [-> Ha2].
    destruct (inspect_account_storage _ _ _ _ _ Hj2) as [Hs2 _].
    apply eq_None_not_Some in Hin. rewrite lookup_insert_eq. simpl.
    eexists _, (Ok _). split_and!; [reflexivity| | |].
    + eapply inspected_trans; [exact Hi1|]. eapply inspected_trans; [exact Hi2|].
      apply inspected_new_slot; [done| |done]. rewrite Hs2. by rewrite <- Hh1 in Hin.
    + intros b Hb. simpl. by rewrite lookup_insert_ne, Ho2, Ho1.
    + intros s [= <-]. unfold held_storage at 1. simpl. rewrite lookup_insert_eq. simpl.
      rewrite lookup_insert_eq. split; [done|]. right. split_and!; try done.
      exists (j_database j1). by rewrite Hdb.
Qed.

(** ** Where delegation leads *)

(** The journal holds [a] with the code of a delegation to [b]. *)
Definition held (j : Journal DB Bytecode) (a b : Address) : Prop :=
  ∃ acc, j_state j !! a = Some acc ∧ delegated acc = Some b.

(** What inspections make of a journal, in any number and order. *)
Definition later : relation (Journal DB Bytecode) := rtc (λ j j', ∃ a, j' = (inspect_account a j).1).

(** After some inspections, [a] is found to delegate. *)
Definition can_delegate (j : Journal DB Bytecode) (a : Address) : Prop :=
  ∃ j' b, later j j' ∧ held j' a b.

Lemma later_inspect a j : later j (inspect_account a j).1.
Proof. apply rtc_once. by exists a. Qed.

Lemma delegated_code acc b : delegated acc = Some b → ∃ c, code (info acc) = Some c.
Proof. unfold delegated. destruct (code (info acc)) as [c|]; [by exists c|done]. Qed.

(** Code that was loaded stays: inspecting the account again finds it as it is, and
    inspections of other accounts leave it alone. *)
Lemma inspect_held a b acc j :
  j_state j !! a = Some acc → delegated acc = Some b → inspect_account a j = (j, Ok (a, acc)).
Proof.
  intros Ha [c Hc]%delegated_code. unfold inspect_account. rewrite Ha, Hc. by rewrite andb_false_r.
Qed.

Lemma held_inspect x a b j : held j a b → held (inspect_account x j).1 a b.
Proof.
  intros (acc&Ha&Hd). exists acc. split; [|done]. destruct (decide (a = x)) as [<-|Hne].
  - by rewrite (inspect_held a b acc).
  - by rewrite inspect_account_others.
Qed.

Lemma held_stable a j j1 r : inspect_account a j = (j1, r) → ∀ x y, held j x y → held j1 x y.
Proof. intros Hj x y Hxy. apply (held_inspect a) in Hxy. by rewrite Hj in Hxy. Qed.

Lemma can_delegate_before a j j1 r x :
  inspect_account a j = (j1, r) → can_delegate j1 x → can_delegate j x.
Proof.
  intros Hj (j'&b&Hl&Hh). exists j', b. split; [|done].
  eapply rtc_l; [|exact Hl]. exists a. by rewrite Hj.
Qed.

Lemma held_found a j j1 o acc b :
  inspect_account a j = (j1, Ok (o, acc)) → delegated acc = Some b → held j1 a b.
Proof. intros [-> Hacc]%inspect_account_owner Hd. by exists acc. Qed.

(** Where a walk of the specs before [REX4] ends: at an account that is not found to
    delegate, or on a cycle. *)
Definition walk_end (j : Journal DB Bytecode) (owner : Address) (acc : Account Bytecode) : Prop :=
  j_state j !! owner = Some acc ∧
  (delegated acc = None ∨ ∃ b, delegated acc = Some b ∧ rtc (held j) b owner).

Lemma follow_spec (D : list Address) fuel : ∀ visited current j,
  (∀ a, can_delegate j a → a ∈ D) →
  NoDup visited → visited ⊆ D → (length D < length visited + fuel)%nat →
  current ∉ visited ∨ held j current current ∧ current ∈ visited →
  (∀ v, v ∈ visited → rtc (held j) v current) →
  ∃ j' r, follow fuel visited current j = Some (j', r) ∧
    (∀ a b, held j a b → held j' a b) ∧
    ∀ owner acc, r = Ok (owner, acc) → rtc (held j') current owner ∧ walk_end j' owner acc.
Proof.
  induction fuel as [|fuel IH]; intros visited current j HD Hnd Hsub Hlen Hcur Hreach.
  { pose proof (submseteq_length visited D (NoDup_submseteq _ _ Hnd Hsub)). lia. }
  simpl. destruct (inspect_account current j) as [j1 [[o acc]|e]] eqn:Hj1;
    pose proof (held_stable _ _ _ _ Hj1) as Hst; [|by eexists _, _].
  pose proof (inspect_account_owner _ _ _ _ _ Hj1) as [_ Hacc].
  assert (∀ v, v ∈ visited → rtc (held j1) v current) as Hreach1.
  { intros v Hv. eapply rtc_subrel; [exact Hst|by apply Hreach]. }
  destruct (delegated acc) as [next|] eqn:Hdel.
  2:{ eexists _, _. split; [done|]. split; [done|]. intros owner acc' [= <- <-].
      split; [done|]. split; [done|by left]. }
  assert (held j1 current next) as Hstep by by eapply held_found.
  case_bool_decide as Hnext.
  { eexists _, _. split; [done|]. split; [done|]. intros owner acc' [= <- <-]. split; [done|].
    split; [done|]. right. exists next. split; [done|]. by apply Hreach1. }
  assert (current ∉ visited) as Hfresh.
  { destruct Hcur as [?|[(acc0&Ha0&Hd0) Hin]]; [done|].
    rewrite (inspect_held _ _ _ _ Ha0 Hd0) in Hj1. injection Hj1 as <- <- <-.
    rewrite Hd0 in Hdel. by injection Hdel as <-. }
  destruct (IH (visited ++ [current]) next j1) as (j' & r & Hf & Hmono & Hr).
  - intros a Ha. apply HD. by eapply can_delegate_before.
  - apply NoDup_app. split_and!; [done| |by apply NoDup_singleton].
    intros x Hx Hx'. apply list_elem_of_singleton in Hx' as ->. done.
  - intros x [Hx|Hx]%elem_of_app; [by apply Hsub|]. apply list_elem_of_singleton in Hx as ->.
    apply HD. exists j1, next. split; [|done]. pose proof (later_inspect current j) as Hl.
    by rewrite Hj1 in Hl.
  - rewrite length_app. simpl. lia.
  - destruct (decide (next = current)) as [->|Hne].
    + right. split; [done|]. apply elem_of_app. right. by left.
    + left. rewrite elem_of_app, list_elem_of_singleton. tauto.
  - intros v [Hv|Hv]%elem_of_app; [|apply list_elem_of_singleton in Hv as ->].
    + eapply rtc_r; [by apply Hreach1|done].
    + by apply rtc_once.
  - exists j', r. split; [done|]. split; [intros a b Hab; by apply Hmono, Hst|].
    intros owner acc' Hok. destruct (Hr owner acc' Hok) as [Hrt Hend].
    split; [|done]. eapply rtc_l; [by apply Hmono|done].
Qed.

(** C18: resolving a delegation always ends, also through cycles and self-delegation, and
    whatever the database does: answers may fail, come with or without their code, and
    change what it caches.  If [D] has the accounts that can be found to delegate, one step
    more than [D] is long is enough.  The account that is answered is the one that the
    journal then holds: from [REX4] on the account itself, if it was not found to delegate,
    or the one a single hop away; before, one that is reached by the delegations that the
    journal then holds, and that was not found to delegate or lies on a cycle of them.
    (An account that the database gives without its code is not found to delegate by the
    inspection that loads it, see [first_inspection_misses_delegation].) *)
Theorem delegation_terminates (D : list Address) fuel spec address j :
  (∀ a, can_delegate j a → a ∈ D) → (length D < fuel)%nat →
  ∃ j' r, inspect_account_delegated fuel spec address j = Some (j', r) ∧
    ∀ owner acc, r = Ok (owner, acc) →
      if MegaSpecId.is_enabled spec REX4
      then j_state j' !! owner = Some acc ∧
        (owner = address ∧ delegated acc = None ∨ held j' address owner)
      else rtc (held j') address owner ∧ walk_end j' owner acc.
Proof.
  intros HD Hfuel. unfold inspect_account_delegated.
  destruct (inspect_account address j) as [j1 [[o acc]|e]] eqn:Hj1; [|by eexists _, _].
  pose proof (inspect_account_owner _ _ _ _ _ Hj1) as [_ Hacc].
  destruct (delegated acc) as [d|] eqn:Hdel.
  2:{ eexists _, _. split; [done|]. intros owner acc' [= <- <-].
      destruct (MegaSpecId.is_enabled spec REX4); [by auto|]. split; [done|]. split; [done|by left]. }
  assert (held j1 address d) as Hstep by by eapply held_found.
  assert (∀ a, can_delegate j1 a → a ∈ D) as HD1
    by (intros a Ha; by eapply HD, can_delegate_before).
  destruct (MegaSpecId.is_enabled spec REX4).
  - destruct (inspect_account d j1) as [j2 r] eqn:Hj2. eexists _, _. split; [done|].
    intros owner acc' ->. destruct (inspect_account_owner _ _ _ _ _ Hj2) as [-> Hacc'].
    split; [done|]. right. by eapply held_stable.
  - destruct (follow_spec D fuel [address] d j1) as (j' & r & Hf & Hmono & Hr); [done|..].
    + apply NoDup_singleton.
    + intros x Hx. apply list_elem_of_singleton in Hx as ->. apply HD1. exists j1, d. by split; [apply rtc_refl|].
    + simpl. lia.
    + destruct (decide (d = address)) as [->|Hne]; [right|left].
      * split; [done|by left].
      * by rewrite list_elem_of_singleton.
    + intros v Hv. apply list_elem_of_singleton in Hv as ->. by apply rtc_once.
    + exists j', r. split; [done|]. intros owner acc' Hok. destruct (Hr owner acc' Hok) as [Hrt Hend].
      split; [|done]. eapply rtc_l; [by apply Hmono|done].
Qed.
End inspect.

Section code_by_hash.
Context {DB E Bytecode : Type} {revm : RevmState Bytecode} {db : Database DB E Bytecode}.

(** the branch of [inspect_account] that loads an account does not load its
    code.  With a database that leaves the code of an account to be fetched by
    hash, the first inspection of a delegating account does not follow the
    delegation and answers with the account itself; only the second one, made
    when the journal already holds the account, answers with the delegate. *)
Theorem first_inspection_misses_delegation fuel spec address d i c o (j : Journal DB Bytecode) :
  MegaSpecId.is_enabled spec REX4 = true → d ≠ address →
  j_state j !! address = None → j_state j !! d = None →
  basic address (j_database j) = (j_database j, Ok (Some i)) →
  code i = None → code_hash i ≠ KECCAK_EMPTY →
  code_by_hash (code_hash i) (j_database j) = (j_database j, Ok c) → eip7702_address c = Some d →
  basic d (j_database j) = (j_database j, Ok o) →
  ∃ j1 j2 first second,
    inspect_account_delegated fuel spec address j = Some (j1, Ok (address, first)) ∧
    inspect_account_delegated fuel spec address j1 = Some (j2, Ok (d, second)).
Proof.
  intros Hspec Hne Ha Hd Hb Hcode Hhash Hc Hdel Hbd.
  unfold inspect_account_delegated at 1, inspect_account. rewrite Ha, Hb. simpl.
  unfold delegated. simpl. rewrite Hcode. simpl.
  do 2 eexists. exists (mark_cold (account_from_info i)).
  eexists. split; [reflexivity|].
  unfold inspect_account_delegated, inspect_account at 1. simpl. rewrite lookup_insert_eq. simpl.
  rewrite Hcode, bool_decide_false by done. simpl. rewrite Hc.
  unfold delegated. simpl. rewrite Hdel, Hspec. unfold inspect_account. simpl.
  rewrite !lookup_insert_ne by done. rewrite Hd, Hbd. reflexivity.
Qed.
End code_by_hash.

(** ** A concrete database for the witnesses: account infos by address, a code is
    its own hash *)
Definition example_db := list (Address * AccountInfo Z).
#[local] Existing Instance reference_revm.
#[local] Existing Instance reference_revm_laws.
#[local] Instance example_database : Database example_db string Z := {|
  basic a d := (d, Ok (snd <$> list_find (λ e, fst e = a) d ≫= λ e, Some (snd e)));
  code_by_hash h d := (d, Ok h);
  db_storage a k d := (d, Ok (a + k)) |}.
#[local] Instance example_database_laws : DatabaseLaws example_db string Z.
Proof. by split. Qed.

(** Account 1 delegates to 2, 2 to 3 and 3 to 2; 4 delegates to itself. *)
Definition example_cycle : example_db :=
  [(1, mkAccountInfo 5 0 102 (Some 102)); (2, mkAccountInfo 5 0 103 (Some 103));
   (3, mkAccountInfo 5 0 102 (Some 102)); (4, mkAccountInfo 5 0 104 (Some 104))].
Definition example_lazy : example_db := [(1, mkAccountInfo 5 0 102 None)].
Definition journal_of (d : example_db) : Journal example_db Z := mkJournal ∅ d 7.

Lemma inspection_never_warms_witness :
  ∃ j' r, inspect_account_delegated 5 REX3 1 (journal_of example_cycle) = Some (j', r) ∧
    inspected (journal_of example_cycle) j'.
Proof.
  eexists _, _. split; [vm_compute; reflexivity|].
  eapply (inspection_never_warms 5 REX3 1). vm_compute. reflexivity.
Defined.

Lemma inspect_storage_isolated_witness :
  ∃ j' slot, inspect_storage 5 REX4 1 8 (journal_of example_cycle) = Some (Ret (j', Ok slot)) ∧
    slot = mkSlot 9 9 7 true ∧ j_state j' !! 2 = None.
Proof.
  destruct (inspect_storage_isolated 5 REX4 1 8 (journal_of example_cycle))
    as (j' & r & Hr & _ & Hothers & _); [reflexivity|].
  assert (j_state j' !! 2 = None) as H2 by (apply Hothers; lia).
  vm_compute in Hr. injection Hr as <- <-. eexists _, _. split_and!; [|reflexivity|exact H2].
  vm_compute. reflexivity.
Defined.

(** Only accounts of the database delegate. *)
Lemma example_held_in j : later (journal_of example_cycle) j →
  j_database j = example_cycle ∧ ∀ a, is_Some (j_state j !! a) →
    a ∈ [1; 2; 3; 4] ∨ (info <$> j_state j !! a) = Some AccountInfo_default.
Proof.
  unfold later. intros Hl. remember (journal_of example_cycle) as j0 eqn:Hj0.
  revert Hj0. apply (rtc_ind_r (λ j, j0 = journal_of example_cycle → _)) with (3:=Hl); clear Hl.
  { intros ->. split; [done|]. intros a Ha. by apply is_Some_None in Ha. }
  intros j1 j2 _ [x ->] IH Hj0. destruct (IH Hj0) as [Hdb Hin]. clear IH. unfold inspect_account.
  destruct (j_state j1 !! x) as [acc|] eqn:Hx.
  - destruct (negb _ && _) eqn:Hc; [|done]. simpl. split; [done|]. intros a.
    destruct (decide (a = x)) as [->|Hne]; [|by rewrite lookup_insert_ne by done; apply Hin].
    intros _. destruct (Hin x) as [?|Hd]; [by rewrite Hx|by left|]. exfalso.
    rewrite Hx in Hd. injection Hd as Hd. rewrite Hd in Hc. by vm_compute in Hc.
  - rewrite Hdb. simpl. split; [done|]. intros a.
    destruct (decide (a = x)) as [->|Hne]; [|by rewrite lookup_insert_ne by done; apply Hin].
    intros _. rewrite lookup_insert_eq. rewrite !elem_of_cons.
    repeat (case_decide; [left; subst; tauto|]). by right.
Qed.

Lemma example_cycle_delegators a : can_delegate (journal_of example_cycle) a → a ∈ [1; 2; 3; 4].
Proof.
  intros (j&b&Hl&acc&Ha&Hd). destruct (proj2 (example_held_in j Hl) a) as [?|Hi]; [by rewrite Ha|done|].
  rewrite Ha in Hi. injection Hi as Hi. unfold delegated in Hd. rewrite Hi in Hd. by vm_compute in Hd.
Qed.

Lemma delegation_terminates_witness :
  ∃ j' acc, inspect_account_delegated 5 REX3 1 (journal_of example_cycle) = Some (j', Ok (3, acc)) ∧
    rtc (held j') 1 3 ∧ walk_end j' 3 acc.
Proof.
  destruct (delegation_terminates [1; 2; 3; 4] 5 REX3 1 (journal_of example_cycle)
    example_cycle_delegators) as (j' & r & Hr & Hend); [simpl; lia|].
  destruct r as [[owner acc]|e]; [|vm_compute in Hr; discriminate Hr].
  assert (owner = 3) as -> by (vm_compute in Hr; by injection Hr as _ <- _).
  exists j', acc. split; [exact Hr|]. exact (Hend 3 acc eq_refl).
Defined.

Lemma first_inspection_misses_delegation_witness :
  ∃ j1 first, inspect_account_delegated 5 REX4 1 (journal_of example_lazy) =
    Some (j1, Ok (1, first)).
Proof.
  destruct (first_inspection_misses_delegation 5 REX4 1 2 (mkAccountInfo 5 0 102 None) 102 None
    (journal_of example_lazy)) as (j1 & _ & first & _ & Hfirst & _);
    try reflexivity; try lia; [simpl; lia|]. by exists j1, first.
Defined.
