(* ===== verification/SystemContracts.v ===== *)
(** * System contracts

    Models the deployment of the system contracts ([system/oracle.rs],
    [system/control.rs], [system/keyless_deploy.rs], [system/limit_control.rs])
    and the recognition of system transactions ([system/tx.rs]).  The bytecodes
    that the build generates from the Solidity sources are the fields of a class. *)
From Stdlib Require Import Ascii.
From S2P Require Import Prelude Deps Hardfork EvmState.
Open Scope Z_scope.

(** ** Bytes written in hexadecimal *)
Definition hex_digit (c : ascii) : N :=
  let n := N_of_ascii c in
  if (n <=? 57)%N then (n - 48)%N else (n - 87)%N.

Fixpoint hex_bytes (s : string) : Bytes :=
  match s with
  | String a (String b s) =>
      default Byte.x00 (Byte.of_N (16 * hex_digit a + hex_digit b)) :: hex_bytes s
  | _ => []
  end.

(** ** Addresses and codes *)
Definition ORACLE_CONTRACT_ADDRESS : Address := 0x6342000000000000000000000000000000000001.
Definition HIGH_PRECISION_TIMESTAMP_ORACLE_ADDRESS : Address :=
  0x6342000000000000000000000000000000000002.
Definition KEYLESS_DEPLOY_ADDRESS : Address := 0x6342000000000000000000000000000000000003.
Definition ACCESS_CONTROL_ADDRESS : Address := 0x6342000000000000000000000000000000000004.
Definition LIMIT_CONTROL_ADDRESS : Address := 0x6342000000000000000000000000000000000005.

(** The crate [mega_system_contracts], generated by a build script. *)
Class SystemContractCodes := {
  ORACLE_CONTRACT_CODE : Bytes;
  ORACLE_CONTRACT_CODE_HASH : Z;
  ORACLE_CONTRACT_CODE_REX2 : Bytes;
  ORACLE_CONTRACT_CODE_HASH_REX2 : Z;
  KEYLESS_DEPLOY_CODE : Bytes;
  KEYLESS_DEPLOY_CODE_HASH : Z;
  ACCESS_CONTROL_CODE : Bytes;
  ACCESS_CONTROL_CODE_HASH : Z;
  LIMIT_CONTROL_CODE : Bytes;
  LIMIT_CONTROL_CODE_HASH : Z;
}.

Definition HIGH_PRECISION_TIMESTAMP_ORACLE_CODE_HASH : Z :=
  0x1b2df8ca5350cd7106d67ed95532584526f97a5ca267c8eef73a1831f53720f2.

Definition HIGH_PRECISION_TIMESTAMP_ORACLE_CODE : Bytes := hex_bytes (
   "608060405234801561000f575f5ffd5b5060043610610064575f3560e01c806382ab890a1161004d" ++
   "57806382ab890a146100f55780638582b7bc1461010a578063b80777ea1461013f575f5ffd5b8063" ++
   "28af7f3c146100685780633e6890fb146100a9575b5f5ffd5b61008f7f0000000000000000000000" ++
   "00000000000000000000000000000000000000000881565b60405163ffffffff9091168152602001" ++
   "5b60405180910390f35b6100d07f0000000000000000000000006342000000000000000000000000" ++
   "00000000000181565b60405173ffffffffffffffffffffffffffffffffffffffff90911681526020" ++
   "016100a0565b6101086101033660046103b6565b610147565b005b6101317f000000000000000000" ++
   "000000000000000000000000000000000000000000000081565b6040519081526020016100a0565b" ++
   "610131610154565b6101515f82610165565b50565b5f5f61015f5f610245565b92915050565b8161" ++
   "016f8161031a565b73ffffffffffffffffffffffffffffffffffffffff7f00000000000000000000" ++
   "000063420000000000000000000000000000000000011663fbc0d0356101d5857f00000000000000" ++
   "000000000000000000000000000000000000000000000000006103cd565b60405160e083901b7fff" ++
   "ffffff00000000000000000000000000000000000000000000000000000000168152600481019190" ++
   "9152602481018590526044015f604051808303815f87803b15801561022a575f5ffd5b505af11580" ++
   "1561023c573d5f5f3e3d5ffd5b50505050505050565b5f816102508161031a565b73ffffffffffff" ++
   "ffffffffffffffffffffffffffff7f00000000000000000000000063420000000000000000000000" ++
   "0000000000000116637eba7ba66102b6857f00000000000000000000000000000000000000000000" ++
   "000000000000000000006103cd565b6040518263ffffffff1660e01b81526004016102d491815260" ++
   "200190565b602060405180830381865afa1580156102ef573d5f5f3e3d5ffd5b505050506040513d" ++
   "601f19601f820116820180604052508101906103139190610405565b9392505050565b63ffffffff" ++
   "7f00000000000000000000000000000000000000000000000000000000000000081661034c826001" ++
   "6103cd565b10610151576040517fef94d84200000000000000000000000000000000000000000000" ++
   "00000000000081526004810182905263ffffffff7f00000000000000000000000000000000000000" ++
   "0000000000000000000000000816602482015260440160405180910390fd5b5f6020828403121561" ++
   "03c6575f5ffd5b5035919050565b8082018082111561015f577f4e487b7100000000000000000000" ++
   "0000000000000000000000000000000000005f52601160045260245ffd5b5f602082840312156104" ++
   "15575f5ffd5b505191905056fea2646970667358221220290614c973d24b9016b73a6b3fa98b2485" ++
   "a5c324199ceeb767818495dbe785e864736f6c634300081e0033")%string.

(** ** Deployment *)

(** [State<DB>] as the source uses it: [load_cache_account] and the
    [account_info] of what it returns. *)
Class StateDb (S E Bytecode : Type) := {
  load_cache_account : Address → S → S * result (option (AccountInfo Bytecode)) E;
}.

Section deploy.
Context `{ForkApi} {T : Type} `{MegaHardforks T} {codes : SystemContractCodes}
  {S E Bytecode : Type} {revm : RevmState Bytecode} {sdb : StateDb S E Bytecode}.

(** What the five functions do once they know the address and the code. *)
Definition deploy_contract (address : Address) (target_code : Bytes) (target_code_hash : Z)
    (db : S) : S * result (option (EvmState Bytecode)) E :=
  let '(db, acc) := load_cache_account address db in
  match acc with
  | Err e => (db, Err e)
  | Ok account_info =>
      let update :=
        let acc_info := default AccountInfo_default account_info in
        let acc_info := mkAccountInfo (balance acc_info) (nonce acc_info) target_code_hash
                          (Some (Bytecode_new_raw target_code)) in
        let revm_acc := mark_created (mark_touch (mkAccount acc_info 0 ∅ ∅)) in
        (db, Ok (Some {[address := revm_acc]})) in
      match account_info with
      | Some i =>
          if bool_decide (code_hash i = target_code_hash)
          then (db, Ok (Some {[address := Account_default i]}))
          else update
      | None => update
      end
  end.

Definition transact_deploy_oracle_contract (hardforks : T) (block_timestamp : Z) (db : S) :
    S * result (option (EvmState Bytecode)) E :=
  if negb (MegaHardforks.is_mini_rex_active_at_timestamp hardforks block_timestamp)
  then (db, Ok None)
  else
    let '(target_code, target_code_hash) :=
      if MegaHardforks.is_rex_2_active_at_timestamp hardforks block_timestamp
      then (ORACLE_CONTRACT_CODE_REX2, ORACLE_CONTRACT_CODE_HASH_REX2)
      else (ORACLE_CONTRACT_CODE, ORACLE_CONTRACT_CODE_HASH) in
    deploy_contract ORACLE_CONTRACT_ADDRESS target_code target_code_hash db.

Definition transact_deploy_high_precision_timestamp_oracle (hardforks : T)
    (block_timestamp : Z) (db : S) : S * result (option (EvmState Bytecode)) E :=
  if negb (MegaHardforks.is_mini_rex_active_at_timestamp hardforks block_timestamp)
  then (db, Ok None)
  else deploy_contract HIGH_PRECISION_TIMESTAMP_ORACLE_ADDRESS
         HIGH_PRECISION_TIMESTAMP_ORACLE_CODE HIGH_PRECISION_TIMESTAMP_ORACLE_CODE_HASH db.

Definition transact_deploy_keyless_deploy_contract (hardforks : T) (block_timestamp : Z)
    (db : S) : S * result (option (EvmState Bytecode)) E :=
  if negb (MegaHardforks.is_rex_2_active_at_timestamp hardforks block_timestamp)
  then (db, Ok None)
  else deploy_contract KEYLESS_DEPLOY_ADDRESS KEYLESS_DEPLOY_CODE KEYLESS_DEPLOY_CODE_HASH db.

Definition transact_deploy_access_control_contract (hardforks : T) (block_timestamp : Z)
    (db : S) : S * result (option (EvmState Bytecode)) E :=
  if negb (MegaHardforks.is_rex_4_active_at_timestamp hardforks block_timestamp)
  then (db, Ok None)
  else deploy_contract ACCESS_CONTROL_ADDRESS ACCESS_CONTROL_CODE ACCESS_CONTROL_CODE_HASH db.

Definition transact_deploy_limit_control_contract (hardforks : T) (block_timestamp : Z)
    (db : S) : S * result (option (EvmState Bytecode)) E :=
  if negb (MegaHardforks.is_rex_4_active_at_timestamp hardforks block_timestamp)
  then (db, Ok None)
  else deploy_contract LIMIT_CONTROL_ADDRESS LIMIT_CONTROL_CODE LIMIT_CONTROL_CODE_HASH db.
End deploy.

(** ** System transactions *)
Definition MEGA_SYSTEM_ADDRESS : Address := 0xA887dCB9D5f39Ef79272801d05Abdf707CFBbD1d.
Definition MEGA_SYSTEM_TX_WHITELIST : list Address := [ORACLE_CONTRACT_ADDRESS].
Definition MEGA_SYSTEM_TRANSACTION_SOURCE_HASH : Z :=
  0x852c082c0faff590c6300c2c34815d1f79882552fa95ba413cd5aeb1dba84957.

Definition sent_from_mega_system_address (tx : MegaTransaction) : bool :=
  bool_decide (tx_caller tx = MEGA_SYSTEM_ADDRESS).

Definition check_if_mega_system_transaction (tx_signer : Address) (tx_type : Z)
    (tx_kind : TxKind) : bool :=
  if bool_decide (tx_type = 0) && bool_decide (tx_signer = MEGA_SYSTEM_ADDRESS) then
    match tx_kind with
    | TxCreate => false
    | TxCall address => bool_decide (address ∈ MEGA_SYSTEM_TX_WHITELIST)
    end
  else false.

Definition is_mega_system_transaction (tx : MegaTransaction) : bool :=
  check_if_mega_system_transaction (tx_caller tx) (tx_type tx) (tx_kind tx).

Definition is_deposit_like_transaction (tx : MegaTransaction) : bool :=
  if bool_decide (tx_type tx = DEPOSIT_TRANSACTION_TYPE) then true
  else is_mega_system_transaction tx.

(** ** What deployment promises *)

(** [State::commit] and what is relied on of it: loading changes no account,
    a touched account that has code is stored with its info, an untouched one is
    ignored, and other accounts do not change. *)
Class StateDbCommit (S E Bytecode : Type) `{StateDb S E Bytecode} `{RevmState Bytecode} := {
  commit : EvmState Bytecode → S → S;
  load_pure a b db :
    (load_cache_account b (load_cache_account a db).1).2 = (load_cache_account b db).2;
  commit_touched a acc db :
    Touched ∈ status acc → code_hash (info acc) ≠ KECCAK_EMPTY →
    (load_cache_account a (commit {[a := acc]} db)).2 = Ok (Some (info acc));
  commit_untouched a acc b db :
    Touched ∉ status acc →
    (load_cache_account b (commit {[a := acc]} db)).2 = (load_cache_account b db).2;
  commit_others a acc b db :
    b ≠ a → (load_cache_account b (commit {[a := acc]} db)).2 = (load_cache_account b db).2;
}.

Inductive system_contract :=
  | OracleContract | TimestampOracle | KeylessDeploy | AccessControl | LimitControl.

Section deploy_spec.
Context `{ForkApi} {T : Type} `{MegaHardforks T} {codes : SystemContractCodes}
  {S E Bytecode : Type} {revm : RevmState Bytecode} {sdb : StateDb S E Bytecode}
  {sdb_commit : StateDbCommit S E Bytecode}.

Definition transact_deploy (c : system_contract) : T → Z → S →
    S * result (option (EvmState Bytecode)) E :=
  match c with
  | OracleContract => transact_deploy_oracle_contract
  | TimestampOracle => transact_deploy_high_precision_timestamp_oracle
  | KeylessDeploy => transact_deploy_keyless_deploy_contract
  | AccessControl => transact_deploy_access_control_contract
  | LimitControl => transact_deploy_limit_control_contract
  end.

(** The address, code and code hash that a contract has at a timestamp. *)
Definition deployment (c : system_contract) (self : T) (ts : Z) : option (Address * Bytes * Z) :=
  let active h := active_at_timestamp (mega_fork_activation self h) ts in
  match c with
  | OracleContract =>
      if active MiniRex then
        Some (if active Rex2
              then (ORACLE_CONTRACT_ADDRESS, ORACLE_CONTRACT_CODE_REX2,
                    ORACLE_CONTRACT_CODE_HASH_REX2)
              else (ORACLE_CONTRACT_ADDRESS, ORACLE_CONTRACT_CODE, ORACLE_CONTRACT_CODE_HASH))
      else None
  | TimestampOracle =>
      if active MiniRex then
        Some (HIGH_PRECISION_TIMESTAMP_ORACLE_ADDRESS, HIGH_PRECISION_TIMESTAMP_ORACLE_CODE,
              HIGH_PRECISION_TIMESTAMP_ORACLE_CODE_HASH)
      else None
  | KeylessDeploy =>
      if active Rex2
      then Some (KEYLESS_DEPLOY_ADDRESS, KEYLESS_DEPLOY_CODE, KEYLESS_DEPLOY_CODE_HASH) else None
  | AccessControl =>
      if active Rex4
      then Some (ACCESS_CONTROL_ADDRESS, ACCESS_CONTROL_CODE, ACCESS_CONTROL_CODE_HASH) else None
  | LimitControl =>
      if active Rex4
      then Some (LIMIT_CONTROL_ADDRESS, LIMIT_CONTROL_CODE, LIMIT_CONTROL_CODE_HASH) else None
  end.

Lemma transact_deploy_eq c self ts db :
  transact_deploy c self ts db =
    match deployment c self ts with
    | None => (db, Ok None)
    | Some (address, code, hash) => deploy_contract address code hash db
    end.
Proof.
  destruct c; simpl; unfold transact_deploy_oracle_contract,
    transact_deploy_high_precision_timestamp_oracle, transact_deploy_keyless_deploy_contract,
    transact_deploy_access_control_contract, transact_deploy_limit_control_contract,
    MegaHardforks.is_mini_rex_active_at_timestamp, MegaHardforks.is_rex_2_active_at_timestamp,
    MegaHardforks.is_rex_4_active_at_timestamp; repeat case_match; simplify_eq/=; done.
Qed.

(** The info before, or the default one. *)
Definition info_before (a : Address) (db : S) : AccountInfo Bytecode :=
  match (load_cache_account a db).2 with
  | Ok (Some i) => i
  | _ => AccountInfo_default
  end.

(** each system contract is deployed from its hardfork on and not before.  A
    deployment that meets no database error yields a state of exactly the
    contract's address; once that state is committed the account has the code
    hash of the version in force (the oracle's changes at [Rex2]), the balance and
    nonce it had, no other account has changed, and deploying again yields a
    read-only mark of the same account and changes nothing. *)
Theorem deploy_is_idempotent c (self : T) ts db :
  match deployment c self ts with
  | None => transact_deploy c self ts db = (db, Ok None)
  | Some (address, target_code, hash) =>
      hash ≠ KECCAK_EMPTY →
      (∃ e, (load_cache_account address db).2 = Err e ∧ (transact_deploy c self ts db).2 = Err e) ∨
      ∃ db' acc, transact_deploy c self ts db = (db', Ok (Some {[address := acc]})) ∧
        let after := commit {[address := acc]} db' in
        (∃ i, (load_cache_account address after).2 = Ok (Some i) ∧ code_hash i = hash ∧
           balance i = balance (info_before address db) ∧ nonce i = nonce (info_before address db) ∧
           (transact_deploy c self ts after).2 = Ok (Some {[address := Account_default i]}) ∧
           ∀ b, (load_cache_account b (commit {[address := Account_default i]} after)).2 =
                (load_cache_account b after).2) ∧
        (∀ b, b ≠ address → (load_cache_account b after).2 = (load_cache_account b db).2)
  end.
Proof.
  destruct (deployment c self ts) as [[[address target_code] hash]|] eqn:Hdep;
    [|by rewrite transact_deploy_eq, Hdep].
  intros Hhash.
  assert (∀ d, transact_deploy c self ts d = deploy_contract address target_code hash d) as Heq.
  { intros d. by rewrite transact_deploy_eq, Hdep. }
  rewrite (Heq db).
  assert (∀ i after, (load_cache_account address after).2 = Ok (Some i) → code_hash i = hash →
    (transact_deploy c self ts after).2 = Ok (Some {[address := Account_default i]})) as Hagain.
  { intros i after Hload Hi. rewrite Heq. unfold deploy_contract.
    destruct (load_cache_account address after) as [db2 r2]. simpl in Hload. subst r2.
    by rewrite bool_decide_true. }
  assert (∀ i b after, (load_cache_account b (commit {[address := Account_default i]} after)).2 =
                (load_cache_account b after).2) as Hmark.
  { intros i b after. apply commit_untouched. simpl. set_solver. }
  unfold info_before. pose proof (load_pure address address db) as Hp.
  assert (∀ b, (load_cache_account b (load_cache_account address db).1).2 =
    (load_cache_account b db).2) as Hload by (intros b; apply load_pure).
  destruct (load_cache_account address db) as [db' [o|e]] eqn:Hdb; simpl in *.
  2:{ left. exists e. split; [done|]. unfold deploy_contract. by rewrite Hdb. }
  right. exists db'. unfold deploy_contract at 1. rewrite Hdb.
  set (i0 := default AccountInfo_default o).
  assert (i0 = match o with Some i => i | None => AccountInfo_default end) as Hi0 by by destruct o.
  rewrite <- Hi0.
  assert ((∃ i, o = Some i ∧ code_hash i = hash) ∨ ∀ i, o = Some i → code_hash i ≠ hash)
    as [(i & -> & Hi)|Hno].
  { destruct o as [i|]; [|by right]. destruct (decide (code_hash i = hash)); [left; by eauto|].
    right. by intros i' [= <-]. }
  - rewrite bool_decide_true by done. eexists. split; [reflexivity|]. split.
    + exists i. rewrite Hmark. split_and!; try done.
      apply Hagain; [|done]. by rewrite Hmark.
    + intros b _. by rewrite Hmark, Hload.
  - eexists. split.
    { destruct o as [i|]; [rewrite bool_decide_false by by apply Hno|]; reflexivity. }
    split.
    + eexists. rewrite commit_touched; [|simpl; set_solver|done].
      split_and!; [reflexivity|done|done|done| |intros b; apply Hmark].
      apply Hagain; [|done]. rewrite commit_touched; [done|simpl; set_solver|done].
    + intros b Hb. by rewrite commit_others, Hload.
Qed.
End deploy_spec.

(** ** A concrete database for the witness *)
#[local] Existing Instance reference_revm.
#[local] Existing Instance reference_forks.
#[local] Set Warnings "-notation-for-abbreviation".
Notation map_db := (gmap Z (AccountInfo Z)) (only parsing).

#[local] Instance map_state_db : StateDb map_db string Z := {|
  load_cache_account a db := (db, Ok (db !! a)) |}.

Definition map_commit (st : EvmState Z) (db : map_db) : map_db :=
  omap (λ acc, if decide (Touched ∈ status acc) then Some (info acc) else None) st ∪ db.

#[local] Instance map_state_db_commit : StateDbCommit map_db string Z.
Proof.
  refine {| commit := map_commit |}; simpl; unfold map_commit.
  - done.
  - intros a acc db Ht _. f_equal. rewrite lookup_union, lookup_omap, lookup_singleton_eq. simpl.
    rewrite decide_True by done. by destruct (db !! a).
  - intros a acc b db Ht. f_equal. rewrite lookup_union, lookup_omap.
    destruct (decide (a = b)) as [<-|Hne].
    + rewrite lookup_singleton_eq. simpl. rewrite decide_False by done. by destruct (db !! a).
    + rewrite lookup_singleton_ne by done. by destruct (db !! b).
  - intros a acc b db Hne. f_equal. rewrite lookup_union, lookup_omap, lookup_singleton_ne by done.
    by destruct (db !! b).
Defined.

#[local] Instance example_codes : SystemContractCodes := {|
  ORACLE_CONTRACT_CODE := [Byte.x01]; ORACLE_CONTRACT_CODE_HASH := 11;
  ORACLE_CONTRACT_CODE_REX2 := [Byte.x01; Byte.x02]; ORACLE_CONTRACT_CODE_HASH_REX2 := 12;
  KEYLESS_DEPLOY_CODE := [Byte.x03]; KEYLESS_DEPLOY_CODE_HASH := 13;
  ACCESS_CONTROL_CODE := [Byte.x04]; ACCESS_CONTROL_CODE_HASH := 14;
  LIMIT_CONTROL_CODE := [Byte.x05]; LIMIT_CONTROL_CODE_HASH := 15 |}.

(** The oracle is upgraded at [Rex2]: the balance of its account is kept. *)
Lemma deploy_is_idempotent_witness :
  let c := MegaHardforkConfig.with_all_activated MegaHardforkConfig.new in
  let db : map_db := {[ORACLE_CONTRACT_ADDRESS := mkAccountInfo 9 1 11 (Some 1)]} in
  ∃ (db' : map_db) acc i, transact_deploy OracleContract c 5 db =
      (db', Ok (Some {[ORACLE_CONTRACT_ADDRESS := acc]})) ∧
    (load_cache_account ORACLE_CONTRACT_ADDRESS
       (commit {[ORACLE_CONTRACT_ADDRESS := acc]} db')).2 = Ok (Some i) ∧
    code_hash i = 12 ∧ balance i = 9.
Proof.
  pose proof (deploy_is_idempotent OracleContract
    (MegaHardforkConfig.with_all_activated MegaHardforkConfig.new) 5
    ({[ORACLE_CONTRACT_ADDRESS := mkAccountInfo 9 1 11 (Some 1)]} : map_db)) as Hdep.
  assert (deployment OracleContract (MegaHardforkConfig.with_all_activated MegaHardforkConfig.new) 5
    = Some (ORACLE_CONTRACT_ADDRESS, [Byte.x01; Byte.x02], 12)) as Heq by (vm_compute; reflexivity).
  rewrite Heq in Hdep. destruct Hdep as [(e & He & _)|(db' & acc & Htr & (i & Hi & Hh & Hb & _) & _)].
  - simpl. lia.
  - vm_compute in He. discriminate He.
  - exists db', acc, i. split_and!; [exact Htr|exact Hi|exact Hh|].
    rewrite Hb. vm_compute. reflexivity.
Defined.
