(* ===== verification/Context.v ===== *)
(** * The EVM context

    Models [evm/context.rs], the interfaces of [external/mod.rs] and
    [external/oracle.rs], and the first half of [evm/host.rs]: the state a
    transaction runs in, what happens to it at a new block and a new transaction,
    and how the host marks volatile accesses. *)
From S2P Require Import Prelude Spec Deps Volatile LimitTypes FrameLimit Trackers AdditionalLimit StorageGas SystemContracts.
Open Scope Z_scope.

(** ** [external/oracle.rs]: a hint may change what the environment holds *)
Class OracleEnv (O : Type) := {
  get_oracle_storage : U256 → O → option U256;
  on_hint : Address → Z → Bytes → O → O;
}.

#[export] Instance EmptyOracleEnv : OracleEnv unit := {|
  get_oracle_storage _ _ := None;
  on_hint _ _ _ o := o |}.

(** ** The parts of [OpContext] that the source reads and writes *)
Record BlockEnv := mkBlockEnv {
  block_number : U256;
  beneficiary : Address;
  timestamp : U256;
  block_gas_limit : Z;
}.

(** The configuration, by the type of its spec. *)
Record CfgEnv (Spec : Type) := mkCfgEnv {
  cfg_spec : Spec;
  cfg_chain_id : Z;
  cfg_tx_chain_id_check : bool;
  cfg_limit_contract_code_size : option Z;
  cfg_limit_contract_initcode_size : option Z;
  cfg_disable_nonce_check : bool;
  cfg_max_blobs_per_tx : option Z;
  cfg_blob_base_fee_update_fraction : option Z;
  cfg_tx_gas_limit_cap : option Z;
  cfg_memory_limit : Z;
  cfg_disable_balance_check : bool;
  cfg_disable_block_gas_limit : bool;
  cfg_disable_eip3541 : bool;
  cfg_disable_eip3607 : bool;
  cfg_disable_base_fee : bool;
}.
Arguments mkCfgEnv {Spec}.
Arguments cfg_spec {Spec}.
Arguments cfg_limit_contract_code_size {Spec}.
Arguments cfg_limit_contract_initcode_size {Spec}.

Inductive OpSpecId : Set := ISTHMUS | OtherOpSpec (code : Z).
Definition into_op_spec (spec : MegaSpecId) : OpSpecId := MegaSpecId.into_op_spec ISTHMUS spec.

Definition with_cfg_spec {A B} (spec : B) (c : CfgEnv A) : CfgEnv B :=
  mkCfgEnv spec (cfg_chain_id _ c) (cfg_tx_chain_id_check _ c)
    (cfg_limit_contract_code_size c) (cfg_limit_contract_initcode_size c)
    (cfg_disable_nonce_check _ c) (cfg_max_blobs_per_tx _ c)
    (cfg_blob_base_fee_update_fraction _ c) (cfg_tx_gas_limit_cap _ c) (cfg_memory_limit _ c)
    (cfg_disable_balance_check _ c) (cfg_disable_block_gas_limit _ c) (cfg_disable_eip3541 _ c)
    (cfg_disable_eip3607 _ c) (cfg_disable_base_fee _ c).

(** [into_op_cfg] and [into_megaeth_cfg] copy every other field. *)
Definition into_op_cfg (c : CfgEnv MegaSpecId) : CfgEnv OpSpecId :=
  with_cfg_spec (into_op_spec (cfg_spec c)) c.
Definition into_megaeth_cfg (spec : MegaSpecId) (c : CfgEnv OpSpecId) : CfgEnv MegaSpecId :=
  with_cfg_spec spec c.

Record OpContext (J : Type) := mkOpContext {
  ctx_tx : MegaTransaction;
  ctx_block : BlockEnv;
  ctx_cfg : CfgEnv OpSpecId;
  ctx_journal : J;
  ctx_error : option string;
}.
Arguments mkOpContext {J}.
Arguments ctx_tx {J}.
Arguments ctx_block {J}.
Arguments ctx_cfg {J}.
Arguments ctx_journal {J}.
Arguments ctx_error {J}.

(** ** [MegaContext].  The shared cells ([Rc<RefCell<_>>]) are fields: within one
    context each has one owner. *)
Record MegaContext (J S O : Type) := mkMegaContext {
  inner : OpContext J;
  spec : MegaSpecId;
  disable_beneficiary : bool;
  additional_limit : AdditionalLimit;
  ctx_salt_env : S;
  dynamic_storage_gas_cost : DynamicGasCost S;
  oracle_env : O;
  volatile_data_tracker : VolatileDataAccessTracker;
  disable_sandbox : bool;
}.
Arguments mkMegaContext {J S O}.
Arguments inner {J S O}.
Arguments spec {J S O}.
Arguments disable_beneficiary {J S O}.
Arguments additional_limit {J S O}.
Arguments ctx_salt_env {J S O}.
Arguments dynamic_storage_gas_cost {J S O}.
Arguments oracle_env {J S O}.
Arguments volatile_data_tracker {J S O}.
Arguments disable_sandbox {J S O}.

Module MegaContext.
Section ops.
Context `{Profile} `{BitflagsApi} `{InstructionResultApi} `{SStoreApi} `{AbiApi}
  {J S O : Type}.
Implicit Types self : MegaContext J S O.

Definition with_inner (i : OpContext J) self : MegaContext J S O :=
  mkMegaContext i (spec self) (disable_beneficiary self) (additional_limit self)
    (ctx_salt_env self) (dynamic_storage_gas_cost self) (oracle_env self)
    (volatile_data_tracker self) (disable_sandbox self).
Definition with_spec (s : MegaSpecId) self : MegaContext J S O :=
  mkMegaContext (inner self) s (disable_beneficiary self) (additional_limit self)
    (ctx_salt_env self) (dynamic_storage_gas_cost self) (oracle_env self)
    (volatile_data_tracker self) (disable_sandbox self).
Definition with_additional_limit (al : AdditionalLimit) self : MegaContext J S O :=
  mkMegaContext (inner self) (spec self) (disable_beneficiary self) al
    (ctx_salt_env self) (dynamic_storage_gas_cost self) (oracle_env self)
    (volatile_data_tracker self) (disable_sandbox self).
Definition with_gas_cost (g : DynamicGasCost S) self : MegaContext J S O :=
  mkMegaContext (inner self) (spec self) (disable_beneficiary self) (additional_limit self)
    (ctx_salt_env self) g (oracle_env self) (volatile_data_tracker self) (disable_sandbox self).
Definition with_oracle_env (o : O) self : MegaContext J S O :=
  mkMegaContext (inner self) (spec self) (disable_beneficiary self) (additional_limit self)
    (ctx_salt_env self) (dynamic_storage_gas_cost self) o (volatile_data_tracker self)
    (disable_sandbox self).
Definition with_volatile (v : VolatileDataAccessTracker) self : MegaContext J S O :=
  mkMegaContext (inner self) (spec self) (disable_beneficiary self) (additional_limit self)
    (ctx_salt_env self) (dynamic_storage_gas_cost self) (oracle_env self) v
    (disable_sandbox self).

Definition tx self : MegaTransaction := ctx_tx (inner self).
Definition block self : BlockEnv := ctx_block (inner self).
Definition cfg self : CfgEnv OpSpecId := ctx_cfg (inner self).
Definition journal self : J := ctx_journal (inner self).

Definition set_cfg (c : CfgEnv OpSpecId) (i : OpContext J) : OpContext J :=
  mkOpContext (ctx_tx i) (ctx_block i) c (ctx_journal i) (ctx_error i).
Definition set_journal (j : J) (i : OpContext J) : OpContext J :=
  mkOpContext (ctx_tx i) (ctx_block i) (ctx_cfg i) j (ctx_error i).
Definition set_error (e : string) (i : OpContext J) : OpContext J :=
  mkOpContext (ctx_tx i) (ctx_block i) (ctx_cfg i) (ctx_journal i) (Some e).

Definition with_code_sizes (code initcode : option Z) (c : CfgEnv OpSpecId) : CfgEnv OpSpecId :=
  mkCfgEnv (cfg_spec c) (cfg_chain_id _ c) (cfg_tx_chain_id_check _ c) code initcode
    (cfg_disable_nonce_check _ c) (cfg_max_blobs_per_tx _ c)
    (cfg_blob_base_fee_update_fraction _ c) (cfg_tx_gas_limit_cap _ c) (cfg_memory_limit _ c)
    (cfg_disable_balance_check _ c) (cfg_disable_block_gas_limit _ c) (cfg_disable_eip3541 _ c)
    (cfg_disable_eip3607 _ c) (cfg_disable_base_fee _ c).

(** [block.number.to::<u64>()] panics when the number does not fit. *)
Definition parent_of (b : BlockEnv) : outcome Z :=
  if decide (in_u64 (block_number b)) then Ret (sat_sub (block_number b) 1) else Panic.

(** The context of a database is the inner context [i0] that [revm] makes for it. *)
Definition new_with_shared_ext_envs (i0 : OpContext J) (spec : MegaSpecId) (salt_env : S)
    (oracle_env : O) : outcome (MegaContext J S O) :=
  let i := if MegaSpecId.is_enabled spec MINI_REX
           then set_cfg (with_code_sizes (Some constants.mini_rex.MAX_CONTRACT_SIZE)
                  (Some constants.mini_rex.MAX_INITCODE_SIZE) (ctx_cfg i0)) i0
           else i0 in
  let tx_limits := EvmTxRuntimeLimits.from_spec spec in
  parent ← parent_of (ctx_block i);
  Ret (mkMegaContext i spec false (AdditionalLimit.new spec tx_limits) salt_env
         (DynamicGasCost.new spec salt_env parent) oracle_env
         (VolatileDataAccessTracker.new (block_env_access_compute_gas_limit tx_limits)
            (oracle_access_compute_gas_limit tx_limits)) false).

(** Code size limits that are not set get those of [MINI_REX]. *)
Definition fill_code_sizes (spec : MegaSpecId) (c : CfgEnv OpSpecId) : CfgEnv OpSpecId :=
  if MegaSpecId.is_enabled spec MINI_REX then
    with_code_sizes
      (Some (default constants.mini_rex.MAX_CONTRACT_SIZE (cfg_limit_contract_code_size c)))
      (Some (default constants.mini_rex.MAX_INITCODE_SIZE (cfg_limit_contract_initcode_size c))) c
  else c.

Definition new_with_context (context : OpContext J) (spec : MegaSpecId) (salt_env : S)
    (oracle_env : O) : outcome (MegaContext J S O) :=
  let i := set_cfg (with_cfg_spec (into_op_spec spec) (ctx_cfg context)) context in
  let i := set_cfg (fill_code_sizes spec (ctx_cfg i)) i in
  let tx_limits := EvmTxRuntimeLimits.from_spec spec in
  parent ← parent_of (ctx_block i);
  Ret (mkMegaContext i spec false (AdditionalLimit.new spec tx_limits) salt_env
         (DynamicGasCost.new spec salt_env parent) oracle_env
         (VolatileDataAccessTracker.new (block_env_access_compute_gas_limit tx_limits)
            (oracle_access_compute_gas_limit tx_limits)) false).

Definition with_tx (t : MegaTransaction) self : MegaContext J S O :=
  let i := inner self in
  with_inner (mkOpContext t (ctx_block i) (ctx_cfg i) (ctx_journal i) (ctx_error i)) self.

Definition on_new_block self : outcome (MegaContext J S O) :=
  if MegaSpecId.is_enabled (spec self) MINI_REX then
    g ← DynamicGasCost.on_new_block (block_number (block self)) (dynamic_storage_gas_cost self);
    Ret (with_gas_cost g self)
  else Ret self.

Definition with_block (b : BlockEnv) self : outcome (MegaContext J S O) :=
  let i := inner self in
  on_new_block
    (with_inner (mkOpContext (ctx_tx i) b (ctx_cfg i) (ctx_journal i) (ctx_error i)) self).

Definition with_cfg (c : CfgEnv MegaSpecId) self : MegaContext J S O :=
  let self := with_spec (cfg_spec c) self in
  let self := with_inner (set_cfg (into_op_cfg c) (inner self)) self in
  with_inner (set_cfg (fill_code_sizes (spec self) (cfg self)) (inner self)) self.

Definition with_external_envs {S' O' : Type} (salt_env : S') (oracle_env : O') self :
    outcome (MegaContext J S' O') :=
  parent_block_number ← parent_of (block self);
  Ret (mkMegaContext (inner self) (spec self) (disable_beneficiary self)
         (additional_limit self) salt_env
         (DynamicGasCost.new (spec self) salt_env parent_block_number) oracle_env
         (volatile_data_tracker self) (disable_sandbox self)).

Definition with_tx_runtime_limits (tx_limits : EvmTxRuntimeLimits) self : MegaContext J S O :=
  let self := with_additional_limit (AdditionalLimit.new (spec self) tx_limits) self in
  with_volatile (VolatileDataAccessTracker.new (block_env_access_compute_gas_limit tx_limits)
                   (oracle_access_compute_gas_limit tx_limits)) self.

Definition is_sandbox_disabled self : bool := disable_sandbox self.
Definition set_sandbox_disabled (value : bool) self : MegaContext J S O :=
  mkMegaContext (inner self) (spec self) (disable_beneficiary self) (additional_limit self)
    (ctx_salt_env self) (dynamic_storage_gas_cost self) (oracle_env self)
    (volatile_data_tracker self) value.
Definition with_sandbox_disabled (value : bool) self : MegaContext J S O :=
  set_sandbox_disabled value self.
Definition generated_data_size self : outcome Z :=
  DataSizeTracker.tx_usage (data_size (additional_limit self)).
Definition kv_update_count self : outcome Z :=
  KVUpdateTracker.tx_usage (kv_update (additional_limit self)).
Definition accessed_bucket_ids self : list Z :=
  DynamicGasCost.get_bucket_ids (dynamic_storage_gas_cost self).

Definition get_block_env_accesses self : VolatileDataAccess :=
  VolatileDataAccessTracker.get_block_env_accesses (volatile_data_tracker self).
Definition reset_volatile_data_access self : MegaContext J S O :=
  with_volatile (VolatileDataAccessTracker.reset (volatile_data_tracker self)) self.
Definition mark_block_env_accessed (access_type : VolatileDataAccessType) self :
    MegaContext J S O :=
  with_volatile (VolatileDataAccessTracker.mark_block_env_accessed access_type
                   (volatile_data_tracker self)) self.

Definition set_disable_beneficiary self : MegaContext J S O :=
  mkMegaContext (inner self) (spec self) true (additional_limit self) (ctx_salt_env self)
    (dynamic_storage_gas_cost self) (oracle_env self) (volatile_data_tracker self)
    (disable_sandbox self).

Definition mark_beneficiary self : MegaContext J S O :=
  with_volatile (VolatileDataAccessTracker.mark_beneficiary_balance_accessed
                   (volatile_data_tracker self)) self.

Definition check_and_mark_beneficiary_balance_access (address : Address) self :
    MegaContext J S O * bool :=
  if bool_decide (beneficiary (block self) = address)
  then (mark_beneficiary self, true) else (self, false).

Definition check_tx_beneficiary_access self : MegaContext J S O :=
  let ben := beneficiary (block self) in
  let t := tx self in
  let self := if bool_decide (tx_caller t = ben) then mark_beneficiary self else self in
  match tx_kind t with
  | TxCall recipient => if bool_decide (recipient = ben) then mark_beneficiary self else self
  | TxCreate => self
  end.

Definition on_new_tx self : outcome (MegaContext J S O) :=
  let self := reset_volatile_data_access self in
  let self := check_tx_beneficiary_access self in
  if MegaSpecId.is_enabled (spec self) MINI_REX then
    let self := with_additional_limit (AdditionalLimit.reset (additional_limit self)) self in
    '(al, _) ← AdditionalLimit.before_tx_start (tx self) (additional_limit self);
    Ret (with_additional_limit al self)
  else Ret self.
End ops.
End MegaContext.

(** ** The host: [evm/host.rs]

    What [OpContext] answers, by the methods of its [Host]; [StateLoad] is the
    value with its coldness. *)
Record StateLoad (A : Type) := mkStateLoad { load_data : A; load_is_cold : bool }.
Arguments mkStateLoad {A}.
Arguments load_data {A}.
Arguments load_is_cold {A}.

Class OpHost (J SD AL : Type) := {
  op_basefee : OpContext J → U256;
  op_gas_limit : OpContext J → U256;
  op_difficulty : OpContext J → U256;
  op_prevrandao : OpContext J → option U256;
  op_block_number : OpContext J → U256;
  op_timestamp : OpContext J → U256;
  op_beneficiary : OpContext J → Address;
  op_block_hash : Z → OpContext J → OpContext J * option Z;
  op_blob_gasprice : OpContext J → U256;
  op_blob_hash : Z → OpContext J → option U256;
  op_caller : OpContext J → Address;
  op_selfdestruct : Address → Address → OpContext J → OpContext J * option (StateLoad SD);
  op_sload : Address → U256 → OpContext J → OpContext J * option (StateLoad U256);
  op_balance : Address → OpContext J → OpContext J * option (StateLoad U256);
  op_load_account_delegated : Address → OpContext J → OpContext J * option (StateLoad AL);
  op_load_account_code : Address → OpContext J → OpContext J * option (StateLoad Bytes);
  op_load_account_code_hash : Address → OpContext J → OpContext J * option (StateLoad Z);
  op_journal_depth : J → Z;
}.

Module Host.
Section ops.
Context `{Profile} `{BitflagsApi} {J S O SD AL : Type} {host : OpHost J SD AL}
  {oracle : OracleEnv O}.
Implicit Types self : MegaContext J S O.

Definition basefee self :=
  let self := MegaContext.mark_block_env_accessed BaseFee self in (self, op_basefee (inner self)).
Definition gas_limit self :=
  let self := MegaContext.mark_block_env_accessed GasLimit self in
  (self, op_gas_limit (inner self)).
Definition difficulty self :=
  let self := MegaContext.mark_block_env_accessed Difficulty self in
  (self, op_difficulty (inner self)).
Definition prevrandao self :=
  let self := MegaContext.mark_block_env_accessed PrevRandao self in
  (self, op_prevrandao (inner self)).
Definition block_number self :=
  let self := MegaContext.mark_block_env_accessed BlockNumber self in
  (self, op_block_number (inner self)).
Definition timestamp self :=
  let self := MegaContext.mark_block_env_accessed Timestamp self in
  (self, op_timestamp (inner self)).
Definition beneficiary self :=
  let self := MegaContext.mark_block_env_accessed Coinbase self in
  (self, op_beneficiary (inner self)).
Definition block_hash (number : Z) self :=
  let self := MegaContext.mark_block_env_accessed BlockHash self in
  let '(i, r) := op_block_hash number (inner self) in (MegaContext.with_inner i self, r).
Definition blob_gasprice self :=
  let self := MegaContext.mark_block_env_accessed BlobBaseFee self in
  (self, op_blob_gasprice (inner self)).
Definition blob_hash (number : Z) self :=
  let self := MegaContext.mark_block_env_accessed BlobHash self in
  (self, op_blob_hash number (inner self)).

Definition selfdestruct (address target : Address) self :
    MegaContext J S O * option (StateLoad SD) :=
  let self := if MegaSpecId.is_enabled (spec self) REX4
              then fst (MegaContext.check_and_mark_beneficiary_balance_access target self)
              else self in
  let '(i, r) := op_selfdestruct address target (inner self) in (MegaContext.with_inner i self, r).

Definition sload (address : Address) (key : U256) self :
    MegaContext J S O * option (StateLoad U256) :=
  let is_oracle := MegaSpecId.is_enabled (spec self) MINI_REX &&
                   bool_decide (address = ORACLE_CONTRACT_ADDRESS) in
  let self :=
    if is_oracle && MegaSpecId.is_enabled (spec self) REX3 &&
       negb (bool_decide (op_caller (inner self) = MEGA_SYSTEM_ADDRESS))
    then MegaContext.with_volatile
           (fst (VolatileDataAccessTracker.check_and_mark_oracle_access ORACLE_CONTRACT_ADDRESS
                   address (volatile_data_tracker self))) self
    else self in
  match (if is_oracle then get_oracle_storage key (oracle_env self) else None) with
  | Some value => (self, Some (mkStateLoad value true))
  | None =>
      let '(i, state_load) := op_sload address key (inner self) in
      (MegaContext.with_inner i self,
       (λ l, if is_oracle then mkStateLoad (load_data l) true else l) <$> state_load)
  end.

Definition balance (address : Address) self :=
  let self := fst (MegaContext.check_and_mark_beneficiary_balance_access address self) in
  let '(i, r) := op_balance address (inner self) in (MegaContext.with_inner i self, r).
Definition load_account_delegated (address : Address) self :=
  let self := fst (MegaContext.check_and_mark_beneficiary_balance_access address self) in
  let '(i, r) := op_load_account_delegated address (inner self) in
  (MegaContext.with_inner i self, r).
Definition load_account_code (address : Address) self :=
  let self := fst (MegaContext.check_and_mark_beneficiary_balance_access address self) in
  let '(i, r) := op_load_account_code address (inner self) in (MegaContext.with_inner i self, r).
Definition load_account_code_hash (address : Address) self :=
  let self := fst (MegaContext.check_and_mark_beneficiary_balance_access address self) in
  let '(i, r) := op_load_account_code_hash address (inner self) in
  (MegaContext.with_inner i self, r).
End ops.
End Host.

(** [HostExt]: the storage gas of the context.  An error of the SALT environment
    is kept in the context, printed by [show]. *)
Module HostExt.
Section ops.
Context `{Profile} {J S O SE SD AL : Type} {salt : SaltEnv S SE} {host : OpHost J SD AL}
  (show : SE → string).
Implicit Types self : MegaContext J S O.

Definition stash (r : outcome (DynamicGasCost S * result Z SE)) self :
    outcome (MegaContext J S O * option Z) :=
  '(g, r) ← r;
  let self := MegaContext.with_gas_cost g self in
  match r with
  | Ok gas => Ret (self, Some gas)
  | Err e => Ret (MegaContext.with_inner (MegaContext.set_error (show e) (inner self)) self, None)
  end.

Definition sstore_set_storage_gas (address : Address) (key : U256) self :
    outcome (MegaContext J S O * option Z) :=
  debug_assert (MegaSpecId.is_enabled (spec self) MINI_REX);;
  stash (DynamicGasCost.sstore_set_gas address key (dynamic_storage_gas_cost self)) self.
Definition new_account_storage_gas (address : Address) self :
    outcome (MegaContext J S O * option Z) :=
  debug_assert (MegaSpecId.is_enabled (spec self) MINI_REX);;
  stash (DynamicGasCost.new_account_gas address (dynamic_storage_gas_cost self)) self.
Definition create_contract_storage_gas (address : Address) self :
    outcome (MegaContext J S O * option Z) :=
  debug_assert (MegaSpecId.is_enabled (spec self) REX);;
  stash (DynamicGasCost.create_contract_gas address (dynamic_storage_gas_cost self)) self.

Definition spec_id self : MegaSpecId := spec self.
Definition volatile_access_disabled self : bool :=
  VolatileDataAccessTracker.volatile_access_disabled (volatile_data_tracker self)
    (op_journal_depth (ctx_journal (inner self))).
Definition beneficiary_address self : Address := Context.beneficiary (ctx_block (inner self)).
End ops.
End HostExt.
