(* ===== verification/ContextTheory.v ===== *)
(** * What the context guarantees

    Transactions of one context do not leak into each other through the limits or
    the volatile access tracker, and a read of the oracle costs the same whether
    or not the environment holds a value. *)
From S2P Require Import Prelude Spec Deps Volatile LimitTypes FrameLimit Trackers AdditionalLimit LimitTheory StorageGas SystemContracts Context.
Open Scope Z_scope.

Section steps.
Context `{Profile} `{BitflagsApi} `{InstructionResultApi} `{SStoreApi} `{AbiApi}
  {Gas JT E Account J S O : Type} `{GasApi Gas} `{JournalInspectTr JT E Account}
  `{AccountApi Account}.
Implicit Types c : MegaContext J S O.

(** Everything that can change a context while a transaction runs: the hooks of the
    limits, the marks, the switches of the volatile access, the oracle environment,
    the storage gas cache and whatever [revm] does to the inner context. *)
Inductive context_step : MegaContext J S O → MegaContext J S O → Prop :=
  | StepHook c (ev : hook_event (Gas:=Gas) (J:=JT)) al :
      hook (E:=E) ev (additional_limit c) = Ret al →
      context_step c (MegaContext.with_additional_limit al c)
  | StepMark c ty : context_step c (MegaContext.mark_block_env_accessed ty c)
  | StepBeneficiary c : context_step c (MegaContext.mark_beneficiary c)
  | StepOracleAccess c a :
      context_step c (MegaContext.with_volatile
        (fst (VolatileDataAccessTracker.check_and_mark_oracle_access ORACLE_CONTRACT_ADDRESS a
                (volatile_data_tracker c))) c)
  | StepDisable c d :
      context_step c (MegaContext.with_volatile
        (VolatileDataAccessTracker.disable_access d (volatile_data_tracker c)) c)
  | StepEnable c d :
      context_step c (MegaContext.with_volatile
        (fst (VolatileDataAccessTracker.enable_access d (volatile_data_tracker c))) c)
  | StepReturn c d :
      context_step c (MegaContext.with_volatile
        (VolatileDataAccessTracker.enable_access_if_returning d (volatile_data_tracker c)) c)
  | StepInner c i : context_step c (MegaContext.with_inner i c)
  | StepGasCost c g : context_step c (MegaContext.with_gas_cost g c)
  | StepOracleEnv c o : context_step c (MegaContext.with_oracle_env o c).

(** What stays the same until the next transaction: the spec, the origin of the
    limits, the two caps of the tracker, the sandbox switch. *)
Definition kept lim spec0 block_cap oracle_cap sandbox c : Prop :=
  spec c = spec0 ∧ origin spec0 lim (additional_limit c) ∧
  block_env_access_limit (volatile_data_tracker c) = block_cap ∧
  oracle_access_limit (volatile_data_tracker c) = oracle_cap ∧ disable_sandbox c = sandbox.

Lemma context_steps_keep lim sp b o sb c c' :
  rtc context_step c c' → kept lim sp b o sb c → kept lim sp b o sb c'.
Proof.
  induction 1 as [c|c c1 c' Hstep _ IH]; [done|]. intros (Hs&Ho&Hb&Hora&Hsb). apply IH. clear IH.
  unfold kept. destruct Hstep as [c ev al Hal| | | | | | | | |]; simpl;
    unfold VolatileDataAccessTracker.mark_block_env_accessed,
      VolatileDataAccessTracker.mark_beneficiary_balance_accessed,
      VolatileDataAccessTracker.check_and_mark_oracle_access,
      VolatileDataAccessTracker.disable_access, VolatileDataAccessTracker.enable_access,
      VolatileDataAccessTracker.enable_access_if_returning,
      VolatileDataAccessTracker.apply_or_create_limit;
    repeat case_match; simpl; try done.
  split_and!; try done. eapply hooks_origin with (evs := [ev]); [|done]. simpl. by rewrite Hal.
Qed.

(** The hook of a new transaction reads a context only through what is kept and
    through the inner context it is given. *)
Lemma on_new_tx_reads lim sp b o sb c c' i :
  MegaSpecId.is_enabled sp REX1 = true → kept lim sp b o sb c → kept lim sp b o sb c' →
  let observe c := (spec c, additional_limit c, volatile_data_tracker c, disable_sandbox c) in
  observe <$> MegaContext.on_new_tx (MegaContext.with_inner i c') =
  observe <$> MegaContext.on_new_tx (MegaContext.with_inner i c).
Proof.
  intros Hrex1 (Hs&Ho&Hb&Hora&Hsb) (Hs'&Ho'&Hb'&Hora'&Hsb') observe.
  apply origin_reset in Ho, Ho'. rewrite Hrex1 in Ho, Ho'.
  assert (MegaSpecId.is_enabled sp MINI_REX = true) as Hmini by by destruct sp.
  destruct c as [i1 s1 be1 al1 se1 g1 or1 v1 sb1], c' as [i2 s2 be2 al2 se2 g2 or2 v2 sb2].
  simpl in *. subst observe s1 s2 sb1 sb2.
  assert (VolatileDataAccessTracker.reset v2 = VolatileDataAccessTracker.reset v1) as Hv.
  { unfold VolatileDataAccessTracker.reset. congruence. }
  unfold MegaContext.on_new_tx, MegaContext.check_tx_beneficiary_access,
    MegaContext.mark_beneficiary, MegaContext.reset_volatile_data_access,
    MegaContext.tx, MegaContext.block. simpl. rewrite Hv.
  repeat case_match; simpl in *; rewrite ?Ho, ?Ho' in *; try congruence;
    match goal with |- context [AdditionalLimit.before_tx_start ?t ?a] =>
      destruct (AdditionalLimit.before_tx_start t a) as [[al ok]|] end; done.
Qed.
End steps.

Lemma oracle_marked `{BitflagsApi} (laws : BitflagsLaws) a t :
  VolatileDataAccessTracker.has_accessed_oracle
    (fst (VolatileDataAccessTracker.check_and_mark_oracle_access a a t)) = true.
Proof.
  pose proof (mark_event_spec (laws:=laws) a t (EvAddress a)) as He. simpl in He. rewrite He.
  unfold VolatileDataAccessTracker.has_accessed_oracle, VolatileDataAccess.has_oracle_access.
  rewrite bf_contains_spec, decide_True by done. apply bool_decide_eq_true. simpl.
  apply Z.bits_inj'. intros n _. rewrite Z.land_spec, Z.lor_spec.
  by destruct (Z.testbit (volatile_data_accessed t) n), (Z.testbit VolatileDataAccess.ORACLE n).
Qed.

(** A read of oracle storage does not show through gas where its value came from.
    From MiniRex on, every [sload] of the oracle contract answers a cold load,
    whether the environment or the state provides the value and whatever was read
    before; a value of the environment wins over the state and leaves the inner
    context alone.  From Rex3 on the read is recorded as an oracle access, unless
    the system address sent the transaction.  A read of any other account is that of
    the inner context, coldness included. *)
Theorem oracle_sload_is_cold `{BitflagsApi} (laws : BitflagsLaws) {J S O SD AL : Type}
    {host : OpHost J SD AL} {oracle : OracleEnv O} (c c' : MegaContext J S O) address key r :
  Host.sload address key c = (c', r) →
  let is_oracle := MegaSpecId.is_enabled (spec c) MINI_REX &&
                   bool_decide (address = ORACLE_CONTRACT_ADDRESS) in
  (is_oracle = true →
    (∀ l, r = Some l → load_is_cold l = true) ∧
    (∀ v, get_oracle_storage key (oracle_env c) = Some v →
       r = Some (mkStateLoad v true) ∧ inner c' = inner c) ∧
    (get_oracle_storage key (oracle_env c) = None →
       load_data <$> r = load_data <$> snd (op_sload address key (inner c)))) ∧
  (is_oracle = false → r = snd (op_sload address key (inner c))) ∧
  VolatileDataAccessTracker.has_accessed_oracle (volatile_data_tracker c') =
    VolatileDataAccessTracker.has_accessed_oracle (volatile_data_tracker c) ||
    (is_oracle && MegaSpecId.is_enabled (spec c) REX3 &&
       negb (bool_decide (op_caller (inner c) = MEGA_SYSTEM_ADDRESS))) ∧
  additional_limit c' = additional_limit c ∧ oracle_env c' = oracle_env c.
Proof.
  intros Hs is_oracle. unfold Host.sload in Hs. fold is_oracle in Hs.
  set (mark := is_oracle && _ && _) in *.
  set (c1 := if mark then _ else c) in Hs.
  assert (oracle_env c1 = oracle_env c ∧ inner c1 = inner c ∧
          additional_limit c1 = additional_limit c ∧
          VolatileDataAccessTracker.has_accessed_oracle (volatile_data_tracker c1) =
          VolatileDataAccessTracker.has_accessed_oracle (volatile_data_tracker c) || mark)
    as (Hoe&Hin&Hal&Hacc).
  { subst c1. clear Hs. destruct mark eqn:Hmark; [|by rewrite orb_false_r].
    split_and!; try done. rewrite orb_true_r. unfold mark in Hmark.
    apply andb_true_iff in Hmark as [[Hor _]%andb_true_iff _].
    unfold is_oracle in Hor. apply andb_true_iff in Hor as [_ ->%bool_decide_eq_true].
    exact (oracle_marked laws ORACLE_CONTRACT_ADDRESS (volatile_data_tracker c)). }
  rewrite Hoe, Hin in Hs. destruct is_oracle.
  - destruct (get_oracle_storage key (oracle_env c)) as [v|] eqn:Hv.
    + simplify_eq. split_and!; try done. intros _. naive_solver.
    + destruct (op_sload address key (inner c)) as [i l]. simplify_eq/=.
      split_and!; try done. intros _. destruct l; naive_solver.
  - destruct (op_sload address key (inner c)) as [i l]. simplify_eq/=.
    split_and!; try done. intros _. by destruct l.
Qed.

(** C19: Transactions of one context are isolated.  Start from any context whose
    limits are newly made, run anything in it - hooks, volatile accesses, disabled
    and enabled access, changes of the journal, of the storage gas cache, of the
    oracle environment - and then start a transaction with [on_new_tx]: the limits,
    the access tracker with its gas cap, the spec and the sandbox switch are those
    that the same transaction would find in the untouched context, and it panics in
    one exactly when it panics in the other.  This holds from Rex1 on; earlier specs
    carry a compute gas detention over. *)
Theorem transactions_are_isolated `{Profile} `{BitflagsApi} `{InstructionResultApi}
    `{SStoreApi} `{AbiApi} {Gas JT E Account J S O : Type} `{GasApi Gas}
    `{JournalInspectTr JT E Account} `{AccountApi Account}
    (c c' : MegaContext J S O) lim i :
  MegaSpecId.is_enabled (spec c) REX1 = true →
  additional_limit c = AdditionalLimit.new (spec c) lim →
  rtc (context_step (Gas:=Gas) (JT:=JT) (E:=E)) c c' →
  let observe c := (spec c, additional_limit c, volatile_data_tracker c, disable_sandbox c) in
  observe <$> MegaContext.on_new_tx (MegaContext.with_inner i c') =
  observe <$> MegaContext.on_new_tx (MegaContext.with_inner i c).
Proof.
  intros Hrex1 Hal Hsteps.
  assert (kept lim (spec c) (block_env_access_limit (volatile_data_tracker c))
            (oracle_access_limit (volatile_data_tracker c)) (disable_sandbox c) c) as Hk.
  { split_and!; try done. rewrite Hal. apply origin_new. }
  eapply on_new_tx_reads; [exact Hrex1|exact Hk|by eapply context_steps_keep].
Qed.

Section example.
#[local] Existing Instances checked_build reference_instruction_result reference_sstore
  reference_gas reference_abi reference_journal reference_account reference_bitflags.

#[local] Instance example_host : OpHost unit unit unit := {|
  op_basefee _ := 7; op_gas_limit _ := 30000000; op_difficulty _ := 0;
  op_prevrandao _ := Some 5; op_block_number _ := 10; op_timestamp _ := 1000;
  op_beneficiary i := beneficiary (ctx_block i); op_block_hash n i := (i, Some n);
  op_blob_gasprice _ := 1; op_blob_hash _ _ := None;
  op_caller i := tx_caller (ctx_tx i);
  op_selfdestruct _ _ i := (i, None);
  op_sload _ key i := (i, Some (mkStateLoad key false));
  op_balance _ i := (i, Some (mkStateLoad 9 false));
  op_load_account_delegated _ i := (i, None);
  op_load_account_code _ i := (i, None);
  op_load_account_code_hash _ i := (i, None);
  op_journal_depth _ := 1 |}.

Definition example_inner (t : MegaTransaction) : OpContext unit :=
  mkOpContext t (mkBlockEnv 10 77 1000 30000000)
    (mkCfgEnv ISTHMUS 1 true None None false None None None 0 false false false false false)
    tt None.
Definition example_context (s : MegaSpecId) : MegaContext unit unit unit :=
  mkMegaContext (example_inner example_tx) s false (AdditionalLimit.new s example_limits) tt
    (DynamicGasCost.new s tt 9) tt (VolatileDataAccessTracker.new 2000 1000) false.

Lemma oracle_sload_is_cold_witness :
  let c := example_context REX3 in
  let p := Host.sload (SD:=unit) (AL:=unit) ORACLE_CONTRACT_ADDRESS 3 c in
  snd p = Some (mkStateLoad 3 true) ∧
  VolatileDataAccessTracker.has_accessed_oracle (volatile_data_tracker (fst p)) = true ∧
  (∀ l, snd p = Some l → load_is_cold l = true).
Proof.
  intros c p. split; [vm_compute; reflexivity|]. split; [vm_compute; reflexivity|].
  refine (proj1 (proj1 (oracle_sload_is_cold reference_bitflags_laws (SD:=unit) (AL:=unit)
    c (fst p) ORACLE_CONTRACT_ADDRESS 3 (snd p) _) _)); [done|vm_compute; reflexivity].
Defined.

Lemma transactions_are_isolated_witness :
  let c := example_context REX2 in
  let c1 := MegaContext.mark_block_env_accessed Timestamp c in
  ∃ al, hook (Gas:=RefGas) (J:=unit) (E:=unit) (HTxStart example_tx) (additional_limit c1) = Ret al ∧
    let c2 := MegaContext.with_additional_limit al c1 in
    let observe c := (spec c, additional_limit c, volatile_data_tracker c, disable_sandbox c) in
    observe c2 ≠ observe c ∧
    observe <$> MegaContext.on_new_tx (MegaContext.with_inner (example_inner example_tx) c2) =
    observe <$> MegaContext.on_new_tx (MegaContext.with_inner (example_inner example_tx) c).
Proof.
  intros c c1. eexists. split; [vm_compute; reflexivity|]. intros c2 observe.
  split; [discriminate|].
  refine (transactions_are_isolated (Gas:=RefGas) (JT:=unit) (E:=unit) c c2 example_limits
    (example_inner example_tx) _ _ _); [reflexivity..|].
  eapply rtc_l; [apply StepMark|]. apply rtc_once.
  apply (StepHook _ (HTxStart example_tx)). vm_compute. reflexivity.
Defined.
End example.
