(* ===== verification/Sandbox.v ===== *)
(** * The keyless deploy sandbox

    Models [sandbox/error.rs], [sandbox/tx.rs], [sandbox/state.rs] and
    [sandbox/execution.rs]: the errors of a keyless deploy and their ABI encoding,
    the database the sandbox reads through, the checks before a sandbox is started
    and what becomes of its result.  Running a transaction in the sandbox is an
    interface: it is the program's own EVM on top of [revm]'s interpreter. *)
From S2P Require Import Prelude Spec Deps Volatile LimitTypes FrameLimit Trackers AdditionalLimit.
From S2P Require Import EvmState Inspect StorageGas SystemContracts Context.
Open Scope Z_scope.
#[local] Set Warnings "-notation-for-abbreviation".

(** ** [sandbox/error.rs] *)
Inductive KeylessDeployError :=
  | MalformedEncoding
  | NotContractCreation
  | NotPreEIP155
  | NonZeroTxNonce (tx_nonce : Z)
  | NoEtherTransfer
  | InvalidSignature
  | InsufficientBalance
  | ContractAlreadyExists
  | SignerNonceTooHigh (signer_nonce : Z)
  | ExecutionReverted (gas_used : Z) (output : Bytes)
  | ExecutionHalted (gas_used : Z) (reason : MegaHaltReason)
  | EmptyCodeDeployed (gas_used : Z)
  | NoContractCreated
  | AddressMismatch
  | GasLimitTooLow (tx_gas_limit provided_gas_limit : Z)
  | InsufficientComputeGas (limit used : Z)
  | InternalError (message : string)
  | NotIntercepted.

(** The bindings that [sol!] generates from [IKeylessDeploy.sol]: the errors, a
    selector for each, and the ABI coders. *)
Module IKeylessDeploy.
Inductive Error : Set :=
  | MalformedEncoding
  | NotContractCreation
  | NotPreEIP155
  | NonZeroTxNonce (txNonce : Z)
  | NoEtherTransfer
  | InvalidSignature
  | InsufficientBalance
  | ContractAlreadyExists
  | SignerNonceTooHigh (signerNonce : Z)
  | ExecutionReverted (gasUsed : Z) (output : Bytes)
  | ExecutionHalted (gasUsed : Z)
  | EmptyCodeDeployed (gasUsed : Z)
  | NoContractCreated
  | AddressMismatch
  | GasLimitTooLow (txGasLimit providedGasLimit : Z)
  | InsufficientComputeGas (limit used : Z)
  | InternalError (message : string)
  | NotIntercepted.

Inductive Selector : Set :=
  | SelMalformedEncoding | SelNotContractCreation | SelNotPreEIP155 | SelNonZeroTxNonce
  | SelNoEtherTransfer | SelInvalidSignature | SelInsufficientBalance
  | SelContractAlreadyExists | SelSignerNonceTooHigh | SelExecutionReverted
  | SelExecutionHalted | SelEmptyCodeDeployed | SelNoContractCreated | SelAddressMismatch
  | SelGasLimitTooLow | SelInsufficientComputeGas | SelInternalError | SelNotIntercepted.

#[global] Instance Selector_eq_dec : EqDecision Selector.
Proof. solve_decision. Defined.

Definition selector (e : Error) : Selector :=
  match e with
  | MalformedEncoding => SelMalformedEncoding
  | NotContractCreation => SelNotContractCreation
  | NotPreEIP155 => SelNotPreEIP155
  | NonZeroTxNonce _ => SelNonZeroTxNonce
  | NoEtherTransfer => SelNoEtherTransfer
  | InvalidSignature => SelInvalidSignature
  | InsufficientBalance => SelInsufficientBalance
  | ContractAlreadyExists => SelContractAlreadyExists
  | SignerNonceTooHigh _ => SelSignerNonceTooHigh
  | ExecutionReverted _ _ => SelExecutionReverted
  | ExecutionHalted _ => SelExecutionHalted
  | EmptyCodeDeployed _ => SelEmptyCodeDeployed
  | NoContractCreated => SelNoContractCreated
  | AddressMismatch => SelAddressMismatch
  | GasLimitTooLow _ _ => SelGasLimitTooLow
  | InsufficientComputeGas _ _ => SelInsufficientComputeGas
  | InternalError _ => SelInternalError
  | NotIntercepted => SelNotIntercepted
  end.
End IKeylessDeploy.

Class KeylessAbi := {
  abi_encode : IKeylessDeploy.Error → Bytes;
  abi_decode : IKeylessDeploy.Selector → Bytes → option IKeylessDeploy.Error;
  abi_encode_returns : Z → Address → Bytes → Bytes;
}.

(** A selector decodes exactly the encodings of its own error. *)
Class KeylessAbiLaws `{KeylessAbi} : Prop := {
  abi_decode_encode s e :
    abi_decode s (abi_encode e) =
      if decide (s = IKeylessDeploy.selector e) then Some e else None;
}.

Definition encode_error_result `{KeylessAbi} (error : KeylessDeployError) : Bytes :=
  match error with
  | MalformedEncoding => abi_encode IKeylessDeploy.MalformedEncoding
  | NotContractCreation => abi_encode IKeylessDeploy.NotContractCreation
  | NotPreEIP155 => abi_encode IKeylessDeploy.NotPreEIP155
  | NonZeroTxNonce tx_nonce => abi_encode (IKeylessDeploy.NonZeroTxNonce tx_nonce)
  | NoEtherTransfer => abi_encode IKeylessDeploy.NoEtherTransfer
  | InvalidSignature => abi_encode IKeylessDeploy.InvalidSignature
  | InsufficientBalance => abi_encode IKeylessDeploy.InsufficientBalance
  | ContractAlreadyExists => abi_encode IKeylessDeploy.ContractAlreadyExists
  | SignerNonceTooHigh signer_nonce =>
      abi_encode (IKeylessDeploy.SignerNonceTooHigh signer_nonce)
  | ExecutionReverted gas_used output =>
      abi_encode (IKeylessDeploy.ExecutionReverted gas_used output)
  | ExecutionHalted gas_used _ => abi_encode (IKeylessDeploy.ExecutionHalted gas_used)
  | EmptyCodeDeployed gas_used => abi_encode (IKeylessDeploy.EmptyCodeDeployed gas_used)
  | NoContractCreated => abi_encode IKeylessDeploy.NoContractCreated
  | AddressMismatch => abi_encode IKeylessDeploy.AddressMismatch
  | GasLimitTooLow tx_gas_limit provided_gas_limit =>
      abi_encode (IKeylessDeploy.GasLimitTooLow tx_gas_limit provided_gas_limit)
  | InsufficientComputeGas limit used =>
      abi_encode (IKeylessDeploy.InsufficientComputeGas limit used)
  | InternalError message => abi_encode (IKeylessDeploy.InternalError message)
  | NotIntercepted => abi_encode IKeylessDeploy.NotIntercepted
  end.

(** The placeholder reason of a decoded [ExecutionHalted]. *)
Definition placeholder_reason : MegaHaltReason := Base (OpBase HaltOutOfGasBasic).

(** One [if ... return Some(..)] of [decode_error_result]: the error of a decoded
    value, for the variants that are looked at. *)
Definition of_decoded (e : IKeylessDeploy.Error) : KeylessDeployError :=
  match e with
  | IKeylessDeploy.MalformedEncoding => MalformedEncoding
  | IKeylessDeploy.NotContractCreation => NotContractCreation
  | IKeylessDeploy.NotPreEIP155 => NotPreEIP155
  | IKeylessDeploy.NonZeroTxNonce n => NonZeroTxNonce n
  | IKeylessDeploy.NoEtherTransfer => NoEtherTransfer
  | IKeylessDeploy.InvalidSignature => InvalidSignature
  | IKeylessDeploy.InsufficientBalance => InsufficientBalance
  | IKeylessDeploy.ContractAlreadyExists => ContractAlreadyExists
  | IKeylessDeploy.SignerNonceTooHigh n => SignerNonceTooHigh n
  | IKeylessDeploy.ExecutionReverted g o => ExecutionReverted g o
  | IKeylessDeploy.ExecutionHalted g => ExecutionHalted g placeholder_reason
  | IKeylessDeploy.EmptyCodeDeployed g => EmptyCodeDeployed g
  | IKeylessDeploy.NoContractCreated => NoContractCreated
  | IKeylessDeploy.AddressMismatch => AddressMismatch
  | IKeylessDeploy.GasLimitTooLow a b => GasLimitTooLow a b
  | IKeylessDeploy.InsufficientComputeGas a b => InsufficientComputeGas a b
  | IKeylessDeploy.InternalError m => InternalError m
  | IKeylessDeploy.NotIntercepted => NotIntercepted
  end.

Fixpoint decode_first `{KeylessAbi} (selectors : list IKeylessDeploy.Selector) (output : Bytes) :
    option KeylessDeployError :=
  match selectors with
  | [] => None
  | s :: selectors =>
      match abi_decode s output with
      | Some e => Some (of_decoded e)
      | None => decode_first selectors output
      end
  end.

(** The selectors that are tried, in the order of the source. *)
Definition decode_error_result `{KeylessAbi} (output : Bytes) : option KeylessDeployError :=
  decode_first
    [IKeylessDeploy.SelNoEtherTransfer; IKeylessDeploy.SelMalformedEncoding;
     IKeylessDeploy.SelNotContractCreation; IKeylessDeploy.SelNotPreEIP155;
     IKeylessDeploy.SelNonZeroTxNonce; IKeylessDeploy.SelInvalidSignature;
     IKeylessDeploy.SelInsufficientBalance; IKeylessDeploy.SelContractAlreadyExists;
     IKeylessDeploy.SelSignerNonceTooHigh; IKeylessDeploy.SelExecutionReverted;
     IKeylessDeploy.SelExecutionHalted; IKeylessDeploy.SelEmptyCodeDeployed;
     IKeylessDeploy.SelNoContractCreated; IKeylessDeploy.SelAddressMismatch;
     IKeylessDeploy.SelGasLimitTooLow; IKeylessDeploy.SelInternalError;
     IKeylessDeploy.SelNotIntercepted] output.

(** ** [sandbox/tx.rs] *)
(** [Signed<TxLegacy>]: [alloy]'s decoded transaction with its signature. *)
Record SignedTxLegacy (Sig : Type) := mkSignedTxLegacy {
  ktx_chain_id : option Z;
  ktx_nonce : Z;
  ktx_gas_price : Z;
  ktx_gas_limit : Z;
  ktx_to : TxKind;
  ktx_value : U256;
  ktx_input : Bytes;
  ktx_signature : Sig;
}.
Arguments mkSignedTxLegacy {Sig}.
Arguments ktx_chain_id {Sig}.
Arguments ktx_nonce {Sig}.
Arguments ktx_gas_price {Sig}.
Arguments ktx_gas_limit {Sig}.
Arguments ktx_to {Sig}.
Arguments ktx_value {Sig}.
Arguments ktx_input {Sig}.
Arguments ktx_signature {Sig}.

(** What the source uses of [alloy]: decoding, signature recovery, the fee of a
    legacy transaction without a base fee, and the address of a contract creation. *)
Class KeylessTxApi (Sig : Type) := {
  rlp_decode_signed : Bytes → option (SignedTxLegacy Sig);
  signed_recover_signer : SignedTxLegacy Sig → option Address;
  effective_gas_price : option Z → SignedTxLegacy Sig → Z;
  address_create : Address → Z → Address;
}.

Section tx.
Context {Sig : Type} `{KeylessTxApi Sig}.

Definition decode_keyless_tx (rlp_bytes : Bytes) :
    result (SignedTxLegacy Sig) KeylessDeployError :=
  match rlp_decode_signed rlp_bytes with
  | None => Err MalformedEncoding
  | Some signed =>
      match ktx_to signed with
      | TxCall _ => Err NotContractCreation
      | TxCreate =>
          match ktx_chain_id signed with
          | Some _ => Err NotPreEIP155
          | None => Ok signed
          end
      end
  end.

Definition recover_signer (signed_tx : SignedTxLegacy Sig) : result Address KeylessDeployError :=
  match signed_recover_signer signed_tx with
  | Some address => Ok address
  | None => Err InvalidSignature
  end.

Definition calculate_keyless_deploy_address (signer : Address) : Address :=
  address_create signer 0.
End tx.

(** ** [sandbox/state.rs] *)
(** [e.to_string()], and what [revm] says of bytecodes. *)
Class Display (E : Type) := to_string : E → string.

Class BytecodeApi (Bytecode : Type) := {
  bytecode_is_empty : Bytecode → bool;
  bytecode_default : Bytecode;
}.

(** The journal state is borrowed, the database is borrowed mutably: it comes back
    when the sandbox is done. *)
Record SandboxDb (DB Bytecode : Type) := mkSandboxDb {
  journal_state : gmap Address (Account Bytecode);
  sandbox_inner_db : DB;
  code_index : gmap Z Address;
  nonce_override_address : option Address;
}.
Arguments mkSandboxDb {DB Bytecode}.
Arguments journal_state {DB Bytecode}.
Arguments sandbox_inner_db {DB Bytecode}.
Arguments code_index {DB Bytecode}.
Arguments nonce_override_address {DB Bytecode}.

Module SandboxDb.
Section ops.
Context {DB E Bytecode : Type} {revm : RevmState Bytecode} {bytecode : BytecodeApi Bytecode}
  {database : Database DB E Bytecode} {display : Display E}.
Implicit Types self : SandboxDb DB Bytecode.

(** [for (addr, account) in state]: one entry of the code index. *)
Definition index_code (entry : Address * Account Bytecode) (index : gmap Z Address) :
    gmap Z Address :=
  let '(addr, account) := entry in
  match code (info account) with
  | Some c => if bytecode_is_empty c then index
              else <[code_hash (info account) := addr]> index
  | None => index
  end.

(** A hash map is iterated in an unspecified order; [entries] is that order. *)
Definition new_in_order (entries : list (Address * Account Bytecode))
    (state : gmap Address (Account Bytecode)) (db : DB) : SandboxDb DB Bytecode :=
  mkSandboxDb state db (foldl (λ index e, index_code e index) ∅ entries) None.

Definition new (state : gmap Address (Account Bytecode)) (db : DB) : SandboxDb DB Bytecode :=
  new_in_order (map_to_list state) state db.

Definition with_nonce_override (address : Address) self : SandboxDb DB Bytecode :=
  mkSandboxDb (journal_state self) (sandbox_inner_db self) (code_index self) (Some address).

Definition with_inner_db (d : DB) self : SandboxDb DB Bytecode :=
  mkSandboxDb (journal_state self) d (code_index self) (nonce_override_address self).

Definition override_nonce (address : Address) self (i : AccountInfo Bytecode) :
    AccountInfo Bytecode :=
  if bool_decide (nonce_override_address self = Some address)
  then mkAccountInfo (balance i) 0 (code_hash i) (code i) else i.

(** The errors of the database below come out as strings. *)
Definition erased {A} (r : result A E) : result A string :=
  match r with Ok a => Ok a | Err e => Err (to_string e) end.

Definition sandbox_basic (address : Address) self :
    SandboxDb DB Bytecode * result (option (AccountInfo Bytecode)) string :=
  match journal_state self !! address with
  | Some account => (self, Ok (Some (override_nonce address self (info account))))
  | None =>
      let '(d, r) := basic address (sandbox_inner_db self) in
      let self := with_inner_db d self in
      match erased r with
      | Err e => (self, Err e)
      | Ok None => (self, Ok None)
      | Ok (Some i) => (self, Ok (Some (override_nonce address self i)))
      end
  end.

Definition sandbox_code_by_hash (hash : Z) self : SandboxDb DB Bytecode * result Bytecode string :=
  let query :=
    let '(d, r) := code_by_hash hash (sandbox_inner_db self) in (with_inner_db d self, erased r) in
  if bool_decide (hash = KECCAK_EMPTY) then (self, Ok bytecode_default)
  else match code_index self !! hash with
       | Some addr =>
           match journal_state self !! addr with
           | Some account => (self, Ok (default bytecode_default (code (info account))))
           | None => query
           end
       | None => query
       end.

Definition sandbox_storage (address : Address) (index : U256) self :
    SandboxDb DB Bytecode * result U256 string :=
  let query :=
    let '(d, r) := db_storage address index (sandbox_inner_db self) in
    (with_inner_db d self, erased r) in
  match journal_state self !! address with
  | Some account =>
      match storage account !! index with
      | Some slot => (self, Ok (slot_present_value slot))
      | None => query
      end
  | None => query
  end.

#[global] Instance sandbox_database : Database (SandboxDb DB Bytecode) string Bytecode := {|
  basic := sandbox_basic;
  code_by_hash := sandbox_code_by_hash;
  db_storage := sandbox_storage |}.
End ops.
End SandboxDb.

(** ** [sandbox/execution.rs] *)
Record SandboxResult (Log : Type) := mkSandboxResult {
  sr_gas_used : Z;
  sr_deploy_address : Address;
  sr_logs : list Log;
}.
Arguments mkSandboxResult {Log}.
Arguments sr_gas_used {Log}.
Arguments sr_deploy_address {Log}.
Arguments sr_logs {Log}.

Inductive SandboxOutcome (Bytecode Log : Type) :=
  | SandboxSuccess (state : gmap Address (Account Bytecode)) (r : SandboxResult Log)
  | SandboxFailure (state : gmap Address (Account Bytecode)) (error : KeylessDeployError).
Arguments SandboxSuccess {Bytecode Log}.
Arguments SandboxFailure {Bytecode Log}.


(** What the sandbox needs of [op-revm] and of the program's EVM: the inner context
    of a database, its chain info taken from the parent, a log in the parent, and
    [MegaEvm::new(ctx).transact_raw(tx)], with the parent's external environments
    or with the empty ones.  A run returns the context it leaves behind. *)
Class SandboxEvm (J DB' S O Bytecode Log : Type) := {
  op_context : DB' → OpSpecId → OpContext (Journal DB' Bytecode);
  op_with_chain_of : OpContext J → OpContext (Journal DB' Bytecode) →
                     OpContext (Journal DB' Bytecode);
  op_log : Log → OpContext J → OpContext J;
  transact_raw : MegaTransaction → MegaContext (Journal DB' Bytecode) S O →
    outcome (MegaContext (Journal DB' Bytecode) S O *
             result (ExecutionResult MegaHaltReason Log * gmap Address (Account Bytecode)) string);
  transact_raw_empty : MegaTransaction → MegaContext (Journal DB' Bytecode) unit unit →
    outcome (MegaContext (Journal DB' Bytecode) unit unit *
             result (ExecutionResult MegaHaltReason Log * gmap Address (Account Bytecode)) string);
}.

Section execution.
Context `{Profile} `{BitflagsApi} `{InstructionResultApi} `{SStoreApi} `{AbiApi} `{KeylessAbi}
  {Gas : Type} `{GasApi Gas} {Sig : Type} `{KeylessTxApi Sig}
  {DB E Bytecode S O Log : Type} {revm : RevmState Bytecode} {bytecode : BytecodeApi Bytecode}
  {database : Database DB E Bytecode} {display : Display E}
  {sandbox : SandboxEvm (Journal DB Bytecode) (SandboxDb DB Bytecode) S O Bytecode Log}.
Notation Ctx := (MegaContext (Journal DB Bytecode) S O).
Implicit Types ctx : Ctx.

Definition journal_mut (f : Journal DB Bytecode → Journal DB Bytecode) ctx : Ctx :=
  MegaContext.with_inner
    (MegaContext.set_journal (f (MegaContext.journal ctx)) (inner ctx)) ctx.
Definition set_database (d : DB) ctx : Ctx := journal_mut (with_database d) ctx.

Definition process_sandbox_transact_result
    (r : result (ExecutionResult MegaHaltReason Log * gmap Address (Account Bytecode)) string) :
    result (SandboxOutcome Bytecode Log) KeylessDeployError :=
  match r with
  | Ok (ExecSuccess gas_used _ logs output, sandbox_state) =>
      match output with
      | OutputCreate bytecode (Some created_addr) =>
          if bool_decide (bytecode = []) then
            Ok (SandboxFailure sandbox_state (EmptyCodeDeployed gas_used))
          else Ok (SandboxSuccess sandbox_state (mkSandboxResult gas_used created_addr logs))
      | _ => Err NoContractCreated
      end
  | Ok (ExecRevert gas_used output, sandbox_state) =>
      Ok (SandboxFailure sandbox_state (ExecutionReverted gas_used output))
  | Ok (ExecHalt reason gas_used, sandbox_state) =>
      Ok (SandboxFailure sandbox_state (ExecutionHalted gas_used reason))
  | Err e => Err (InternalError e)
  end.

Definition apply_sandbox_state (sandbox_state : gmap Address (Account Bytecode))
    (deploy_signer : Address) ctx : outcome (Ctx * result unit KeylessDeployError) :=
  merged ← merge_evm_state_optional_status (j_state (MegaContext.journal ctx)) sandbox_state false;
  Ret (journal_mut (with_state merged) ctx, Ok tt).

Definition get_account_nonce (address : Address) ctx : Ctx * result Z KeylessDeployError :=
  match j_state (MegaContext.journal ctx) !! address with
  | Some acc => (ctx, Ok (nonce (info acc)))
  | None =>
      let '(d, r) := basic address (j_database (MegaContext.journal ctx)) in
      (set_database d ctx,
       match r with
       | Err e => Err (InternalError (to_string e))
       | Ok o => Ok (default 0 (nonce <$> o))
       end)
  end.

(** [checked_add] of two [U256]. *)
Definition checked_add_u256 (a b : U256) : option U256 :=
  if decide (a + b < two_256) then Some (a + b) else None.

Definition execute_keyless_deploy_sandbox (sandbox_tx : MegaTransaction) ctx :
    outcome (Ctx * result (SandboxOutcome Bytecode Log) KeylessDeployError) :=
  let deploy_signer := tx_caller sandbox_tx in
  let mega_spec := spec ctx in
  let block := MegaContext.block ctx in
  let journal := MegaContext.journal ctx in
  let sandbox_db := SandboxDb.with_nonce_override deploy_signer
                      (SandboxDb.new (j_state journal) (j_database journal)) in
  let '(sandbox_db, r) := basic deploy_signer sandbox_db in
  let ctx := set_database (sandbox_inner_db sandbox_db) ctx in
  match r with
  | Err e => Ret (ctx, Err (InternalError e))
  | Ok o =>
      let signer_account := default AccountInfo_default o in
      let gas_cost := (tx_gas_limit sandbox_tx * tx_gas_price sandbox_tx) mod two_256 in
      match checked_add_u256 gas_cost (tx_value sandbox_tx) with
      | None => Ret (ctx, Err InsufficientBalance)
      | Some total_cost =>
          if bool_decide (balance signer_account < total_cost) then
            Ret (ctx, Err InsufficientBalance)
          else
            let i := op_context sandbox_db (into_op_spec mega_spec) in
            if MegaSpecId.is_enabled mega_spec REX4 then
              sandbox_ctx ← MegaContext.new_with_shared_ext_envs i mega_spec
                              (ctx_salt_env ctx) (oracle_env ctx);
              sandbox_ctx ← MegaContext.with_block block sandbox_ctx;
              let sandbox_ctx := MegaContext.with_inner
                                   (op_with_chain_of (inner ctx) (inner sandbox_ctx)) sandbox_ctx in
              let sandbox_ctx := MegaContext.with_sandbox_disabled true sandbox_ctx in
              '(sandbox_ctx, r) ← transact_raw sandbox_tx sandbox_ctx;
              let ctx := set_database (sandbox_inner_db (j_database (MegaContext.journal sandbox_ctx))) ctx in
              let ctx := MegaContext.with_oracle_env (oracle_env sandbox_ctx) ctx in
              Ret (ctx, process_sandbox_transact_result r)
            else
              sandbox_ctx ← MegaContext.new_with_shared_ext_envs i mega_spec tt tt;
              sandbox_ctx ← MegaContext.with_block block sandbox_ctx;
              let sandbox_ctx := MegaContext.with_inner
                                   (op_with_chain_of (inner ctx) (inner sandbox_ctx)) sandbox_ctx in
              let sandbox_ctx := MegaContext.with_sandbox_disabled true sandbox_ctx in
              '(sandbox_ctx, r) ← transact_raw_empty sandbox_tx sandbox_ctx;
              let ctx := set_database (sandbox_inner_db (j_database (MegaContext.journal sandbox_ctx))) ctx in
              Ret (ctx, process_sandbox_transact_result r)
      end
  end.

(** The results that the macros of [execute_keyless_deploy_call] build. *)
Definition make_result (call_inputs : CallInputs) (r : InstructionResult) (output : Bytes)
    (gas : Gas) : FrameResult Gas :=
  FrameResultCall (mkInterpreterResult r output gas) (cin_return_memory_offset call_inputs).
Definition make_error (call_inputs : CallInputs) (gas : Gas) (error : KeylessDeployError) :
    FrameResult Gas :=
  make_result call_inputs Revert (encode_error_result error) gas.
Definition make_halt (call_inputs : CallInputs) (gas : Gas) : FrameResult Gas :=
  make_result call_inputs OutOfGas Bytes_new (gas_new_spent (gas_limit gas)).
Definition make_success (call_inputs : CallInputs) (gas : Gas) (gas_used : Z)
    (deployed_address : Address) : FrameResult Gas :=
  make_result call_inputs Return (abi_encode_returns gas_used deployed_address Bytes_new) gas.
Definition make_execution_failure (call_inputs : CallInputs) (gas : Gas) (gas_used : Z)
    (error : KeylessDeployError) : FrameResult Gas :=
  make_result call_inputs Return
    (abi_encode_returns gas_used 0 (encode_error_result error)) gas.

(** Step 1: the overhead, in gas and (from [REX3]) in compute gas.  [Ok] is the gas
    that is left. *)
Definition charge_overhead (call_inputs : CallInputs) ctx :
    outcome (Ctx * result Gas (FrameResult Gas)) :=
  let cost := constants.rex2.KEYLESS_DEPLOY_OVERHEAD_GAS in
  let '(gas, has_sufficient_gas) := gas_record_cost (gas_new (cin_gas_limit call_inputs)) cost in
  if negb has_sufficient_gas then Ret (ctx, Err (make_halt call_inputs gas))
  else if MegaSpecId.is_enabled (spec ctx) REX3 then
    '(limit, within) ← AdditionalLimit.record_compute_gas cost (additional_limit ctx);
    let ctx := MegaContext.with_additional_limit limit ctx in
    if within : bool then Ret (ctx, Ok gas)
    else
      c ← ComputeGasTracker.check_limit (compute_gas limit);
      match c with
      | WithinLimit => Panic
      | ExceedsLimit _ limit used frame_local =>
          if frame_local : bool then
            Ret (ctx, Err (make_error call_inputs gas (InsufficientComputeGas limit used)))
          else
            Ret (ctx, Err (mark_frame_result_as_exceeding_limit
                             AdditionalLimit.EXCEEDING_LIMIT_INSTRUCTION_RESULT Bytes_new
                             (make_halt call_inputs gas)))
      end
  else Ret (ctx, Ok gas).

Definition u256_to_u64 (v : U256) : Z := if decide (v ≤ u64_max) then v else u64_max.

(** Steps 2 to 7: the checks, and the sandbox transaction with its signer and the
    address it will deploy at. *)
Definition prepare_sandbox_tx (call_inputs : CallInputs) (tx_bytes : Bytes)
    (gas_limit_override : U256) ctx :
    Ctx * result (MegaTransaction * Address * Address) KeylessDeployError :=
  if negb (bool_decide (call_value_get (cin_value call_inputs) = 0)) then (ctx, Err NoEtherTransfer)
  else match decode_keyless_tx tx_bytes with
  | Err e => (ctx, Err e)
  | Ok keyless_tx =>
      if negb (bool_decide (ktx_nonce keyless_tx = 0)) then
        (ctx, Err (NonZeroTxNonce (ktx_nonce keyless_tx)))
      else
      let tx_gas_limit := ktx_gas_limit keyless_tx in
      let gas_limit_override_u64 := u256_to_u64 gas_limit_override in
      if bool_decide (gas_limit_override_u64 < tx_gas_limit) then
        (ctx, Err (GasLimitTooLow tx_gas_limit gas_limit_override_u64))
      else match recover_signer keyless_tx with
      | Err e => (ctx, Err e)
      | Ok deploy_signer =>
          let deploy_address := calculate_keyless_deploy_address deploy_signer in
          let '(ctx, r) := get_account_nonce deploy_signer ctx in
          match r with
          | Err e => (ctx, Err e)
          | Ok signer_nonce =>
              if bool_decide (1 < signer_nonce) then (ctx, Err (SignerNonceTooHigh signer_nonce))
              else
              let sandbox_tx :=
                mkTransaction (ktx_input keyless_tx) (Some []) [] 0 deploy_signer TxCreate 0
                  (ktx_value keyless_tx) gas_limit_override_u64
                  (effective_gas_price None keyless_tx) 0 0 (Some tx_bytes) in
              let '(d, deploy_account) :=
                basic deploy_address (j_database (MegaContext.journal ctx)) in
              let ctx := set_database d ctx in
              match deploy_account with
              | Err e => (ctx, Err (InternalError (to_string e)))
              | Ok (Some i) =>
                  if negb (bool_decide (code_hash i = KECCAK_EMPTY)) then
                    (ctx, Err ContractAlreadyExists)
                  else (ctx, Ok (sandbox_tx, deploy_signer, deploy_address))
              | Ok None => (ctx, Ok (sandbox_tx, deploy_signer, deploy_address))
              end
          end
      end
  end.

(** The gas of an execution error. *)
Definition execution_gas_used (error : KeylessDeployError) : Z :=
  match error with
  | ExecutionReverted gas_used _ | ExecutionHalted gas_used _ | EmptyCodeDeployed gas_used =>
      gas_used
  | _ => 0
  end.

(** [for log in result.logs { ctx.log(log) }]. *)
Definition emit_logs (logs : list Log) ctx : Ctx :=
  foldl (λ ctx log, MegaContext.with_inner (op_log log (inner ctx)) ctx) ctx logs.

(** Step 8. *)
Definition run_sandbox (call_inputs : CallInputs) (gas : Gas)
    (prepared : MegaTransaction * Address * Address) ctx : outcome (Ctx * FrameResult Gas) :=
  let '(sandbox_tx, deploy_signer, deploy_address) := prepared in
  '(ctx, r) ← execute_keyless_deploy_sandbox sandbox_tx ctx;
  match r with
  | Ok (SandboxSuccess state r) =>
      '(ctx, applied) ← apply_sandbox_state state deploy_signer ctx;
      match applied with
      | Err e => Ret (ctx, make_error call_inputs gas e)
      | Ok tt =>
          if negb (bool_decide (sr_deploy_address r = deploy_address)) then
            Ret (ctx, make_error call_inputs gas AddressMismatch)
          else Ret (emit_logs (sr_logs r) ctx,
                    make_success call_inputs gas (sr_gas_used r) (sr_deploy_address r))
      end
  | Ok (SandboxFailure state error) =>
      '(ctx, applied) ← apply_sandbox_state state deploy_signer ctx;
      match applied with
      | Err e => Ret (ctx, make_error call_inputs gas e)
      | Ok tt =>
          Ret (ctx, make_execution_failure call_inputs gas (execution_gas_used error) error)
      end
  | Err e => Ret (ctx, make_error call_inputs gas e)
  end.

Definition execute_keyless_deploy_call (call_inputs : CallInputs) (tx_bytes : Bytes)
    (gas_limit_override : U256) ctx : outcome (Ctx * FrameResult Gas) :=
  '(ctx, charged) ← charge_overhead call_inputs ctx;
  match charged with
  | Err r => Ret (ctx, r)
  | Ok gas =>
      let '(ctx, prepared) := prepare_sandbox_tx call_inputs tx_bytes gas_limit_override ctx in
      match prepared with
      | Err e => Ret (ctx, make_error call_inputs gas e)
      | Ok prepared => run_sandbox call_inputs gas prepared ctx
      end
  end.
End execution.
