(* ===== verification/SandboxTheory.v ===== *)
(** * What the keyless deploy sandbox guarantees

    The round trip of its errors, the view its database gives of the parent, which
    transactions it runs, that it either commits the sandbox or leaves the state
    alone, and where it panics. *)
From S2P Require Import Prelude Spec Deps Volatile LimitTypes FrameLimit Trackers AdditionalLimit.
From S2P Require Import LimitTheory EvmState Inspect StorageGas SystemContracts Context Sandbox.
Open Scope Z_scope.

(** ** Errors *)

(** A keyless deploy error survives its ABI encoding.  Every error but two decodes
    to itself; the reason of [ExecutionHalted] is not encoded and comes back as the
    placeholder; and [InsufficientComputeGas] does not come back at all: it is
    encoded, but [decode_error_result] never tries its selector. *)
Theorem keyless_error_roundtrip `{KeylessAbi} (laws : KeylessAbiLaws) e :
  decode_error_result (encode_error_result e) =
    match e with
    | InsufficientComputeGas _ _ => None
    | ExecutionHalted gas_used _ => Some (ExecutionHalted gas_used placeholder_reason)
    | e => Some e
    end.
Proof. destruct e; unfold decode_error_result; simpl; by rewrite !abi_decode_encode. Qed.

(** ** The database of the sandbox *)
Section sandbox_db.
Context {DB E Bytecode : Type} {revm : RevmState Bytecode} {bytecode : BytecodeApi Bytecode}
  {database : Database DB E Bytecode} {laws : DatabaseLaws DB E Bytecode} {display : Display E}.
Implicit Types (state : gmap Address (Account Bytecode)) (acc : Account Bytecode).

#[export] Instance sandbox_database_laws : DatabaseLaws (SandboxDb DB Bytecode) string Bytecode.
Proof.
  split.
  - intros a [st db ix no]. simpl. unfold SandboxDb.sandbox_basic. simpl.
    pose proof (basic_pure a db) as Hp. repeat case_match; simplify_eq/=; done.
  - intros h [st db ix no]. simpl. unfold SandboxDb.sandbox_code_by_hash. simpl.
    pose proof (code_by_hash_pure h db) as Hp. repeat case_match; simplify_eq/=; done.
  - intros a k [st db ix no]. simpl. unfold SandboxDb.sandbox_storage. simpl.
    pose proof (db_storage_pure a k db) as Hp. repeat case_match; simplify_eq/=; done.
Qed.

(** An account of the state that offers a code for a hash. *)
Definition offers (hash : Z) (c : Bytecode) (entry : Address * Account Bytecode) : Prop :=
  code (info entry.2) = Some c ∧ bytecode_is_empty c = false ∧ code_hash (info entry.2) = hash.

Lemma index_code_sound (entries : list (Address * Account Bytecode)) :
  ∀ index h a,
    foldl (λ index e, SandboxDb.index_code e index) index entries !! h = Some a →
    index !! h = Some a ∨ ∃ acc c, (a, acc) ∈ entries ∧ offers h c (a, acc).
Proof.
  induction entries as [|[b acc] entries IH]; intros index h a Hl; [by left|].
  simpl in Hl. apply IH in Hl as [Hl|(acc'&c&Hin&Ho)]; [|right; set_solver].
  unfold SandboxDb.index_code in Hl. destruct (code (info acc)) as [c|] eqn:Hc; [|by left].
  destruct (bytecode_is_empty c) eqn:He; [by left|].
  apply lookup_insert_Some in Hl as [[<- <-]|[_ Hl]]; [|by left].
  right. exists acc, c. split; [set_solver|by split_and!].
Qed.

Lemma index_code_complete (entries : list (Address * Account Bytecode)) :
  ∀ index h e c, e ∈ entries ∧ offers h c e ∨ is_Some (index !! h) →
    is_Some (foldl (λ index e, SandboxDb.index_code e index) index entries !! h).
Proof.
  induction entries as [|[b acc] entries IH]; intros index h e c Hh; simpl.
  { destruct Hh as [[Hin _]|Hs]; [set_solver|done]. }
  eapply (IH _ _ e c). destruct Hh as [[Hin Ho]|Hs].
  - apply elem_of_cons in Hin as [->|Hin]; [|by left]. right.
    destruct Ho as (Hc&He&Hh). simpl in *. rewrite Hc, He, <-Hh, lookup_insert_eq. eauto.
  - right. unfold SandboxDb.index_code. repeat case_match; try done.
    destruct (decide (code_hash (info acc) = h)) as [->|?];
      [rewrite lookup_insert_eq; eauto|by rewrite lookup_insert_ne].
Qed.
End sandbox_db.

(** The sandbox reads the parent as it stands, through a view that only changes the
    signer's nonce.  Accounts and slots come from the parent's journal when it holds
    them and from its database otherwise; the signer's nonce reads [0]; a code hash
    yields the code that an account of the journal carries for it, whatever order
    the journal is indexed in, and the database's otherwise; the empty hash yields
    the empty code without a lookup; and no read changes what later reads see. *)
Theorem sandbox_db_reads_parent {DB E Bytecode : Type} {revm : RevmState Bytecode}
    {bytecode : BytecodeApi Bytecode} {database : Database DB E Bytecode}
    (laws : DatabaseLaws DB E Bytecode) {display : Display E}
    (state : gmap Address (Account Bytecode)) (db : DB) entries signer :
  entries ≡ₚ map_to_list state →
  (∀ a acc b acc' c c', state !! a = Some acc → state !! b = Some acc' →
     code (info acc) = Some c → code (info acc') = Some c' →
     code_hash (info acc) = code_hash (info acc') → c = c') →
  let sdb := SandboxDb.with_nonce_override signer (SandboxDb.new_in_order entries state db) in
  let zero_nonce a i :=
    if bool_decide (a = signer) then mkAccountInfo (balance i) 0 (code_hash i) (code i) else i in
  (∀ a, basic a sdb = (sdb,
     match state !! a with
     | Some acc => Ok (Some (zero_nonce a (info acc)))
     | None => SandboxDb.erased (match (basic a db).2 with
                                 | Ok o => Ok (zero_nonce a <$> o)
                                 | Err e => Err e
                                 end)
     end)) ∧
  (∀ a k, db_storage a k sdb = (sdb,
     match state !! a ≫= λ acc, storage acc !! k with
     | Some slot => Ok (slot_present_value slot)
     | None => SandboxDb.erased (db_storage a k db).2
     end)) ∧
  (∀ h, h ≠ KECCAK_EMPTY →
     (∀ a acc c, state !! a = Some acc → offers h c (a, acc) → code_by_hash h sdb = (sdb, Ok c)) ∧
     ((∀ a acc c, state !! a = Some acc → ¬ offers h c (a, acc)) →
        code_by_hash h sdb = (sdb, SandboxDb.erased (code_by_hash h db).2))) ∧
  code_by_hash KECCAK_EMPTY sdb = (sdb, Ok bytecode_default).
Proof.
  intros Hperm Hinj sdb zero_nonce.
  assert (∀ a acc, (a, acc) ∈ entries ↔ state !! a = Some acc) as Hin.
  { intros a acc. by rewrite Hperm, elem_of_map_to_list. }
  split_and!.
  - intros a. pose proof (basic_pure a sdb) as Hp. revert Hp. simpl.
    unfold SandboxDb.sandbox_basic. simpl. unfold SandboxDb.override_nonce. simpl.
    assert (bool_decide (Some signer = Some a) = bool_decide (a = signer)) as ->.
    { apply bool_decide_ext. naive_solver. }
    destruct (state !! a) as [acc|]; [done|].
    destruct (basic a db) as [d [[i|]|e]]; simpl; intros Hp; by rewrite Hp.
  - intros a k. pose proof (db_storage_pure a k sdb) as Hp. revert Hp. simpl.
    unfold SandboxDb.sandbox_storage. simpl.
    destruct (state !! a) as [acc|]; simpl; [destruct (storage acc !! k) as [slot|]; [done|]|];
      destruct (db_storage a k db) as [d r]; simpl; intros Hp; by rewrite Hp.
  - intros h Hh. simpl. unfold SandboxDb.sandbox_code_by_hash.
    rewrite (bool_decide_false (h = KECCAK_EMPTY)) by done.
    change (sandbox_inner_db sdb) with db.
    pose proof (code_by_hash_pure h db) as Hp. destruct (code_by_hash h db) as [d r].
    simpl in Hp. subst d. simpl. split.
    + intros a acc c Ha Ho.
      destruct (index_code_complete entries ∅ h (a, acc) c) as [b Hb].
      { left. by rewrite Hin. }
      rewrite Hb. apply index_code_sound in Hb as [Hb|(acc'&c'&Hb&Ho')];
        [by rewrite lookup_empty in Hb|].
      apply Hin in Hb. rewrite Hb. destruct Ho as (Hc&_&Hch), Ho' as (Hc'&_&Hch').
      simpl in *. rewrite Hc'. simpl. do 2 f_equal. eapply Hinj; [exact Hb|exact Ha|..]; congruence.
    + intros Hno. destruct (_ !! h) as [b|] eqn:Hb; [|done].
      apply index_code_sound in Hb as [Hb|(acc'&c'&Hb&Ho')]; [by rewrite lookup_empty in Hb|].
      apply Hin in Hb. by destruct (Hno b acc' c').
  - simpl. unfold SandboxDb.sandbox_code_by_hash. by rewrite bool_decide_true.
Qed.

(** ** Running a keyless deploy *)
Section keyless.
Context `{Profile} `{BitflagsApi} `{InstructionResultApi} `{SStoreApi} `{AbiApi} `{KeylessAbi}
  {Gas : Type} `{GasApi Gas} {Sig : Type} `{KeylessTxApi Sig}
  {DB E Bytecode S O Log : Type} {revm : RevmState Bytecode} {bytecode : BytecodeApi Bytecode}
  {database : Database DB E Bytecode} {display : Display E}
  {sandbox : SandboxEvm (Journal DB Bytecode) (SandboxDb DB Bytecode) S O Bytecode Log}.
Implicit Types ctx : MegaContext (Journal DB Bytecode) S O.

(** What [revm] guarantees: a contract creation deploys at the address that its
    sender and nonce determine, and a log leaves the accounts alone. *)
Class SandboxEvmLaws : Prop := {
  op_log_state l i : j_state (ctx_journal (op_log l i)) = j_state (ctx_journal i);
  created_address t c c' gu gr logs b a st :
    tx_kind t = TxCreate →
    transact_raw t c = Ret (c', Ok (ExecSuccess gu gr logs (OutputCreate b (Some a)), st)) →
    a = address_create (tx_caller t) (tx_nonce t);
  created_address_empty t c c' gu gr logs b a st :
    tx_kind t = TxCreate →
    transact_raw_empty t c = Ret (c', Ok (ExecSuccess gu gr logs (OutputCreate b (Some a)), st)) →
    a = address_create (tx_caller t) (tx_nonce t);
}.

Definition state_of ctx : gmap Address (Account Bytecode) := j_state (MegaContext.journal ctx).

(** The sandbox is started and runs to an outcome. *)
Definition sandbox_completes (call_inputs : CallInputs) (tx_bytes : Bytes)
    (gas_limit_override : U256) ctx (outcome : SandboxOutcome Bytecode Log) : Prop :=
  ∃ ctx1 gas ctx2 t signer address ctx3,
    charge_overhead (Gas:=Gas) call_inputs ctx = Ret (ctx1, Ok gas) ∧
    prepare_sandbox_tx call_inputs tx_bytes gas_limit_override ctx1 =
      (ctx2, Ok (t, signer, address)) ∧
    execute_keyless_deploy_sandbox t ctx2 = Ret (ctx3, Ok outcome).

Definition outcome_state (o : SandboxOutcome Bytecode Log) : gmap Address (Account Bytecode) :=
  match o with SandboxSuccess st _ | SandboxFailure st _ => st end.

(** The result of a completed sandbox: a successful return in every case. *)
Definition completed_result (call_inputs : CallInputs) (gas : Gas)
    (o : SandboxOutcome Bytecode Log) : FrameResult Gas :=
  match o with
  | SandboxSuccess _ r => make_success call_inputs gas (sr_gas_used r) (sr_deploy_address r)
  | SandboxFailure _ e => make_execution_failure call_inputs gas (execution_gas_used e) e
  end.

Lemma charge_overhead_inner ci ctx ctx1 (r : result Gas (FrameResult Gas)) :
  charge_overhead ci ctx = Ret (ctx1, r) →
  inner ctx1 = inner ctx ∧ spec ctx1 = spec ctx ∧
  match r with
  | Ok gas => gas_record_cost (gas_new (cin_gas_limit ci))
                constants.rex2.KEYLESS_DEPLOY_OVERHEAD_GAS = (gas, true)
  | Err r => instruction_result r = Revert ∨ instruction_result r = OutOfGas
  end.
Proof.
  unfold charge_overhead. destruct (gas_record_cost _ _) as [gas ok] eqn:Hg. intros Hr.
  destruct ok; simpl in Hr; [|simplify_eq; split_and!; [done..|by right]].
  destruct (MegaSpecId.is_enabled (spec ctx) REX3); [|by simplify_eq].
  apply bind_Ret in Hr as ([al within]&Hal&Hr). simpl in Hr. destruct within; [by simplify_eq|].
  apply bind_Ret in Hr as (c&Hc&Hr). destruct c as [|k l u [|]]; simplify_eq/=; split_and!; auto.
Qed.

Lemma prepare_state ci txb ovr ctx ctx1 r :
  prepare_sandbox_tx ci txb ovr ctx = (ctx1, r) → state_of ctx1 = state_of ctx.
Proof.
  unfold prepare_sandbox_tx, get_account_nonce. intros Hp.
  repeat (case_match; simplify_eq/=; try done).
Qed.

Lemma sandbox_state t ctx ctx1 r :
  execute_keyless_deploy_sandbox t ctx = Ret (ctx1, r) → state_of ctx1 = state_of ctx.
Proof.
  unfold execute_keyless_deploy_sandbox. intros Hs.
  repeat (outcome_inv || case_match); simplify_eq/=; done.
Qed.

Lemma emit_logs_state {laws : SandboxEvmLaws} logs ctx :
  state_of (emit_logs logs ctx) = state_of ctx.
Proof.
  revert ctx. induction logs as [|l logs IH]; intros ctx; [done|]. simpl. rewrite IH.
  apply op_log_state.
Qed.

Lemma sandbox_deploys_at {laws : SandboxEvmLaws} t ctx ctx1 st r :
  tx_kind t = TxCreate →
  execute_keyless_deploy_sandbox t ctx = Ret (ctx1, Ok (SandboxSuccess st r)) →
  sr_deploy_address r = address_create (tx_caller t) (tx_nonce t).
Proof.
  intros Hk. unfold execute_keyless_deploy_sandbox. intros Hs.
  assert (∀ x, process_sandbox_transact_result x = Ok (SandboxSuccess st r) →
    ∃ gu gr logs b, x = Ok (ExecSuccess gu gr logs (OutputCreate b (Some (sr_deploy_address r))), st))
    as Hproc.
  { intros x. unfold process_sandbox_transact_result. repeat case_match; intros; simplify_eq/=; eauto. }
  destruct (basic _ _) as [sdb [o|e]]; [|done].
  destruct (checked_add_u256 _ _); [|done]. case_bool_decide; [done|].
  destruct (MegaSpecId.is_enabled _ _); apply bind_Ret in Hs as (c1&_&Hs);
    apply bind_Ret in Hs as (c2&_&Hs); apply bind_Ret in Hs as ([c3 x]&Ht&Hs); simpl in Hs;
    injection Hs as _ Hx; apply Hproc in Hx as (gu&gr&logs&b&->).
  - by eapply created_address.
  - by eapply created_address_empty.
Qed.

Lemma prepare_tx ci txb ovr ctx ctx1 t signer address :
  prepare_sandbox_tx ci txb ovr ctx = (ctx1, Ok (t, signer, address)) →
  tx_kind t = TxCreate ∧ tx_caller t = signer ∧ tx_nonce t = 0 ∧
  address = calculate_keyless_deploy_address signer.
Proof.
  unfold prepare_sandbox_tx. intros Hp. repeat (case_match; simplify_eq/=; try done).
Qed.

Lemma recorded_overhead {gas_laws : GasLaws Gas} limit cost (gas : Gas) :
  in_u64 limit → gas_record_cost (gas_new limit) cost = (gas, true) → 0 ≤ cost →
  gas_remaining gas = limit - cost.
Proof.
  intros Hl Hr Hc. destruct (decide (cost ≤ limit)).
  - destruct (gas_record_cost_ok (gas_new limit) cost) as (g&Hg&Hrem&_);
      rewrite ?gas_remaining_new by done; [lia..|]. rewrite Hr in Hg. injection Hg as <-.
    by rewrite Hrem, gas_remaining_new.
  - rewrite gas_record_cost_oog in Hr; [done|]. rewrite gas_remaining_new by done. lia.
Qed.
End keyless.

(** C20: A keyless deploy commits the sandbox or refuses without a trace.  If the sandbox
    runs to an outcome, good or bad, its whole state is merged into the parent and
    the call returns successfully with the gas that the overhead left, so that
    nothing can revert the signer's charge: a deployment reports its address, a
    failed run reports the encoded error.  In every other case the call reverts or
    runs out of gas and no account of the parent's journal has changed. *)
Theorem keyless_deploy_commits_or_refuses `{Profile} `{BitflagsApi} `{InstructionResultApi}
    `{SStoreApi} `{AbiApi} `{KeylessAbi} {Gas : Type} `{GasApi Gas} (gas_laws : GasLaws Gas)
    {Sig : Type} `{KeylessTxApi Sig} {DB E Bytecode S O Log : Type} {revm : RevmState Bytecode}
    {bytecode : BytecodeApi Bytecode} {database : Database DB E Bytecode} {display : Display E}
    {sandbox : SandboxEvm (Journal DB Bytecode) (SandboxDb DB Bytecode) S O Bytecode Log}
    (laws : SandboxEvmLaws) call_inputs tx_bytes gas_limit_override
    (ctx ctx' : MegaContext (Journal DB Bytecode) S O) (r : FrameResult Gas) :
  in_u64 (cin_gas_limit call_inputs) →
  execute_keyless_deploy_call call_inputs tx_bytes gas_limit_override ctx = Ret (ctx', r) →
  (∃ outcome gas,
     sandbox_completes (Gas:=Gas) call_inputs tx_bytes gas_limit_override ctx outcome ∧
     merge_evm_state_optional_status (state_of ctx) (outcome_state outcome) false =
       Ret (state_of ctx') ∧
     r = completed_result call_inputs gas outcome ∧ instruction_result r = Return ∧
     gas_remaining gas =
       cin_gas_limit call_inputs - constants.rex2.KEYLESS_DEPLOY_OVERHEAD_GAS) ∨
  ((∀ outcome,
      ¬ sandbox_completes (Gas:=Gas) call_inputs tx_bytes gas_limit_override ctx outcome) ∧
   state_of ctx' = state_of ctx ∧
   (instruction_result r = Revert ∨ instruction_result r = OutOfGas)).
Proof.
  intros Hlim Hrun. unfold execute_keyless_deploy_call in Hrun.
  apply bind_Ret in Hrun as ([ctx1 charged]&Hcharge&Hrun). simpl in Hrun.
  pose proof (charge_overhead_inner _ _ _ _ Hcharge) as (Hin&_&Hres).
  assert (state_of ctx1 = state_of ctx) as Hst1.
  { unfold state_of, MegaContext.journal. by rewrite Hin. }
  destruct charged as [gas|r1].
  2:{ injection Hrun as -> ->. right. split_and!; [|done..].
      intros o (?&?&?&?&?&?&?&Hc&_). by rewrite Hcharge in Hc. }
  destruct (prepare_sandbox_tx call_inputs tx_bytes gas_limit_override ctx1) as [ctx2 prepared]
    eqn:Hprep. pose proof (prepare_state _ _ _ _ _ _ Hprep) as Hst2.
  destruct prepared as [[[t signer] address]|e].
  2:{ injection Hrun as <- <-. right. split_and!; [|congruence|by left].
      intros o (?&?&?&?&?&?&?&Hc&Hp&_). rewrite Hcharge in Hc. injection Hc as <- <-.
      by rewrite Hprep in Hp. }
  unfold run_sandbox in Hrun. apply bind_Ret in Hrun as ([ctx3 ran]&Hsand&Hrun). simpl in Hrun.
  pose proof (sandbox_state _ _ _ _ Hsand) as Hst3.
  assert (gas_remaining gas =
    cin_gas_limit call_inputs - constants.rex2.KEYLESS_DEPLOY_OVERHEAD_GAS) as Hgas.
  { by eapply recorded_overhead. }
  destruct ran as [outcome|e].
  - left. exists outcome, gas.
    assert (sandbox_completes (Gas:=Gas) call_inputs tx_bytes gas_limit_override ctx outcome)
      by (repeat eexists; eassumption).
    pose proof (prepare_tx _ _ _ _ _ _ _ _ Hprep) as (Hk&Hcaller&Hnonce&Haddr).
    destruct outcome as [st sr|st e]; unfold apply_sandbox_state in Hrun;
      apply bind_Ret in Hrun as ([ctx4 applied]&Hm&Hrun); simpl in Hrun;
      apply bind_Ret in Hm as (merged&Hm&Hc4); injection Hc4 as <- <-;
      fold (state_of ctx3) in Hm; rewrite Hst3, Hst2, Hst1 in Hm.
    + rewrite bool_decide_true in Hrun.
      2:{ rewrite (sandbox_deploys_at _ _ _ _ _ Hk Hsand), Hcaller, Hnonce. by rewrite Haddr. }
      simpl in Hrun. injection Hrun as <- <-. split_and!; try done.
      by rewrite emit_logs_state.
    + injection Hrun as <- <-. by split_and!.
  - injection Hrun as <- <-. right. split_and!; [|congruence|by left].
    intros o (?&?&?&?&?&?&?&Hc&Hp&Hs). rewrite Hcharge in Hc. injection Hc as <- <-.
    rewrite Hprep in Hp. injection Hp as <- <- <- <-. by rewrite Hsand in Hs.
Qed.


Section runs_only_valid.
Context `{Profile} `{BitflagsApi} `{InstructionResultApi} `{SStoreApi} `{AbiApi} `{KeylessAbi}
  {Gas : Type} `{GasApi Gas} {Sig : Type} `{KeylessTxApi Sig}
  {DB E Bytecode S O Log : Type} {revm : RevmState Bytecode} {bytecode : BytecodeApi Bytecode}
  {database : Database DB E Bytecode} {db_laws : DatabaseLaws DB E Bytecode}
  {display : Display E}
  {sandbox : SandboxEvm (Journal DB Bytecode) (SandboxDb DB Bytecode) S O Bytecode Log}.
Implicit Types ctx : MegaContext (Journal DB Bytecode) S O.








End runs_only_valid.


(** A check after a recording gives a verdict. *)
Lemma recorded_check `{Profile} `{InstructionResultApi} cost m al cg :
  0 ≤ cost → al_ok 0 m al → m + cost ≤ u64_max →
  ComputeGasTracker.record_gas_used cost (compute_gas al) = Ret cg →
  ∃ c, ComputeGasTracker.check_limit cg = Ret c.
Proof.
  intros Hc (_&_&_&Hs&_) Hm. unfold ComputeGasTracker.record_gas_used.
  pose proof (sized_length _ _ _ Hs) as Hlen.
  destruct (FrameLimitTracker.has_active_frame (cg_frame_tracker (compute_gas al))) eqn:Hact.
  { unfold FrameLimitTracker.has_active_frame in Hact.
    by destruct (frame_stack (cg_frame_tracker (compute_gas al))). }
  destruct (sized_tx_charge cost _ _ _ Hs Hc Hm) as (ft&->&Hft). simpl. intros [= <-].
  destruct (sized_usage _ _ _ Hft Hm) as [u Hu].
  destruct (sized_exceeds _ _ _ ComputeGas Hft Hm) as [c Hx].
  unfold ComputeGasTracker.check_limit, ComputeGasTracker.tx_check, ComputeGasTracker.tx_usage.
  simpl. rewrite Hu. simpl. rewrite Hx. simpl. repeat case_match; eauto.
Qed.

(** Where the overhead of a keyless deploy panics.  From Rex3 on the overhead is
    recorded as compute gas, and when the limits answer that something is exceeded
    the code insists that compute gas is: [unreachable!()] otherwise.  If nothing is
    exceeded before, charging never panics.  But if another limit has already been
    exceeded - the data size of the transaction itself, recorded by [before_tx_start]
    and left to be handled when the first frame starts - and the compute gas is
    within its limit, the call panics. *)
Theorem keyless_overhead_panic `{Profile} `{BitflagsApi} `{InstructionResultApi}
    `{SStoreApi} `{AbiApi} `{KeylessAbi} {Gas : Type} `{GasApi Gas} (gas_laws : GasLaws Gas)
    {Sig : Type} `{KeylessTxApi Sig} {DB E Bytecode S O Log : Type} {revm : RevmState Bytecode}
    {bytecode : BytecodeApi Bytecode} {database : Database DB E Bytecode} {display : Display E}
    {sandbox : SandboxEvm (Journal DB Bytecode) (SandboxDb DB Bytecode) S O Bytecode Log}
    call_inputs tx_bytes gas_limit_override (ctx : MegaContext (Journal DB Bytecode) S O) m cg :
  let al := additional_limit ctx in
  let cost := constants.rex2.KEYLESS_DEPLOY_OVERHEAD_GAS in
  MegaSpecId.is_enabled (spec ctx) REX3 = true →
  in_u64 (cin_gas_limit call_inputs) → cost ≤ cin_gas_limit call_inputs →
  al_ok 0 m al → m + cost ≤ u64_max →
  ComputeGasTracker.record_gas_used cost (compute_gas al) = Ret cg →
  (has_exceeded_limit al = WithinLimit →
   DataSizeTracker.check_limit (data_size al) = Ret WithinLimit →
   KVUpdateTracker.check_limit (kv_update al) = Ret WithinLimit →
   StateGrowthTracker.check_limit (state_growth al) = Ret WithinLimit →
     charge_overhead (Gas:=Gas) call_inputs ctx ≠ Panic) ∧
  (∀ k l u frame_local,
     has_exceeded_limit al = ExceedsLimit k l u frame_local →
     ComputeGasTracker.check_limit cg = Ret WithinLimit →
     execute_keyless_deploy_call (Gas:=Gas) call_inputs tx_bytes gas_limit_override ctx = Panic).
Proof.
  intros al cost Hspec Hgl Hcost Hal Hm Hcg.
  destruct (gas_record_cost_ok (gas_new (cin_gas_limit call_inputs)) cost) as (g&Hg&_);
    rewrite ?gas_remaining_new by done; [done..|].
  assert (charge_overhead call_inputs ctx =
    ('(limit, within) ← AdditionalLimit.still_within (AdditionalLimit.set_compute_gas cg al);
     let ctx := MegaContext.with_additional_limit limit ctx in
     if within : bool then Ret (ctx, Ok g)
     else c ← ComputeGasTracker.check_limit (compute_gas limit);
       match c with
       | WithinLimit => Panic
       | ExceedsLimit _ limit used frame_local =>
          if frame_local : bool then
            Ret (ctx, Err (make_error call_inputs g (InsufficientComputeGas limit used)))
          else
            Ret (ctx, Err (mark_frame_result_as_exceeding_limit
                             AdditionalLimit.EXCEEDING_LIMIT_INSTRUCTION_RESULT Bytes_new
                             (make_halt call_inputs g)))
      end)) as Hcharge.
  { unfold charge_overhead. fold cost. rewrite Hg, Hspec. simpl. fold al.
    unfold AdditionalLimit.record_compute_gas. by rewrite Hcg. }
  unfold AdditionalLimit.still_within, AdditionalLimit.check_limit in Hcharge. simpl in Hcharge.
  split.
  - intros Hw Hds Hkv Hsg. rewrite Hcharge, Hw. simpl. rewrite Hds. simpl. rewrite Hkv. simpl.
    assert (∃ c, ComputeGasTracker.check_limit cg = Ret c) as [c Hc].
    { eapply (recorded_check cost m al); [by compute|done..]. }
    rewrite Hc. simpl. destruct c as [|k l u fl]; simpl; [by rewrite Hsg|].
    rewrite Hc. simpl. by destruct fl.
  - intros k l u fl Hex Hc. unfold execute_keyless_deploy_call. rewrite Hcharge, Hex. simpl.
    by rewrite Hc.
Qed.

(** ** A concrete ABI and a concrete EVM for the witnesses

    An encoding is a byte for the selector, the bits of the numeric and string
    arguments, a stop byte, and the raw bytes. *)
Module ReferenceAbi.
Fixpoint bits (p : positive) : Bytes :=
  match p with
  | xH => [Byte.x02]
  | xO p => Byte.x00 :: bits p
  | xI p => Byte.x01 :: bits p
  end.
Fixpoint unbits (b : Bytes) : option (positive * Bytes) :=
  match b with
  | Byte.x02 :: rest => Some (xH, rest)
  | Byte.x00 :: rest => '(p, rest) ← unbits rest; Some (xO p, rest)
  | Byte.x01 :: rest => '(p, rest) ← unbits rest; Some (xI p, rest)
  | _ => None
  end.
Lemma unbits_bits p rest : unbits (bits p ++ rest) = Some (p, rest).
Proof. induction p as [p IH|p IH|]; simpl; rewrite ?IH; done. Qed.

Import IKeylessDeploy.
Definition tag (s : Selector) : Byte.byte :=
  match s with
  | SelMalformedEncoding => Byte.x01 | SelNotContractCreation => Byte.x02
  | SelNotPreEIP155 => Byte.x03 | SelNonZeroTxNonce => Byte.x04 | SelNoEtherTransfer => Byte.x05
  | SelInvalidSignature => Byte.x06 | SelInsufficientBalance => Byte.x07
  | SelContractAlreadyExists => Byte.x08 | SelSignerNonceTooHigh => Byte.x09
  | SelExecutionReverted => Byte.x0a | SelExecutionHalted => Byte.x0b
  | SelEmptyCodeDeployed => Byte.x0c | SelNoContractCreated => Byte.x0d
  | SelAddressMismatch => Byte.x0e | SelGasLimitTooLow => Byte.x0f
  | SelInsufficientComputeGas => Byte.x10 | SelInternalError => Byte.x11
  | SelNotIntercepted => Byte.x12
  end.

Definition args (e : Error) : Z * Z * string * Bytes :=
  match e with
  | NonZeroTxNonce n | SignerNonceTooHigh n | ExecutionHalted n | EmptyCodeDeployed n =>
      (n, 0, EmptyString, [])
  | ExecutionReverted n output => (n, 0, EmptyString, output)
  | GasLimitTooLow a b | InsufficientComputeGas a b => (a, b, EmptyString, [])
  | InternalError m => (0, 0, m, [])
  | _ => (0, 0, EmptyString, [])
  end.
Definition rebuild (s : Selector) (a : Z * Z * string) (output : Bytes) : Error :=
  let '(x, y, m) := a in
  match s with
  | SelMalformedEncoding => MalformedEncoding
  | SelNotContractCreation => NotContractCreation
  | SelNotPreEIP155 => NotPreEIP155
  | SelNonZeroTxNonce => NonZeroTxNonce x
  | SelNoEtherTransfer => NoEtherTransfer
  | SelInvalidSignature => InvalidSignature
  | SelInsufficientBalance => InsufficientBalance
  | SelContractAlreadyExists => ContractAlreadyExists
  | SelSignerNonceTooHigh => SignerNonceTooHigh x
  | SelExecutionReverted => ExecutionReverted x output
  | SelExecutionHalted => ExecutionHalted x
  | SelEmptyCodeDeployed => EmptyCodeDeployed x
  | SelNoContractCreated => NoContractCreated
  | SelAddressMismatch => AddressMismatch
  | SelGasLimitTooLow => GasLimitTooLow x y
  | SelInsufficientComputeGas => InsufficientComputeGas x y
  | SelInternalError => InternalError m
  | SelNotIntercepted => NotIntercepted
  end.

Definition encode_error (e : Error) : Bytes :=
  tag (selector e) :: bits (encode (args e).1) ++ (args e).2.
Definition decode_error (s : Selector) (b : Bytes) : option Error :=
  match b with
  | t :: rest =>
      if Byte.eqb t (tag s) then
        '(p, output) ← unbits rest; a ← decode p; Some (rebuild s a output)
      else None
  | [] => None
  end.
End ReferenceAbi.

#[local] Instance reference_keyless_abi : KeylessAbi := {|
  abi_encode := ReferenceAbi.encode_error;
  abi_decode := ReferenceAbi.decode_error;
  abi_encode_returns g a e :=
    ReferenceAbi.bits (encode (g, a)) ++ e |}.

Lemma reference_keyless_abi_laws : @KeylessAbiLaws reference_keyless_abi.
Proof.
  split. intros s e. simpl. unfold ReferenceAbi.decode_error, ReferenceAbi.encode_error.
  rewrite ReferenceAbi.unbits_bits. simpl. rewrite decode_encode. simpl.
  by destruct e, s.
Qed.

Lemma keyless_error_roundtrip_witness :
  decode_error_result (encode_error_result (ExecutionReverted 7 [Byte.xff])) =
    Some (ExecutionReverted 7 [Byte.xff]) ∧
  decode_error_result (encode_error_result (InsufficientComputeGas 1 2)) = None.
Proof.
  split; apply (keyless_error_roundtrip reference_keyless_abi_laws).
Defined.

Section example.
#[local] Existing Instances reference_revm example_database example_database_laws
  checked_build reference_instruction_result reference_sstore reference_gas reference_abi
  reference_bitflags reference_journal reference_account.

#[local] Instance example_display : Display string := id.
#[local] Instance example_bytecode : BytecodeApi Z := {|
  bytecode_is_empty b := bool_decide (b = 0); bytecode_default := 0 |}.

(** A keyless transaction is a byte that stands for its nonce. *)
#[local] Instance example_keyless_tx : KeylessTxApi unit := {|
  rlp_decode_signed bs :=
    match bs with
    | [b] => Some (mkSignedTxLegacy None (Z.of_N (Byte.to_N b)) 2 50000 TxCreate 3 [Byte.x60] tt)
    | _ => None
    end;
  signed_recover_signer _ := Some 9;
  effective_gas_price _ t := 2;
  address_create a n := 1000 + 10 * a + n |}.

(** The EVM deploys one byte of code and charges the signer. *)
Definition example_charged (t : MegaTransaction) : gmap Address (Account Z) :=
  {[tx_caller t := mkAccount (mkAccountInfo 100 1 0 None) 0 ∅ {[Touched]}]}.
#[local] Instance example_evm :
    SandboxEvm (Journal example_db Z) (SandboxDb example_db Z) unit unit Z unit := {|
  op_context d sp := mkOpContext example_tx (mkBlockEnv 0 0 0 0)
    (mkCfgEnv sp 1 true None None false None None None 0 false false false false false)
    (mkJournal ∅ d 0) None;
  op_with_chain_of _ i := i;
  op_log _ i := i;
  transact_raw t c := Ret (c, Ok (ExecSuccess 40000 0 [] (OutputCreate [Byte.x01]
    (Some (address_create (tx_caller t) (tx_nonce t)))), example_charged t));
  transact_raw_empty t c := Ret (c, Ok (ExecSuccess 40000 0 [] (OutputCreate [Byte.x01]
    (Some (address_create (tx_caller t) (tx_nonce t)))), example_charged t)) |}.

#[local] Instance example_evm_laws : SandboxEvmLaws.
Proof. split; [done|intros t c c' gu gr logs b a st _ [= _ _ _ _ _ <-]; done..]. Defined.

Definition keyless_limits : EvmTxRuntimeLimits := mkEvmTxRuntimeLimits 1000 10 500000 5 2000 1000.
Definition keyless_context (s : MegaSpecId) (al : AdditionalLimit) :
    MegaContext (Journal example_db Z) unit unit :=
  mkMegaContext (mkOpContext example_tx (mkBlockEnv 10 77 1000 30000000)
      (mkCfgEnv ISTHMUS 1 true None None false None None None 0 false false false false false)
      (mkJournal ∅ [(9, mkAccountInfo 1000000 1 0 None)] 7) None)
    s false al tt (DynamicGasCost.new s tt 9) tt (VolatileDataAccessTracker.new 2000 1000) false.
Definition keyless_call : CallInputs :=
  Build_CallInputs KEYLESS_DEPLOY_ADDRESS KEYLESS_DEPLOY_ADDRESS 1 (ValueTransfer 0) 150000
    (0, 32) [] SchemeCall.

Lemma keyless_deploy_commits_or_refuses_witness :
  let ctx := keyless_context REX4 (AdditionalLimit.new REX4 keyless_limits) in
  ∃ ctx' r, execute_keyless_deploy_call keyless_call [Byte.x00] 60000 ctx = Ret (ctx', r) ∧
    nonce <$> (info <$> state_of ctx' !! 9) = Some 1 ∧ instruction_result r = Return ∧
    ((∃ outcome gas,
       sandbox_completes (Gas:=RefGas) keyless_call [Byte.x00] 60000 ctx outcome ∧
       merge_evm_state_optional_status (state_of ctx) (outcome_state outcome) false =
         Ret (state_of ctx') ∧
       r = completed_result keyless_call gas outcome ∧ instruction_result r = Return ∧
       gas_remaining gas = 150000 - 100000) ∨
     ((∀ outcome, ¬ sandbox_completes (Gas:=RefGas) keyless_call [Byte.x00] 60000 ctx outcome) ∧
      state_of ctx' = state_of ctx ∧
      (instruction_result r = Revert ∨ instruction_result r = OutOfGas))).
Proof.
  intros ctx. eexists _, _. split; [vm_compute; reflexivity|].
  split; [vm_compute; reflexivity|]. split; [reflexivity|].
  refine (keyless_deploy_commits_or_refuses reference_gas_laws example_evm_laws keyless_call
    [Byte.x00] 60000 ctx _ _ _ _); [simpl; u64_lia|vm_compute; reflexivity].
Defined.


Lemma sandbox_db_reads_parent_witness :
  let state : gmap Address (Account Z) :=
    {[9 := mkAccount (mkAccountInfo 5 3 44 (Some 8)) 0 {[1 := mkSlot 1 2 0 false]} ∅]} in
  let sdb := SandboxDb.with_nonce_override 9
               (SandboxDb.new_in_order (map_to_list state) state ([] : example_db)) in
  basic 9 sdb = (sdb, Ok (Some (mkAccountInfo 5 0 44 (Some 8)))) ∧
  db_storage 9 1 sdb = (sdb, Ok 2) ∧ db_storage 9 2 sdb = (sdb, Ok 11) ∧
  code_by_hash KECCAK_EMPTY sdb = (sdb, Ok 0).
Proof.
  intros state sdb.
  destruct (sandbox_db_reads_parent example_database_laws state [] (map_to_list state) 9)
    as (Hbasic & Hstorage & _ & Hempty); [done| |].
  { intros a acc b acc' c c' Ha Hb. unfold state in Ha, Hb.
    apply lookup_singleton_Some in Ha as [<- <-], Hb as [<- <-]. simpl. congruence. }
  split_and!; [rewrite Hbasic; reflexivity|rewrite Hstorage; reflexivity..|exact Hempty].
Defined.

(** A transaction whose input alone exceeds the data size limit of 100 bytes. *)
Definition small_limits : EvmTxRuntimeLimits := mkEvmTxRuntimeLimits 100 10 500000 5 2000 1000.
Lemma keyless_overhead_panic_witness :
  ∃ al, hook (Gas:=RefGas) (J:=unit) (E:=unit) (HTxStart example_tx)
          (AdditionalLimit.new REX3 small_limits) = Ret al ∧
    has_exceeded_limit al = ExceedsLimit DataSize 100 152 false ∧
    execute_keyless_deploy_call (Gas:=RefGas) keyless_call [Byte.x00] 60000
      (keyless_context REX3 al) = Panic.
Proof.
  assert (al_ok 0 0 (AdditionalLimit.new REX3 small_limits)) as Hnew.
  { apply new_al_ok. repeat split; simpl; u64_lia. }
  destruct (hook_total (Gas:=RefGas) (J:=unit) (E:=unit) (gas_laws:=reference_gas_laws) 0 0 false (HTxStart example_tx) _ Hnew)
    as (al & Hal & Hok); [done|done|done|vm_compute; discriminate|].
  exists al. split; [exact Hal|]. vm_compute in Hal. injection Hal as <-. split; [reflexivity|].
  refine (proj2 (keyless_overhead_panic reference_gas_laws keyless_call [Byte.x00] 60000
    (keyless_context REX3 _) _ _ _ _ _ Hok _ _) DataSize 100 152 false _ _).
  - reflexivity.
  - simpl. u64_lia.
  - vm_compute. discriminate.
  - vm_compute. discriminate.
  - vm_compute. reflexivity.
  - reflexivity.
  - vm_compute. reflexivity.
Defined.
End example.
