(* ===== verification/Intercept.v ===== *)
(** * Interception of calls to system contracts

    Models [system/intercept.rs] and the revert data of [system/control.rs]: before
    a call frame is made, four interceptors look at the call in turn.  One passes
    hints on to the oracle environment, one runs the keyless deploy sandbox, one
    switches the access to volatile data, one reports the remaining compute gas. *)
From S2P Require Import Prelude Spec Deps Volatile LimitTypes FrameLimit Trackers AdditionalLimit.
From S2P Require Import LimitTheory EvmState Inspect StorageGas SystemContracts Context Sandbox SandboxTheory.
Open Scope Z_scope.
#[local] Set Warnings "-notation-for-abbreviation".

(** The coders that [sol!] generates for the calls of the system contracts. *)
Class InterceptAbi := {
  decode_sendHint : Bytes → option (Z * Bytes);
  decode_keylessDeploy : Bytes → option (Bytes * U256);
  decode_disableVolatileDataAccess : Bytes → option unit;
  decode_enableVolatileDataAccess : Bytes → option unit;
  decode_isVolatileDataAccessDisabled : Bytes → option unit;
  decode_remainingComputeGas : Bytes → option unit;
  encode_isVolatileDataAccessDisabled_returns : bool → Bytes;
  encode_remainingComputeGas_returns : Z → Bytes;
  NonZeroTransfer_SELECTOR : Bytes;
  DisabledByParent_SELECTOR : Bytes;
  VolatileDataAccessDisabled_SELECTOR : Bytes;
}.

(** ** [system/control.rs] *)
Section control.
Context `{InterceptAbi} `{AbiApi}.
Definition VOLATILE_DATA_ACCESS_DISABLED_SELECTOR : Bytes := VolatileDataAccessDisabled_SELECTOR.
Definition volatile_data_access_disabled_revert_data (access_type : VolatileDataAccessType) :
    Bytes :=
  abi_VolatileDataAccessDisabled (access_type_as_u8 access_type).
Definition DISABLED_BY_PARENT_REVERT_DATA : Bytes := DisabledByParent_SELECTOR.
End control.

Section intercept.
Context `{Profile} `{BitflagsApi} `{InstructionResultApi} `{SStoreApi} `{AbiApi} `{KeylessAbi}
  `{InterceptAbi} {Gas : Type} `{GasApi Gas} {Sig : Type} `{KeylessTxApi Sig}
  {DB E Bytecode S O Log : Type} {revm : RevmState Bytecode} {bytecode : BytecodeApi Bytecode}
  {database : Database DB E Bytecode} {display : Display E} {oracle : OracleEnv O}
  {sandbox : SandboxEvm (Journal DB Bytecode) (SandboxDb DB Bytecode) S O Bytecode Log}.
Notation Ctx := (MegaContext (Journal DB Bytecode) S O).
Notation InterceptResult := (outcome (Ctx * option (FrameResult Gas))).
Implicit Types ctx : Ctx.

(** The trait, with the [ACTIVATION_SPEC] that each implementation has. *)
Record SystemContractInterceptor := mkInterceptor {
  ACTIVATION_SPEC : MegaSpecId;
  intercept : CallInputs → Z → Ctx → InterceptResult;
}.

(** A synthetic result keeps all the gas of the call. *)
Definition synthetic (call_inputs : CallInputs) (r : InstructionResult) (output : Bytes) :
    FrameResult Gas :=
  FrameResultCall (mkInterpreterResult r output (gas_new (cin_gas_limit call_inputs)))
    (cin_return_memory_offset call_inputs).

Definition reject_non_zero_transfer (call_inputs : CallInputs) : option (FrameResult Gas) :=
  if match cin_transfer_value call_inputs with
     | Some value => negb (bool_decide (value = 0))
     | None => false
     end
  then Some (synthetic call_inputs Revert NonZeroTransfer_SELECTOR)
  else None.

Definition OracleHintInterceptor_intercept (call_inputs : CallInputs) (depth : Z) ctx : InterceptResult :=
  if negb (bool_decide (cin_target_address call_inputs = ORACLE_CONTRACT_ADDRESS)) then
    Ret (ctx, None)
  else
    let ctx := match decode_sendHint (cin_input call_inputs) with
               | Some (topic, data) =>
                   MegaContext.with_oracle_env
                     (on_hint (cin_caller call_inputs) topic data (oracle_env ctx)) ctx
               | None => ctx
               end in
    Ret (ctx, None).
Definition OracleHintInterceptor : SystemContractInterceptor :=
  mkInterceptor REX2 OracleHintInterceptor_intercept.

Definition KeylessDeployInterceptor_intercept (call_inputs : CallInputs) (depth : Z) ctx : InterceptResult :=
  if MegaContext.is_sandbox_disabled ctx || negb (bool_decide (depth = 0)) then Ret (ctx, None)
  else if negb (bool_decide (cin_target_address call_inputs = KEYLESS_DEPLOY_ADDRESS)) then
    Ret (ctx, None)
  else match decode_keylessDeploy (cin_input call_inputs) with
  | None => Ret (ctx, None)
  | Some (keylessDeploymentTransaction, gasLimitOverride) =>
      '(ctx, r) ← execute_keyless_deploy_call call_inputs keylessDeploymentTransaction
                    gasLimitOverride ctx;
      Ret (ctx, Some r)
  end.
Definition KeylessDeployInterceptor : SystemContractInterceptor :=
  mkInterceptor REX2 KeylessDeployInterceptor_intercept.

Definition AccessControlInterceptor_intercept (call_inputs : CallInputs) (depth : Z) ctx : InterceptResult :=
  if negb (bool_decide (cin_target_address call_inputs = ACCESS_CONTROL_ADDRESS)) then
    Ret (ctx, None)
  else
    let input_bytes := cin_input call_inputs in
    let caller_journal_depth := depth in
    match decode_disableVolatileDataAccess input_bytes with
    | Some tt =>
        match reject_non_zero_transfer call_inputs with
        | Some result => Ret (ctx, Some result)
        | None =>
            let ctx := MegaContext.with_volatile
              (VolatileDataAccessTracker.disable_access caller_journal_depth
                 (volatile_data_tracker ctx)) ctx in
            Ret (ctx, Some (synthetic call_inputs Return Bytes_new))
        end
    | None =>
    match decode_enableVolatileDataAccess input_bytes with
    | Some tt =>
        match reject_non_zero_transfer call_inputs with
        | Some result => Ret (ctx, Some result)
        | None =>
            let '(tracker, success) :=
              VolatileDataAccessTracker.enable_access caller_journal_depth
                (volatile_data_tracker ctx) in
            let ctx := MegaContext.with_volatile tracker ctx in
            let result :=
              if success : bool then synthetic call_inputs Return Bytes_new
              else synthetic call_inputs Revert DISABLED_BY_PARENT_REVERT_DATA in
            Ret (ctx, Some result)
        end
    | None =>
    match decode_isVolatileDataAccessDisabled input_bytes with
    | Some tt =>
        match reject_non_zero_transfer call_inputs with
        | Some result => Ret (ctx, Some result)
        | None =>
            let disabled := VolatileDataAccessTracker.volatile_access_disabled
                              (volatile_data_tracker ctx) caller_journal_depth in
            let output := encode_isVolatileDataAccessDisabled_returns disabled in
            Ret (ctx, Some (synthetic call_inputs Return output))
        end
    | None => Ret (ctx, None)
    end end end.
Definition AccessControlInterceptor : SystemContractInterceptor :=
  mkInterceptor REX4 AccessControlInterceptor_intercept.

Definition LimitControlInterceptor_intercept (call_inputs : CallInputs) (depth : Z) ctx : InterceptResult :=
  if negb (bool_decide (cin_target_address call_inputs = LIMIT_CONTROL_ADDRESS)) then
    Ret (ctx, None)
  else match decode_remainingComputeGas (cin_input call_inputs) with
  | Some tt =>
      match reject_non_zero_transfer call_inputs with
      | Some result => Ret (ctx, Some result)
      | None =>
          remaining ← AdditionalLimit.current_call_remaining_compute_gas (additional_limit ctx);
          let output := encode_remainingComputeGas_returns remaining in
          Ret (ctx, Some (synthetic call_inputs Return output))
      end
  | None => Ret (ctx, None)
  end.
Definition LimitControlInterceptor : SystemContractInterceptor :=
  mkInterceptor REX4 LimitControlInterceptor_intercept.

(** [if spec.is_enabled(I::ACTIVATION_SPEC) { if let Some(r) = I::intercept(..) ... }]. *)
Fixpoint dispatch (spec : MegaSpecId) (interceptors : list SystemContractInterceptor)
    (call_inputs : CallInputs) (depth : Z) ctx : InterceptResult :=
  match interceptors with
  | [] => Ret (ctx, None)
  | i :: interceptors =>
      if MegaSpecId.is_enabled spec (ACTIVATION_SPEC i) then
        '(ctx, r) ← intercept i call_inputs depth ctx;
        match r with
        | Some result => Ret (ctx, Some result)
        | None => dispatch spec interceptors call_inputs depth ctx
        end
      else dispatch spec interceptors call_inputs depth ctx
  end.

(** The result of the oracle hint is dropped: it is always [None]. *)
Definition dispatch_system_contract_interceptors (call_inputs : CallInputs) (depth : Z) ctx :
    InterceptResult :=
  let spec := spec ctx in
  ctx ← (if MegaSpecId.is_enabled spec (ACTIVATION_SPEC OracleHintInterceptor) then
           '(ctx, _) ← intercept OracleHintInterceptor call_inputs depth ctx; Ret ctx
         else Ret ctx);
  dispatch spec [KeylessDeployInterceptor; AccessControlInterceptor; LimitControlInterceptor]
    call_inputs depth ctx.
End intercept.

(** ** What interception promises *)

(** A hint reaches the oracle environment. *)
Definition hinted {J S O : Type} `{InterceptAbi} `{OracleEnv O} (call_inputs : CallInputs)
    (ctx : MegaContext J S O) : MegaContext J S O :=
  if MegaSpecId.is_enabled (spec ctx) REX2 &&
     bool_decide (cin_target_address call_inputs = ORACLE_CONTRACT_ADDRESS) then
    match decode_sendHint (cin_input call_inputs) with
    | Some (topic, data) =>
        MegaContext.with_oracle_env
          (on_hint (cin_caller call_inputs) topic data (oracle_env ctx)) ctx
    | None => ctx
    end
  else ctx.

(** The calls that the specification has intercepted: a function of one of the three
    contracts, where the contract is active. *)
Definition intercepted {J S O : Type} `{InterceptAbi} (ci : CallInputs) (depth : Z)
    (ctx : MegaContext J S O) : Prop :=
  let a := cin_target_address ci in
  let input := cin_input ci in
  (a = KEYLESS_DEPLOY_ADDRESS ∧ MegaSpecId.is_enabled (spec ctx) REX2 = true ∧
   disable_sandbox ctx = false ∧ depth = 0 ∧ is_Some (decode_keylessDeploy input)) ∨
  (a = ACCESS_CONTROL_ADDRESS ∧ MegaSpecId.is_enabled (spec ctx) REX4 = true ∧
   (is_Some (decode_disableVolatileDataAccess input) ∨
    is_Some (decode_enableVolatileDataAccess input) ∨
    is_Some (decode_isVolatileDataAccessDisabled input))) ∨
  (a = LIMIT_CONTROL_ADDRESS ∧ MegaSpecId.is_enabled (spec ctx) REX4 = true ∧
   is_Some (decode_remainingComputeGas input)).

Section dispatch.
Context `{Profile} `{BitflagsApi} `{InstructionResultApi} `{SStoreApi} `{AbiApi} `{KeylessAbi}
  `{InterceptAbi} {Gas : Type} `{GasApi Gas} {Sig : Type} `{KeylessTxApi Sig}
  {DB E Bytecode S O Log : Type} {revm : RevmState Bytecode} {bytecode : BytecodeApi Bytecode}
  {database : Database DB E Bytecode} {display : Display E} {oracle : OracleEnv O}
  {sandbox : SandboxEvm (Journal DB Bytecode) (SandboxDb DB Bytecode) S O Bytecode Log}.
Implicit Types ctx : MegaContext (Journal DB Bytecode) S O.

Lemma reject_spec (call_inputs : CallInputs) :
  reject_non_zero_transfer (Gas:=Gas) call_inputs =
    if cin_transfers_value call_inputs
    then Some (synthetic call_inputs Revert NonZeroTransfer_SELECTOR) else None.
Proof. unfold reject_non_zero_transfer, cin_transfers_value. by destruct (cin_transfer_value _). Qed.

(** One interceptor leaves a call to another address alone. *)
Lemma access_control_other ci depth ctx :
  cin_target_address ci ≠ ACCESS_CONTROL_ADDRESS →
  AccessControlInterceptor_intercept (Gas:=Gas) ci depth ctx = Ret (ctx, None).
Proof. intros Ha. unfold AccessControlInterceptor_intercept. by rewrite bool_decide_false. Qed.
Lemma limit_control_other ci depth ctx :
  cin_target_address ci ≠ LIMIT_CONTROL_ADDRESS →
  LimitControlInterceptor_intercept (Gas:=Gas) ci depth ctx = Ret (ctx, None).
Proof. intros Ha. unfold LimitControlInterceptor_intercept. by rewrite bool_decide_false. Qed.
Lemma keyless_other ci depth ctx :
  cin_target_address ci ≠ KEYLESS_DEPLOY_ADDRESS →
  KeylessDeployInterceptor_intercept (Gas:=Gas) ci depth ctx = Ret (ctx, None).
Proof.
  intros Ha. unfold KeylessDeployInterceptor_intercept. rewrite (bool_decide_false (_ = KEYLESS_DEPLOY_ADDRESS)) by done.
  by destruct (_ || _).
Qed.

(** What the access control contract does, function by function. *)
Definition access_control_spec (ci : CallInputs) (depth : Z) ctx :
    option (VolatileDataAccessTracker * FrameResult Gas) :=
  let t := volatile_data_tracker ctx in
  let guarded r :=
    if cin_transfers_value ci then (t, synthetic ci Revert NonZeroTransfer_SELECTOR) else r in
  match decode_disableVolatileDataAccess (cin_input ci),
        decode_enableVolatileDataAccess (cin_input ci),
        decode_isVolatileDataAccessDisabled (cin_input ci) with
  | Some _, _, _ =>
      Some (guarded (VolatileDataAccessTracker.disable_access depth t, synthetic ci Return []))
  | None, Some _, _ =>
      Some (guarded ((VolatileDataAccessTracker.enable_access depth t).1,
        if (VolatileDataAccessTracker.enable_access depth t).2 then synthetic ci Return []
        else synthetic ci Revert DisabledByParent_SELECTOR))
  | None, None, Some _ =>
      Some (guarded (t, synthetic ci Return (encode_isVolatileDataAccessDisabled_returns
                          (VolatileDataAccessTracker.volatile_access_disabled t depth))))
  | None, None, None => None
  end.

Lemma is_enabled_rex2 s : MegaSpecId.is_enabled s REX4 = true → MegaSpecId.is_enabled s REX2 = true.
Proof. by destruct s. Qed.

Lemma with_volatile_same ctx : MegaContext.with_volatile (volatile_data_tracker ctx) ctx = ctx.
Proof. by destruct ctx. Qed.

Lemma access_control_exact ci depth ctx :
  cin_target_address ci = ACCESS_CONTROL_ADDRESS →
  AccessControlInterceptor_intercept ci depth ctx =
    Ret match access_control_spec ci depth ctx with
        | Some (t, r) => (MegaContext.with_volatile t ctx, Some r)
        | None => (ctx, None)
        end.
Proof.
  intros Ha. unfold AccessControlInterceptor_intercept, access_control_spec.
  rewrite (bool_decide_true (_ = ACCESS_CONTROL_ADDRESS)) by done. rewrite reject_spec. simpl.
  destruct (decode_disableVolatileDataAccess _) as [[]|];
    [|destruct (decode_enableVolatileDataAccess _) as [[]|];
      [|destruct (decode_isVolatileDataAccessDisabled _) as [[]|]; [|done]]];
    destruct (cin_transfers_value ci); simpl; rewrite ?with_volatile_same; try done.
  by destruct (VolatileDataAccessTracker.enable_access depth _) as [t []].
Qed.

Lemma hinted_other ci ctx :
  cin_target_address ci ≠ ORACLE_CONTRACT_ADDRESS → hinted ci ctx = ctx.
Proof.
  intros Ha. unfold hinted. rewrite (bool_decide_false (_ = ORACLE_CONTRACT_ADDRESS)) by done.
  by rewrite andb_false_r.
Qed.

Lemma hint_step ci depth ctx :
  (if MegaSpecId.is_enabled (spec ctx) REX2 then
     '(ctx, _) ← OracleHintInterceptor_intercept (Gas:=Gas) ci depth ctx; Ret ctx
   else Ret ctx) = Ret (hinted ci ctx).
Proof.
  unfold OracleHintInterceptor_intercept, hinted.
  destruct (MegaSpecId.is_enabled (spec ctx) REX2); [|done].
  by case_bool_decide; simpl; [destruct (decode_sendHint _) as [[]|]|].
Qed.

Lemma hinted_kept ci ctx :
  spec (hinted ci ctx) = spec ctx ∧ disable_sandbox (hinted ci ctx) = disable_sandbox ctx.
Proof. unfold hinted. by repeat case_match. Qed.

(** An interceptor that leaves a call alone; the order of those that do is immaterial. *)
Definition ignores (ci : CallInputs) (depth : Z)
    (i : SystemContractInterceptor (Gas:=Gas) (DB:=DB) (Bytecode:=Bytecode) (S:=S) (O:=O)) : Prop :=
  ∀ ctx, intercept i ci depth ctx = Ret (ctx, None).

Lemma dispatch_none sp l ci depth ctx :
  Forall (ignores ci depth) l → dispatch sp l ci depth ctx = Ret (ctx, None).
Proof.
  induction 1 as [|i l Hi _ IH]; [done|]. simpl. rewrite Hi. simpl.
  by destruct (MegaSpecId.is_enabled sp _).
Qed.

Lemma dispatch_only sp before i after ci depth ctx :
  Forall (ignores ci depth) before → Forall (ignores ci depth) after →
  dispatch sp (before ++ i :: after) ci depth ctx =
    if MegaSpecId.is_enabled sp (ACTIVATION_SPEC i) then intercept i ci depth ctx
    else Ret (ctx, None).
Proof.
  intros Hb Ha. induction Hb as [|b before Hi _ IH]; simpl.
  - destruct (MegaSpecId.is_enabled sp _); [|by apply dispatch_none].
    destruct (intercept i ci depth ctx) as [[c [r|]]|]; simpl; [done|by apply dispatch_none|done].
  - rewrite Hi. simpl. rewrite IH. by destruct (MegaSpecId.is_enabled sp (ACTIVATION_SPEC b)).
Qed.

Ltac ignores_tac a Ha :=
  repeat constructor; intros x; simpl;
  first [apply keyless_other|apply access_control_other|apply limit_control_other];
  fold a; rewrite Ha; done.

(** The dispatch, by address. *)
Lemma dispatch_by_address ci depth ctx :
  dispatch_system_contract_interceptors ci depth ctx =
    let c := hinted ci ctx in
    let a := cin_target_address ci in
    if decide (a = KEYLESS_DEPLOY_ADDRESS) then
      if MegaSpecId.is_enabled (spec ctx) REX2 &&
         (negb (disable_sandbox ctx) && bool_decide (depth = 0)) then
        match decode_keylessDeploy (cin_input ci) with
        | Some (t, g) => '(c, r) ← execute_keyless_deploy_call (Gas:=Gas) ci t g c; Ret (c, Some r)
        | None => Ret (c, None)
        end
      else Ret (c, None)
    else if MegaSpecId.is_enabled (spec ctx) REX4 then
      if decide (a = ACCESS_CONTROL_ADDRESS) then
        Ret match access_control_spec ci depth c with
            | Some (t, r) => (MegaContext.with_volatile t c, Some r)
            | None => (c, None)
            end
      else if decide (a = LIMIT_CONTROL_ADDRESS) then
        match decode_remainingComputeGas (cin_input ci) with
        | Some _ =>
            if cin_transfers_value ci then
              Ret (c, Some (synthetic ci Revert NonZeroTransfer_SELECTOR))
            else
              remaining ← AdditionalLimit.current_call_remaining_compute_gas (additional_limit c);
              Ret (c, Some (synthetic ci Return (encode_remainingComputeGas_returns remaining)))
        | None => Ret (c, None)
        end
      else Ret (c, None)
    else Ret (c, None).
Proof.
  unfold dispatch_system_contract_interceptors. simpl intercept. simpl ACTIVATION_SPEC.
  rewrite hint_step. cbn [mbind outcome_bind].
  pose proof (hinted_kept ci ctx) as [_ Hsb]. set (c := hinted ci ctx) in *. cbv zeta.
  set (a := cin_target_address ci).
  destruct (decide (a = KEYLESS_DEPLOY_ADDRESS)) as [Hk|Hk];
    [|destruct (decide (a = ACCESS_CONTROL_ADDRESS)) as [Ha|Ha];
      [|destruct (decide (a = LIMIT_CONTROL_ADDRESS)) as [Hl|Hl]]].
  - etrans; [apply (dispatch_only _ [] KeylessDeployInterceptor); ignores_tac a Hk|].
    simpl. unfold KeylessDeployInterceptor_intercept. fold a.
    rewrite (bool_decide_true (a = _)) by done. unfold MegaContext.is_sandbox_disabled. rewrite Hsb.
    by destruct (MegaSpecId.is_enabled (spec ctx) REX2), (disable_sandbox ctx),
      (bool_decide (depth = 0)).
  - etrans; [apply (dispatch_only _ [KeylessDeployInterceptor] AccessControlInterceptor); ignores_tac a Ha|].
    simpl. by rewrite access_control_exact.
  - etrans; [apply (dispatch_only _ [KeylessDeployInterceptor; AccessControlInterceptor]
      LimitControlInterceptor); ignores_tac a Hl|].
    simpl. unfold LimitControlInterceptor_intercept. fold a.
    rewrite (bool_decide_true (a = _)), reject_spec by done. simpl.
    destruct (decode_remainingComputeGas _) as [[]|]; [|done].
    by destruct (cin_transfers_value ci).
  - rewrite dispatch_none; [by destruct (MegaSpecId.is_enabled (spec ctx) REX4)|].
    repeat constructor; intros x; simpl;
      first [by apply keyless_other|by apply access_control_other|by apply limit_control_other].
Qed.

Lemma access_control_answers ci depth ctx :
  is_Some (access_control_spec ci depth ctx) ↔
    is_Some (decode_disableVolatileDataAccess (cin_input ci)) ∨
    is_Some (decode_enableVolatileDataAccess (cin_input ci)) ∨
    is_Some (decode_isVolatileDataAccessDisabled (cin_input ci)).
Proof.
  unfold access_control_spec. rewrite <-!not_eq_None_Some. repeat case_match; naive_solver.
Qed.

Ltac settled := rewrite !is_Some_alt; simpl; intuition congruence.
Lemma intercepted_exactly ci depth ctx ctx' (r : option (FrameResult Gas)) :
  dispatch_system_contract_interceptors ci depth ctx = Ret (ctx', r) →
  is_Some r ↔ intercepted ci depth ctx.
Proof.
  rewrite dispatch_by_address. cbv zeta. unfold intercepted.
  assert (KEYLESS_DEPLOY_ADDRESS ≠ ACCESS_CONTROL_ADDRESS) by done.
  assert (KEYLESS_DEPLOY_ADDRESS ≠ LIMIT_CONTROL_ADDRESS) by done.
  assert (ACCESS_CONTROL_ADDRESS ≠ LIMIT_CONTROL_ADDRESS) by done.
  set (a := cin_target_address ci). rewrite <-access_control_answers with (depth:=depth) (ctx:=ctx).
  destruct (decide (a = KEYLESS_DEPLOY_ADDRESS)) as [Hk|Hk];
    [|destruct (MegaSpecId.is_enabled (spec ctx) REX4);
      [destruct (decide (a = ACCESS_CONTROL_ADDRESS)) as [Ha|Ha];
        [|destruct (decide (a = LIMIT_CONTROL_ADDRESS)) as [Hl|Hl]]|]].
  - destruct (MegaSpecId.is_enabled (spec ctx) REX2), (disable_sandbox ctx); simpl;
      [intros [= <- <-]; settled| |intros [= <- <-]; settled..].
    case_bool_decide; [|intros [= <- <-]; settled].
    destruct (decode_keylessDeploy _) as [[t g]|]; [|intros [= <- <-]; settled].
    intros ([c x]&_&Hr)%bind_Ret. simplify_eq/=. settled.
  - rewrite hinted_other by (fold a; rewrite Ha; done).
    destruct (access_control_spec ci depth ctx) as [[t x]|]; intros [= <- <-]; settled.
  - destruct (decode_remainingComputeGas _) as [u|]; [|intros [= <- <-]; settled].
    destruct (cin_transfers_value ci); [intros [= <- <-]; settled|].
    intros (rem&_&Hr)%bind_Ret. simplify_eq/=. settled.
  - intros [= <- <-]. settled.
  - intros [= <- <-]. settled.
Qed.
End dispatch.

(** C38: Interception is decided by the address, the function and the spec, whatever order
    the interceptors run in: exactly the calls of an active function of the three
    contracts are intercepted, the keyless deployment from Rex2, at depth 0 and outside a
    sandbox only, the others from Rex4.  Any other call changes nothing, except that from
    Rex2 on a hint to the oracle contract reaches its environment.  The keyless contract
    runs its sandbox.  The access control contract touches nothing but the access tracker,
    as its function says; the limit control contract changes nothing and reports the
    remaining compute gas.  These two keep all the gas of the call, and refuse a call that
    carries value without any effect. *)
Theorem interception_by_address `{Profile} `{BitflagsApi} `{InstructionResultApi}
    `{SStoreApi} `{AbiApi} `{KeylessAbi} `{InterceptAbi} {Gas : Type} `{GasApi Gas}
    (gas_laws : GasLaws Gas) {Sig : Type} `{KeylessTxApi Sig} {DB E Bytecode S O Log : Type}
    {revm : RevmState Bytecode} {bytecode : BytecodeApi Bytecode}
    {database : Database DB E Bytecode} {display : Display E} {oracle : OracleEnv O}
    {sandbox : SandboxEvm (Journal DB Bytecode) (SandboxDb DB Bytecode) S O Bytecode Log}
    call_inputs depth (ctx ctx' : MegaContext (Journal DB Bytecode) S O)
    (r : option (FrameResult Gas)) :
  in_u64 (cin_gas_limit call_inputs) →
  dispatch_system_contract_interceptors call_inputs depth ctx = Ret (ctx', r) →
  let a := cin_target_address call_inputs in
  (is_Some r ↔ intercepted call_inputs depth ctx) ∧
  match r with
  | None => ctx' = hinted call_inputs ctx
  | Some res =>
      (a = KEYLESS_DEPLOY_ADDRESS ∧ MegaSpecId.is_enabled (spec ctx) REX2 = true ∧
       disable_sandbox ctx = false ∧ depth = 0 ∧
       ∃ t g, decode_keylessDeploy (cin_input call_inputs) = Some (t, g) ∧
         execute_keyless_deploy_call call_inputs t g ctx = Ret (ctx', res)) ∨
      (MegaSpecId.is_enabled (spec ctx) REX4 = true ∧
       gas_remaining (frame_result_gas res) = cin_gas_limit call_inputs ∧
       (cin_transfers_value call_inputs = true →
          ctx' = ctx ∧ res = synthetic call_inputs Revert NonZeroTransfer_SELECTOR) ∧
       ((a = ACCESS_CONTROL_ADDRESS ∧
         ∃ t, access_control_spec call_inputs depth ctx = Some (t, res) ∧
           ctx' = MegaContext.with_volatile t ctx) ∨
        (a = LIMIT_CONTROL_ADDRESS ∧ ctx' = ctx ∧
         (cin_transfers_value call_inputs = false →
          ∃ remaining,
            AdditionalLimit.current_call_remaining_compute_gas (additional_limit ctx) =
              Ret remaining ∧
            res = synthetic call_inputs Return (encode_remainingComputeGas_returns remaining)))))
  end.
Proof.
  intros Hgas Hd a. split; [by apply (intercepted_exactly _ _ _ _ _ Hd)|].
  rewrite dispatch_by_address in Hd. cbv zeta in Hd. fold a in Hd.
  assert (∀ r out, gas_remaining (frame_result_gas (synthetic (Gas:=Gas) call_inputs r out)) =
    cin_gas_limit call_inputs) as Hfree by (intros; by apply gas_remaining_new).
  destruct (decide (a = KEYLESS_DEPLOY_ADDRESS)) as [Hk|Hk].
  { assert (hinted call_inputs ctx = ctx) as Hh by (apply hinted_other; fold a; rewrite Hk; done).
    rewrite Hh in Hd.
    destruct (MegaSpecId.is_enabled (spec ctx) REX2 && _) eqn:Hon; [|by simplify_eq; rewrite Hh].
    apply andb_true_iff in Hon as [Hrex2 [Hsb Hdepth%bool_decide_eq_true]%andb_true_iff].
    apply negb_true_iff in Hsb.
    destruct (decode_keylessDeploy (cin_input call_inputs)) as [[t g]|] eqn:Hdec;
      [|by simplify_eq; rewrite Hh].
    apply bind_Ret in Hd as ([c x]&Hex&Hd). simplify_eq/=. left. split_and!; try done.
    by exists t, g. }
  destruct (MegaSpecId.is_enabled (spec ctx) REX4) eqn:Hrex4; [|by simplify_eq].
  destruct (decide (a = ACCESS_CONTROL_ADDRESS)) as [Ha|Ha].
  { assert (hinted call_inputs ctx = ctx) as Hh by (apply hinted_other; fold a; rewrite Ha; done).
    rewrite Hh in Hd.
    destruct (access_control_spec call_inputs depth ctx) as [[t x]|] eqn:Hspec;
      simplify_eq/=; [|by rewrite Hh].
    right. split; [done|].
    assert (gas_remaining (frame_result_gas x) = cin_gas_limit call_inputs ∧
      (cin_transfers_value call_inputs = true →
         t = volatile_data_tracker ctx ∧
         x = synthetic call_inputs Revert NonZeroTransfer_SELECTOR)) as [Hg Ht].
    { unfold access_control_spec in Hspec. repeat case_match; simplify_eq/=; naive_solver. }
    split_and!; [done| |left; split; [done|]; by exists t].
    intros Hv. destruct (Ht Hv) as [-> ->]. by rewrite with_volatile_same. }
  destruct (decide (a = LIMIT_CONTROL_ADDRESS)) as [Hl|Hl]; [|by simplify_eq].
  assert (hinted call_inputs ctx = ctx) as Hh by (apply hinted_other; fold a; rewrite Hl; done).
    rewrite Hh in Hd.
  destruct (decode_remainingComputeGas _) as [[]|]; [|by simplify_eq; rewrite Hh].
  destruct (cin_transfers_value call_inputs) eqn:Hv.
  - simplify_eq/=. right. split_and!; try done. by right.
  - apply bind_Ret in Hd as (rem&Hrem&Hd). simplify_eq/=. right.
    split_and!; try done. right. split_and!; try done. by exists rem.
Qed.

(** ** A concrete ABI for the witness: a call is its first byte *)
Section example.
#[local] Existing Instances reference_revm example_database checked_build
  reference_instruction_result reference_sstore reference_gas reference_abi reference_bitflags
  reference_keyless_abi example_display example_bytecode example_keyless_tx example_evm.

#[local] Instance example_intercept_abi : InterceptAbi := {|
  decode_sendHint b := match b with Byte.x01 :: data => Some (7, data) | _ => None end;
  decode_keylessDeploy b := match b with Byte.x02 :: t => Some (t, 60000) | _ => None end;
  decode_disableVolatileDataAccess b := match b with [Byte.x03] => Some tt | _ => None end;
  decode_enableVolatileDataAccess b := match b with [Byte.x04] => Some tt | _ => None end;
  decode_isVolatileDataAccessDisabled b := match b with [Byte.x05] => Some tt | _ => None end;
  decode_remainingComputeGas b := match b with [Byte.x06] => Some tt | _ => None end;
  encode_isVolatileDataAccessDisabled_returns b := if b then [Byte.x01] else [Byte.x00];
  encode_remainingComputeGas_returns n := repeat Byte.x00 (Z.to_nat (Z.min n 32));
  NonZeroTransfer_SELECTOR := [Byte.xf1];
  DisabledByParent_SELECTOR := [Byte.xf2];
  VolatileDataAccessDisabled_SELECTOR := [Byte.xf3] |}.

Definition control_call (b : Byte.byte) (value : CallValue) : CallInputs :=
  Build_CallInputs ACCESS_CONTROL_ADDRESS ACCESS_CONTROL_ADDRESS 1 value 5000 (0, 32) [b] SchemeCall.

(** The call at depth 3 disables access; with value it is refused. *)
Lemma interception_by_address_witness :
  let ctx := keyless_context REX4 (AdditionalLimit.new REX4 keyless_limits) in
  ∃ ctx' res, dispatch_system_contract_interceptors (Gas:=RefGas)
      (control_call Byte.x03 (ValueTransfer 0)) 3 ctx = Ret (ctx', Some res) ∧
    disable_depth (volatile_data_tracker ctx') = Some 3 ∧
    instruction_result res = Return ∧ gas_remaining (frame_result_gas res) = 5000.
Proof.
  intros ctx.
  assert (∃ ctx' res, dispatch_system_contract_interceptors (Gas:=RefGas)
      (control_call Byte.x03 (ValueTransfer 0)) 3 ctx = Ret (ctx', Some res) ∧
    disable_depth (volatile_data_tracker ctx') = Some 3 ∧ instruction_result res = Return)
    as (ctx' & res & Hd & Hdep & Hres).
  { eexists _, _. split; [vm_compute; reflexivity|]. split; reflexivity. }
  exists ctx', res. split_and!; [exact Hd|exact Hdep|exact Hres|].
  assert (in_u64 (cin_gas_limit (control_call Byte.x03 (ValueTransfer 0)))) as Hin
    by (simpl; u64_lia).
  destruct (interception_by_address reference_gas_laws _ 3 ctx ctx' (Some res) Hin Hd)
    as [_ [(Ha & _)|(_ & Hg & _)]]; [vm_compute in Ha; discriminate Ha|exact Hg].
Defined.
End example.
