(* ===== verification/Instructions.v ===== *)
(** * The instruction table

    Models [evm/instructions.rs] and the journal inspection of the context in
    [evm/host.rs]: the layers that wrap [revm]'s instructions (compute gas, storage
    gas, additional limits, the 98/100 forwarding rule, volatile data) and the
    table of each spec.  [revm]'s own instructions are an interface. *)
From S2P Require Import Prelude Spec Deps Volatile LimitTypes FrameLimit Trackers AdditionalLimit.
From S2P Require Import EvmState Inspect StorageGas SystemContracts Context Sandbox Intercept.
Open Scope Z_scope.
#[local] Set Warnings "-notation-for-abbreviation".

(** ** The interpreter of [revm]: the stack with its top last, the memory of the
    frame, the gas, the address whose state is executed on, the pending action, and
    the rest. *)
Record Interpreter (Gas R : Type) := mkInterpreter {
  int_stack : list U256;
  int_memory : Bytes;
  int_gas : Gas;
  int_target_address : Address;
  int_action : option (InterpreterAction Gas);
  int_rest : R;
}.
Arguments mkInterpreter {Gas R}.
Arguments int_stack {Gas R}.
Arguments int_memory {Gas R}.
Arguments int_gas {Gas R}.
Arguments int_target_address {Gas R}.
Arguments int_action {Gas R}.
Arguments int_rest {Gas R}.

Section interpreter.
Context {Gas R : Type}.
Implicit Types i : Interpreter Gas R.
Definition with_int_gas (g : Gas) i : Interpreter Gas R :=
  mkInterpreter (int_stack i) (int_memory i) g (int_target_address i) (int_action i) (int_rest i).
Definition with_action (a : option (InterpreterAction Gas)) i : Interpreter Gas R :=
  mkInterpreter (int_stack i) (int_memory i) (int_gas i) (int_target_address i) a (int_rest i).

(** [bytecode.instruction_result()]: the result of a pending return. *)
Definition pending_result i : option InstructionResult :=
  match int_action i with Some (ActionReturn r) => Some (ir_result r) | _ => None end.

(** [StackInspectTr] for [Stack]. *)
Definition inspect (N : nat) i : option U256 :=
  let len := length (int_stack i) in
  if decide (len ≤ N)%nat then None else int_stack i !! (len - 1 - N)%nat.
End interpreter.

(** [revm]'s helpers on the interpreter: [halt], the macros [as_usize_or_fail!] (the
    value, or the interpreter it halted) and [gas!] (false when it halted), a slice
    of memory, and the address in a word. *)
Class InterpreterApi (Gas R : Type) := {
  halt : InstructionResult → Interpreter Gas R → Interpreter Gas R;
  as_usize_or_fail : U256 → Interpreter Gas R → result Z (Interpreter Gas R);
  charge_gas : Z → Interpreter Gas R → Interpreter Gas R * bool;
  memory_slice_len : Z → Z → Bytes → outcome Bytes;
  into_address : U256 → Address;
}.

(** What [revm] documents of them; a slice of memory that was not paid for yet is out
    of bounds. *)
Class InterpreterLaws (Gas R : Type) `{InstructionResultApi} `{GasApi Gas}
    `{InterpreterApi Gas R} : Prop := {
  halt_spec r i :
    halt r i = with_action (Some (ActionReturn (mkInterpreterResult r Bytes_new (int_gas i)))) i;
  as_usize_fits v i : in_u64 v → as_usize_or_fail v i = Ok v;
  as_usize_fails v i : u64_max < v →
    ∃ r, as_usize_or_fail v i = Err (halt r i) ∧ ir_is_error r = true;
  charge_gas_spec c i :
    charge_gas c i =
      match gas_record_cost (int_gas i) c with
      | (g, true) => (with_int_gas g i, true)
      | (_, false) => (halt OutOfGas i, false)
      end;
  memory_slice_inside o n m : 0 ≤ o → 0 ≤ n → o + n ≤ Z.of_nat (length m) →
    memory_slice_len o n m = Ret (take (Z.to_nat n) (drop (Z.to_nat o) m));
  memory_slice_outside o n m : 0 ≤ o → 0 ≤ n → Z.of_nat (length m) < o + n →
    memory_slice_len o n m = Panic;
}.

(** The addresses of created contracts, and the nonce an account shows. *)
Class CreateApi (Account : Type) := {
  account_nonce : Account → Z;
  create_address : Address → Z → Address;
  create2_address : Address → U256 → Z → Address;
  keccak256 : Bytes → Z;
}.

(** [inspect_storage] of the journal: the original and the present value of a slot. *)
Class StorageInspectTr (J E : Type) := {
  inspect_slot : MegaSpecId → Address → U256 → J → outcome (J * result (U256 * U256) E);
}.

(** [Inspect.inspect_storage] with a fuel that is enough. *)
#[export] Instance journal_storage_inspect {DB E Bytecode} `{RevmState Bytecode}
    `{Database DB E Bytecode} (fuel : nat) (out_of_fuel : E) :
    StorageInspectTr (Journal DB Bytecode) E := {|
  inspect_slot spec address key j :=
    match inspect_storage fuel spec address key j with
    | Some o =>
        '(j, r) ← o;
        Ret (j, match r with
                | Ok slot => Ok (slot_original_value slot, slot_present_value slot)
                | Err e => Err e
                end)
    | None => Ret (j, Err out_of_fuel)
    end |}.

(** ** Opcodes; [PUSH n], [DUP n], [SWAP n] and [LOG n] are the families [PUSH1] and so
    on, [UNDEFINED] is any byte without a name. *)
Module opcode.
Inductive Opcode : Set :=
  | STOP | ADD | MUL | SUB | DIV | SDIV | MOD | SMOD | ADDMOD | MULMOD | EXP | SIGNEXTEND
  | LT | GT | SLT | SGT | EQ | ISZERO | AND | OR | XOR | NOT | BYTE | SHL | SHR | SAR | CLZ
  | KECCAK256
  | ADDRESS | BALANCE | ORIGIN | CALLER | CALLVALUE | CALLDATALOAD | CALLDATASIZE
  | CALLDATACOPY | CODESIZE | CODECOPY | GASPRICE | EXTCODESIZE | EXTCODECOPY | EXTCODEHASH
  | RETURNDATASIZE | RETURNDATACOPY
  | BLOCKHASH | COINBASE | TIMESTAMP | NUMBER | DIFFICULTY | GASLIMIT | CHAINID | SELFBALANCE
  | BASEFEE | BLOBBASEFEE | BLOBHASH
  | POP | MLOAD | MSTORE | MSTORE8 | SLOAD | SSTORE | JUMP | JUMPI | PC | MSIZE | GAS
  | JUMPDEST | TLOAD | TSTORE | MCOPY | PUSH0
  | PUSH (n : nat) | DUP (n : nat) | SWAP (n : nat) | LOG (n : nat)
  | CREATE | CREATE2 | CALL | CALLCODE | DELEGATECALL | STATICCALL
  | INVALID | RETURN | REVERT | SELFDESTRUCT
  | UNDEFINED (byte : Z).

#[export] Instance Opcode_eq_dec : EqDecision Opcode.
Proof. solve_decision. Defined.
End opcode.
Import opcode.

(** The functions of [revm::interpreter::instructions], by module and name. *)
Inductive RevmFn : Set :=
  | control_stop | control_jump | control_jumpi | control_pc | control_jumpdest | control_ret
  | control_revert | control_invalid | control_unknown
  | arithmetic_add | arithmetic_mul | arithmetic_sub | arithmetic_div | arithmetic_sdiv
  | arithmetic_rem | arithmetic_smod | arithmetic_addmod | arithmetic_mulmod | arithmetic_exp
  | arithmetic_signextend
  | bitwise_lt | bitwise_gt | bitwise_slt | bitwise_sgt | bitwise_eq | bitwise_iszero
  | bitwise_bitand | bitwise_bitor | bitwise_bitxor | bitwise_not | bitwise_byte | bitwise_shl
  | bitwise_shr | bitwise_sar | bitwise_clz
  | system_keccak256 | system_address | system_caller | system_callvalue | system_calldataload
  | system_calldatasize | system_calldatacopy | system_codesize | system_codecopy
  | system_returndatasize | system_returndatacopy | system_gas
  | tx_info_origin | tx_info_gasprice | tx_info_blob_hash
  | block_info_coinbase | block_info_timestamp | block_info_block_number
  | block_info_difficulty | block_info_gaslimit | block_info_chainid | block_info_basefee
  | block_info_blob_basefee
  | host_balance | host_extcodesize | host_extcodecopy | host_extcodehash | host_blockhash
  | host_selfbalance | host_sload | host_sstore | host_tload | host_tstore | host_log (n : nat)
  | host_selfdestruct
  | stack_pop | stack_push0 | stack_push (n : nat) | stack_dup (n : nat) | stack_swap (n : nat)
  | memory_mload | memory_mstore | memory_mstore8 | memory_msize | memory_mcopy
  | contract_create (is_create2 : bool) | contract_call | contract_call_code
  | contract_delegate_call | contract_static_call.

(** ** [u128] arithmetic of the forwarding rule *)
Definition u128_max : Z := 340282366920938463463374607431768211455.
Definition fit_u128 `{Profile} (x : Z) : outcome Z :=
  if decide (0 ≤ x ≤ u128_max) then Ret x
  else if overflow_checks then Panic
  else Ret (x mod (u128_max + 1)).

Definition with_call_gas_limit (g : Z) (ci : CallInputs) : CallInputs :=
  Build_CallInputs (cin_target_address ci) (cin_bytecode_address ci) (cin_caller ci)
    (cin_value ci) g (cin_return_memory_offset ci) (cin_input ci) (cin_scheme ci).
Definition with_create_gas_limit (g : Z) (ci : CreateInputs) : CreateInputs :=
  Build_CreateInputs (crin_caller ci) g.

(** ** [JournalInspectTr] for [MegaContext]: a database error is kept in the context *)
Section inspection.
Context {J S O E Account : Type} {display : Display E} `{JournalInspectTr J E Account}
  `{StorageInspectTr J E}.
Implicit Types self : MegaContext J S O.

Definition stash_error {A} (j : J) (r : result A E) self : MegaContext J S O * result A unit :=
  let self := MegaContext.with_inner (MegaContext.set_journal j (inner self)) self in
  match r with
  | Ok a => (self, Ok a)
  | Err e =>
      (MegaContext.with_inner (MegaContext.set_error (to_string e) (inner self)) self, Err tt)
  end.

Definition ctx_inspect_account_delegated (spec : MegaSpecId) (address : Address) self :
    MegaContext J S O * result Account unit :=
  let '(j, r) := Trackers.inspect_account_delegated spec address (MegaContext.journal self) in
  stash_error j r self.

Definition ctx_inspect_storage (spec : MegaSpecId) (address : Address) (key : U256) self :
    outcome (MegaContext J S O * result (U256 * U256) unit) :=
  '(j, r) ← inspect_slot spec address key (MegaContext.journal self);
  Ret (stash_error j r self).
End inspection.

(** [revm]'s instructions on the context; an instruction reaches the context only
    through the methods of its host, none of which touches the limits. *)
Class RevmInstructions (Gas R Ctx : Type) := {
  revm : RevmFn → Interpreter Gas R → Ctx → outcome (Interpreter Gas R * Ctx);
}.

Class RevmInstructionLaws (Gas R J S O : Type)
    `{RevmInstructions Gas R (MegaContext J S O)} : Prop := {
  revm_keeps_limits f i h i' h' :
    revm f i h = Ret (i', h') → additional_limit h' = additional_limit h ∧ spec h' = spec h;
}.

Section instructions.
Context `{Profile} `{BitflagsApi} `{InstructionResultApi} `{SStoreApi} `{AbiApi}
  `{RevmGasConstants} {Gas R J S O SE SD AL E Account : Type} `{GasApi Gas}
  `{InterpreterApi Gas R} {display : Display E} {show : Display SE} {salt : SaltEnv S SE}
  {host : OpHost J SD AL} `{JournalInspectTr J E Account} `{StorageInspectTr J E}
  `{AccountApi Account} `{CreateApi Account} `{RevmInstructions Gas R (MegaContext J S O)}.
Notation Int := (Interpreter Gas R).
Notation Ctx := (MegaContext J S O).
Notation Instruction := (Int → Ctx → outcome (Int * Ctx)).
Implicit Types (i : Int) (h : Ctx) (inner_fn : Instruction).

Definition pending_error i : bool :=
  match pending_result i with Some r => ir_is_error r | None => false end.

(** [run_inner_instruction_or_abort!], with what follows it. *)
Definition run_inner_or_abort inner_fn i h (k : Instruction) : outcome (Int * Ctx) :=
  '(i, h) ← inner_fn i h;
  if pending_error i then Ret (i, h) else k i h.

(** [compute_gas!]. *)
Definition record_compute_gas_or_halt (gas_used : Z) i h : outcome (Int * Ctx) :=
  '(al, within) ← AdditionalLimit.record_compute_gas gas_used (additional_limit h);
  let h := MegaContext.with_additional_limit al h in
  if within : bool then Ret (i, h)
  else Ret (halt (AdditionalLimit.exceeding_instruction_result al) i, h).

(** The gas of a child frame that an instruction asks for. *)
Definition forwarded_gas i : Z :=
  match int_action i with
  | Some (ActionNewFrame (FrameInputCall call_inputs)) => cin_gas_limit call_inputs
  | Some (ActionNewFrame (FrameInputCreate create_inputs)) => crin_gas_limit create_inputs
  | _ => 0
  end.

(** *** [compute_gas_ext]: [wrap_op_compute_gas!] *)
Definition compute_gas_ext (original_fn : RevmFn) : Instruction := λ i h,
  let gas_before := gas_remaining (int_gas i) in
  run_inner_or_abort (revm original_fn) i h (λ i h,
    let gas_used := sat_sub gas_before (gas_remaining (int_gas i)) in
    let gas_used := sat_sub gas_used (forwarded_gas i) in
    record_compute_gas_or_halt gas_used i h).

(** *** [storage_gas_ext] *)

(** [gas!], with what follows it. *)
Definition gas_or_abort (cost : Z) i h (k : Instruction) : outcome (Int * Ctx) :=
  match charge_gas cost i with
  | (i, true) => k i h
  | (i, false) => Ret (i, h)
  end.

(** [let Some(gas) = .. else { halt(FatalExternalError) }]. *)
Definition storage_gas_or_abort (r : outcome (Ctx * option Z)) i (k : Z → Instruction) :
    outcome (Int * Ctx) :=
  '(h, gas) ← r;
  match gas with
  | None => Ret (halt FatalExternalError i, h)
  | Some gas => gas_or_abort gas i h (k gas)
  end.

(** [wrap_call_with_storage_gas!]. *)
Definition storage_gas_call (wrapped_fn : Instruction) (has_transfer_logic : bool) :
    Instruction := λ i h,
  match inspect 1 i with
  | None => Ret (halt StackUnderflow i, h)
  | Some to =>
    let to := into_address to in
    let '(h, to_account) := ctx_inspect_account_delegated (spec h) to h in
    match to_account with
    | Err _ => Ret (halt FatalExternalError i, h)
    | Ok to_account =>
      let is_empty := state_clear_aware_is_empty to_account in
      match (if has_transfer_logic
             then (λ value, negb (bool_decide (value = 0))) <$> inspect 2 i
             else Some false) with
      | None => Ret (halt StackUnderflow i, h)
      | Some has_transfer =>
          if is_empty && has_transfer then
            storage_gas_or_abort (HostExt.new_account_storage_gas to_string to h) i (λ _ i h,
              run_inner_or_abort wrapped_fn i h (λ i h, Ret (i, h)))
          else run_inner_or_abort wrapped_fn i h (λ i h, Ret (i, h))
      end
    end
  end.

(** The address of the new contract, or the interpreter halted. *)
Definition created_address (IS_CREATE2 : bool) (creator_address : Address) (creator : Account) i :
    outcome (result Address Int) :=
  if IS_CREATE2 then
    match inspect 1 i with None => Ret (Err (halt StackUnderflow i)) | Some initcode_offset =>
    match inspect 2 i with None => Ret (Err (halt StackUnderflow i)) | Some initcode_len =>
    match as_usize_or_fail initcode_offset i with Err i => Ret (Err i) | Ok initcode_offset =>
    match as_usize_or_fail initcode_len i with Err i => Ret (Err i) | Ok initcode_len =>
      code ← memory_slice_len initcode_offset initcode_len (int_memory i);
      let initcode_hash := keccak256 code in
      match inspect 3 i with None => Ret (Err (halt StackUnderflow i)) | Some salt =>
      Ret (Ok (create2_address creator_address salt initcode_hash))
      end end end end end
  else Ret (Ok (create_address creator_address (account_nonce creator))).

Definition storage_gas_create (IS_CREATE2 : bool) : Instruction := λ i h,
  let creator_address := int_target_address i in
  let '(h, creator) := ctx_inspect_account_delegated (spec h) creator_address h in
  match creator with
  | Err _ => Ret (halt FatalExternalError i, h)
  | Ok creator =>
    address ← created_address IS_CREATE2 creator_address creator i;
    match address with
    | Err i => Ret (i, h)
    | Ok address =>
      let create_contract_storage_gas :=
        if MegaSpecId.is_enabled (spec h) REX
        then HostExt.create_contract_storage_gas to_string address h
        else HostExt.new_account_storage_gas to_string address h in
      storage_gas_or_abort create_contract_storage_gas i (λ _ i h,
        run_inner_or_abort (compute_gas_ext (contract_create IS_CREATE2)) i h
          (λ i h, Ret (i, h)))
    end
  end.

Definition log_storage_cost (N len : Z) : option Z :=
  let topic_cost := checked_mul constants.mini_rex.LOG_TOPIC_STORAGE_GAS N in
  let data_cost := checked_mul constants.mini_rex.LOG_DATA_STORAGE_GAS len in
  topic ← topic_cost; cost ← data_cost; checked_add cost topic.

Definition storage_gas_log (N : nat) : Instruction := λ i h,
  match inspect 1 i with
  | None => Ret (halt StackUnderflow i, h)
  | Some len =>
    match as_usize_or_fail len i with
    | Err i => Ret (i, h)
    | Ok len =>
      match log_storage_cost (Z.of_nat N) len with
      | None => Ret (halt OutOfGas i, h)
      | Some cost =>
          gas_or_abort cost i h (λ i h,
            if decide (N ≤ 4)%nat
            then run_inner_or_abort (compute_gas_ext (host_log N)) i h (λ i h, Ret (i, h))
            else Ret (halt InvalidFEOpcode i, h))
      end
    end
  end.

Definition storage_gas_sstore : Instruction := λ i h,
  let target_address := int_target_address i in
  match inspect 0 i with
  | None => Ret (halt StackUnderflow i, h)
  | Some index =>
    '(h, slot) ← ctx_inspect_storage (spec h) target_address index h;
    match slot with
    | Err _ => Ret (halt FatalExternalError i, h)
    | Ok (original_value, present_value) =>
      match inspect 1 i with
      | None => Ret (halt StackUnderflow i, h)
      | Some new_value =>
          if bool_decide (original_value = 0) && bool_decide (present_value = 0) &&
             negb (bool_decide (new_value = 0)) then
            storage_gas_or_abort (HostExt.sstore_set_storage_gas to_string target_address index h) i
              (λ _ i h, run_inner_or_abort (compute_gas_ext host_sstore) i h (λ i h, Ret (i, h)))
          else run_inner_or_abort (compute_gas_ext host_sstore) i h (λ i h, Ret (i, h))
      end
    end
  end.

(** *** [additional_limit_ext] *)
Definition limit_or_halt (r : outcome (AdditionalLimit * bool)) i h : outcome (Int * Ctx) :=
  '(al, within) ← r;
  let h := MegaContext.with_additional_limit al h in
  if within : bool then Ret (i, h)
  else Ret (halt (AdditionalLimit.exceeding_instruction_result al) i, h).

Definition additional_limit_sstore : Instruction := λ i h,
  let target_address := int_target_address i in
  match inspect 0 i with
  | None => Ret (halt StackUnderflow i, h)
  | Some index =>
    '(h, slot) ← ctx_inspect_storage (spec h) target_address index h;
    match slot with
    | Err _ => Ret (halt FatalExternalError i, h)
    | Ok (original_value, present_value) =>
      match inspect 1 i with
      | None => Ret (halt StackUnderflow i, h)
      | Some new_value =>
          let loaded_data := Build_SStoreResult original_value present_value new_value in
          run_inner_or_abort storage_gas_sstore i h (λ i h,
            limit_or_halt (AdditionalLimit.on_sstore (J:=J) (E:=E) (Gas:=Gas) loaded_data
                             (additional_limit h)) i h)
      end
    end
  end.

Definition additional_limit_log (N : nat) : Instruction := λ i h,
  match inspect 1 i with
  | None => Ret (halt StackUnderflow i, h)
  | Some len =>
    match as_usize_or_fail len i with
    | Err i => Ret (i, h)
    | Ok len =>
        run_inner_or_abort (storage_gas_log N) i h (λ i h,
          limit_or_halt (AdditionalLimit.on_log (Z.of_nat N) len (additional_limit h)) i h)
    end
  end.

(** *** [forward_gas_ext]: [wrap_gas_cap!] *)

(** The gas that goes to the child and the gas that goes back to the parent. *)
Definition cap_forwarded (forwarded_gas gas_left : Z) : outcome (Z * Z) :=
  parent_original_gas_left ← fit_u128 (gas_left + forwarded_gas);
  twice ← fit_u128 (parent_original_gas_left * 2);
  forwarded_gas_cap ← fit_u128 (parent_original_gas_left - twice / 100);
  let capped_forwarded_gas := Z.min forwarded_gas forwarded_gas_cap in
  gas_to_return ← fit_u128 (forwarded_gas - capped_forwarded_gas);
  Ret (capped_forwarded_gas, gas_to_return).

Definition forward_gas (wrapped_fn : Instruction) (has_transfer_logic : Int → bool) :
    Instruction := λ i h,
  let has_transfer := has_transfer_logic i in
  run_inner_or_abort wrapped_fn i h (λ i h,
    match int_action i with
    | Some (ActionNewFrame (FrameInputCall call_inputs)) =>
        let child_gas := cin_gas_limit call_inputs in
        let transfer_gas_stipend := if has_transfer then CALL_STIPEND else 0 in
        forwarded_gas ← fit_u128 (child_gas - transfer_gas_stipend);
        '(capped_forwarded_gas, gas_to_return) ←
          cap_forwarded forwarded_gas (gas_remaining (int_gas i));
        new_child_gas ← fit_u128 (capped_forwarded_gas + transfer_gas_stipend);
        let i := with_int_gas (gas_erase_cost (int_gas i) (as_u64 gas_to_return)) i in
        Ret (with_action (Some (ActionNewFrame (FrameInputCall
               (with_call_gas_limit (as_u64 new_child_gas) call_inputs)))) i, h)
    | Some (ActionNewFrame (FrameInputCreate create_inputs)) =>
        let child_gas := crin_gas_limit create_inputs in
        '(capped_forwarded_gas, gas_to_return) ←
          cap_forwarded child_gas (gas_remaining (int_gas i));
        let i := with_int_gas (gas_erase_cost (int_gas i) (as_u64 gas_to_return)) i in
        Ret (with_action (Some (ActionNewFrame (FrameInputCreate
               (with_create_gas_limit (as_u64 capped_forwarded_gas) create_inputs)))) i, h)
    | _ => Ret (i, h)
    end).

Definition check_call_has_transfer i : bool :=
  match inspect 2 i with Some value => negb (bool_decide (value = 0)) | None => false end.
Definition no_transfer i : bool := false.

Definition forward_gas_call : Instruction :=
  forward_gas (storage_gas_call (compute_gas_ext contract_call) true) check_call_has_transfer.
Definition forward_gas_call_code : Instruction :=
  forward_gas (storage_gas_call (compute_gas_ext contract_call_code) true)
    check_call_has_transfer.
Definition forward_gas_delegate_call : Instruction :=
  forward_gas (storage_gas_call (compute_gas_ext contract_delegate_call) false) no_transfer.
Definition forward_gas_static_call : Instruction :=
  forward_gas (storage_gas_call (compute_gas_ext contract_static_call) false) no_transfer.
Definition forward_gas_create : Instruction := forward_gas (storage_gas_create false) no_transfer.
Definition forward_gas_create2 : Instruction := forward_gas (storage_gas_create true) no_transfer.

(** *** [volatile_data_ext] *)
Definition apply_compute_gas_limit : Instruction := λ i h,
  match VolatileDataAccessTracker.get_compute_gas_limit (volatile_data_tracker h) with
  | Some limit =>
      al ← AdditionalLimit.set_compute_gas_limit limit (additional_limit h);
      Ret (i, MegaContext.with_additional_limit al h)
  | None => Ret (i, h)
  end.

(** The revert of an access that is disabled. *)
Definition revert_disabled (access_type : VolatileDataAccessType) i : Int :=
  with_action (Some (ActionReturn (mkInterpreterResult Revert
    (volatile_data_access_disabled_revert_data access_type) (int_gas i)))) i.

(** [wrap_op_detain_gas_unconditional!]. *)
Definition detain_gas_unconditional (access_type : VolatileDataAccessType)
    (original_fn : Instruction) : Instruction := λ i h,
  if HostExt.volatile_access_disabled h then Ret (revert_disabled access_type i, h)
  else run_inner_or_abort original_fn i h apply_compute_gas_limit.

(** Whether the word at a position of the stack names the beneficiary while access
    is disabled. *)
Definition disabled_beneficiary (position : nat) i h : bool :=
  match inspect position i with
  | Some addr_word =>
      bool_decide (into_address addr_word = HostExt.beneficiary_address h) &&
      HostExt.volatile_access_disabled h
  | None => false
  end.

(** [wrap_op_detain_gas_conditional!]. *)
Definition detain_gas_conditional (original_fn : Instruction) : Instruction := λ i h,
  if disabled_beneficiary 0 i h then Ret (revert_disabled Beneficiary i, h)
  else run_inner_or_abort original_fn i h apply_compute_gas_limit.

Definition volatile_sload : Instruction := λ i h,
  if bool_decide (int_target_address i = ORACLE_CONTRACT_ADDRESS) &&
     HostExt.volatile_access_disabled h
  then Ret (revert_disabled Oracle i, h)
  else run_inner_or_abort (compute_gas_ext host_sload) i h apply_compute_gas_limit.

(** [wrap_call_volatile_check!]. *)
Definition call_volatile_check (inner_fn : Instruction) : Instruction := λ i h,
  if disabled_beneficiary 1 i h then Ret (revert_disabled Beneficiary i, h) else inner_fn i h.

(** *** The tables; [family hi n] says that [n] is from 1 to [hi] *)
Definition family (hi n : nat) : bool := bool_decide (1 ≤ n ∧ n ≤ hi)%nat.
Definition set_handler (op : Opcode) (f : Instruction) (table : Opcode → Instruction) :
    Opcode → Instruction := λ o, if decide (o = op) then f else table o.

Definition mini_rex_instruction_table (op : Opcode) : Instruction :=
  match op with
  | STOP => compute_gas_ext control_stop
  | ADD => compute_gas_ext arithmetic_add
  | MUL => compute_gas_ext arithmetic_mul
  | SUB => compute_gas_ext arithmetic_sub
  | DIV => compute_gas_ext arithmetic_div
  | SDIV => compute_gas_ext arithmetic_sdiv
  | MOD => compute_gas_ext arithmetic_rem
  | SMOD => compute_gas_ext arithmetic_smod
  | ADDMOD => compute_gas_ext arithmetic_addmod
  | MULMOD => compute_gas_ext arithmetic_mulmod
  | EXP => compute_gas_ext arithmetic_exp
  | SIGNEXTEND => compute_gas_ext arithmetic_signextend
  | LT => compute_gas_ext bitwise_lt
  | GT => compute_gas_ext bitwise_gt
  | SLT => compute_gas_ext bitwise_slt
  | SGT => compute_gas_ext bitwise_sgt
  | EQ => compute_gas_ext bitwise_eq
  | ISZERO => compute_gas_ext bitwise_iszero
  | AND => compute_gas_ext bitwise_bitand
  | OR => compute_gas_ext bitwise_bitor
  | XOR => compute_gas_ext bitwise_bitxor
  | NOT => compute_gas_ext bitwise_not
  | BYTE => compute_gas_ext bitwise_byte
  | SHL => compute_gas_ext bitwise_shl
  | SHR => compute_gas_ext bitwise_shr
  | SAR => compute_gas_ext bitwise_sar
  | CLZ => compute_gas_ext bitwise_clz
  | KECCAK256 => compute_gas_ext system_keccak256
  | ADDRESS => compute_gas_ext system_address
  | BALANCE => detain_gas_conditional (compute_gas_ext host_balance)
  | ORIGIN => compute_gas_ext tx_info_origin
  | CALLER => compute_gas_ext system_caller
  | CALLVALUE => compute_gas_ext system_callvalue
  | CALLDATALOAD => compute_gas_ext system_calldataload
  | CALLDATASIZE => compute_gas_ext system_calldatasize
  | CALLDATACOPY => compute_gas_ext system_calldatacopy
  | CODESIZE => compute_gas_ext system_codesize
  | CODECOPY => compute_gas_ext system_codecopy
  | GASPRICE => compute_gas_ext tx_info_gasprice
  | EXTCODESIZE => detain_gas_conditional (compute_gas_ext host_extcodesize)
  | EXTCODECOPY => detain_gas_conditional (compute_gas_ext host_extcodecopy)
  | EXTCODEHASH => detain_gas_conditional (compute_gas_ext host_extcodehash)
  | RETURNDATASIZE => compute_gas_ext system_returndatasize
  | RETURNDATACOPY => compute_gas_ext system_returndatacopy
  | BLOCKHASH => detain_gas_unconditional BlockHash (compute_gas_ext host_blockhash)
  | COINBASE => detain_gas_unconditional Coinbase (compute_gas_ext block_info_coinbase)
  | TIMESTAMP => detain_gas_unconditional Timestamp (compute_gas_ext block_info_timestamp)
  | NUMBER => detain_gas_unconditional BlockNumber (compute_gas_ext block_info_block_number)
  | DIFFICULTY => detain_gas_unconditional Difficulty (compute_gas_ext block_info_difficulty)
  | GASLIMIT => detain_gas_unconditional GasLimit (compute_gas_ext block_info_gaslimit)
  | CHAINID => compute_gas_ext block_info_chainid
  | SELFBALANCE => compute_gas_ext host_selfbalance
  | BASEFEE => detain_gas_unconditional BaseFee (compute_gas_ext block_info_basefee)
  | BLOBBASEFEE => detain_gas_unconditional BlobBaseFee (compute_gas_ext block_info_blob_basefee)
  | BLOBHASH => detain_gas_unconditional BlobHash (compute_gas_ext tx_info_blob_hash)
  | POP => compute_gas_ext stack_pop
  | MLOAD => compute_gas_ext memory_mload
  | MSTORE => compute_gas_ext memory_mstore
  | MSTORE8 => compute_gas_ext memory_mstore8
  | SLOAD => compute_gas_ext host_sload
  | SSTORE => additional_limit_sstore
  | JUMP => compute_gas_ext control_jump
  | JUMPI => compute_gas_ext control_jumpi
  | PC => compute_gas_ext control_pc
  | MSIZE => compute_gas_ext memory_msize
  | GAS => compute_gas_ext system_gas
  | JUMPDEST => compute_gas_ext control_jumpdest
  | TLOAD => compute_gas_ext host_tload
  | TSTORE => compute_gas_ext host_tstore
  | MCOPY => compute_gas_ext memory_mcopy
  | PUSH0 => compute_gas_ext stack_push0
  | PUSH n => if family 32 n then compute_gas_ext (stack_push n) else revm control_unknown
  | DUP n => if family 16 n then compute_gas_ext (stack_dup n) else revm control_unknown
  | SWAP n => if family 16 n then compute_gas_ext (stack_swap n) else revm control_unknown
  | LOG n => if decide (n ≤ 4)%nat then additional_limit_log n else revm control_unknown
  | CREATE => forward_gas_create
  | CREATE2 => forward_gas_create2
  | CALL => forward_gas_call
  | CALLCODE => compute_gas_ext contract_call_code
  | DELEGATECALL => compute_gas_ext contract_delegate_call
  | STATICCALL => compute_gas_ext contract_static_call
  | INVALID => compute_gas_ext control_invalid
  | RETURN => compute_gas_ext control_ret
  | REVERT => compute_gas_ext control_revert
  | SELFDESTRUCT => revm control_invalid
  | UNDEFINED _ => revm control_unknown
  end.

Definition rex_instruction_table : Opcode → Instruction :=
  let table := mini_rex_instruction_table in
  let table := set_handler CALLCODE forward_gas_call_code table in
  let table := set_handler DELEGATECALL forward_gas_delegate_call table in
  set_handler STATICCALL forward_gas_static_call table.

Definition rex2_instruction_table : Opcode → Instruction :=
  set_handler SELFDESTRUCT (compute_gas_ext host_selfdestruct) rex_instruction_table.

Definition rex3_instruction_table : Opcode → Instruction :=
  set_handler SLOAD volatile_sload rex2_instruction_table.

Definition rex4_instruction_table : Opcode → Instruction :=
  let table := rex3_instruction_table in
  let table := set_handler CALL (call_volatile_check forward_gas_call) table in
  let table := set_handler STATICCALL (call_volatile_check forward_gas_static_call) table in
  let table := set_handler DELEGATECALL (call_volatile_check forward_gas_delegate_call) table in
  let table := set_handler CALLCODE (call_volatile_check forward_gas_call_code) table in
  set_handler SELFDESTRUCT (detain_gas_conditional (compute_gas_ext host_selfdestruct)) table.

(** [MegaInstructions::new]; the table of [EthInstructions::new_mainnet] is [revm]'s. *)
Definition MegaInstructions_new (new_mainnet : Opcode → Instruction) (spec : MegaSpecId) :
    Opcode → Instruction :=
  match spec with
  | EQUIVALENCE => new_mainnet
  | MINI_REX => mini_rex_instruction_table
  | Spec.REX | REX1 => rex_instruction_table
  | REX2 => rex2_instruction_table
  | REX3 => rex3_instruction_table
  | REX4 => rex4_instruction_table
  end.
End instructions.
