(* ===== verification/InstructionsTheory.v ===== *)
(** * What the instruction layers guarantee

    Which opcodes detain gas and which revert while volatile access is disabled, in the
    table of every spec; the arithmetic of the forwarding rule; what SSTORE and LOG
    charge, record and check; and two places where the layers go wrong. *)
From S2P Require Import Prelude Spec Deps Volatile LimitTypes FrameLimit Trackers AdditionalLimit.
From S2P Require Import LimitTheory EvmState Inspect StorageGas SystemContracts Context ContextTheory Sandbox Intercept Instructions.
Import opcode.
Open Scope Z_scope.
#[local] Set Warnings "-notation-for-abbreviation".

Section theory.
Context `{Profile} `{BitflagsApi} `{InstructionResultApi} `{SStoreApi} `{AbiApi}
  `{RevmGasConstants} {Gas R J S O SE SD AL E Account : Type} `{GasApi Gas}
  `{InterpreterApi Gas R} {display : Display E} {show : Display SE} {salt : SaltEnv S SE}
  {host : OpHost J SD AL} `{JournalInspectTr J E Account} `{StorageInspectTr J E}
  `{AccountApi Account} `{CreateApi Account} `{RevmInstructions Gas R (MegaContext J S O)}.
Notation Int := (Interpreter Gas R).
Notation Ctx := (MegaContext J S O).
Notation Instruction := (Int → Ctx → outcome (Int * Ctx)).
Implicit Types (i : Int) (h : Ctx) (f : Instruction).

(** ** What the layers do to the limits

    The layers are walked once, for any relation between contexts that the few ways in
    which an instruction reaches the limits respect. *)
Definition keeps (Rel : relation Ctx) f : Prop := ∀ i h i' h', f i h = Ret (i', h') → Rel h h'.

Definition same_limits h h' : Prop :=
  additional_limit h' = additional_limit h ∧ spec h' = spec h.
Class LimitRel (Rel : relation Ctx) : Prop := {
  rel_preorder :: PreOrder Rel;
  rel_same h h' : same_limits h h' → Rel h h';
  rel_compute g h al b :
    AdditionalLimit.record_compute_gas g (additional_limit h) = Ret (al, b) →
    Rel h (MegaContext.with_additional_limit al h);
  rel_sstore sr h al b :
    AdditionalLimit.on_sstore (J:=J) (E:=E) (Gas:=Gas) sr (additional_limit h) = Ret (al, b) →
    Rel h (MegaContext.with_additional_limit al h);
  rel_log n d h al b :
    AdditionalLimit.on_log n d (additional_limit h) = Ret (al, b) →
    Rel h (MegaContext.with_additional_limit al h);
}.

Lemma ctx_inspect_account_detained sp a h h' r :
  ctx_inspect_account_delegated sp a h = (h', r) → same_limits h h'.
Proof.
  unfold ctx_inspect_account_delegated, stash_error.
  destruct (Trackers.inspect_account_delegated _ _ _) as [j [?|?]]; by intros [= <- _].
Qed.

Lemma ctx_inspect_storage_detained sp a k h h' r :
  ctx_inspect_storage sp a k h = Ret (h', r) → same_limits h h'.
Proof.
  unfold ctx_inspect_storage, stash_error. intros Hr.
  apply bind_Ret in Hr as ([j [?|?]] & _ & [= <- _]); done.
Qed.

Lemma stash_detained (r : outcome (DynamicGasCost S * result Z SE)) h h' o :
  HostExt.stash to_string r h = Ret (h', o) → same_limits h h'.
Proof.
  unfold HostExt.stash. intros Hr. apply bind_Ret in Hr as ([g [?|?]] & _ & [= <- _]); done.
Qed.

Lemma storage_gas_detained h h' o :
  (∃ a k, HostExt.sstore_set_storage_gas to_string a k h = Ret (h', o)) ∨
  (∃ a, HostExt.new_account_storage_gas to_string a h = Ret (h', o)) ∨
  (∃ a, HostExt.create_contract_storage_gas to_string a h = Ret (h', o)) →
  same_limits h h'.
Proof.
  unfold HostExt.sstore_set_storage_gas, HostExt.new_account_storage_gas,
    HostExt.create_contract_storage_gas.
  intros [(a&k&Hr)|[(a&Hr)|(a&Hr)]]; apply bind_Ret in Hr as (_ & _ & Hr);
    by apply stash_detained in Hr.
Qed.

Lemma run_inner_Ret f i h k i' h' :
  run_inner_or_abort f i h k = Ret (i', h') →
  ∃ i1 h1, f i h = Ret (i1, h1) ∧
    (pending_error i1 = true ∧ i' = i1 ∧ h' = h1 ∨
     pending_error i1 = false ∧ k i1 h1 = Ret (i', h')).
Proof.
  unfold run_inner_or_abort. intros Hr. apply bind_Ret in Hr as ([i1 h1] & Hf & Hr).
  exists i1, h1. split; [done|]. destruct (pending_error i1); [|by right].
  injection Hr as <- <-. by left.
Qed.

Context {revm_laws : RevmInstructionLaws Gas R J S O}.

Section layers.
Context {Rel : relation Ctx} {rel : LimitRel Rel}.

Lemma keeps_run_inner f k i h i' h' : keeps Rel f → keeps Rel k →
  run_inner_or_abort f i h k = Ret (i', h') → Rel h h'.
Proof.
  intros Hf Hk (i1&h1&Hi&[(_&->&->)|(_&Hr)])%run_inner_Ret; [by eapply Hf|].
  apply Hf in Hi. apply Hk in Hr. by etrans.
Qed.

Lemma keeps_revm fn : keeps Rel (revm fn).
Proof. intros i h i' h' Hr. eapply rel_same, revm_keeps_limits, Hr. Qed.

Lemma keeps_ret : keeps Rel (λ i h, Ret (i, h)).
Proof. by intros i h i' h' [= _ <-]. Qed.

Lemma keeps_compute_ext fn : keeps Rel (compute_gas_ext fn).
Proof.
  intros i h i' h'. apply keeps_run_inner; [apply keeps_revm|].
  intros i2 h2 i3 h3 Hr. unfold record_compute_gas_or_halt in Hr.
  apply bind_Ret in Hr as ([al b] & Hal & Hr). apply rel_compute in Hal.
  by destruct b; injection Hr as _ <-.
Qed.

Lemma keeps_gas_or_abort c i h k i' h' :
  keeps Rel k → gas_or_abort c i h k = Ret (i', h') → Rel h h'.
Proof.
  unfold gas_or_abort. intros Hk. destruct (charge_gas c i) as [i1 []]; [by intros ?%Hk|].
  by intros [= _ <-].
Qed.

Lemma keeps_storage_gas r i k h i' h' :
  (∀ h' o, r = Ret (h', o) → same_limits h h') →
  (∀ g, keeps Rel (k g)) → storage_gas_or_abort r i k = Ret (i', h') → Rel h h'.
Proof.
  unfold storage_gas_or_abort. intros Hr Hk Hs. apply bind_Ret in Hs as ([h1 [g|]] & Hs & He).
  - etrans; [eapply rel_same, Hr, Hs|by eapply keeps_gas_or_abort].
  - injection He as _ <-. by eapply rel_same, Hr.
Qed.

(** The step of the layers below: inspect, price, run. *)
Ltac keeps_step :=
  match goal with
  | |- Ret _ = Ret _ → _ => by intros [= _ <-]
  | |- context [match inspect ?n ?i with _ => _ end] => destruct (inspect n i)
  | |- context [as_usize_or_fail ?v ?i] => destruct (as_usize_or_fail v i)
  | |- run_inner_or_abort _ _ _ _ = _ → _ =>
      apply keeps_run_inner; [apply keeps_compute_ext|apply keeps_ret]
  | |- storage_gas_or_abort _ _ _ = _ → _ =>
      intros Hr; eapply keeps_storage_gas in Hr;
        [exact Hr|intros ? ? ?; eapply storage_gas_detained; by eauto|
         intros ? ? ? ? ?; apply keeps_run_inner; [apply keeps_compute_ext|apply keeps_ret]]
  end.

Lemma keeps_storage_call fn b : keeps Rel (storage_gas_call (compute_gas_ext fn) b).
Proof.
  intros i h i' h'. unfold storage_gas_call. repeat keeps_step.
  destruct (ctx_inspect_account_delegated _ _ h) as [h1 r] eqn:Hi.
  apply ctx_inspect_account_detained, rel_same in Hi. intros Hr. etrans; [exact Hi|].
  revert Hr. clear Hi. destruct r as [acc|]; [|repeat keeps_step].
  destruct (if b then _ else _) as [t|]; [|repeat keeps_step].
  destruct (state_clear_aware_is_empty acc && t); repeat keeps_step.
Qed.

Lemma keeps_storage_create b : keeps Rel (storage_gas_create b).
Proof.
  intros i h i' h'. unfold storage_gas_create.
  destruct (ctx_inspect_account_delegated _ _ h) as [h1 r] eqn:Hi.
  apply ctx_inspect_account_detained, rel_same in Hi. intros Hr. etrans; [exact Hi|].
  clear Hi. destruct r as [acc|]; [|by injection Hr as _ <-].
  apply bind_Ret in Hr as ([a|i1] & _ & Hr); [|by injection Hr as _ <-].
  revert Hr. destruct (MegaSpecId.is_enabled _ _); keeps_step.
Qed.

Lemma keeps_storage_log n : keeps Rel (storage_gas_log n).
Proof.
  intros i h i' h'. unfold storage_gas_log. repeat keeps_step.
  destruct (log_storage_cost _ _) as [c|]; [|by intros [= _ <-]].
  intros Hr. eapply keeps_gas_or_abort; [|exact Hr]. intros i2 h2 i3 h3.
  case_decide; keeps_step.
Qed.

Lemma keeps_storage_sstore : keeps Rel storage_gas_sstore.
Proof.
  intros i h i' h'. unfold storage_gas_sstore. keeps_step; [|keeps_step].
  intros Hr. apply bind_Ret in Hr as ([h1 r] & Hi & Hr).
  apply ctx_inspect_storage_detained, rel_same in Hi. etrans; [exact Hi|].
  revert Hr. clear Hi. destruct r as [[o p]|]; [|keeps_step]. keeps_step; [|keeps_step].
  destruct (_ && _ && _); keeps_step.
Qed.

Lemma keeps_limit_or_halt (r : Ctx → outcome (AdditionalLimit * bool)) :
  (∀ h al b, r h = Ret (al, b) → Rel h (MegaContext.with_additional_limit al h)) →
  keeps Rel (λ i h, limit_or_halt (r h) i h).
Proof.
  intros Hr i h i' h' Hl. unfold limit_or_halt in Hl.
  apply bind_Ret in Hl as ([al b] & Hal & Hl). apply Hr in Hal. by destruct b; injection Hl as _ <-.
Qed.

Lemma keeps_additional_sstore : keeps Rel additional_limit_sstore.
Proof.
  intros i h i' h'. unfold additional_limit_sstore. keeps_step; [|keeps_step].
  intros Hr. apply bind_Ret in Hr as ([h1 r] & Hi & Hr).
  apply ctx_inspect_storage_detained, rel_same in Hi. etrans; [exact Hi|].
  revert Hr. clear Hi. destruct r as [[o p]|]; [|keeps_step]. keeps_step; [|keeps_step].
  apply keeps_run_inner; [apply keeps_storage_sstore|].
  apply keeps_limit_or_halt. intros ???. apply rel_sstore.
Qed.

Lemma keeps_additional_log n : keeps Rel (additional_limit_log n).
Proof.
  intros i h i' h'. unfold additional_limit_log. keeps_step; [|keeps_step].
  destruct (as_usize_or_fail _ _) as [len|]; [|keeps_step].
  apply keeps_run_inner; [apply keeps_storage_log|].
  apply keeps_limit_or_halt. intros ???. apply rel_log.
Qed.

Lemma keeps_forward f logic : keeps Rel f → keeps Rel (forward_gas f logic).
Proof.
  intros Hf i h i' h'. apply keeps_run_inner; [done|]. intros i2 h2 i3 h3 Hr.
  destruct (int_action i2) as [[?|[?|?|]]|]; repeat case_match; simpl in Hr;
    repeat (apply bind_Ret in Hr as (? & _ & Hr); repeat case_match); by injection Hr as _ <-.
Qed.

Lemma keeps_call_check f : keeps Rel f → keeps Rel (call_volatile_check f).
Proof.
  intros Hf i h i' h'. unfold call_volatile_check. destruct (disabled_beneficiary 1 i h).
  - by intros [= _ <-].
  - apply Hf.
Qed.

Lemma keeps_forward_call fn logic b :
  keeps Rel (forward_gas (storage_gas_call (compute_gas_ext fn) b) logic).
Proof. apply keeps_forward, keeps_storage_call. Qed.
Lemma keeps_forward_create b logic : keeps Rel (forward_gas (storage_gas_create b) logic).
Proof. apply keeps_forward, keeps_storage_create. Qed.

(** The whole table, where the cap of a volatile access is respected too. *)
Definition respects_cap : Prop := ∀ cap h al,
  AdditionalLimit.set_compute_gas_limit cap (additional_limit h) = Ret al →
  Rel h (MegaContext.with_additional_limit al h).

Lemma keeps_apply_limit : respects_cap → keeps Rel apply_compute_gas_limit.
Proof.
  intros Hcap i h i' h' Hr. unfold apply_compute_gas_limit in Hr.
  destruct (VolatileDataAccessTracker.get_compute_gas_limit _) as [cap|]; [|by injection Hr as _ <-].
  apply bind_Ret in Hr as (al & Hal & [= _ <-]). by eapply Hcap.
Qed.

Lemma keeps_unconditional ty f :
  respects_cap → keeps Rel f → keeps Rel (detain_gas_unconditional ty f).
Proof.
  intros Hcap Hf i h i' h'. unfold detain_gas_unconditional. case_match; [by intros [= _ <-]|].
  apply keeps_run_inner; [done|by apply keeps_apply_limit].
Qed.
Lemma keeps_conditional f : respects_cap → keeps Rel f → keeps Rel (detain_gas_conditional f).
Proof.
  intros Hcap Hf i h i' h'. unfold detain_gas_conditional. case_match; [by intros [= _ <-]|].
  apply keeps_run_inner; [done|by apply keeps_apply_limit].
Qed.
Lemma keeps_volatile_sload : respects_cap → keeps Rel volatile_sload.
Proof.
  intros Hcap i h i' h'. unfold volatile_sload. case_match; [by intros [= _ <-]|].
  apply keeps_run_inner; [apply keeps_compute_ext|by apply keeps_apply_limit].
Qed.

Lemma mini_rex_keeps : respects_cap → ∀ op, keeps Rel (mini_rex_instruction_table op).
Proof.
  intros Hcap op. destruct op; simpl; repeat case_match;
    first [apply keeps_compute_ext | apply keeps_revm | apply keeps_additional_sstore
          |apply keeps_additional_log | apply keeps_forward_call | apply keeps_forward_create
          |apply keeps_unconditional; [done|apply keeps_compute_ext]
          |apply keeps_conditional; [done|apply keeps_compute_ext]].
Qed.

Lemma set_keeps op f table :
  keeps Rel f → (∀ o, keeps Rel (table o)) → ∀ o, keeps Rel (set_handler op f table o).
Proof. intros Hf Ht o. unfold set_handler. by case_decide. Qed.

Lemma tables_keep main sp :
  MegaSpecId.is_enabled sp MINI_REX = true → respects_cap →
  ∀ op, keeps Rel (MegaInstructions_new main sp op).
Proof.
  intros Hsp Hcap. pose proof (mini_rex_keeps Hcap) as Hmini.
  assert (∀ op, keeps Rel (rex_instruction_table op)) as Hrex.
  { repeat (apply set_keeps; [apply keeps_forward_call|]). done. }
  assert (∀ op, keeps Rel (rex2_instruction_table op)) as Hrex2
    by (apply set_keeps; [apply keeps_compute_ext|done]).
  assert (∀ op, keeps Rel (rex3_instruction_table op)) as Hrex3
    by (apply set_keeps; [by apply keeps_volatile_sload|done]).
  destruct sp; try done.
  apply set_keeps; [apply keeps_conditional; [done|apply keeps_compute_ext]|].
  repeat (apply set_keeps; [apply keeps_call_check, keeps_forward_call|]). done.
Qed.
End layers.

(** ** Instructions that leave the detained limit alone *)

(** What a handler keeps: the detained limit, and the spec of the limits. *)
Definition detained h : Z := detained_limit (compute_gas (additional_limit h)).
Definition rex4_limits h : bool := cg_rex4_enabled (compute_gas (additional_limit h)).
Definition same_detained h h' : Prop := detained h' = detained h ∧ rex4_limits h' = rex4_limits h.
Notation keeps_detained := (keeps same_detained).

Lemma still_within_detained al al' b :
  AdditionalLimit.still_within al = Ret (al', b) → compute_gas al' = compute_gas al.
Proof.
  unfold AdditionalLimit.still_within. intros Hs. apply bind_Ret in Hs as ([al1 c] & Hc & [= <- _]).
  by apply check_limit_trackers in Hc as (_&_&->&_).
Qed.

#[local] Instance same_detained_rel : LimitRel same_detained.
Proof.
  split; unfold same_detained, detained, rex4_limits.
  - split; [by intros h|]. intros h1 h2 h3 [-> ->] [-> ->]. done.
  - by intros h h' [-> _].
  - intros g h al b Hr. unfold AdditionalLimit.record_compute_gas in Hr.
    apply bind_Ret in Hr as (cg & Hcg & Hw%still_within_detained). simpl. rewrite Hw.
    unfold ComputeGasTracker.record_gas_used in Hcg. by apply bind_Ret in Hcg as (ft & _ & [= <-]).
  - intros sr h al b Hr. unfold AdditionalLimit.on_sstore, AdditionalLimit.on_trackers in Hr.
    simpl in Hr. apply bind_Ret in Hr as (al1 & Ha & Hw%still_within_detained). simpl. rewrite Hw.
    by outcome_inv.
  - intros n d h al b Hr. unfold AdditionalLimit.on_log in Hr.
    apply bind_Ret in Hr as (ds & _ & Hw%still_within_detained). simpl. by rewrite Hw.
Qed.

(** ** Instructions that lower it *)

(** The detained limit after the cap of the tracker was applied: at most the cap, from
    Rex4 on counted from the usage so far. *)
Definition capped (cap : Z) h0 h' : Prop :=
  ∃ new_limit, detained h' = Z.min (detained h0) new_limit ∧
    if rex4_limits h0
    then ∃ u, ComputeGasTracker.tx_usage (compute_gas (additional_limit h')) = Ret u ∧
           new_limit = sat_add u cap
    else new_limit = cap.

Definition detention_applied h0 h' : Prop :=
  match VolatileDataAccessTracker.get_compute_gas_limit (volatile_data_tracker h') with
  | Some cap => capped cap h0 h'
  | None => detained h' = detained h0
  end.

Lemma apply_limit_spec i h i' h' :
  apply_compute_gas_limit i h = Ret (i', h') → i' = i ∧ detention_applied h h'.
Proof.
  unfold apply_compute_gas_limit, detention_applied.
  destruct (VolatileDataAccessTracker.get_compute_gas_limit _) as [cap|] eqn:Hc; intros Hr;
    [|by injection Hr as <- <-; rewrite Hc].
  apply bind_Ret in Hr as (al & Hal & [= <- <-]). simpl. rewrite Hc. split; [done|].
  unfold AdditionalLimit.set_compute_gas_limit in Hal. apply bind_Ret in Hal as (cg & Hcg & [= <-]).
  unfold ComputeGasTracker.set_detained_limit in Hcg. apply bind_Ret in Hcg as (n & Hn & [= <-]).
  exists n. split; [done|]. unfold rex4_limits. simpl. revert Hn.
  destruct (cg_rex4_enabled _); intros Hn; [|by injection Hn].
  apply bind_Ret in Hn as (u & Hu & [= <-]). by exists u.
Qed.

Lemma apply_after_inner f i h i' h' :
  keeps_detained f → run_inner_or_abort f i h apply_compute_gas_limit = Ret (i', h') →
  pending_error i' = false → detention_applied h h'.
Proof.
  intros Hf (i1&h1&Hi&[(He&->&->)|(_&Hr)])%run_inner_Ret Hp; [congruence|].
  apply apply_limit_spec in Hr as [-> Hd]. apply Hf in Hi as [Hdet Hx].
  unfold detention_applied, capped in *. by rewrite Hdet, Hx in Hd.
Qed.

(** Access is not disabled: the handlers of volatile opcodes run what they wrap. *)
Lemma unconditional_detains ty f i h i' h' :
  keeps_detained f → HostExt.volatile_access_disabled h = false →
  detain_gas_unconditional ty f i h = Ret (i', h') → pending_error i' = false →
  detention_applied h h'.
Proof. unfold detain_gas_unconditional. intros ? ->. by apply apply_after_inner. Qed.

Lemma conditional_detains f i h i' h' :
  keeps_detained f → HostExt.volatile_access_disabled h = false →
  detain_gas_conditional f i h = Ret (i', h') → pending_error i' = false →
  detention_applied h h'.
Proof.
  unfold detain_gas_conditional, disabled_beneficiary. intros ? ->.
  destruct (inspect 0 i); rewrite ?andb_false_r; by apply apply_after_inner.
Qed.

Lemma sload_detains i h i' h' :
  HostExt.volatile_access_disabled h = false → volatile_sload i h = Ret (i', h') →
  pending_error i' = false → detention_applied h h'.
Proof.
  unfold volatile_sload. intros ->. rewrite andb_false_r. apply apply_after_inner, keeps_compute_ext.
Qed.

(** The opcodes whose handler applies the detention, by spec. *)
Definition detaining_opcode (spec : MegaSpecId) (op : Opcode) : bool :=
  match op with
  | TIMESTAMP | NUMBER | DIFFICULTY | GASLIMIT | BASEFEE | COINBASE | BLOCKHASH
  | BLOBBASEFEE | BLOBHASH | BALANCE | EXTCODESIZE | EXTCODECOPY | EXTCODEHASH => true
  | SLOAD => MegaSpecId.is_enabled spec REX3
  | SELFDESTRUCT => MegaSpecId.is_enabled spec REX4
  | _ => false
  end.

(** The two kinds of handlers, and a table that has each where its spec wants it. *)
Definition detains f : Prop :=
  ∀ i h i' h', HostExt.volatile_access_disabled h = false → f i h = Ret (i', h') →
    pending_error i' = false → detention_applied h h'.
Definition detains_by (sp : MegaSpecId) (table : Opcode → Instruction) : Prop :=
  ∀ op, if detaining_opcode sp op then detains (table op) else keeps_detained (table op).

Lemma mini_rex_detains : detains_by MINI_REX mini_rex_instruction_table.
Proof.
  intros op. destruct op; simpl; repeat case_match;
    first [apply keeps_compute_ext | apply keeps_revm | apply keeps_additional_sstore
          |apply keeps_additional_log | apply keeps_forward_call | apply keeps_forward_create
          |intros ? ? ? ?; first [apply unconditional_detains | apply conditional_detains];
           apply keeps_compute_ext].
Qed.

(** A table that differs from another in one handler. *)
Lemma set_detains sp sp' op f table :
  (∀ o, o ≠ op → detaining_opcode sp' o = detaining_opcode sp o) →
  (if detaining_opcode sp' op then detains f else keeps_detained f) →
  detains_by sp table → detains_by sp' (set_handler op f table).
Proof.
  intros He Hf Ht o. unfold set_handler. case_decide as Hd; [by subst|].
  rewrite He by done. apply Ht.
Qed.

Lemma rex_detains sp :
  detaining_opcode sp = detaining_opcode MINI_REX → detains_by sp rex_instruction_table.
Proof.
  intros He. unfold detains_by. rewrite He. change (detains_by MINI_REX rex_instruction_table).
  repeat (apply (set_detains MINI_REX); [done|apply keeps_forward_call|]). apply mini_rex_detains.
Qed.

Lemma rex2_detains : detains_by REX2 rex2_instruction_table.
Proof. apply (set_detains Spec.REX); [done|apply keeps_compute_ext|by apply rex_detains]. Qed.

Lemma rex3_detains : detains_by REX3 rex3_instruction_table.
Proof.
  apply (set_detains REX2); [by intros []|intros ? ? ? ?; apply sload_detains|apply rex2_detains].
Qed.

Lemma rex4_detains : detains_by REX4 rex4_instruction_table.
Proof.
  apply (set_detains REX3); [by intros []| |].
  - intros ? ? ? ?. apply conditional_detains, keeps_compute_ext.
  - repeat (apply (set_detains REX3); [done|apply keeps_call_check, keeps_forward_call|]).
    apply rex3_detains.
Qed.

Lemma tables_detain main sp :
  MegaSpecId.is_enabled sp MINI_REX = true → detains_by sp (MegaInstructions_new main sp).
Proof.
  destruct sp; intros Hs; try discriminate Hs; simpl;
    [apply mini_rex_detains|by apply rex_detains|by apply rex_detains|apply rex2_detains
    |apply rex3_detains|apply rex4_detains].
Qed.

(** ** Disabled access *)

(** What an instruction would read, by its opcode, its operands and its contract. *)
Definition volatile_target i h (op : Opcode) : option VolatileDataAccessType :=
  let beneficiary_at n :=
    match inspect n i with
    | Some w => if bool_decide (into_address w = HostExt.beneficiary_address h)
                then Some Beneficiary else None
    | None => None
    end in
  match op with
  | TIMESTAMP => Some Timestamp | NUMBER => Some BlockNumber | DIFFICULTY => Some Difficulty
  | GASLIMIT => Some GasLimit | BASEFEE => Some BaseFee | COINBASE => Some Coinbase
  | BLOCKHASH => Some BlockHash | BLOBBASEFEE => Some BlobBaseFee | BLOBHASH => Some BlobHash
  | BALANCE | EXTCODESIZE | EXTCODECOPY | EXTCODEHASH | SELFDESTRUCT => beneficiary_at 0%nat
  | CALL | CALLCODE | DELEGATECALL | STATICCALL => beneficiary_at 1%nat
  | SELFBALANCE => if bool_decide (int_target_address i = HostExt.beneficiary_address h)
                   then Some Beneficiary else None
  | SLOAD => if bool_decide (int_target_address i = ORACLE_CONTRACT_ADDRESS)
             then Some Oracle else None
  | _ => None
  end.

Lemma disabled_beneficiary_spec n i h :
  HostExt.volatile_access_disabled h = true →
  disabled_beneficiary n i h =
    match inspect n i with
    | Some w => bool_decide (into_address w = HostExt.beneficiary_address h)
    | None => false
    end.
Proof. unfold disabled_beneficiary. intros ->. destruct (inspect n i); by rewrite ?andb_true_r. Qed.

Lemma disabled_access_reverts i h op ty :
  HostExt.volatile_access_disabled h = true → volatile_target i h op = Some ty → op ≠ SELFBALANCE →
  rex4_instruction_table op i h = Ret (revert_disabled ty i, h).
Proof.
  intros Hd. destruct op; simpl; try discriminate;
    unfold rex4_instruction_table, rex3_instruction_table, rex2_instruction_table,
      rex_instruction_table, set_handler; simpl;
    unfold detain_gas_unconditional, detain_gas_conditional, call_volatile_check, volatile_sload;
    rewrite ?disabled_beneficiary_spec, ?Hd, ?andb_true_r by done;
    repeat case_match; intros Hty; by simplify_eq.
Qed.

(** What SELFBALANCE asks its host for, when its contract is the beneficiary. *)
Lemma own_balance_marks i h ty :
  volatile_target i h SELFBALANCE = Some ty →
  volatile_data_tracker (Host.balance (SD:=SD) (AL:=AL) (int_target_address i) h).1 =
    VolatileDataAccessTracker.mark_beneficiary_balance_accessed (volatile_data_tracker h).
Proof.
  simpl. case_bool_decide as Ht; [intros _|done].
  unfold Host.balance, MegaContext.check_and_mark_beneficiary_balance_access. rewrite Ht.
  rewrite bool_decide_true by done. simpl. by destruct (op_balance _ _) as [i' o].
Qed.

(** ** The forwarding rule *)

(** The 98/100 of the gas left, and what a child keeps of the gas meant for it. *)
Lemma cap_forwarded_spec fwd left :
  0 ≤ fwd → 0 ≤ left → left + fwd ≤ u64_max →
  let cap := (left + fwd) - (left + fwd) * 2 / 100 in
  cap_forwarded fwd left = Ret (Z.min fwd cap, fwd - Z.min fwd cap).
Proof.
  intros Hf Hl Hs cap. unfold cap_forwarded.
  assert (0 ≤ (left + fwd) * 2 / 100 ≤ left + fwd) as Hdiv.
  { split; [apply Z.div_pos; lia|]. apply Z.div_le_upper_bound; lia. }
  assert (∀ x, 0 ≤ x ≤ 2 * u64_max → fit_u128 x = Ret x) as Hfit.
  { intros x Hx. unfold fit_u128. rewrite decide_True; [done|].
    unfold u64_max, u128_max in *. lia. }
  rewrite (Hfit (left + fwd)) by lia. simpl. rewrite (Hfit ((left + fwd) * 2)) by lia. simpl.
  rewrite Hfit by lia. simpl. fold cap. rewrite Hfit by lia. done.
Qed.

(** The stipend in the gas of a child. *)
Definition stipend_in (has_transfer : bool) i : Z :=
  match int_action i with
  | Some (ActionNewFrame (FrameInputCall _)) => if has_transfer then CALL_STIPEND else 0
  | _ => 0
  end.
Definition new_frame_gas (g : Z) (a : option (InterpreterAction Gas)) :
    option (InterpreterAction Gas) :=
  match a with
  | Some (ActionNewFrame (FrameInputCall ci)) =>
      Some (ActionNewFrame (FrameInputCall (with_call_gas_limit g ci)))
  | Some (ActionNewFrame (FrameInputCreate ci)) =>
      Some (ActionNewFrame (FrameInputCreate (with_create_gas_limit g ci)))
  | a => a
  end.
Definition asks_for_frame i : Prop :=
  match int_action i with
  | Some (ActionNewFrame FrameInputEmpty) | Some (ActionReturn _) | None => False
  | _ => True
  end.

Lemma forward_gas_frame (gas_laws : GasLaws Gas) f logic i h i1 h1 :
  f i h = Ret (i1, h1) → asks_for_frame i1 →
  let stipend := stipend_in (logic i) i1 in
  let fwd := forwarded_gas i1 - stipend in
  0 ≤ stipend ≤ forwarded_gas i1 → gas_remaining (int_gas i1) + forwarded_gas i1 ≤ u64_max →
  let total := gas_remaining (int_gas i1) + fwd in
  let child := Z.min fwd (total - total * 2 / 100) in
  forward_gas f logic i h =
    Ret (with_action (new_frame_gas (child + stipend) (int_action i1))
           (with_int_gas (gas_erase_cost (int_gas i1) (fwd - child)) i1), h1).
Proof.
  intros Hf Ha stipend fwd Hst Hsum total child.
  pose proof (gas_remaining_range (int_gas i1)) as Hr. unfold in_u64 in Hr.
  assert (0 ≤ total * 2 / 100 ≤ total) as Hdiv.
  { split; [apply Z.div_pos; lia|]. apply Z.div_le_upper_bound; lia. }
  assert (cap_forwarded fwd (gas_remaining (int_gas i1)) = Ret (child, fwd - child)) as Hcap.
  { apply cap_forwarded_spec; lia. }
  assert (∀ x, 0 ≤ x ≤ u64_max → fit_u128 x = Ret x) as Hfit.
  { intros x Hx. unfold fit_u128. rewrite decide_True; [done|].
    unfold u64_max, u128_max in *. lia. }
  unfold forward_gas, run_inner_or_abort. rewrite Hf. simpl.
  unfold asks_for_frame, pending_error, pending_result, forwarded_gas, stipend_in, new_frame_gas in *.
  destruct (int_action i1) as [[|[ci|ci|]]|]; try done.
  - subst stipend fwd. rewrite Hfit by lia. simpl. rewrite Hcap. simpl. rewrite Hfit by lia. simpl.
    by rewrite !as_u64_in by (unfold in_u64; lia).
  - subst stipend fwd. rewrite Z.sub_0_r in *. rewrite Hcap. simpl.
    by rewrite Z.add_0_r, !as_u64_in by (unfold in_u64; lia).
Qed.

(** ** What SSTORE and LOG charge and record *)
Context {gas_laws : GasLaws Gas} {ir_laws : InstructionResultLaws}
  {int_laws : InterpreterLaws Gas R}.

Lemma charge_gas_pays g i :
  0 ≤ g ≤ gas_remaining (int_gas i) →
  ∃ i2, charge_gas g i = (i2, true) ∧ gas_remaining (int_gas i2) = gas_remaining (int_gas i) - g ∧
    int_stack i2 = int_stack i ∧ int_target_address i2 = int_target_address i.
Proof.
  intros Hg. rewrite charge_gas_spec.
  destruct (gas_record_cost_ok (int_gas i) g) as (g' & -> & Hr & _); [lia..|].
  by eexists.
Qed.

Lemma charge_gas_fails g i :
  gas_remaining (int_gas i) < g → charge_gas g i = (halt OutOfGas i, false).
Proof. intros Hg. by rewrite charge_gas_spec, gas_record_cost_oog. Qed.

Lemma pending_halt r i : pending_error (halt r i) = ir_is_error r.
Proof. unfold pending_error, pending_result. by rewrite halt_spec. Qed.

Lemma gas_halt r i : int_gas (halt r i) = int_gas i.
Proof. by rewrite halt_spec. Qed.

Lemma run_inner_step f i h k i1 h1 :
  f i h = Ret (i1, h1) → pending_error i1 = false → run_inner_or_abort f i h k = k i1 h1.
Proof. unfold run_inner_or_abort. intros -> Hp. simpl. by rewrite Hp. Qed.
Lemma run_inner_error f i h k i1 h1 :
  f i h = Ret (i1, h1) → pending_error i1 = true → run_inner_or_abort f i h k = Ret (i1, h1).
Proof. unfold run_inner_or_abort. intros -> Hp. simpl. by rewrite Hp. Qed.

Lemma run_inner_alone f i h : run_inner_or_abort f i h (λ i h, Ret (i, h)) = f i h.
Proof.
  unfold run_inner_or_abort. destruct (f i h) as [[i1 h1]|]; simpl; [|done].
  by destruct (pending_error i1).
Qed.

(** The compute gas layer over an instruction that ended without an error. *)
Lemma compute_ext_step fn i h i1 h1 :
  revm fn i h = Ret (i1, h1) → pending_error i1 = false →
  compute_gas_ext fn i h =
    record_compute_gas_or_halt
      (sat_sub (sat_sub (gas_remaining (int_gas i)) (gas_remaining (int_gas i1)))
         (forwarded_gas i1)) i1 h1.
Proof. intros Hr Hp. unfold compute_gas_ext. by rewrite (run_inner_step _ _ _ _ i1 h1). Qed.

(** Running it inside the layers that only look at errors. *)
Lemma compute_ext_within fn i h i1 h1 used al1 k :
  revm fn i h = Ret (i1, h1) → pending_error i1 = false → forwarded_gas i1 = 0 →
  used = gas_remaining (int_gas i) - gas_remaining (int_gas i1) → 0 ≤ used →
  AdditionalLimit.record_compute_gas used (additional_limit h) = Ret (al1, true) →
  run_inner_or_abort (compute_gas_ext fn) i h k = k i1 (MegaContext.with_additional_limit al1 h1).
Proof.
  intros Hr Hp Hf -> Hu Hal. apply run_inner_step; [|done].
  rewrite (compute_ext_step _ _ _ i1 h1), Hf by done.
  replace (sat_sub _ 0) with (gas_remaining (int_gas i) - gas_remaining (int_gas i1))
    by (unfold sat_sub; lia).
  unfold record_compute_gas_or_halt. destruct (revm_keeps_limits _ _ _ _ _ Hr) as [-> _].
  by rewrite Hal.
Qed.

(** The storage gas of a write: what it was charged, and the interpreter after that. *)
Definition sets_new_slot (o p v : U256) : bool :=
  bool_decide (o = 0) && bool_decide (p = 0) && negb (bool_decide (v = 0)).
Definition sstore_priced (k o p v : U256) i h (g : Z) i2 h2 : Prop :=
  if sets_new_slot o p v
  then HostExt.sstore_set_storage_gas to_string (int_target_address i) k h = Ret (h2, Some g) ∧
       charge_gas g i = (i2, true)
  else i2 = i ∧ h2 = h ∧ g = 0.

Lemma sstore_priced_limits k o p v i h g i2 h2 :
  sstore_priced k o p v i h g i2 h2 → additional_limit h2 = additional_limit h.
Proof.
  unfold sstore_priced. destruct (sets_new_slot o p v); [|by intros (_&->&_)].
  intros [Hs _]. apply (storage_gas_detained h h2 (Some g)). left. by do 2 eexists.
Qed.

Lemma storage_sstore_step k v o p i h h1 g i2 h2 i3 h3 used al1 :
  inspect 0 i = Some k → inspect 1 i = Some v →
  ctx_inspect_storage (spec h) (int_target_address i) k h = Ret (h1, Ok (o, p)) →
  sstore_priced k o p v i h1 g i2 h2 →
  revm host_sstore i2 h2 = Ret (i3, h3) → pending_error i3 = false → forwarded_gas i3 = 0 →
  used = gas_remaining (int_gas i2) - gas_remaining (int_gas i3) → 0 ≤ used →
  AdditionalLimit.record_compute_gas used (additional_limit h) = Ret (al1, true) →
  storage_gas_sstore i h = Ret (i3, MegaContext.with_additional_limit al1 h3).
Proof.
  intros Hk Hv Hi Hp Hr He Hf Hu Hu0 Hal.
  apply ctx_inspect_storage_detained in Hi as Hi'. destruct Hi' as [Hal1 _].
  rewrite <- Hal1, <- (sstore_priced_limits _ _ _ _ _ _ _ _ _ Hp) in Hal.
  unfold storage_gas_sstore. rewrite Hk, Hi. simpl. rewrite Hv.
  match goal with
  | |- context [if ?b then storage_gas_or_abort _ _ _ else _] => change b with (sets_new_slot o p v)
  end.
  unfold sstore_priced in Hp. destruct (sets_new_slot o p v).
  - destruct Hp as [Hg Hc]. unfold storage_gas_or_abort. rewrite Hg. simpl. unfold gas_or_abort.
    rewrite Hc. by rewrite (compute_ext_within _ _ _ i3 h3 used al1).
  - destruct Hp as (->&->&->). by rewrite (compute_ext_within _ _ _ i3 h3 used al1).
Qed.

(** *** LOG *)
Lemma storage_log_step n len cost i h i2 i3 h3 used al1 :
  (n ≤ 4)%nat → inspect 1 i = Some len → in_u64 len →
  log_storage_cost (Z.of_nat n) len = Some cost → charge_gas cost i = (i2, true) →
  revm (host_log n) i2 h = Ret (i3, h3) → pending_error i3 = false → forwarded_gas i3 = 0 →
  used = gas_remaining (int_gas i2) - gas_remaining (int_gas i3) → 0 ≤ used →
  AdditionalLimit.record_compute_gas used (additional_limit h) = Ret (al1, true) →
  storage_gas_log n i h = Ret (i3, MegaContext.with_additional_limit al1 h3).
Proof.
  intros Hn Hl Hu64 Hcost Hc Hr He Hf Hu Hu0 Hal. unfold storage_gas_log.
  rewrite Hl, as_usize_fits, Hcost by done. unfold gas_or_abort. rewrite Hc.
  rewrite decide_True by done. by rewrite (compute_ext_within _ _ _ i3 h3 used al1).
Qed.

(** A verdict of the limits after an instruction: the interpreter goes on, or halts. *)
Definition verdict (within : bool) (al : AdditionalLimit) i : Int :=
  if within then i else halt (AdditionalLimit.exceeding_instruction_result al) i.

Lemma limit_or_halt_verdict al al' within i h :
  limit_or_halt (Ret (al', within)) i (MegaContext.with_additional_limit al h) =
    Ret (verdict within al' i, MegaContext.with_additional_limit al' h).
Proof. by destruct within. Qed.

Lemma verdict_gas within al i : int_gas (verdict within al i) = int_gas i.
Proof. destruct within; [done|]. apply gas_halt. Qed.

(** C25: SSTORE charges, records and checks three different things.  For a write whose
    instruction ends without an error: the storage gas of the slot is charged only
    when a slot that was and is zero becomes non-zero, and before the instruction
    runs; what is recorded as compute gas is exactly what the instruction itself took
    off the meter, storage gas excluded; the write then reaches the data size, KV
    update and state growth trackers with the values the slot had before it, and a
    limit exceeded there halts the interpreter with the gas it has left. *)
Theorem sstore_accounting k v o p i h h0 h1 g i2 h2 i3 h3 used al1 al2 within :
  inspect 0 i = Some k → inspect 1 i = Some v →
  ctx_inspect_storage (spec h) (int_target_address i) k h = Ret (h0, Ok (o, p)) →
  ctx_inspect_storage (spec h0) (int_target_address i) k h0 = Ret (h1, Ok (o, p)) →
  sstore_priced k o p v i h1 g i2 h2 →
  revm host_sstore i2 h2 = Ret (i3, h3) → pending_error i3 = false → forwarded_gas i3 = 0 →
  used = gas_remaining (int_gas i2) - gas_remaining (int_gas i3) → 0 ≤ used →
  AdditionalLimit.record_compute_gas used (additional_limit h) = Ret (al1, true) →
  AdditionalLimit.on_sstore (J:=J) (E:=E) (Gas:=Gas) (Build_SStoreResult o p v) al1
    = Ret (al2, within) →
  additional_limit_sstore i h =
    Ret (verdict within al2 i3, MegaContext.with_additional_limit al2 h3) ∧
  gas_remaining (int_gas (verdict within al2 i3)) + used =
    gas_remaining (int_gas i2) ∧
  (0 ≤ g → gas_remaining (int_gas i2) = gas_remaining (int_gas i) - g).
Proof.
  intros Hk Hv Hi Hi2 Hp Hr He Hf Hu Hu0 Hal Hs. rewrite verdict_gas. split_and!; [|lia|].
  - unfold additional_limit_sstore. rewrite Hk, Hi. simpl. rewrite Hv.
    apply ctx_inspect_storage_detained in Hi as [Hal0 _].
    rewrite (run_inner_step _ _ _ _ i3 (MegaContext.with_additional_limit al1 h3)); [|
      by apply (storage_sstore_step k v o p i h0 h1 g i2 h2 i3 h3 used); rewrite ?Hal0|done].
    simpl. rewrite Hs. apply limit_or_halt_verdict.
  - intros Hg. unfold sstore_priced in Hp. destruct (sets_new_slot o p v);
      [|by destruct Hp as (->&_&->); rewrite Z.sub_0_r].
    destruct Hp as [_ Hc]. destruct (decide (g ≤ gas_remaining (int_gas i))).
    + destruct (charge_gas_pays g i) as (i2' & Hc' & ? & _); [done|].
      rewrite Hc in Hc'. by injection Hc' as <-.
    + rewrite charge_gas_fails in Hc by lia. discriminate.
Qed.

(** LOG pays ten times the price of its topics and data as storage gas, before the
    instruction runs; only what the instruction itself took is recorded as compute
    gas; and its size is recorded against the data limit, which halts the interpreter
    when it is exceeded. *)
Theorem log_accounting n len i h i3 h3 used al1 al2 within :
  (n ≤ 4)%nat → inspect 1 i = Some len → in_u64 len → 0 ≤ LOGTOPIC → 0 ≤ LOGDATA →
  let cost := 10 * LOGDATA * len + 10 * LOGTOPIC * Z.of_nat n in
  cost ≤ gas_remaining (int_gas i) →
  (∀ i2, charge_gas cost i = (i2, true) →
     revm (host_log n) i2 h = Ret (i3, h3) ∧
     used = gas_remaining (int_gas i2) - gas_remaining (int_gas i3)) →
  pending_error i3 = false → forwarded_gas i3 = 0 → 0 ≤ used →
  AdditionalLimit.record_compute_gas used (additional_limit h) = Ret (al1, true) →
  AdditionalLimit.on_log (Z.of_nat n) len al1 = Ret (al2, within) →
  additional_limit_log n i h =
    Ret (verdict within al2 i3, MegaContext.with_additional_limit al2 h3) ∧
  gas_remaining (int_gas (verdict within al2 i3)) + used + cost = gas_remaining (int_gas i).
Proof.
  intros Hn Hl Hlen Ht Hd cost Hc Hr He Hf Hu Hal Hlog.
  pose proof (gas_remaining_range (int_gas i)) as Hrange. unfold in_u64 in Hrange, Hlen.
  assert (0 ≤ 10 * LOGDATA * len ∧ 0 ≤ 10 * LOGTOPIC * Z.of_nat n) as [Hc1 Hc2] by nia.
  destruct (charge_gas_pays cost i) as (i2 & Hpay & Hgas & _); [lia|].
  destruct (Hr i2 Hpay) as [Hrun Hused]. rewrite verdict_gas. split; [|lia].
  unfold additional_limit_log. rewrite Hl, as_usize_fits by done.
  rewrite (run_inner_step _ _ _ _ i3 (MegaContext.with_additional_limit al1 h3)); [| |done].
  - simpl. rewrite Hlog. apply limit_or_halt_verdict.
  - apply (storage_log_step n len cost i h i2 i3 h3 used al1); try done.
    unfold log_storage_cost, checked_mul, checked_add, constants.mini_rex.LOG_TOPIC_STORAGE_GAS,
      constants.mini_rex.LOG_DATA_STORAGE_GAS.
    rewrite decide_True by lia. simpl. rewrite decide_True by lia. simpl.
    rewrite decide_True by lia. f_equal. lia.
Qed.

(** C24: the 98/100 rule.  When a CALL-like or CREATE instruction asked for a frame, no gas
    is lost or made: what the child gets and what the parent has left add up to what
    they had before.  The parent keeps at least 2% of the gas it had before it
    forwarded anything, a stipend is passed on untouched and does not count, and a
    child that asked for less than its share gets what it asked for. *)
Theorem forwarded_gas_is_capped f logic i h i1 h1 :
  f i h = Ret (i1, h1) → asks_for_frame i1 →
  let stipend := stipend_in (logic i) i1 in
  let asked := forwarded_gas i1 - stipend in
  0 ≤ stipend ≤ forwarded_gas i1 → gas_remaining (int_gas i1) + forwarded_gas i1 ≤ u64_max →
  let total := gas_remaining (int_gas i1) + asked in
  ∃ i', forward_gas f logic i h = Ret (i', h1) ∧
    int_action i' = new_frame_gas (forwarded_gas i') (int_action i1) ∧
    gas_remaining (int_gas i') + forwarded_gas i' =
      gas_remaining (int_gas i1) + forwarded_gas i1 ∧
    total * 2 / 100 ≤ gas_remaining (int_gas i') ∧
    stipend ≤ forwarded_gas i' ≤ forwarded_gas i1 ∧
    (asked ≤ total - total * 2 / 100 → forwarded_gas i' = forwarded_gas i1).
Proof.
  intros Hf Ha stipend asked Hst Hsum total.
  pose proof (gas_remaining_range (int_gas i1)) as Hr. unfold in_u64 in Hr.
  assert (0 ≤ total * 2 / 100 ≤ total) as Hdiv.
  { split; [apply Z.div_pos; lia|]. apply Z.div_le_upper_bound; lia. }
  rewrite (forward_gas_frame gas_laws f logic i h i1 h1) by done.
  fold stipend. fold asked. fold total. set (child := Z.min asked (total - total * 2 / 100)).
  eexists. split; [done|]. simpl.
  rewrite gas_erase_cost_remaining by (unfold in_u64; subst child; lia).
  match goal with |- context [forwarded_gas ?x] => assert (forwarded_gas x = child + stipend) as -> end.
  { unfold asks_for_frame in Ha. unfold forwarded_gas, new_frame_gas. simpl.
    by destruct (int_action i1) as [[|[]]|]. }
  subst child asked. split_and!; try done; lia.
Qed.

(** CREATE2 reads the init code to find the address of the new contract before the
    instruction has paid for the memory it lies in.  Init code that reaches past the
    memory the frame has expanded to is read out of bounds: [revm] documents that as a
    panic, and as undefined behaviour in release builds.  In every spec with the table. *)
Theorem create2_reads_unpaid_memory main sp i h h1 creator off len :
  MegaSpecId.is_enabled sp MINI_REX = true →
  ctx_inspect_account_delegated (spec h) (int_target_address i) h = (h1, Ok creator) →
  inspect 1 i = Some off → inspect 2 i = Some len → in_u64 off → in_u64 len →
  Z.of_nat (length (int_memory i)) < off + len →
  MegaInstructions_new main sp CREATE2 i h = Panic.
Proof.
  intros Hsp Hi Hoff Hlen Ho Hl Hm.
  assert (forward_gas_create2 i h = Panic) as Hp.
  { unfold forward_gas_create2, forward_gas, run_inner_or_abort, storage_gas_create, created_address.
    rewrite Hi, Hoff, Hlen, !as_usize_fits by done. unfold in_u64 in *.
    by rewrite memory_slice_outside by lia. }
  by destruct sp; try discriminate Hsp.
Qed.

(** *** A frame that a limit stops *)

(** [revm]'s instruction behind an opcode that asks for a frame. *)
Definition frame_fn (op : Opcode) : option RevmFn :=
  match op with
  | CALL => Some contract_call
  | CALLCODE => Some contract_call_code
  | DELEGATECALL => Some contract_delegate_call
  | STATICCALL => Some contract_static_call
  | CREATE => Some (contract_create false)
  | CREATE2 => Some (contract_create true)
  | _ => None
  end.
Definition is_call (op : Opcode) : bool :=
  match op with CALL | CALLCODE | DELEGATECALL | STATICCALL => true | _ => false end.
(** Before Rex only CALL looks at the account it calls. *)
Definition inspects_callee (sp : MegaSpecId) (op : Opcode) : bool :=
  is_call op && (bool_decide (op = CALL) || MegaSpecId.is_enabled sp Spec.REX).
(** Whether a call moves value, from its operands. *)
Definition call_transfers (op : Opcode) i : option bool :=
  match op with
  | CALL | CALLCODE => (λ value, negb (bool_decide (value = 0))) <$> inspect 2 i
  | _ => Some false
  end.

(** The interpreter and the context that [revm]'s instruction is run on: the callee was
    inspected and, when it is new, paid for; so was the address of a new contract. *)
Inductive prepared (sp : MegaSpecId) (op : Opcode) i h : Int → Ctx → Prop :=
  | prepared_bare :
      is_call op = true → inspects_callee sp op = false → prepared sp op i h i h
  | prepared_call to acc h1 transfers :
      inspects_callee sp op = true →
      (MegaSpecId.is_enabled sp REX4 = true → disabled_beneficiary 1 i h = false) →
      inspect 1 i = Some to →
      ctx_inspect_account_delegated (spec h) (into_address to) h = (h1, Ok acc) →
      call_transfers op i = Some transfers →
      state_clear_aware_is_empty acc && transfers = false → prepared sp op i h i h1
  | prepared_new_callee to acc h1 h2 g i1 :
      inspects_callee sp op = true →
      (MegaSpecId.is_enabled sp REX4 = true → disabled_beneficiary 1 i h = false) →
      inspect 1 i = Some to →
      ctx_inspect_account_delegated (spec h) (into_address to) h = (h1, Ok acc) →
      call_transfers op i = Some true → state_clear_aware_is_empty acc = true →
      HostExt.new_account_storage_gas to_string (into_address to) h1 = Ret (h2, Some g) →
      charge_gas g i = (i1, true) → prepared sp op i h i1 h2
  | prepared_create (is_create2 : bool) creator address h1 h2 g i1 :
      op = (if is_create2 then CREATE2 else CREATE) →
      ctx_inspect_account_delegated (spec h) (int_target_address i) h = (h1, Ok creator) →
      created_address is_create2 (int_target_address i) creator i = Ret (Ok address) →
      (if MegaSpecId.is_enabled (spec h1) Spec.REX
       then HostExt.create_contract_storage_gas to_string address h1
       else HostExt.new_account_storage_gas to_string address h1) = Ret (h2, Some g) →
      charge_gas g i = (i1, true) → prepared sp op i h i1 h2.

Lemma prepared_limits sp op i h i0 h0 :
  prepared sp op i h i0 h0 → additional_limit h0 = additional_limit h.
Proof.
  intros [| to acc h1 t _ _ _ Hi _ _|to acc h1 h2 g i1 _ _ _ Hi _ _ Hg _
    |b creator a h1 h2 g i1 _ Hi _ Hg _]; [done|..];
    apply ctx_inspect_account_detained in Hi as [Hi _]; [done|..]; rewrite <-Hi.
  - apply (storage_gas_detained h1 h2 (Some g)). right. left. by eexists.
  - apply (storage_gas_detained h1 h2 (Some g)). right.
    destruct (MegaSpecId.is_enabled _ _); [right|left]; by eexists.
Qed.

(** What ends the frame in the compute gas layer passes through the layers around it. *)
Lemma forward_gas_ended f logic i h i' h' r :
  f i h = Ret (i', h') → int_action i' = Some (ActionReturn r) → forward_gas f logic i h = Ret (i', h').
Proof.
  intros Hf Ha. unfold forward_gas, run_inner_or_abort. rewrite Hf. simpl. rewrite Ha.
  by destruct (pending_error i').
Qed.

Lemma storage_call_ended sp op fn i h i0 h0 :
  frame_fn op = Some fn → inspects_callee sp op = true → prepared sp op i h i0 h0 →
  storage_gas_call (compute_gas_ext fn) (match op with CALL | CALLCODE => true | _ => false end) i h =
    compute_gas_ext fn i0 h0.
Proof.
  intros Hop Hin Hp. unfold storage_gas_call.
  assert (∀ op', call_transfers op' i = if match op' with CALL | CALLCODE => true | _ => false end
    then (λ value, negb (bool_decide (value = 0))) <$> inspect 2 i else Some false) as Htr by by intros [].
  rewrite <-Htr. destruct Hp as [_ Hn|to acc h1 t _ _ -> -> -> ->|to acc h1 h2 g i1 _ _ -> -> -> -> Hg Hc
    |b creator a h1 h2 g i1 -> _ _ _ _].
  - congruence.
  - apply run_inner_alone.
  - simpl. unfold storage_gas_or_abort. rewrite Hg. simpl. unfold gas_or_abort. rewrite Hc.
    apply run_inner_alone.
  - by destruct b.
Qed.

Lemma storage_create_ended sp (b : bool) i h i0 h0 :
  prepared sp (if b then CREATE2 else CREATE) i h i0 h0 →
  storage_gas_create b i h = compute_gas_ext (contract_create b) i0 h0.
Proof.
  intros Hp. unfold storage_gas_create.
  destruct Hp as [Hc|? ? ? ? Hc|? ? ? ? ? ? Hc|b' creator a h1 h2 g i1 Hb -> Ha Hg Hc];
    [by destruct b..|]. assert (b' = b) as -> by by destruct b, b'. rewrite Ha. simpl. rewrite Hg.
  unfold storage_gas_or_abort. simpl. unfold gas_or_abort. rewrite Hc. apply run_inner_alone.
Qed.

Lemma prepared_not_refused sp op i h i0 h0 :
  prepared sp op i h i0 h0 → is_call op = true → sp = REX4 → disabled_beneficiary 1 i h = false.
Proof.
  intros Hp Hc ->. destruct Hp as [_ Hn|? ? ? ? _ Hd|? ? ? ? ? ? _ Hd|b ? ? ? ? ? ? ->]; auto.
  - unfold inspects_callee in Hn. by rewrite Hc, orb_true_r in Hn.
  - by destruct b.
Qed.

(** In every table: what ends the frame in the compute gas layer is what the opcode does. *)
Lemma frame_opcode_ended main sp op fn i h i0 h0 i' h' r :
  MegaSpecId.is_enabled sp MINI_REX = true → frame_fn op = Some fn → prepared sp op i h i0 h0 →
  compute_gas_ext fn i0 h0 = Ret (i', h') → int_action i' = Some (ActionReturn r) →
  MegaInstructions_new main sp op i h = Ret (i', h').
Proof.
  intros Hsp Hfn Hp Hc Ha.
  assert (∀ logic, inspects_callee sp op = true →
    forward_gas (storage_gas_call (compute_gas_ext fn)
      (match op with CALL | CALLCODE => true | _ => false end)) logic i h = Ret (i', h')) as Hcall.
  { intros logic Hin. eapply forward_gas_ended; [|exact Ha].
    by rewrite (storage_call_ended sp op fn i h i0 h0). }
  assert (∀ logic (b : bool), op = (if b then CREATE2 else CREATE) → fn = contract_create b →
    forward_gas (storage_gas_create b) logic i h = Ret (i', h')) as Hcreate.
  { intros logic b -> ->. eapply forward_gas_ended; [|exact Ha].
    by rewrite (storage_create_ended sp b i h i0 h0). }
  pose proof (prepared_not_refused _ _ _ _ _ _ Hp) as Hd.
  destruct (inspects_callee sp op) eqn:Hin.
  - specialize (λ logic, Hcall logic eq_refl). clear Hcreate Hp Hc.
    destruct op; try discriminate Hfn; try discriminate Hin; injection Hfn as <-;
      destruct sp; try discriminate Hsp; try discriminate Hin; simpl in Hcall;
      first [apply Hcall
        |unfold MegaInstructions_new, rex4_instruction_table, set_handler, call_volatile_check; simpl;
         rewrite Hd by done; apply Hcall].
  - destruct Hp as [Hop _|? ? ? ? Hi|? ? ? ? ? ? Hi|b ? ? ? ? ? ? Hop]; [|congruence..|].
    + destruct op; try discriminate Hop; injection Hfn as <-; destruct sp; try discriminate Hsp;
        try discriminate Hin; exact Hc.
    + destruct b; subst op; injection Hfn as <-;
        [specialize (Hcreate no_transfer true eq_refl eq_refl)
        |specialize (Hcreate no_transfer false eq_refl eq_refl)];
        destruct sp; try discriminate Hsp; exact Hcreate.
Qed.

(** C26: in every spec with limits, when the compute gas of a CALL, CALLCODE, DELEGATECALL,
    STATICCALL, CREATE or CREATE2 itself exceeds a limit, the halt takes the place of the
    frame it asked for: after what the opcode paid in storage gas, its own cost and the gas
    meant for the child have left the meter, and the latter is neither forwarded nor in the
    result that the frame ends with. *)
Theorem call_exceed_burns_forwarded_gas main sp op fn i h i0 h0 i1 h1 al :
  MegaSpecId.is_enabled sp MINI_REX = true → frame_fn op = Some fn → prepared sp op i h i0 h0 →
  revm fn i0 h0 = Ret (i1, h1) → asks_for_frame i1 →
  let own_cost := gas_remaining (int_gas i0) - gas_remaining (int_gas i1) - forwarded_gas i1 in
  0 ≤ own_cost → 0 ≤ forwarded_gas i1 →
  AdditionalLimit.record_compute_gas own_cost (additional_limit h) = Ret (al, false) →
  ∃ i' result,
    MegaInstructions_new main sp op i h = Ret (i', MegaContext.with_additional_limit al h1) ∧
    int_action i' = Some (ActionReturn result) ∧
    ir_result result = AdditionalLimit.exceeding_instruction_result al ∧
    gas_remaining (ir_gas result) = gas_remaining (int_gas i0) - own_cost - forwarded_gas i1.
Proof.
  intros Hsp Hfn Hp Hr Ha own_cost Ho Hf Hal. pose proof (prepared_limits _ _ _ _ _ _ Hp) as Hal0.
  destruct (revm_keeps_limits _ _ _ _ _ Hr) as [Hal1 _].
  set (i' := halt (AdditionalLimit.exceeding_instruction_result al) i1).
  assert (pending_error i1 = false) as Hpe.
  { unfold asks_for_frame, pending_error, pending_result in *.
    by destruct (int_action i1) as [[|[]]|]. }
  assert (compute_gas_ext fn i0 h0 = Ret (i', MegaContext.with_additional_limit al h1)) as Hc.
  { rewrite (compute_ext_step _ _ _ i1 h1) by done.
    replace (sat_sub (sat_sub _ _) _) with own_cost by (subst own_cost; unfold sat_sub; lia).
    unfold record_compute_gas_or_halt. by rewrite Hal1, Hal0, Hal. }
  subst i'. rewrite halt_spec in Hc. do 2 eexists.
  split; [by eapply frame_opcode_ended|]. split_and!; [done|done|]. simpl. subst own_cost. lia.
Qed.

(** C23: which opcodes detain gas, in the table of every spec that has one.  After an
    opcode of [detaining_opcode] that ran without an error while access was not
    disabled, the compute gas is capped by what the volatile tracker holds, counted
    from the usage so far from Rex4 on.  Every other opcode leaves the detained limit
    as it was, whatever it accessed: in particular SELFBALANCE and the CALL-like
    opcodes, which do mark the beneficiary as accessed. *)
Theorem detention_by_opcode main sp op i h i' h' :
  MegaSpecId.is_enabled sp MINI_REX = true →
  MegaInstructions_new main sp op i h = Ret (i', h') →
  if detaining_opcode sp op
  then HostExt.volatile_access_disabled h = false → pending_error i' = false →
       detention_applied h h'
  else detained h' = detained h.
Proof.
  intros Hsp Hr. pose proof (tables_detain main sp Hsp op) as Ht.
  destruct (detaining_opcode sp op); [intros Hv; by apply (Ht _ _ _ _ Hv Hr)|].
  by apply Ht in Hr as [? _].
Qed.

(** C22: while volatile access is disabled, a Rex4 instruction that would read the block
    environment, an account of its operands that is the beneficiary's, or the storage of
    the oracle does not run: it reverts with the gas it has and the type of the access, and
    leaves the context alone, the tracker and the limits included.  SELFBALANCE in the
    contract of the beneficiary, which reads its account as well, is not refused: its
    handler has no check and runs [revm]'s instruction as if access were enabled, and the
    balance that this asks the host for marks the beneficiary as accessed. *)
Theorem disabled_access_is_refused main i h op ty :
  HostExt.volatile_access_disabled h = true → volatile_target i h op = Some ty →
  if decide (op = SELFBALANCE)
  then MegaInstructions_new main REX4 op i h = compute_gas_ext host_selfbalance i h ∧
    volatile_data_tracker (Host.balance (SD:=SD) (AL:=AL) (int_target_address i) h).1 =
      VolatileDataAccessTracker.mark_beneficiary_balance_accessed (volatile_data_tracker h)
  else MegaInstructions_new main REX4 op i h =
    Ret (with_action (Some (ActionReturn (mkInterpreterResult Revert
           (volatile_data_access_disabled_revert_data ty) (int_gas i)))) i, h).
Proof.
  intros Hd Ht. case_decide as Hop; [subst op|by apply disabled_access_reverts].
  split; [done|]. by apply (own_balance_marks i h ty).
Qed.
End theory.

(** ** An interpreter and a few instructions to evaluate examples with *)
Section example.
#[local] Existing Instances checked_build reference_instruction_result reference_sstore
  reference_gas reference_abi reference_journal reference_account reference_bitflags
  reference_gas_constants example_host reference_instruction_result_laws reference_gas_laws.

#[local] Instance show_nothing : Display Empty_set := λ _, EmptyString.
#[local] Instance show_unit : Display unit := λ _, "error"%string.
#[local] Instance reference_slots : StorageInspectTr unit unit := {|
  inspect_slot _ _ key j := Ret (j, Ok (key, key)) |}.
#[local] Instance reference_create : CreateApi bool := {|
  account_nonce _ := 1; create_address a n := a + n; create2_address a s c := a + s + c;
  keccak256 b := Z.of_nat (length b) |}.

Definition halted (r : InstructionResult) (i : Interpreter RefGas unit) :=
  with_action (Some (ActionReturn (mkInterpreterResult r Bytes_new (int_gas i)))) i.
#[local] Instance reference_interpreter : InterpreterApi RefGas unit := {|
  halt := halted;
  as_usize_or_fail v i := if decide (v ≤ u64_max) then Ok v
                          else Err (halted (OtherInstructionResult 1) i);
  charge_gas c i := match gas_record_cost (int_gas i) c with
                    | (g, true) => (with_int_gas g i, true)
                    | (_, false) => (halted OutOfGas i, false)
                    end;
  memory_slice_len o n m := if decide (o + n ≤ Z.of_nat (length m))
                            then Ret (take (Z.to_nat n) (drop (Z.to_nat o) m)) else Panic;
  into_address w := w mod 2 ^ 160 |}.

Lemma reference_interpreter_laws : InterpreterLaws RefGas unit.
Proof.
  split; simpl; try done.
  - intros v i [_ Hv]. by rewrite decide_True.
  - intros v i Hv. rewrite decide_False by lia. by eexists.
  - intros o n m _ _ Hm. by rewrite decide_True.
  - intros o n m _ _ Hm. by rewrite decide_False by lia.
Qed.

(** Every instruction costs 100; CALL and STATICCALL also ask for a frame with 5000 gas, and
    TIMESTAMP reads the context. *)
Definition example_call_inputs (gas : Z) : CallInputs :=
  Build_CallInputs 2 2 1 (ValueTransfer 0) gas (0, 0) [] SchemeStaticCall.
Definition example_revm_run (f : RevmFn) (i : Interpreter RefGas unit)
    (h : MegaContext unit unit unit) :=
  let pay c i := with_int_gas (mkRefGas (rg_limit (int_gas i)) (rg_remaining (int_gas i) - c)) i in
  Ret (match f with
       | contract_static_call | contract_call =>
           with_action (Some (ActionNewFrame (FrameInputCall (example_call_inputs 5000))))
             (pay 5100 i)
       | _ => pay 100 i
       end,
       match f with block_info_timestamp => fst (Host.timestamp h) | _ => h end).
#[local] Instance example_revm : RevmInstructions RefGas unit (MegaContext unit unit unit) := {|
  revm := example_revm_run |}.
Lemma example_revm_laws : RevmInstructionLaws RefGas unit unit unit unit.
Proof. split. intros f i h i' h' [= _ <-]. by destruct f. Qed.

Definition example_interpreter (gas : Z) (stack : list U256) : Interpreter RefGas unit :=
  mkInterpreter stack [] (mkRefGas gas gas) 50 None tt.
#[local] Existing Instances reference_interpreter_laws example_revm_laws.

Definition example_main (op : Opcode) (i : Interpreter RefGas unit)
    (h : MegaContext unit unit unit) : outcome (Interpreter RefGas unit * MegaContext unit unit unit) :=
  Ret (i, h).
Notation example_table := (MegaInstructions_new (SE:=Empty_set) (SD:=unit) (AL:=unit) (E:=unit)
  (Account:=bool) example_main).

Lemma detention_by_opcode_witness :
  let i := example_interpreter 10000 [] in
  let h := example_context REX2 in
  let after op := snd <$> example_table REX2 op i h in
  detained <$> after TIMESTAMP = Ret 2000 ∧ detained <$> after SELFBALANCE = Ret 5000 ∧
  ∃ i' h', example_table REX2 TIMESTAMP i h = Ret (i', h') ∧ detention_applied h h'.
Proof.
  intros i h after. split; [vm_compute; reflexivity|]. split; [vm_compute; reflexivity|].
  clear after. do 2 eexists. split; [vm_compute; reflexivity|].
  refine (detention_by_opcode (SE:=Empty_set) (SD:=unit) (AL:=unit) (E:=unit) (Account:=bool)
    example_main REX2 TIMESTAMP i h _ _ _ _ _ _); [reflexivity|vm_compute; reflexivity|reflexivity..].
Defined.

Lemma disabled_access_is_refused_witness :
  let h0 := example_context REX4 in
  let h := MegaContext.with_volatile
             (VolatileDataAccessTracker.disable_access 1 (volatile_data_tracker h0)) h0 in
  let i := example_interpreter 10000 [0; 77; 9] in
  HostExt.volatile_access_disabled h = true ∧ volatile_target i h CALL = Some Beneficiary ∧
  ∃ i', example_table REX4 CALL i h = Ret (i', h) ∧ pending_result i' = Some Revert.
Proof.
  intros h0 h i. split; [reflexivity|]. split; [reflexivity|]. eexists. split.
  - apply (disabled_access_is_refused (SE:=Empty_set) (SD:=unit) (AL:=unit) (E:=unit)
      (Account:=bool) example_main i h CALL Beneficiary); reflexivity.
  - reflexivity.
Defined.

Lemma create2_reads_unpaid_memory_witness :
  let i := example_interpreter 100000 [7; 32; 0; 0] in
  int_memory i = [] ∧
  example_table REX4 CREATE2 i (example_context REX4) = Panic.
Proof.
  intros i. split; [reflexivity|].
  refine (create2_reads_unpaid_memory (SE:=Empty_set) (SD:=unit) (AL:=unit) (E:=unit)
    (Account:=bool) example_main REX4 i (example_context REX4) (example_context REX4) true 0 32
    _ _ _ _ _ _ _); [vm_compute; try reflexivity; try lia..].
  all: split; discriminate.
Defined.

(** A STATICCALL that asks for nearly all the gas keeps 2% of it. *)
Lemma forwarded_gas_is_capped_witness :
  let i := example_interpreter 5100 [0; 60; 0] in
  ∃ h1 i', forward_gas (compute_gas_ext contract_static_call) no_transfer i
             (example_context REX2) = Ret (i', h1) ∧
    gas_remaining (int_gas i') + forwarded_gas i' = 5000 ∧ 100 ≤ gas_remaining (int_gas i').
Proof.
  intros i.
  edestruct (forwarded_gas_is_capped (compute_gas_ext contract_static_call) no_transfer i
    (example_context REX2)) as (i' & Hf & _ & Hsum & Hkeep & _);
    [vm_compute; reflexivity|exact I|split; discriminate|discriminate|].
  do 2 eexists. split; [exact Hf|]. split; [exact Hsum|exact Hkeep].
Defined.

(** A STATICCALL of Rex2 and a CALL of Rex4 that moves value to a new account: with a compute
    gas limit of 50 the 5000 gas for the child are gone. *)
Lemma call_exceed_burns_forwarded_gas_witness :
  let small h := MegaContext.with_additional_limit
    (AdditionalLimit.new (spec h) (mkEvmTxRuntimeLimits 1000 10 50 5 2000 1000)) h in
  (∃ i' h' result,
    example_table REX2 STATICCALL (example_interpreter 10000 [0; 60; 0]) (small (example_context REX2))
      = Ret (i', h') ∧ int_action i' = Some (ActionReturn result) ∧
    ir_result result = OutOfGas ∧ gas_remaining (ir_gas result) = 4900) ∧
  ∃ i' h' result,
    example_table REX4 CALL (example_interpreter 60000 [9; 60; 0]) (small (example_context REX4))
      = Ret (i', h') ∧ int_action i' = Some (ActionReturn result) ∧ ir_result result = OutOfGas.
Proof.
  intros small. split.
  - edestruct (call_exceed_burns_forwarded_gas (SE:=Empty_set) (SD:=unit) (AL:=unit) (E:=unit)
      (Account:=bool) example_main REX2 STATICCALL contract_static_call
      (example_interpreter 10000 [0; 60; 0]) (small (example_context REX2))) as
      (i' & result & Hf & Ha & Hr & Hg);
      [reflexivity|reflexivity
      |eapply (prepared_call _ _ _ _ 60 true); [reflexivity|discriminate|reflexivity..]
      |reflexivity|exact I|discriminate|discriminate|vm_compute; reflexivity|].
    do 3 eexists. split; [exact Hf|]. split; [exact Ha|]. split; [exact Hr|exact Hg].
  - edestruct (call_exceed_burns_forwarded_gas (SE:=Empty_set) (SD:=unit) (AL:=unit) (E:=unit)
      (Account:=bool) example_main REX4 CALL contract_call
      (example_interpreter 60000 [9; 60; 0]) (small (example_context REX4))) as
      (i' & result & Hf & Ha & Hr & Hg);
      [reflexivity|reflexivity
      |eapply (prepared_new_callee _ _ _ _ 60 true); [reflexivity..|vm_compute; reflexivity
       |vm_compute; reflexivity]
      |reflexivity|exact I|discriminate|discriminate|vm_compute; reflexivity|].
    do 3 eexists. split; [exact Hf|]. split; [exact Ha|exact Hr].
Defined.

(** A new slot in MiniRex: 2000000 storage gas, and 100 compute gas. *)
Lemma sstore_accounting_witness :
  let i := example_interpreter 3000000 [5; 0] in
  let h := example_context MINI_REX in
  ∃ i' h', additional_limit_sstore (SE:=Empty_set) (E:=unit) i h = Ret (i', h') ∧
    gas_remaining (int_gas i') + 100 = 1000000 ∧
    ComputeGasTracker.tx_usage (compute_gas (additional_limit h')) = Ret 100.
Proof.
  intros i h.
  edestruct (sstore_accounting (SE:=Empty_set) (E:=unit) 0 5 0 0 i h h h 2000000) as (Hs & Hg & _);
    [reflexivity|reflexivity|reflexivity|reflexivity|split; vm_compute; reflexivity
    |reflexivity|reflexivity|reflexivity|reflexivity|discriminate
    |vm_compute; reflexivity|vm_compute; reflexivity|].
  do 2 eexists. split; [exact Hs|]. split; [exact Hg|reflexivity].
Defined.

(** LOG2 with 10 bytes: 7500 gas for the topics, 800 for the data. *)
Lemma log_accounting_witness :
  let i := example_interpreter 10000 [0; 0; 10; 0] in
  let h := example_context REX in
  ∃ i' h', additional_limit_log 2 i h = Ret (i', h') ∧
    gas_remaining (int_gas i') + 100 + 8300 = 10000.
Proof.
  intros i h.
  edestruct (log_accounting 2 10 i h (with_int_gas (mkRefGas 10000 1600) i) h 100) as (Hs & Hg);
    [lia|reflexivity|split; discriminate|discriminate|discriminate|discriminate
    |intros i2 Hi2; injection Hi2 as <-; split; reflexivity|reflexivity|reflexivity|discriminate
    |vm_compute; reflexivity|vm_compute; reflexivity|].
  do 2 eexists. split; [exact Hs|exact Hg].
Defined.
End example.
