(* ===== verification/Execution.v ===== *)
(** * The EVM and its handler

    Models [evm/execution.rs] and the execution part of [evm/mod.rs]: the hooks of
    the handler around a transaction (system transactions, validation with storage
    gas, the last frame, the halt reason) and around a frame (interception, limits,
    code deposit storage gas, the return to the caller), with and without inspector.
    The handler of [op-revm], the frames and the interpreter loop are interfaces. *)
From S2P Require Import Prelude Spec Deps Volatile LimitTypes FrameLimit Trackers AdditionalLimit.
From S2P Require Import EvmState Inspect StorageGas SystemContracts Context Sandbox Intercept Instructions.
Open Scope Z_scope.
Open Scope rust_scope.
#[local] Set Warnings "-notation-for-abbreviation".

Record InitialAndFloorGas := mkInitialAndFloorGas { initial_gas : Z; floor_gas : Z }.

(** The errors of a transaction that the source makes, and the rest. *)
Inductive MegaError (E : Type) :=
  | FromString (message : string)
  | CallGasCostMoreThanGasLimit (gas_limit initial_gas : Z)
  | DbError (e : E)
  | OtherTxError (code : Z).
Arguments FromString {E}.
Arguments CallGasCostMoreThanGasLimit {E}.
Arguments DbError {E}.
Arguments OtherTxError {E}.

(** [MegaEvm]: the context, the inspector, the table of instructions (by the spec it
    was made for), the precompiles, the frame stack of [revm]. *)
Record MegaEvm (Ctx I P F : Type) := mkEvm {
  evm_ctx : Ctx;
  evm_inspector : I;
  evm_instruction : MegaSpecId;
  evm_precompiles : P;
  evm_frame_stack : F;
  evm_inspect : bool;
}.
Arguments mkEvm {Ctx I P F}.
Arguments evm_ctx {Ctx I P F}.
Arguments evm_inspector {Ctx I P F}.
Arguments evm_instruction {Ctx I P F}.
Arguments evm_precompiles {Ctx I P F}.
Arguments evm_frame_stack {Ctx I P F}.
Arguments evm_inspect {Ctx I P F}.

Definition with_evm_ctx {Ctx I P F} (c : Ctx) (evm : MegaEvm Ctx I P F) : MegaEvm Ctx I P F :=
  mkEvm c (evm_inspector evm) (evm_instruction evm) (evm_precompiles evm) (evm_frame_stack evm)
    (evm_inspect evm).
Definition with_frame_stack {Ctx I P F} (f : F) (evm : MegaEvm Ctx I P F) : MegaEvm Ctx I P F :=
  mkEvm (evm_ctx evm) (evm_inspector evm) (evm_instruction evm) (evm_precompiles evm) f
    (evm_inspect evm).
Definition with_evm_inspector {Ctx I P F} (i : I) (evm : MegaEvm Ctx I P F) :
    MegaEvm Ctx I P F :=
  mkEvm (evm_ctx evm) i (evm_instruction evm) (evm_precompiles evm) (evm_frame_stack evm)
    (evm_inspect evm).

(** ** [revm]'s frames: the frame on top of the stack, making a frame, running the
    instructions of the top frame with the table of the EVM, the step from an action to
    a new frame or a result, and handing a result to the caller. *)
Class FrameApi (Gas E Ctx I P F : Type) := {
  top_frame : F → EthFrame Gas;
  frame_set_finished : F → F;
  revm_frame_init : FrameInit → MegaEvm Ctx I P F →
    outcome (MegaEvm Ctx I P F * result (ItemOrResult (EthFrame Gas) (FrameResult Gas)) E);
  run_plain : MegaEvm Ctx I P F → outcome (MegaEvm Ctx I P F * InterpreterAction Gas);
  process_next_action : InterpreterAction Gas → MegaEvm Ctx I P F →
    MegaEvm Ctx I P F * result (ItemOrResult FrameInit (FrameResult Gas)) E;
  revm_frame_return_result : FrameResult Gas → MegaEvm Ctx I P F →
    MegaEvm Ctx I P F * result (option (FrameResult Gas)) E;
}.

(** [revm]'s inspection: before and after a frame, the set up of an interpreter, and
    running instructions under the eyes of the inspector. *)
Class InspectorApi (Gas Ctx I P F : Type) := {
  frame_start : FrameInput → MegaEvm Ctx I P F →
    MegaEvm Ctx I P F * FrameInput * option (FrameResult Gas);
  frame_end : FrameInput → FrameResult Gas → MegaEvm Ctx I P F →
    MegaEvm Ctx I P F * FrameResult Gas;
  initialize_interp : MegaEvm Ctx I P F → MegaEvm Ctx I P F;
  inspect_instructions : MegaEvm Ctx I P F →
    outcome (MegaEvm Ctx I P F * InterpreterAction Gas);
  frame_input_of : F → FrameInput;
}.

(** ** The handler of [op-revm] *)
Class OpHandler (Gas E Log Ctx I P F : Type) := {
  validate_env : MegaEvm Ctx I P F → MegaEvm Ctx I P F * result unit (MegaError E);
  validate_initial_tx_gas : MegaEvm Ctx I P F → result InitialAndFloorGas (MegaError E);
  pre_execution : MegaEvm Ctx I P F → MegaEvm Ctx I P F * result Z (MegaError E);
  first_frame_input : Z → MegaEvm Ctx I P F →
    MegaEvm Ctx I P F * result FrameInit (MegaError E);
  op_last_frame_result : FrameResult Gas → MegaEvm Ctx I P F →
    MegaEvm Ctx I P F * FrameResult Gas * result unit (MegaError E);
  op_reward_beneficiary : FrameResult Gas → MegaEvm Ctx I P F →
    MegaEvm Ctx I P F * result unit (MegaError E);
  op_execution_result : FrameResult Gas → MegaEvm Ctx I P F →
    MegaEvm Ctx I P F * result (ExecutionResult OpHaltReason Log) (MegaError E);
  op_catch_error : MegaError E → MegaEvm Ctx I P F →
    MegaEvm Ctx I P F * result (ExecutionResult OpHaltReason Log) (MegaError E);
  (** Refund, floor, reimbursement and then the reward, which is the handler's own. *)
  post_execution :
    (FrameResult Gas → MegaEvm Ctx I P F → MegaEvm Ctx I P F * result unit (MegaError E)) →
    FrameResult Gas → InitialAndFloorGas → Z → MegaEvm Ctx I P F →
    MegaEvm Ctx I P F * FrameResult Gas * result unit (MegaError E);
}.

(** What [validate] asks of [revm]: the calldata tokens of a transaction, and whether
    the info of an account is that of an empty one. *)
Class ValidationApi (Bytecode : Type) := {
  get_tokens_in_calldata : Bytes → Z;
  account_info_is_empty : AccountInfo Bytecode → bool;
}.

Definition map_haltreason {H H' Log} (f : H → outcome H') (r : ExecutionResult H Log) :
    outcome (ExecutionResult H' Log) :=
  match r with
  | ExecSuccess g rf l o => Ret (ExecSuccess g rf l o)
  | ExecRevert g o => Ret (ExecRevert g o)
  | ExecHalt reason g => reason ← f reason; Ret (ExecHalt reason g)
  end.

Section execution.
Context `{Profile} `{BitflagsApi} `{InstructionResultApi} `{SStoreApi} `{AbiApi} `{KeylessAbi}
  `{InterceptAbi} `{RevmGasConstants} {Gas : Type} `{GasApi Gas} {Sig : Type} `{KeylessTxApi Sig}
  {DB E Bytecode S SE SD AL O Log Acc I P F : Type} {revm : RevmState Bytecode}
  {bytecode : BytecodeApi Bytecode} {database : Database DB E Bytecode} {display : Display E}
  {show : Display SE} {show_address : Display Address} {oracle : OracleEnv O}
  {salt : SaltEnv S SE} {host : OpHost (Journal DB Bytecode) SD AL}
  {sandbox : SandboxEvm (Journal DB Bytecode) (SandboxDb DB Bytecode) S O Bytecode Log}
  {journal : JournalInspectTr (Journal DB Bytecode) E Acc} `{AccountApi Acc} `{CreateApi Acc}
  `{ValidationApi Bytecode}
  `{FrameApi Gas E (MegaContext (Journal DB Bytecode) S O) I P F}
  `{InspectorApi Gas (MegaContext (Journal DB Bytecode) S O) I P F}
  `{OpHandler Gas E Log (MegaContext (Journal DB Bytecode) S O) I P F}.
Notation J := (Journal DB Bytecode).
Notation Ctx := (MegaContext J S O).
Notation Evm := (MegaEvm Ctx I P F).
Notation Error := (MegaError E).
Implicit Types (ctx : Ctx) (evm : Evm).

Definition is_mini_rex ctx : bool := MegaSpecId.is_enabled (spec ctx) MINI_REX.
Definition with_limit (al : AdditionalLimit) evm : Evm :=
  with_evm_ctx (MegaContext.with_additional_limit al (evm_ctx evm)) evm.

(** ** Around a transaction *)

Definition set_source_hash_and_gas_price (source_hash gas_price : Z) (t : MegaTransaction) :
    MegaTransaction :=
  mkTransaction (tx_input t) (tx_access_list_sizes t) (tx_authorization_list t)
    (tx_authorization_list_len t) (tx_caller t) (tx_kind t) (tx_nonce t) (tx_value t)
    (tx_gas_limit t) gas_price (tx_base_type t) source_hash (tx_enveloped_tx t).

(** The mega system transaction becomes a deposit that pays nothing. *)
Definition before_run evm : outcome (Evm * result unit Error) :=
  let ctx := evm_ctx evm in
  let t := MegaContext.tx ctx in
  let adjusted : result Ctx Error :=
    if is_mini_rex ctx && sent_from_mega_system_address t then
      if negb (is_mega_system_transaction t) then
        Err (FromString "Mega system transaction callee is not in the whitelist")
      else Ok (MegaContext.with_tx
                 (set_source_hash_and_gas_price MEGA_SYSTEM_TRANSACTION_SOURCE_HASH 0 t) ctx)
    else Ok ctx in
  match adjusted with
  | Err e => Ret (evm, Err e)
  | Ok ctx =>
      ctx ← MegaContext.on_new_tx ctx;
      Ret (with_evm_ctx ctx evm, Ok tt)
  end.

Definition gen_oog_frame_result (tx_kind : TxKind) (gas_limit : Z) : FrameResult Gas :=
  let r := mkInterpreterResult OutOfGas Bytes_new (gas_new_spent gas_limit) in
  match tx_kind with
  | TxCall _ => FrameResultCall r (0, 0)
  | TxCreate => FrameResultCreate r None
  end.

Definition before_execution (init_and_floor_gas : InitialAndFloorGas) evm :
    option (FrameResult Gas) :=
  let t := MegaContext.tx (evm_ctx evm) in
  if bool_decide (tx_gas_limit t < initial_gas init_and_floor_gas)
  then Some (gen_oog_frame_result (tx_kind t) (tx_gas_limit t)) else None.

(** Calldata, and from Rex on the transaction itself, cost storage gas. *)
Definition add_storage_gas (is_rex : bool) (tokens_in_calldata : Z) (g : InitialAndFloorGas) :
    outcome InitialAndFloorGas :=
  calldata_storage_gas ←
    mul_u64 constants.mini_rex.CALLDATA_STANDARD_TOKEN_STORAGE_GAS tokens_in_calldata;
  initial ← add_u64 (initial_gas g) calldata_storage_gas;
  floor_calldata_storage_gas ←
    mul_u64 constants.mini_rex.CALLDATA_STANDARD_TOKEN_STORAGE_FLOOR_GAS tokens_in_calldata;
  floor ← add_u64 (floor_gas g) floor_calldata_storage_gas;
  initial ← (if is_rex then add_u64 initial constants.rex.TX_INTRINSIC_STORAGE_GAS
             else Ret initial);
  Ret (mkInitialAndFloorGas initial floor).

(** The storage gas of the account that the transaction may make: its address, and the
    gas unless the environment failed; a database error ends the validation. *)
Definition callee_storage_gas ctx : outcome (Ctx * result (Address * option Z) Error) :=
  let t := MegaContext.tx ctx in
  match tx_kind t with
  | TxCreate =>
      let created_address := create_address (tx_caller t) (tx_nonce t) in
      '(ctx, storage_gas) ←
        (if MegaSpecId.is_enabled (spec ctx) REX
         then HostExt.create_contract_storage_gas to_string created_address ctx
         else HostExt.new_account_storage_gas to_string created_address ctx);
      Ret (ctx, Ok (created_address, storage_gas))
  | TxCall address =>
      let zero_value := bool_decide (tx_value t = 0) in
      let '(ctx, new_account) :=
        if zero_value then (ctx, Ok false)
        else
          let j := MegaContext.journal ctx in
          let '(d, r) := basic address (j_database j) in
          (MegaContext.with_inner (MegaContext.set_journal (with_database d j) (inner ctx)) ctx,
           match r with
           | Ok acc => Ok (match acc with Some i => account_info_is_empty i | None => true end)
           | Err e => Err (DbError e)
           end) in
      match new_account with
      | Err e => Ret (ctx, Err e)
      | Ok true =>
          '(ctx, storage_gas) ← HostExt.new_account_storage_gas to_string address ctx;
          Ret (ctx, Ok (address, storage_gas))
      | Ok false => Ret (ctx, Ok (address, Some 0))
      end
  end.

Definition validate evm : outcome (Evm * result InitialAndFloorGas Error) :=
  let '(evm, r) := validate_env evm in
  match r with Err e => Ret (evm, Err e) | Ok _ =>
  match validate_initial_tx_gas evm with Err e => Ret (evm, Err e) | Ok g =>
  let ctx := evm_ctx evm in
  if negb (is_mini_rex ctx) then Ret (evm, Ok g) else
  '(al, _) ← AdditionalLimit.record_compute_gas (initial_gas g) (additional_limit ctx);
  let ctx := MegaContext.with_additional_limit al ctx in
  let t := MegaContext.tx ctx in
  g ← add_storage_gas (MegaSpecId.is_enabled (spec ctx) REX)
        (get_tokens_in_calldata (tx_input t)) g;
  if bool_decide (tx_gas_limit t < initial_gas g) then
    Ret (with_evm_ctx ctx evm,
         Err (CallGasCostMoreThanGasLimit (tx_gas_limit t) (initial_gas g)))
  else
  '(ctx, callee) ← callee_storage_gas ctx;
  let evm := with_evm_ctx ctx evm in
  match callee with
  | Err e => Ret (evm, Err e)
  | Ok (callee_address, None) =>
      Ret (evm, Err (FromString ("Failed to get storage gas for callee address: " ++
                                   to_string callee_address)))
  | Ok (_, Some storage_gas) =>
      initial ← add_u64 (initial_gas g) storage_gas;
      Ret (evm, Ok (mkInitialAndFloorGas initial (floor_gas g)))
  end end end.

Definition reward_beneficiary (exec_result : FrameResult Gas) evm : Evm * result unit Error :=
  if disable_beneficiary (evm_ctx evm) then (evm, Ok tt)
  else op_reward_beneficiary exec_result evm.

Definition set_frame_gas (g : Gas) (r : FrameResult Gas) : FrameResult Gas :=
  frame_result_map (λ i, mkInterpreterResult (ir_result i) (ir_output i) g) r.

(** The result of the first frame, with the rescued gas given back at the end. *)
Definition last_frame_result (frame_result : FrameResult Gas) evm :
    outcome (Evm * result (FrameResult Gas) Error) :=
  let mini_rex := is_mini_rex (evm_ctx evm) in
  '(evm, frame_result) ←
    (if mini_rex then
       '(al, r) ← AdditionalLimit.before_frame_return_result (J:=J) (E:=E) true frame_result
                    (additional_limit (evm_ctx evm));
       Ret (with_limit al evm, r)
     else Ret (evm, frame_result));
  let '(evm, frame_result, r) := op_last_frame_result frame_result evm in
  match r with
  | Err e => Ret (evm, Err e)
  | Ok _ =>
      if mini_rex then
        Ret (evm, Ok (set_frame_gas
          (gas_erase_cost (frame_result_gas frame_result)
             (rescued_gas (additional_limit (evm_ctx evm)))) frame_result))
      else Ret (evm, Ok frame_result)
  end.

(** The halt reason of the transaction: an exceeded limit is told apart from running out
    of gas, and a detained limit from a configured one. *)
Definition mega_halt_reason (volatile_info : option VolatileDataAccess) (reason : OpHaltReason)
    (al : AdditionalLimit) : outcome (AdditionalLimit * MegaHaltReason) :=
  '(al, exceeding) ← AdditionalLimit.is_exceeding_limit_halt reason al;
  if exceeding : bool then
    detained ← match volatile_info with
               | Some access_type => AdditionalLimit.detained_compute_gas_halt_reason access_type al
               | None => Ret None
               end;
    match detained with
    | Some halt => Ret (al, halt)
    | None =>
        '(al, c) ← AdditionalLimit.check_limit al;
        reason ← expect (LimitCheck.maybe_halt_reason c);
        Ret (al, reason)
    end
  else Ret (al, Base reason).

Definition execution_result (result : FrameResult Gas) evm :
    outcome (Evm * Prelude.result (ExecutionResult MegaHaltReason Log) Error) :=
  let volatile_info :=
    if is_mini_rex (evm_ctx evm)
    then VolatileDataAccessTracker.get_volatile_data_info (volatile_data_tracker (evm_ctx evm))
    else None in
  let '(evm, r) := op_execution_result result evm in
  match r with
  | Err e => Ret (evm, Err e)
  | Ok (ExecHalt reason gas_used) =>
      '(al, reason) ← mega_halt_reason volatile_info reason (additional_limit (evm_ctx evm));
      Ret (with_limit al evm, Ok (ExecHalt reason gas_used))
  | Ok (ExecSuccess g rf l o) => Ret (evm, Ok (ExecSuccess g rf l o))
  | Ok (ExecRevert g o) => Ret (evm, Ok (ExecRevert g o))
  end.

Definition catch_error (error : Error) evm :
    outcome (Evm * result (ExecutionResult MegaHaltReason Log) Error) :=
  let '(evm, r) := op_catch_error error evm in
  match r with
  | Err e => Ret (evm, Err e)
  | Ok res => res ← map_haltreason (λ h, Ret (Base h)) res; Ret (evm, Ok res)
  end.

(** ** Around a frame *)

Definition before_frame_run ctx (frame : EthFrame Gas) :
    outcome (Ctx * option (InterpreterAction Gas)) :=
  if is_mini_rex ctx then
    '(al, r) ← AdditionalLimit.before_frame_run (J:=J) (E:=E) frame (additional_limit ctx);
    Ret (MegaContext.with_additional_limit al ctx, option_map ActionReturn r)
  else Ret (ctx, None).

(** A contract creation that succeeded pays storage gas for its code. *)
Definition charge_code_deposit (frame : EthFrame Gas) (action : InterpreterAction Gas) :
    outcome (InterpreterAction Gas) :=
  match action with
  | ActionReturn r =>
      if frame_is_create frame && ir_is_ok (ir_result r) then
        code_deposit_storage_gas ←
          mul_u64 constants.mini_rex.CODEDEPOSIT_STORAGE_GAS (Z.of_nat (length (ir_output r)));
        let '(g, paid) := gas_record_cost (ir_gas r) code_deposit_storage_gas in
        Ret (ActionReturn (mkInterpreterResult
               (if paid : bool then ir_result r else OutOfGas) (ir_output r) g))
      else Ret action
  | ActionNewFrame _ => Ret action
  end.

Definition after_frame_run_instructions ctx (frame : EthFrame Gas)
    (action : InterpreterAction Gas) : outcome (Ctx * InterpreterAction Gas) :=
  if negb (is_mini_rex ctx) then Ret (ctx, action)
  else
    action ← charge_code_deposit frame action;
    '(al, action) ← AdditionalLimit.after_frame_run_instructions (J:=J) (E:=E) frame action
                      (additional_limit ctx);
    Ret (MegaContext.with_additional_limit al ctx, action).

Definition after_frame_run ctx (frame_output : ItemOrResult FrameInit (FrameResult Gas))
    (gas_remaining_before_process_action : option Z) :
    outcome (Ctx * ItemOrResult FrameInit (FrameResult Gas)) :=
  if negb (is_mini_rex ctx) then Ret (ctx, frame_output)
  else
    match frame_output with
    | Result frame_result =>
        '(al, frame_result) ← AdditionalLimit.after_frame_run frame_result
                                gas_remaining_before_process_action (additional_limit ctx);
        Ret (MegaContext.with_additional_limit al ctx, Result frame_result)
    | Item _ => Ret (ctx, frame_output)
    end.

(** Before Rex3 a CALL to the oracle, and from Rex on a STATICCALL too, is an access to
    its data, unless the mega system address makes it. *)
Definition detects_oracle_call ctx (call_inputs : CallInputs) : bool :=
  MegaSpecId.is_enabled (spec ctx) MINI_REX && negb (MegaSpecId.is_enabled (spec ctx) REX3) &&
  match cin_scheme call_inputs with
  | SchemeCall => true
  | SchemeStaticCall => MegaSpecId.is_enabled (spec ctx) REX
  | SchemeCallCode | SchemeDelegateCall => false
  end && negb (bool_decide (cin_caller call_inputs = MEGA_SYSTEM_ADDRESS)).

Definition mark_oracle_call ctx (call_inputs : CallInputs) : outcome Ctx :=
  if detects_oracle_call ctx call_inputs then
    let '(tracker, marked) := VolatileDataAccessTracker.check_and_mark_oracle_access
      ORACLE_CONTRACT_ADDRESS (cin_target_address call_inputs) (volatile_data_tracker ctx) in
    let ctx := MegaContext.with_volatile tracker ctx in
    if marked then
      match VolatileDataAccessTracker.get_compute_gas_limit tracker with
      | Some compute_gas_limit =>
          al ← AdditionalLimit.set_compute_gas_limit compute_gas_limit (additional_limit ctx);
          Ret (MegaContext.with_additional_limit al ctx)
      | None => Ret ctx
      end
    else Ret ctx
  else Ret ctx.

(** Detection, interception, limits, and then the frame itself. *)
Definition mark_frame ctx (fi : FrameInit) : outcome Ctx :=
  match fi_frame_input fi with
  | FrameInputCall call_inputs => mark_oracle_call ctx call_inputs
  | _ => Ret ctx
  end.

Definition intercept_frame ctx (fi : FrameInit) : outcome (Ctx * option (FrameResult Gas)) :=
  match fi_frame_input fi with
  | FrameInputCall call_inputs =>
      dispatch_system_contract_interceptors call_inputs (fi_depth fi) ctx
  | _ => Ret (ctx, None)
  end.

Definition push_empty ctx : outcome Ctx :=
  if is_mini_rex ctx then
    al ← AdditionalLimit.push_empty_frame (additional_limit ctx);
    Ret (MegaContext.with_additional_limit al ctx)
  else Ret ctx.

Definition limit_frame_init ctx (fi : FrameInit) :
    outcome (Ctx * result (option (FrameResult Gas)) E) :=
  if is_mini_rex ctx then
    '(al, j, r) ← AdditionalLimit.before_frame_init (Gas:=Gas) fi (MegaContext.journal ctx)
                    (additional_limit ctx);
    let ctx := MegaContext.with_additional_limit al ctx in
    Ret (MegaContext.with_inner (MegaContext.set_journal j (inner ctx)) ctx, r)
  else Ret (ctx, Ok None).

Definition frame_init (fi : FrameInit) evm :
    outcome (Evm * result (ItemOrResult (EthFrame Gas) (FrameResult Gas)) E) :=
  let mini_rex := is_mini_rex (evm_ctx evm) in
  ctx ← mark_frame (evm_ctx evm) fi;
  '(ctx, intercepted) ← intercept_frame ctx fi;
  match intercepted with
  | Some result =>
      ctx ← push_empty ctx;
      Ret (with_evm_ctx ctx evm, Ok (Result result))
  | None =>
    '(ctx, exceeded) ← limit_frame_init ctx fi;
    let evm := with_evm_ctx ctx evm in
    match exceeded with
    | Err e => Ret (evm, Err e)
    | Ok (Some frame_result) => Ret (evm, Ok (Result frame_result))
    | Ok None =>
      '(evm, init_result) ← revm_frame_init fi evm;
      match init_result with
      | Err e => Ret (evm, Err e)
      | Ok init_result =>
          if mini_rex then
            al ← AdditionalLimit.after_frame_init (J:=J) (E:=E) init_result
                   (additional_limit (evm_ctx evm));
            Ret (with_limit al evm, Ok init_result)
          else Ret (evm, Ok init_result)
      end
    end
  end.

(** What [frame_run] does around the instructions that [run] runs. *)
Definition frame_run_with (run : Evm → outcome (Evm * InterpreterAction Gas)) evm :
    outcome (Evm * result (ItemOrResult FrameInit (FrameResult Gas)) E) :=
  '(ctx, early) ← before_frame_run (evm_ctx evm) (top_frame (evm_frame_stack evm));
  let evm := with_evm_ctx ctx evm in
  '(evm, action) ← match early with
                   | Some action => Ret (evm, action)
                   | None => run evm
                   end;
  '(ctx, action) ← after_frame_run_instructions (evm_ctx evm)
                     (top_frame (evm_frame_stack evm)) action;
  let gas_remaining_before :=
    match action, is_mini_rex ctx with
    | ActionReturn r, true => Some (gas_remaining (ir_gas r))
    | _, _ => None
    end in
  let '(evm, frame_output) := process_next_action action (with_evm_ctx ctx evm) in
  match frame_output with
  | Err e => Ret (evm, Err e)
  | Ok frame_output =>
      let evm := match frame_output with
                 | Result _ => with_frame_stack (frame_set_finished (evm_frame_stack evm)) evm
                 | Item _ => evm
                 end in
      '(ctx, frame_output) ← after_frame_run (evm_ctx evm) frame_output gas_remaining_before;
      Ret (with_evm_ctx ctx evm, Ok frame_output)
  end.

Definition frame_run := frame_run_with run_plain.

Definition enable_access_if_returning ctx : Ctx :=
  if MegaSpecId.is_enabled (spec ctx) REX4 then
    MegaContext.with_volatile (VolatileDataAccessTracker.enable_access_if_returning
      (op_journal_depth (MegaContext.journal ctx)) (volatile_data_tracker ctx)) ctx
  else ctx.

Definition frame_return_result (result : FrameResult Gas) evm :
    outcome (Evm * Prelude.result (option (FrameResult Gas)) E) :=
  '(evm, result) ←
    (if is_mini_rex (evm_ctx evm) then
       '(al, r) ← AdditionalLimit.before_frame_return_result (J:=J) (E:=E) false result
                    (additional_limit (evm_ctx evm));
       Ret (with_limit al evm, r)
     else Ret (evm, result));
  let '(evm, ret) := revm_frame_return_result result evm in
  match ret with
  | Err e => Ret (evm, Err e)
  | Ok ret => Ret (with_evm_ctx (enable_access_if_returning (evm_ctx evm)) evm, Ok ret)
  end.

(** ** With an inspector *)
Definition inspect_frame_init (fi : FrameInit) evm :
    outcome (Evm * result (ItemOrResult (EthFrame Gas) (FrameResult Gas)) E) :=
  let '(evm, frame_input, intercepted) := frame_start (fi_frame_input fi) evm in
  let fi := Build_FrameInit (fi_depth fi) frame_input in
  match intercepted with
  | Some output =>
      ctx ← push_empty (evm_ctx evm);
      let '(evm, output) := frame_end frame_input output (with_evm_ctx ctx evm) in
      Ret (evm, Ok (Result output))
  | None =>
      '(evm, r) ← frame_init fi evm;
      match r with
      | Err e => Ret (evm, Err e)
      | Ok (Result output) =>
          let '(evm, output) := frame_end frame_input output evm in
          Ret (evm, Ok (Result output))
      | Ok (Item frame) => Ret (initialize_interp evm, Ok (Item frame))
      end
  end.

Definition inspect_frame_run evm :
    outcome (Evm * result (ItemOrResult FrameInit (FrameResult Gas)) E) :=
  '(evm, r) ← frame_run_with inspect_instructions evm;
  match r with
  | Ok (Result frame_result) =>
      let '(evm, frame_result) :=
        frame_end (frame_input_of (evm_frame_stack evm)) frame_result evm in
      Ret (evm, Ok (Result frame_result))
  | r => Ret (evm, r)
  end.
End execution.

(** ** [revm]'s loop over frames: it starts with a frame, and until the first one has
    returned it runs the top frame, makes the frames it asks for, and hands results
    to their callers.  The three steps are those of the EVM. *)
Class ExecLoop (Gas E Evm : Type) := {
  run_exec_loop :
    (FrameInit → Evm → outcome (Evm * result (ItemOrResult (EthFrame Gas) (FrameResult Gas)) E)) →
    (Evm → outcome (Evm * result (ItemOrResult FrameInit (FrameResult Gas)) E)) →
    (FrameResult Gas → Evm → outcome (Evm * result (option (FrameResult Gas)) E)) →
    FrameInit → Evm → outcome (Evm * result (FrameResult Gas) (MegaError E));
}.

(** ** A whole transaction *)
Section transaction.
Context `{Profile} `{BitflagsApi} `{InstructionResultApi} `{SStoreApi} `{AbiApi} `{KeylessAbi}
  `{InterceptAbi} `{RevmGasConstants} {Gas : Type} `{GasApi Gas} {Sig : Type} `{KeylessTxApi Sig}
  {DB E Bytecode S SE SD AL O Log Acc I P F : Type} {revm : RevmState Bytecode}
  {bytecode : BytecodeApi Bytecode} {database : Database DB E Bytecode} {display : Display E}
  {show : Display SE} {show_address : Display Address} {oracle : OracleEnv O}
  {salt : SaltEnv S SE} {host : OpHost (Journal DB Bytecode) SD AL}
  {sandbox : SandboxEvm (Journal DB Bytecode) (SandboxDb DB Bytecode) S O Bytecode Log}
  {journal : JournalInspectTr (Journal DB Bytecode) E Acc} `{AccountApi Acc} `{CreateApi Acc}
  `{ValidationApi Bytecode}
  `{FrameApi Gas E (MegaContext (Journal DB Bytecode) S O) I P F}
  `{InspectorApi Gas (MegaContext (Journal DB Bytecode) S O) I P F}
  `{OpHandler Gas E Log (MegaContext (Journal DB Bytecode) S O) I P F}
  `{ExecLoop Gas E (MegaEvm (MegaContext (Journal DB Bytecode) S O) I P F)}.
Notation J := (Journal DB Bytecode).
Notation Ctx := (MegaContext J S O).
Notation Evm := (MegaEvm Ctx I P F).
Notation Error := (MegaError E).
Notation Executed := (outcome (Evm * result (ExecutionResult MegaHaltReason Log) Error)).
Implicit Types (ctx : Ctx) (evm : Evm).

(** The frames of a transaction, by the loop that runs them. *)
Definition execution_with
    (run_loop : FrameInit → Evm → outcome (Evm * result (FrameResult Gas) Error))
    (init_and_floor_gas : InitialAndFloorGas) evm :
    outcome (Evm * result (FrameResult Gas) Error) :=
  match before_execution (Gas:=Gas) init_and_floor_gas evm with
  | Some oog_frame_result => Ret (evm, Ok oog_frame_result)
  | None =>
      gas_limit ← sub_u64 (tx_gas_limit (MegaContext.tx (evm_ctx evm)))
                    (initial_gas init_and_floor_gas);
      let '(evm, first) := first_frame_input gas_limit evm in
      match first with
      | Err e => Ret (evm, Err e)
      | Ok first_frame_input =>
          '(evm, frame_result) ← run_loop first_frame_input evm;
          match frame_result with
          | Err e => Ret (evm, Err e)
          | Ok frame_result => last_frame_result (Log:=Log) frame_result evm
          end
      end
  end.

Definition execution : InitialAndFloorGas → Evm → outcome (Evm * result (FrameResult Gas) Error) :=
  execution_with (run_exec_loop (frame_init (E:=E)) frame_run frame_return_result).
Definition inspect_execution :
    InitialAndFloorGas → Evm → outcome (Evm * result (FrameResult Gas) Error) :=
  execution_with (run_exec_loop (inspect_frame_init (E:=E)) inspect_frame_run frame_return_result).

(** The default [run] of [revm]'s handlers: errors are caught. *)
Definition run_with (run_without_catch_error : Evm → Executed) evm : Executed :=
  '(evm, r) ← run_without_catch_error evm;
  match r with
  | Ok out => Ret (evm, Ok out)
  | Err e => catch_error (Log:=Log) e evm
  end.

Definition run_without_catch_error_with
    (run_frames : InitialAndFloorGas → Evm → outcome (Evm * result (FrameResult Gas) Error)) evm :
    Executed :=
  '(evm, r) ← before_run (E:=E) evm;
  match r with Err e => Ret (evm, Err e) | Ok _ =>
  '(evm, g) ← validate (Log:=Log) (Gas:=Gas) evm;
  match g with Err e => Ret (evm, Err e) | Ok init_and_floor_gas =>
  let '(evm, refund) := pre_execution evm in
  match refund with Err e => Ret (evm, Err e) | Ok eip7702_refund =>
  '(evm, exec_result) ← run_frames init_and_floor_gas evm;
  match exec_result with Err e => Ret (evm, Err e) | Ok exec_result =>
  let '(evm, exec_result, r) :=
    post_execution (reward_beneficiary (Log:=Log) (E:=E)) exec_result init_and_floor_gas
      eip7702_refund evm in
  match r with Err e => Ret (evm, Err e) | Ok _ =>
  execution_result exec_result evm
  end end end end end.

Definition run_without_catch_error : Evm → Executed := run_without_catch_error_with execution.
Definition inspect_run_without_catch_error : Evm → Executed :=
  run_without_catch_error_with inspect_execution.

(** A system call skips validation, and what comes before and after execution. *)
Definition run_system_call evm : Executed :=
  ctx ← MegaContext.on_new_tx (evm_ctx evm);
  let evm := with_evm_ctx ctx evm in
  run_with (λ evm,
    '(evm, r) ← execution (mkInitialAndFloorGas 0 0) evm;
    match r with
    | Err e => Ret (evm, Err e)
    | Ok exec_result => execution_result exec_result evm
    end) evm.

(** ** [evm/mod.rs] and [evm/interfaces.rs] *)
Definition transact_one (t : MegaTransaction) evm : Executed :=
  run_with run_without_catch_error (with_evm_ctx (MegaContext.with_tx t (evm_ctx evm)) evm).
Definition inspect_one_tx (t : MegaTransaction) evm : Executed :=
  run_with inspect_run_without_catch_error
    (with_evm_ctx (MegaContext.with_tx t (evm_ctx evm)) evm).

(** [finalize] takes the state out of the journal; it is [revm]'s. *)
Variable journal_finalize : J → J * EvmState Bytecode.
Definition finalize evm : Evm * EvmState Bytecode :=
  let '(j, st) := journal_finalize (MegaContext.journal (evm_ctx evm)) in
  (with_evm_ctx (MegaContext.with_inner
     (MegaContext.set_journal j (inner (evm_ctx evm))) (evm_ctx evm)) evm, st).

(** A result, and the state the journal is left with. *)
Definition and_finalize (ran : Evm * result (ExecutionResult MegaHaltReason Log) Error) :
    Evm * result (ExecutionResult MegaHaltReason Log * EvmState Bytecode) Error :=
  let '(evm, r) := ran in
  match r with
  | Err e => (evm, Err e)
  | Ok res => let '(evm, st) := finalize evm in (evm, Ok (res, st))
  end.

(** [replay] runs the transaction that is set already. *)
Definition replay evm :
    outcome (Evm * result (ExecutionResult MegaHaltReason Log * EvmState Bytecode) Error) :=
  ran ← run_with run_without_catch_error evm; Ret (and_finalize ran).

(** The transaction of a system call is [revm]'s. *)
Variable new_system_tx_with_caller : Address → Address → Bytes → MegaTransaction.
Definition transact_system_call_with_caller (caller contract : Address) (data : Bytes) evm :
    Executed :=
  run_system_call (with_evm_ctx (MegaContext.with_tx
    (new_system_tx_with_caller caller contract data) (evm_ctx evm)) evm).
Definition transact_system_call (caller contract : Address) (data : Bytes) evm :
    outcome (Evm * result (ExecutionResult MegaHaltReason Log * EvmState Bytecode) Error) :=
  ran ← transact_system_call_with_caller caller contract data evm; Ret (and_finalize ran).

Definition set_block (b : BlockEnv) evm : Evm :=
  let i := inner (evm_ctx evm) in
  with_evm_ctx (MegaContext.with_inner
    (mkOpContext (ctx_tx i) b (ctx_cfg i) (ctx_journal i) (ctx_error i)) (evm_ctx evm)) evm.
Definition set_inspector (inspector : I) evm : Evm := with_evm_inspector inspector evm.
Definition set_inspector_enabled (enabled : bool) evm : Evm :=
  mkEvm (evm_ctx evm) (evm_inspector evm) (evm_instruction evm) (evm_precompiles evm)
    (evm_frame_stack evm) enabled.
(** [finish] gives the database and the environment back, under the mega spec. *)
Definition finish evm : DB * (BlockEnv * CfgEnv MegaSpecId) :=
  let ctx := evm_ctx evm in
  (j_database (MegaContext.journal ctx),
   (MegaContext.block ctx, into_megaeth_cfg (spec ctx) (MegaContext.cfg ctx))).

(** [ExecuteEvm::transact] and [InspectEvm::inspect_tx]. *)
Definition transact_raw (t : MegaTransaction) evm :
    outcome (Evm * result (ExecutionResult MegaHaltReason Log * EvmState Bytecode) Error) :=
  ran ← (if evm_inspect evm then inspect_one_tx t evm else transact_one t evm);
  Ret (and_finalize ran).

Record MegaTransactionOutcome := mkOutcome {
  o_result : ExecutionResult MegaHaltReason Log;
  o_state : EvmState Bytecode;
  o_data_size : Z;
  o_kv_updates : Z;
  o_compute_gas_used : Z;
  o_state_growth_used : Z;
}.

Definition execute_transaction (t : MegaTransaction) evm :
    outcome (Evm * result MegaTransactionOutcome Error) :=
  '(evm, r) ← transact_raw t evm;
  match r with
  | Err e => Ret (evm, Err e)
  | Ok (res, st) =>
      u ← AdditionalLimit.get_usage (additional_limit (evm_ctx evm));
      Ret (evm, Ok (mkOutcome res st (lu_data_size u) (lu_kv_updates u) (lu_compute_gas u)
                      (lu_state_growth u)))
  end.

(** The deprecated [inspect_transaction] inspects whether or not inspection is enabled. *)
Definition inspect_transaction (t : MegaTransaction) evm :
    outcome (Evm * result MegaTransactionOutcome Error) :=
  ran ← inspect_one_tx t evm;
  let '(evm, r) := and_finalize ran in
  match r with
  | Err e => Ret (evm, Err e)
  | Ok (res, st) =>
      u ← AdditionalLimit.get_usage (additional_limit (evm_ctx evm));
      Ret (evm, Ok (mkOutcome res st (lu_data_size u) (lu_kv_updates u) (lu_compute_gas u)
                      (lu_state_growth u)))
  end.

(** With inspection enabled it is [execute_transaction]. *)
Lemma inspect_is_execute t evm :
  evm_inspect evm = true → execute_transaction t evm = inspect_transaction t evm.
Proof.
  intros Hi. unfold execute_transaction, inspect_transaction, transact_raw. rewrite Hi.
  by destruct (inspect_one_tx t evm).
Qed.

Definition get_accessed_bucket_ids evm : list Z :=
  DynamicGasCost.get_bucket_ids (dynamic_storage_gas_cost (evm_ctx evm)).

(** Making an EVM: [revm]'s empty frame stack, its inspector that does nothing, and the
    precompiles of a spec. *)
Variables (empty_frames : F) (NoOpInspector : I) (precompiles_of : MegaSpecId → P).
Definition new ctx : Evm :=
  mkEvm ctx NoOpInspector (spec ctx) (precompiles_of (spec ctx)) empty_frames false.
Definition with_inspector (inspector : I) evm : Evm :=
  mkEvm (evm_ctx evm) inspector (evm_instruction evm) (evm_precompiles evm) empty_frames true.
Definition without_inspector evm : Evm :=
  mkEvm (evm_ctx evm) NoOpInspector (evm_instruction evm) (evm_precompiles evm) empty_frames false.
Definition with_tx_runtime_limits (tx_limits : EvmTxRuntimeLimits) evm : Evm :=
  with_evm_ctx (MegaContext.with_tx_runtime_limits tx_limits (evm_ctx evm)) evm.
Definition with_dyn_precompiles {Dyn : Type} (apply_precompile : Address → Dyn → P → P)
    (dyn_precompiles : list (Address * Dyn)) evm : Evm :=
  mkEvm (evm_ctx evm) (evm_inspector evm) (evm_instruction evm)
    (foldl (λ p '(address, d), apply_precompile address d p) (evm_precompiles evm)
       dyn_precompiles)
    (evm_frame_stack evm) (evm_inspect evm).
End transaction.
