(* ===== verification/ExecutionTheory.v ===== *)
(** * What the handler guarantees

    The trackers stay in step with the frames of [revm] through every hook, and are
    empty when a transaction ends; what a transaction pays before it runs; what happens
    to the gas and the halt reason of one that exceeds a limit; and an inspector that
    only watches changes nothing. *)
From S2P Require Import Prelude Spec Deps Volatile LimitTypes FrameLimit Trackers AdditionalLimit.
From S2P Require Import LimitTheory EvmState Inspect StorageGas SystemContracts Context ContextTheory.
From S2P Require Import Sandbox SandboxTheory Intercept Instructions InstructionsTheory Execution.
Open Scope Z_scope.
#[local] Set Warnings "-notation-for-abbreviation".

(** ** How deep the trackers are *)
Section tracker_depth.
Context {I : Type} `{Profile}.
Implicit Types t : FrameLimitTracker I.
Definition depth t : nat := length (frame_stack t).

Lemma frame_mut_depth f t t' : FrameLimitTracker.frame_mut f t = Ret t' → depth t' = depth t.
Proof.
  unfold FrameLimitTracker.frame_mut, depth. intros Ht.
  destruct (frame_stack t) as [|e l] eqn:Hs; outcome_inv; by rewrite ?Hs.
Qed.
Lemma tx_mut_depth f t t' : FrameLimitTracker.tx_mut f t = Ret t' → depth t' = depth t.
Proof. unfold FrameLimitTracker.tx_mut. intros Ht. by outcome_inv. Qed.
Lemma push_depth (rex4 : bool) i t t' :
  (if rex4 then FrameLimitTracker.push_frame i t
   else Ret (FrameLimitTracker.push_frame_with_limit u64_max i t)) = Ret t' →
  depth t' = S (depth t).
Proof. unfold FrameLimitTracker.push_frame. intros Ht. destruct rex4; by outcome_inv. Qed.

Lemma charge_authorities_depth amount l t t' :
  charge_authorities amount l t = Ret t' → depth t' = depth t.
Proof.
  revert t. induction l as [|[a|] l IH]; intros t Hl; simpl in Hl; [by simplify_eq| |by apply IH].
  apply bind_Ret in Hl as (t1&Ht1&Hl). rewrite (IH _ Hl). by eapply tx_mut_depth.
Qed.

(** A return pops, and on the last frame there may be nothing left to pop. *)
Lemma pop_depth `{InstructionResultApi} {Gas} last (r : FrameResult Gas) t t' :
  pop_on_return last r t = Ret t' → depth t' = pred (depth t).
Proof.
  unfold pop_on_return, FrameLimitTracker.pop_frame, depth. intros Ht.
  destruct (frame_stack t) as [|e [|e' l]] eqn:Hs; outcome_inv; simpl; by rewrite ?Hs.
Qed.
End tracker_depth.

Lemma created_depth {Gas} `{Profile} amount (frame : EthFrame Gas) t t' :
  record_created_account amount frame t = Ret t' → depth t' = depth t.
Proof.
  unfold record_created_account. intros Ht. destruct (frame_is_create frame); outcome_inv; [|done].
  by eapply frame_mut_depth.
Qed.

(** Replace tracker operations of the context by what they do to the depth. *)
Ltac depth_inv :=
  repeat match goal with
  | Hx : FrameLimitTracker.frame_mut _ _ = Ret _ |- _ => apply frame_mut_depth in Hx
  | Hx : FrameLimitTracker.tx_mut _ _ = Ret _ |- _ => apply tx_mut_depth in Hx
  | Hx : charge_authorities _ _ _ = Ret _ |- _ => apply charge_authorities_depth in Hx
  | Hx : record_created_account _ _ _ = Ret _ |- _ => apply created_depth in Hx
  | Hx : pop_on_return _ _ _ = Ret _ |- _ => apply pop_depth in Hx
  | Hx : (if _ then FrameLimitTracker.push_frame _ _ else _) = Ret _ |- _ => apply push_depth in Hx
  end.

(** The four trackers of a transaction, [n] frames deep. *)
Definition at_depth (n : nat) (al : AdditionalLimit) : Prop :=
  depth (ds_frame_tracker (data_size al)) = n ∧ depth (kv_frame_tracker (kv_update al)) = n ∧
  depth (cg_frame_tracker (compute_gas al)) = n ∧ depth (sg_frame_tracker (state_growth al)) = n.

Section limit_depth.
Context `{Profile} `{InstructionResultApi} `{SStoreApi} `{AbiApi}
  {Gas J E Account : Type} `{GasApi Gas} `{JournalInspectTr J E Account}
  `{AccountApi Account}.
Implicit Types (s : AdditionalLimit) (n : nat).

(** A tracker hook that moves the depth of every tracker the same way. *)
Definition moves_depth (g : nat → nat) (f : ∀ T, TxRuntimeLimit T J E Gas → T → outcome T) : Prop :=
  (∀ t t', f _ StateGrowthTracker.limit t = Ret t' →
    depth (sg_frame_tracker t') = g (depth (sg_frame_tracker t))) ∧
  (∀ t t', f _ DataSizeTracker.limit t = Ret t' →
    depth (ds_frame_tracker t') = g (depth (ds_frame_tracker t))) ∧
  (∀ t t', f _ KVUpdateTracker.limit t = Ret t' →
    depth (kv_frame_tracker t') = g (depth (kv_frame_tracker t))) ∧
  (∀ t t', f _ ComputeGasTracker.limit t = Ret t' →
    depth (cg_frame_tracker t') = g (depth (cg_frame_tracker t))).

Lemma on_trackers_depth g f n s s' :
  moves_depth g f → AdditionalLimit.on_trackers f s = Ret s' → at_depth n s → at_depth (g n) s'.
Proof.
  intros (Hsg&Hds&Hkv&Hcg) Hon (Dds&Dkv&Dcg&Dsg).
  unfold AdditionalLimit.on_trackers in Hon. outcome_inv. unfold at_depth. simpl.
  split_and!; [erewrite Hds|erewrite Hkv|erewrite Hcg|erewrite Hsg]; eauto; congruence.
Qed.

Ltac moves_depth_tac :=
  unfold moves_depth; split_and!; intros t t' Ht; simpl in Ht; unfold
    DataSizeTracker.after_frame_init_on_frame, DataSizeTracker.after_frame_run,
    DataSizeTracker.after_sstore, DataSizeTracker.record_discardable,
    DataSizeTracker.record_refund,
    KVUpdateTracker.after_frame_init_on_frame, KVUpdateTracker.after_sstore,
    KVUpdateTracker.record_discardable, KVUpdateTracker.record_refund,
    StateGrowthTracker.after_sstore, StateGrowthTracker.record_growth,
    StateGrowthTracker.record_refund in Ht;
  repeat (case_match || outcome_inv); simplify_eq/=; depth_inv; done.

Lemma after_init_moves (frame : EthFrame Gas) :
  moves_depth id (λ T (inst : TxRuntimeLimit T J E Gas), trl_after_frame_init_on_frame frame).
Proof. moves_depth_tac. Qed.
Lemma frame_run_moves (frame : EthFrame Gas) :
  moves_depth id (λ T (inst : TxRuntimeLimit T J E Gas), trl_before_frame_run frame).
Proof. moves_depth_tac. Qed.
Lemma after_run_moves (frame : EthFrame Gas) action :
  moves_depth id (λ T (inst : TxRuntimeLimit T J E Gas), trl_after_frame_run frame action).
Proof. moves_depth_tac. Qed.
Lemma return_moves last (result : FrameResult Gas) :
  moves_depth pred (λ T (inst : TxRuntimeLimit T J E Gas), trl_before_frame_return_result last result).
Proof. moves_depth_tac. Qed.
Lemma sstore_moves sr :
  moves_depth id (λ T (inst : TxRuntimeLimit T J E Gas), trl_after_sstore sr).
Proof. moves_depth_tac. Qed.

Lemma check_depth n s s' c :
  AdditionalLimit.check_limit s = Ret (s', c) → at_depth n s → at_depth n s'.
Proof.
  intros (Hd&Hk&Hc&Hs&_)%check_limit_trackers. unfold at_depth. by rewrite Hd, Hk, Hc, Hs.
Qed.

Lemma still_within_depth n s s' b :
  AdditionalLimit.still_within s = Ret (s', b) → at_depth n s → at_depth n s'.
Proof.
  unfold AdditionalLimit.still_within. intros Hs. apply bind_Ret in Hs as ([s1 c]&Hc&[= <- _]).
  by eapply check_depth.
Qed.

Lemma try_rescue_depth n (g : Gas) s s' :
  AdditionalLimit.try_rescue_gas g s = Ret s' → at_depth n s → at_depth n s'.
Proof.
  unfold AdditionalLimit.try_rescue_gas, AdditionalLimit.rescue_gas. intros Hs Hn.
  apply bind_Ret in Hs as ([s1 c]&Hc&Hs). apply (check_depth n) in Hc; [|done].
  destruct (_ && _); by outcome_inv.
Qed.

Lemma record_compute_depth n g s s' b :
  AdditionalLimit.record_compute_gas g s = Ret (s', b) → at_depth n s → at_depth n s'.
Proof.
  unfold AdditionalLimit.record_compute_gas, ComputeGasTracker.record_gas_used. intros Hr (?&?&?&?).
  apply bind_Ret in Hr as (cg&Hcg&Hr). apply (still_within_depth n) in Hr; [done|].
  outcome_inv. unfold at_depth. simpl. case_match; depth_inv; split_and!; congruence.
Qed.

(** The hooks of an instruction. *)
Definition instruction_event (ev : hook_event (Gas:=Gas) (J:=J)) : Prop :=
  match ev with HSstore _ | HLog _ _ | HCompute _ | HDetain _ => True | _ => False end.

Lemma instruction_event_depth n ev s s' :
  instruction_event ev → hook (E:=E) ev s = Ret s' → at_depth n s → at_depth n s'.
Proof.
  destruct ev as [| | | | | | | |sr|k d|g|cap]; simpl; intros Hev Hs Hn; try done.
  - apply bind_Ret in Hs as ([s1 b]&Hs&[= <-]). apply bind_Ret in Hs as (s2&Ht&Hs).
    eapply still_within_depth; [exact Hs|]. by eapply (on_trackers_depth id), Hn; [apply sstore_moves|].
  - apply bind_Ret in Hs as ([s1 b]&Hs&[= <-]). unfold AdditionalLimit.on_log,
      DataSizeTracker.after_log, DataSizeTracker.record_discardable in Hs. outcome_inv.
    eapply still_within_depth; [done|]. depth_inv. unfold at_depth in *. simpl in *.
    destruct_and?. split_and!; congruence.
  - apply bind_Ret in Hs as ([s1 b]&Hs&[= <-]). by eapply record_compute_depth.
  - unfold AdditionalLimit.set_compute_gas_limit, ComputeGasTracker.set_detained_limit in Hs.
    by outcome_inv.
Qed.

Lemma instruction_events_depth n evs s s' :
  Forall instruction_event evs → hooks (E:=E) evs s = Ret s' → at_depth n s → at_depth n s'.
Proof.
  intros Hevs. revert s. induction Hevs as [|ev evs Hev _ IH]; intros s Hs Hn; simpl in Hs; [by simplify_eq|].
  apply bind_Ret in Hs as (s1&Hs1&Hs). eapply IH; [exact Hs|]. by eapply instruction_event_depth.
Qed.

Lemma still_within_rescued s s' b :
  AdditionalLimit.still_within s = Ret (s', b) → rescued_gas s' = rescued_gas s.
Proof.
  unfold AdditionalLimit.still_within. intros Hs. apply bind_Ret in Hs as ([s1 c]&Hc&[= <- _]).
  by apply check_limit_trackers in Hc as (_&_&_&_&->&_).
Qed.

(** No instruction rescues gas. *)
Lemma instruction_events_rescued evs s s' :
  Forall instruction_event evs → hooks (E:=E) evs s = Ret s' → rescued_gas s' = rescued_gas s.
Proof.
  intros Hevs. revert s. induction Hevs as [|ev evs Hev _ IH]; intros s Hs; simpl in Hs; [by simplify_eq|].
  apply bind_Ret in Hs as (s1&Hs1&Hs). rewrite (IH s1 Hs). clear IH Hs.
  destruct ev as [| | | | | | | |sr|k d|g|cap]; try done; simpl in Hs1.
  - apply bind_Ret in Hs1 as ([s2 b]&Hs1&[= <-]). apply bind_Ret in Hs1 as (s3&Ht&Hs1).
    rewrite (still_within_rescued _ _ _ Hs1).
    by apply on_trackers_same_control in Ht as (_&Hr&_); [|apply keeps_spec_sstore].
  - apply bind_Ret in Hs1 as ([s2 b]&Hs1&[= <-]). unfold AdditionalLimit.on_log in Hs1.
    apply bind_Ret in Hs1 as (ds&_&Hs1). by rewrite (still_within_rescued _ _ _ Hs1).
  - apply bind_Ret in Hs1 as ([s2 b]&Hs1&[= <-]). unfold AdditionalLimit.record_compute_gas in Hs1.
    apply bind_Ret in Hs1 as (cg&_&Hs1). by rewrite (still_within_rescued _ _ _ Hs1).
  - unfold AdditionalLimit.set_compute_gas_limit in Hs1. by apply bind_Ret in Hs1 as (cg&_&[= <-]).
Qed.

(** The hooks of a frame. *)
Lemma push_empty_depth n s s' :
  AdditionalLimit.push_empty_frame s = Ret s' → at_depth n s → at_depth (S n) s'.
Proof.
  unfold AdditionalLimit.push_empty_frame, StateGrowthTracker.push_frame,
    DataSizeTracker.push_empty_frame, DataSizeTracker.push_frame,
    KVUpdateTracker.push_empty_frame, KVUpdateTracker.push_frame, ComputeGasTracker.push_frame.
  intros Hs (?&?&?&?). outcome_inv. depth_inv. unfold at_depth. simpl. split_and!; congruence.
Qed.

Lemma ds_push_depth i (t t' : DataSizeTracker) :
  DataSizeTracker.push_frame i t = Ret t' →
  depth (ds_frame_tracker t') = S (depth (ds_frame_tracker t)).
Proof. unfold DataSizeTracker.push_frame. intros Ht. outcome_inv. by depth_inv. Qed.
Lemma ds_record_depth k (t t' : DataSizeTracker) :
  DataSizeTracker.record_discardable k t = Ret t' →
  depth (ds_frame_tracker t') = depth (ds_frame_tracker t).
Proof. unfold DataSizeTracker.record_discardable. intros Ht. outcome_inv. by depth_inv. Qed.
Lemma kv_push_depth i (t t' : KVUpdateTracker) :
  KVUpdateTracker.push_frame i t = Ret t' →
  depth (kv_frame_tracker t') = S (depth (kv_frame_tracker t)).
Proof. unfold KVUpdateTracker.push_frame. intros Ht. outcome_inv. by depth_inv. Qed.
Lemma kv_record_depth k (t t' : KVUpdateTracker) :
  KVUpdateTracker.record_discardable k t = Ret t' →
  depth (kv_frame_tracker t') = depth (kv_frame_tracker t).
Proof. unfold KVUpdateTracker.record_discardable. intros Ht. outcome_inv. by depth_inv. Qed.
Lemma sg_push_depth (t t' : StateGrowthTracker) :
  StateGrowthTracker.push_frame t = Ret t' →
  depth (sg_frame_tracker t') = S (depth (sg_frame_tracker t)).
Proof. unfold StateGrowthTracker.push_frame. intros Ht. outcome_inv. by depth_inv. Qed.
Lemma sg_record_depth k (t t' : StateGrowthTracker) :
  StateGrowthTracker.record_growth k t = Ret t' →
  depth (sg_frame_tracker t') = depth (sg_frame_tracker t).
Proof. unfold StateGrowthTracker.record_growth. intros Ht. outcome_inv. by depth_inv. Qed.

(** Step through the body of a hook, replacing each operation by its depth. *)
Ltac depth_step :=
  match goal with
  | Hx : DataSizeTracker.push_frame _ _ = Ret _ |- _ => apply ds_push_depth in Hx
  | Hx : DataSizeTracker.record_discardable _ _ = Ret _ |- _ => apply ds_record_depth in Hx
  | Hx : KVUpdateTracker.push_frame _ _ = Ret _ |- _ => apply kv_push_depth in Hx
  | Hx : KVUpdateTracker.record_discardable _ _ = Ret _ |- _ => apply kv_record_depth in Hx
  | Hx : StateGrowthTracker.push_frame _ = Ret _ |- _ => apply sg_push_depth in Hx
  | Hx : StateGrowthTracker.record_growth _ _ = Ret _ |- _ => apply sg_record_depth in Hx
  | Hx : (if ?b then _ else _) = Ret _ |- _ => destruct b
  | Hx : Ret _ = Ret _ |- _ => injection Hx as Hx
  | Hx : Panic = Ret _ |- _ => discriminate Hx
  | Hx : _ ≫= _ = Ret _ |- _ => apply bind_Ret in Hx as (?&?&Hx); simpl in Hx
  end.

Lemma ds_init_depth fi (j j' : J) t t' r :
  DataSizeTracker.before_frame_init (E:=E) fi j t = Ret (t', j', r) →
  depth (ds_frame_tracker t') = S (depth (ds_frame_tracker t)).
Proof.
  unfold DataSizeTracker.before_frame_init. intros Ht. apply bind_Ret in Ht as (t1&Ht1&[= <- _ _]).
  destruct (fi_frame_input fi) as [ci|cr|]; repeat depth_step; congruence.
Qed.
Lemma kv_init_depth fi (j j' : J) t t' r :
  KVUpdateTracker.before_frame_init (E:=E) fi j t = Ret (t', j', r) →
  depth (kv_frame_tracker t') = S (depth (kv_frame_tracker t)).
Proof.
  unfold KVUpdateTracker.before_frame_init. intros Ht. apply bind_Ret in Ht as (t1&Ht1&[= <- _ _]).
  destruct (fi_frame_input fi) as [ci|cr|]; repeat depth_step; congruence.
Qed.
Lemma sg_init_depth fi (j j' : J) t t' r :
  StateGrowthTracker.before_frame_init fi j t = Ret (t', j', r) →
  depth (sg_frame_tracker t') = S (depth (sg_frame_tracker t)).
Proof.
  unfold StateGrowthTracker.before_frame_init. intros Ht. apply bind_Ret in Ht as (t1&Ht1&Ht).
  apply sg_push_depth in Ht1. rewrite <- Ht1. clear Ht1.
  destruct (fi_frame_input fi) as [ci|cr|]; [destruct (cin_transfers_value ci)| |];
    [destruct (Trackers.inspect_account_delegated _ _ _) as [j1 [acc|e]]| | |];
    repeat depth_step; congruence.
Qed.

Lemma init_trackers_depth n fi (j : J) s s' j' :
  AdditionalLimit.init_trackers (Gas:=Gas) (E:=E) fi j s = Ret (s', j', Ok tt) →
  at_depth n s → at_depth (S n) s'.
Proof.
  unfold AdditionalLimit.init_trackers. simpl. intros Hr (?&?&?&?).
  apply bind_Ret in Hr as ([[sg j1] [[]|e]]&Hsg%sg_init_depth&Hr); [|done].
  apply bind_Ret in Hr as ([[ds j2] [[]|e]]&Hds%ds_init_depth&Hr); [|done].
  apply bind_Ret in Hr as ([[kv j3] [[]|e]]&Hkv%kv_init_depth&Hr); [|done].
  unfold ComputeGasTracker.push_frame in Hr. outcome_inv. depth_inv.
  unfold at_depth. simpl in *. split_and!; congruence.
Qed.

Lemma before_frame_init_depth n fi (j : J) s s' j' o :
  AdditionalLimit.before_frame_init (Gas:=Gas) (E:=E) fi j s = Ret (s', j', Ok o) →
  at_depth n s → at_depth (S n) s'.
Proof.
  unfold AdditionalLimit.before_frame_init. intros Hs Hn.
  apply bind_Ret in Hs as ([[s1 j1] [[]|e]]&Hi&Hs); [|by outcome_inv].
  apply (init_trackers_depth n) in Hi; [|done]. apply bind_Ret in Hs as ([s2 c]&Hc&Hs).
  apply (check_depth (S n)) in Hc; [|done]. destruct (LimitCheck.exceeded_limit c); [|by outcome_inv].
  apply bind_Ret in Hs as ([gl off]&_&Hs). apply bind_Ret in Hs as (s3&Hr&Hs).
  outcome_inv. by eapply try_rescue_depth.
Qed.

Lemma after_frame_init_depth n r s s' :
  AdditionalLimit.after_frame_init (Gas:=Gas) (J:=J) (E:=E) r s = Ret s' →
  at_depth n s → at_depth n s'.
Proof.
  destruct r as [frame|r]; simpl; intros Hs Hn; [|by eapply try_rescue_depth].
  by eapply (on_trackers_depth id), Hn; [apply after_init_moves|].
Qed.

Lemma before_frame_run_depth n (frame : EthFrame Gas) s s' o :
  AdditionalLimit.before_frame_run (J:=J) (E:=E) frame s = Ret (s', o) →
  at_depth n s → at_depth n s'.
Proof.
  unfold AdditionalLimit.before_frame_run. intros Hs Hn. apply bind_Ret in Hs as (s1&Hs1&Hs).
  apply (on_trackers_depth id _ n) in Hs1; [|apply frame_run_moves|done].
  apply bind_Ret in Hs as ([s2 c]&Hc&Hs). apply (check_depth n) in Hc; [|done].
  by destruct (LimitCheck.exceeded_limit c); outcome_inv.
Qed.

Lemma after_instructions_depth n (frame : EthFrame Gas) action s s' a :
  AdditionalLimit.after_frame_run_instructions (J:=J) (E:=E) frame action s = Ret (s', a) →
  at_depth n s → at_depth n s'.
Proof.
  unfold AdditionalLimit.after_frame_run_instructions. intros Hs Hn. apply bind_Ret in Hs as (s1&Hs1&Hs).
  apply (on_trackers_depth id _ n) in Hs1; [|apply after_run_moves|done].
  destruct action as [r|]; [|by outcome_inv]. destruct (frame_is_create frame); [|by outcome_inv].
  destruct (LimitCheck.exceeded_limit _); [by outcome_inv|].
  apply bind_Ret in Hs as ([s2 c]&Hc&Hs). apply (check_depth n) in Hc; [|done].
  by destruct (LimitCheck.exceeded_limit c); outcome_inv.
Qed.

Lemma after_frame_run_depth n (r : FrameResult Gas) g s s' r' :
  AdditionalLimit.after_frame_run r g s = Ret (s', r') → at_depth n s → at_depth n s'.
Proof.
  unfold AdditionalLimit.after_frame_run. intros Hs Hn. apply bind_Ret in Hs as ([s1 r1]&Hs1&Hs).
  apply bind_Ret in Hs as (s2&Hs2&[= <- _]). eapply try_rescue_depth; [exact Hs2|].
  destruct g as [g|]; [|by outcome_inv]. apply bind_Ret in Hs1 as ([s3 b]&Hb&Hs1).
  eapply (record_compute_depth n) in Hb; [|done]. by destruct b; outcome_inv.
Qed.

Lemma return_depth n last (r : FrameResult Gas) s s' r' :
  AdditionalLimit.before_frame_return_result (J:=J) (E:=E) last r s = Ret (s', r') →
  at_depth n s → at_depth (pred n) s'.
Proof.
  unfold AdditionalLimit.before_frame_return_result. intros Hs Hn. apply bind_Ret in Hs as (s1&Hs1&Hs).
  apply (on_trackers_depth pred _ n) in Hs1; [|apply return_moves|done].
  apply bind_Ret in Hs as ([s2 c]&Hc&Hs). apply (check_depth (pred n)) in Hc; [|done].
  destruct (_ && _); [|by outcome_inv]. destruct (LimitCheck.is_frame_local c); by outcome_inv.
Qed.
End limit_depth.

(** ** What reaches the limits between the hooks of the frames *)
Section by_instructions.
Context `{Profile} `{BitflagsApi} `{InstructionResultApi} `{SStoreApi} `{AbiApi}
  {Gas : Type} `{GasApi Gas} {J S O E Account : Type} `{JournalInspectTr J E Account}
  `{AccountApi Account}.
Implicit Types h : MegaContext J S O.

(** The spec stays, and the limits move by the hooks of instructions. *)
Definition by_instructions h h' : Prop :=
  spec h' = spec h ∧ ∃ evs, Forall (instruction_event (Gas:=Gas) (J:=J)) evs ∧
    hooks (E:=E) evs (additional_limit h) = Ret (additional_limit h').

Lemma hooks_app evs1 evs2 s :
  hooks (Gas:=Gas) (J:=J) (E:=E) (evs1 ++ evs2) s = (s ← hooks evs1 s; hooks evs2 s).
Proof.
  revert s. induction evs1 as [|ev evs1 IH]; intros s; [done|]. simpl.
  destruct (hook ev s); [apply IH|done].
Qed.

Lemma by_one ev h al : instruction_event ev → hook (Gas:=Gas) (E:=E) ev (additional_limit h) = Ret al →
  by_instructions h (MegaContext.with_additional_limit al h).
Proof. intros Hev Hh. split; [done|]. exists [ev]. split; [by constructor|]. simpl. by rewrite Hh. Qed.

Lemma by_same h h' : same_limits h h' → by_instructions h h'.
Proof. intros [Hal Hs]. split; [done|]. exists []. split; [done|]. simpl. by rewrite Hal. Qed.

#[export] Instance by_instructions_preorder : PreOrder by_instructions.
Proof.
  split.
  - intros h. by apply by_same.
  - intros h1 h2 h3 (Hs1&evs1&He1&Hh1) (Hs2&evs2&He2&Hh2). split; [congruence|].
    exists (evs1 ++ evs2). split; [by apply Forall_app|]. rewrite hooks_app, Hh1. done.
Qed.

#[export] Instance by_instructions_rel :
  LimitRel (Gas:=Gas) (E:=E) by_instructions.
Proof.
  split.
  - exact _.
  - apply by_same.
  - intros g h al b Hr. apply (by_one (HCompute g)); [done|]. simpl. by rewrite Hr.
  - intros sr h al b Hr. apply (by_one (HSstore sr)); [done|]. simpl. by rewrite Hr.
  - intros k d h al b Hr. apply (by_one (HLog k d)); [done|]. simpl. by rewrite Hr.
Qed.

Lemma by_instructions_cap : respects_cap (Rel:=by_instructions).
Proof. intros cap h al Hr. by apply (by_one (HDetain cap)). Qed.

Lemma by_instructions_depth n h h' :
  by_instructions h h' → at_depth n (additional_limit h) → at_depth n (additional_limit h').
Proof. intros (_&evs&Hevs&Hh). by eapply instruction_events_depth. Qed.
End by_instructions.

(** ** The loop of [revm] over frames, by what it may reach *)
Section loop.
Context {Gas E Evm : Type}
  (init : FrameInit → Evm → outcome (Evm * result (ItemOrResult (EthFrame Gas) (FrameResult Gas)) E))
  (run : Evm → outcome (Evm * result (ItemOrResult FrameInit (FrameResult Gas)) E))
  (return_result : FrameResult Gas → Evm → outcome (Evm * result (option (FrameResult Gas)) E)).

(** The top frame ends, or asks for a frame that is answered at once. *)
Inductive yields (evm : Evm) : Evm → FrameResult Gas → Prop :=
  | YieldsEnd evm1 r : run evm = Ret (evm1, Ok (Result r)) → yields evm evm1 r
  | YieldsAnswer evm1 fi evm2 r :
      run evm = Ret (evm1, Ok (Item fi)) → init fi evm1 = Ret (evm2, Ok (Result r)) →
      yields evm evm2 r.

(** The states with a frame to run: the first frame was made, a frame was called, or a
    result was handed to its caller. *)
Inductive running (fi0 : FrameInit) (start : Evm) : Evm → Prop :=
  | RunStart evm frame : init fi0 start = Ret (evm, Ok (Item frame)) → running fi0 start evm
  | RunCall evm evm1 fi evm2 frame :
      running fi0 start evm → run evm = Ret (evm1, Ok (Item fi)) →
      init fi evm1 = Ret (evm2, Ok (Item frame)) → running fi0 start evm2
  | RunReturn evm evm1 r evm2 :
      running fi0 start evm → yields evm evm1 r →
      return_result r evm1 = Ret (evm2, Ok None) → running fi0 start evm2.

(** The result of the first frame. *)
Inductive loop_ends (fi0 : FrameInit) (start evm' : Evm) (r' : FrameResult Gas) : Prop :=
  | EndsAtOnce : init fi0 start = Ret (evm', Ok (Result r')) → loop_ends fi0 start evm' r'
  | EndsRun evm evm1 r :
      running fi0 start evm → yields evm evm1 r →
      return_result r evm1 = Ret (evm', Ok (Some r')) → loop_ends fi0 start evm' r'.
End loop.

Class ExecLoopLaws (Gas E Evm : Type) `{ExecLoop Gas E Evm} : Prop := {
  run_exec_loop_ends init run return_result fi (evm evm' : Evm) r :
    run_exec_loop init run return_result fi evm = Ret (evm', Ok r) →
    loop_ends init run return_result fi evm evm' r;
}.

(** ** Outcomes related by a relation on what they return *)
Section outcome_rel.
Context {A B C D : Type}.
Definition outcome_rel {A B} (Rel : A → B → Prop) (m : outcome A) (m' : outcome B) : Prop :=
  match m, m' with
  | Ret a, Ret b => Rel a b
  | Panic, Panic => True
  | _, _ => False
  end.

Lemma outcome_rel_bind (Q : A → B → Prop) (Rel : C → D → Prop) m m' f f' :
  outcome_rel Q m m' → (∀ a b, Q a b → outcome_rel Rel (f a) (f' b)) →
  outcome_rel Rel (m ≫= f) (m' ≫= f').
Proof. destruct m, m'; simpl; try done. intros Hq Hf. by apply Hf. Qed.

Lemma fmap_Ret_id (m : outcome A) : m ≫= Ret = m.
Proof. by destruct m. Qed.

Lemma outcome_rel_same (Rel : C → D → Prop) (m : outcome A) f f' :
  (∀ a, outcome_rel Rel (f a) (f' a)) → outcome_rel Rel (m ≫= f) (m ≫= f').
Proof. destruct m; simpl; auto. Qed.
End outcome_rel.

(** What a call returns, with the EVM it leaves behind, up to a relation between EVMs. *)
Section res_rel.
Context {Evm : Type} {R : relation Evm}.
Definition res_rel {X} (p q : Evm * X) : Prop := R (fst p) (fst q) ∧ snd p = snd q.

(** The two sides of a related call, taken apart together. *)
Lemma res_rel_case {X} (p q : Evm * X) :
  res_rel p q → ∃ e e' x, p = (e, x) ∧ q = (e', x) ∧ R e e'.
Proof. destruct p as [e x], q as [e' x']. intros [He Hx]. simpl in *. subst. by exists e, e', x'. Qed.

Lemma res_rel_bind {X Y} (m m' : outcome (Evm * X)) (f f' : Evm * X → outcome (Evm * Y)) :
  outcome_rel res_rel m m' →
  (∀ e e' x, R e e' → outcome_rel res_rel (f (e, x)) (f' (e', x))) →
  outcome_rel res_rel (m ≫= f) (m' ≫= f').
Proof.
  intros Hm Hf. eapply outcome_rel_bind; [exact Hm|].
  intros p q (e&e'&x&->&->&He)%res_rel_case. by apply Hf.
Qed.
End res_rel.
Arguments res_rel {Evm} R {X}.

(** The loop of [revm] runs related steps from related EVMs to related EVMs: it looks at
    an EVM only through its steps. *)
Class LoopParametric (Gas E Evm : Type) `{ExecLoop Gas E Evm} : Prop := {
  loop_related (R : relation Evm) init init' run run' ret ret' fi evm evm' :
    (∀ fi e e', R e e' → outcome_rel (res_rel R) (init fi e) (init' fi e')) →
    (∀ e e', R e e' → outcome_rel (res_rel R) (run e) (run' e')) →
    (∀ r e e', R e e' → outcome_rel (res_rel R) (ret r e) (ret' r e')) →
    R evm evm' →
    outcome_rel (res_rel R) (run_exec_loop init run ret fi evm) (run_exec_loop init' run' ret' fi evm');
}.

(** ** Frames *)
Section frames.
Context `{Profile} `{BitflagsApi} `{InstructionResultApi} `{SStoreApi} `{AbiApi} `{KeylessAbi}
  `{InterceptAbi} `{RevmGasConstants} {Gas R : Type} `{GasApi Gas} {Sig : Type} `{KeylessTxApi Sig}
  `{InterpreterApi Gas R}
  {DB E Bytecode S SE SD AL O Log Acc I P F : Type} {revm_state : RevmState Bytecode}
  {bytecode : BytecodeApi Bytecode} {database : Database DB E Bytecode} {display : Display E}
  {show : Display SE} {show_address : Display Address} {oracle : OracleEnv O}
  {salt : SaltEnv S SE} {host : OpHost (Journal DB Bytecode) SD AL}
  {sandbox : SandboxEvm (Journal DB Bytecode) (SandboxDb DB Bytecode) S O Bytecode Log}
  {journal : JournalInspectTr (Journal DB Bytecode) E Acc} `{AccountApi Acc} `{CreateApi Acc}
  {slots : StorageInspectTr (Journal DB Bytecode) E}
  {instrs : RevmInstructions Gas R (MegaContext (Journal DB Bytecode) S O)}
  `{ValidationApi Bytecode}
  {frame_api : FrameApi Gas E (MegaContext (Journal DB Bytecode) S O) I P F}
  {inspector_api : InspectorApi Gas (MegaContext (Journal DB Bytecode) S O) I P F}
  {handler : OpHandler Gas E Log (MegaContext (Journal DB Bytecode) S O) I P F}.
Notation J := (Journal DB Bytecode).
Notation Ctx := (MegaContext J S O).
Notation Evm := (MegaEvm Ctx I P F).
Notation by_instructions := (by_instructions (Gas:=Gas) (E:=E)).
Implicit Types (ctx : Ctx) (evm : Evm) (n : nat).

(** What a call of [revm] that is not the interpreter leaves alone. *)
Definition evm_keeps evm evm' : Prop :=
  same_limits (evm_ctx evm) (evm_ctx evm') ∧ evm_instruction evm' = evm_instruction evm.

(** [revm]'s frame stack, by which of its frames are finished, from the top: making a
    frame pushes an unfinished one, and a return pops the top when it is finished and
    hands the result out when no frame is left.  Instructions run by the table. *)
Class FrameLaws (main : opcode.Opcode → Interpreter Gas R → Ctx → outcome (Interpreter Gas R * Ctx))
    (frame_flags : F → list bool) : Prop := {
  finished_law f :
    frame_flags (frame_set_finished f) =
      match frame_flags f with [] => [] | _ :: l => true :: l end;
  init_law fi evm evm' r : revm_frame_init fi evm = Ret (evm', Ok r) →
    evm_keeps evm evm' ∧
    frame_flags (evm_frame_stack evm') =
      match r with
      | Item _ => false :: frame_flags (evm_frame_stack evm)
      | Result _ => frame_flags (evm_frame_stack evm)
      end;
  run_law evm evm' action : run_plain evm = Ret (evm', action) →
    evm_instruction evm' = evm_instruction evm ∧
    frame_flags (evm_frame_stack evm') = frame_flags (evm_frame_stack evm) ∧
    ∀ Rel : relation Ctx, PreOrder Rel →
      (∀ op, keeps Rel (MegaInstructions_new main (evm_instruction evm) op)) →
      Rel (evm_ctx evm) (evm_ctx evm');
  process_law action evm evm' r : process_next_action action evm = (evm', r) →
    evm_keeps evm evm' ∧ frame_flags (evm_frame_stack evm') = frame_flags (evm_frame_stack evm);
  return_law r evm evm' o : revm_frame_return_result r evm = (evm', Ok o) →
    evm_keeps evm evm' ∧
    frame_flags (evm_frame_stack evm') =
      match frame_flags (evm_frame_stack evm) with true :: l => l | l => l end ∧
    (o = None ↔ frame_flags (evm_frame_stack evm') ≠ []);
}.

(** The handler of [op-revm] around the frames of a transaction. *)
Class HandlerLaws : Prop := {
  first_input_law gas evm evm' r : first_frame_input gas evm = (evm', r) →
    evm_keeps evm evm' ∧ evm_frame_stack evm' = evm_frame_stack evm;
  last_result_law r evm evm' r' x : op_last_frame_result (Log:=Log) (E:=E) r evm = (evm', r', x) →
    evm_keeps evm evm';
}.

(** *** Detection and interception *)
Lemma mark_frame_by ctx ctx' fi : mark_frame ctx fi = Ret ctx' → by_instructions ctx ctx'.
Proof.
  unfold mark_frame, mark_oracle_call. intros Hm.
  destruct (fi_frame_input fi) as [ci|cr|]; simplify_eq; [|done..].
  destruct (detects_oracle_call ctx ci); [|by simplify_eq].
  destruct (VolatileDataAccessTracker.check_and_mark_oracle_access _ _ _) as [t marked].
  etrans; [by apply (by_same ctx (MegaContext.with_volatile t ctx))|].
  destruct marked; [|by simplify_eq].
  destruct (VolatileDataAccessTracker.get_compute_gas_limit t) as [cap|]; [|by simplify_eq].
  apply bind_Ret in Hm as (al&Hal&[= <-]).
  by apply (by_one (HDetain cap)).
Qed.

Lemma get_nonce_limits a ctx ctx' r : get_account_nonce a ctx = (ctx', r) → same_limits ctx ctx'.
Proof. unfold get_account_nonce. intros. by repeat (case_match; simplify_eq/=). Qed.

Lemma prepare_limits ci txb ovr ctx ctx' r :
  prepare_sandbox_tx ci txb ovr ctx = (ctx', r) → same_limits ctx ctx'.
Proof.
  unfold prepare_sandbox_tx, get_account_nonce. intros Hp. by repeat (case_match; simplify_eq/=).
Qed.

Lemma sandbox_limits t ctx ctx' r :
  execute_keyless_deploy_sandbox t ctx = Ret (ctx', r) → same_limits ctx ctx'.
Proof.
  unfold execute_keyless_deploy_sandbox. intros Hs.
  by repeat (outcome_inv || case_match); simplify_eq/=.
Qed.

Lemma emit_logs_limits logs ctx : same_limits ctx (emit_logs logs ctx).
Proof.
  revert ctx. induction logs as [|l logs IH]; intros ctx; [done|].
  exact (IH (MegaContext.with_inner (op_log l (inner ctx)) ctx)).
Qed.

Lemma run_sandbox_limits ci (gas : Gas) p ctx ctx' r :
  run_sandbox ci gas p ctx = Ret (ctx', r) → same_limits ctx ctx'.
Proof.
  unfold run_sandbox, apply_sandbox_state. destruct p as [[t signer] address]. intros Hs.
  apply bind_Ret in Hs as ([c1 x]&Hx&Hs). apply sandbox_limits in Hx as [Hal Hsp]. simpl in Hs.
  destruct x as [[st sr|st e]|e]; [| |by simplify_eq].
  - apply bind_Ret in Hs as ([c2 y]&Hy&Hs). apply bind_Ret in Hy as (m&_&[= <- <-]).
    destruct (negb _); simplify_eq/=; [done|].
    destruct (emit_logs_limits (sr_logs sr) (journal_mut (with_state m) c1)) as [Ha Hb].
    split; [rewrite Ha; exact Hal|rewrite Hb; exact Hsp].
  - apply bind_Ret in Hs as ([c2 y]&Hy&Hs). apply bind_Ret in Hy as (m&_&[= <- <-]).
    by simplify_eq/=.
Qed.

Lemma keyless_by ci txb ovr ctx ctx' (r : FrameResult Gas) :
  execute_keyless_deploy_call ci txb ovr ctx = Ret (ctx', r) → by_instructions ctx ctx'.
Proof.
  unfold execute_keyless_deploy_call. intros Hk. apply bind_Ret in Hk as ([c1 x]&Hx&Hk).
  assert (by_instructions ctx c1) as Hby.
  { unfold charge_overhead in Hx. destruct (gas_record_cost _ _) as [g []]; simpl in Hx; [|by simplify_eq].
    destruct (MegaSpecId.is_enabled (spec ctx) REX3); [|by simplify_eq].
    apply bind_Ret in Hx as ([al b]&Hal&Hx).
    assert (c1 = MegaContext.with_additional_limit al ctx) as ->.
    { destruct b; [by simplify_eq|]. apply bind_Ret in Hx as (c&_&Hx).
      destruct c as [|k l u []]; by simplify_eq. }
    apply (by_one (HCompute constants.rex2.KEYLESS_DEPLOY_OVERHEAD_GAS)); [done|].
    simpl. by rewrite Hal. }
  etrans; [exact Hby|]. destruct x as [gas|]; [|by simplify_eq].
  destruct (prepare_sandbox_tx ci txb ovr c1) as [c2 y] eqn:Hp. apply prepare_limits, by_same in Hp.
  etrans; [exact Hp|]. destruct y as [p|]; [|by simplify_eq].
  eapply by_same, run_sandbox_limits, Hk.
Qed.

Lemma intercept_by ctx ctx' fi (o : option (FrameResult Gas)) :
  intercept_frame ctx fi = Ret (ctx', o) → by_instructions ctx ctx'.
Proof.
  unfold intercept_frame. destruct (fi_frame_input fi) as [ci|cr|]; intros Hi; [|by simplify_eq..].
  rewrite dispatch_by_address in Hi. cbv zeta in Hi.
  assert (by_instructions ctx (hinted ci ctx)) as Hh.
  { apply by_same. unfold hinted. by repeat case_match. }
  etrans; [exact Hh|]. revert Hi.
  repeat case_match; intros Hi;
    first [apply bind_Ret in Hi as ([c1 r1]&Hk&[= <- _]); by eapply keyless_by
          |outcome_inv; by apply by_same].
Qed.

(** *** The steps of the loop keep the trackers and the frames in step *)
Section balance.
Context {revm_laws : RevmInstructionLaws Gas R J S O} {main : opcode.Opcode → Interpreter Gas R → Ctx →
  outcome (Interpreter Gas R * Ctx)} {frame_flags : F → list bool}
  {laws : FrameLaws main frame_flags} {handler_laws : HandlerLaws}.
Notation flags evm := (frame_flags (evm_frame_stack evm)).

(** An EVM of a spec with limits, its trackers [n] frames deep. *)
Definition limits_at n evm : Prop :=
  is_mini_rex (evm_ctx evm) = true ∧
  MegaSpecId.is_enabled (evm_instruction evm) MINI_REX = true ∧
  at_depth n (additional_limit (evm_ctx evm)).

Lemma limits_at_keeps n evm evm' : evm_keeps evm evm' → limits_at n evm → limits_at n evm'.
Proof.
  intros [[Hal Hsp] Hi] (Hm&Ht&Hn). unfold limits_at, is_mini_rex in *. by rewrite Hsp, Hi, Hal.
Qed.

Lemma limits_at_by n ctx evm :
  by_instructions (evm_ctx evm) ctx → limits_at n evm → limits_at n (with_evm_ctx ctx evm).
Proof.
  intros Hby (Hm&Ht&Hn). unfold limits_at, is_mini_rex. simpl. destruct Hby as [Hsp Hby].
  rewrite Hsp. split_and!; [done|done|]. by apply (by_instructions_depth (E:=E) (Gas:=Gas) n (evm_ctx evm)).
Qed.

Lemma limits_at_set n n' al evm :
  limits_at n evm → at_depth n' al →
  limits_at n' (with_evm_ctx (MegaContext.with_additional_limit al (evm_ctx evm)) evm).
Proof. intros (Hm&Ht&_) Hn. done. Qed.

Lemma frame_init_step n fi evm evm' r :
  frame_init (Log:=Log) fi evm = Ret (evm', Ok r) → limits_at n evm →
  limits_at (Datatypes.S n) evm' ∧
  flags evm' = match r with Item _ => false :: flags evm | Result _ => flags evm end.
Proof.
  unfold frame_init. intros Hf Hn. apply bind_Ret in Hf as (c1&Hc1%mark_frame_by&Hf).
  apply bind_Ret in Hf as ([c2 intercepted]&Hc2%intercept_by&Hf).
  pose proof (limits_at_by n c2 evm ltac:(by etrans) Hn) as Hn2. clear Hc1 Hc2 c1.
  assert (is_mini_rex c2 = true) as Hm2 by apply Hn2. pose proof Hn as (Hm&_).
  destruct intercepted as [res|]; simpl in Hf.
  - apply bind_Ret in Hf as (c3&Hp&[= <- <-]). split; [|done].
    unfold push_empty in Hp. rewrite Hm2 in Hp. apply bind_Ret in Hp as (al&Hal&[= <-]).
    apply (limits_at_set n (Datatypes.S n) al (with_evm_ctx c2 evm) Hn2).
    eapply push_empty_depth; [exact Hal|]. apply Hn2.
  - apply bind_Ret in Hf as ([c3 exceeded]&Hl&Hf). unfold limit_frame_init in Hl. rewrite Hm2 in Hl.
    apply bind_Ret in Hl as ([[al j] x]&Hal&[= <- <-]). simpl in Hf.
    destruct x as [x|]; [|done]. apply (before_frame_init_depth n) in Hal; [|apply Hn2].
    pose proof (limits_at_set n (Datatypes.S n) al (with_evm_ctx c2 evm) Hn2 Hal) as Hn3.
    destruct x as [res|]; [by injection Hf as <- <-|].
    apply bind_Ret in Hf as ([evm4 x]&Hx&Hf). simpl in Hf. destruct x as [x|]; [|done].
    apply init_law in Hx as [Hk Hfl]. simpl in Hfl.
    apply (limits_at_keeps (Datatypes.S n)) in Hk; [|exact Hn3].
    rewrite Hm in Hf. apply bind_Ret in Hf as (al5&Hal5&[= <- <-]). split; [|exact Hfl].
    apply (limits_at_set _ _ al5 _ Hk). eapply after_frame_init_depth; [exact Hal5|apply Hk].
Qed.

(** The hooks of an initialisation are called in the order of [well_nested]: after what an
    interception recorded, an empty frame for a call that was intercepted, or the
    initialisation of the frame, and then what [revm] made of the same input; with a
    [revm] that makes the frame of a create only for a create. *)
Lemma frame_init_hooks fi evm evm' r :
  is_mini_rex (evm_ctx evm) = true →
  (∀ e e' frame, revm_frame_init fi e = Ret (e', Ok (Item frame)) → frame_is_create frame = true →
     ∃ ci, fi_frame_input fi = FrameInputCreate ci) →
  frame_init (Log:=Log) fi evm = Ret (evm', Ok r) →
  ∃ evs rest, Forall (instruction_event (Gas:=Gas) (J:=J)) evs ∧
    hooks (E:=E) (evs ++ rest) (additional_limit (evm_ctx evm)) =
      Ret (additional_limit (evm_ctx evm')) ∧
    (rest = [HPushEmpty] ∨ ∃ j, rest = [HFrameInit fi j] ∨
       rest = [HFrameInit fi j; HAfterInit r] ∧
       ∀ frame, r = Item frame → frame_is_create frame = true → creates (HFrameInit (Gas:=Gas) fi j) = true).
Proof.
  unfold frame_init. intros Hm Hkind Hf. apply bind_Ret in Hf as (c1&Hc1%mark_frame_by&Hf).
  apply bind_Ret in Hf as ([c2 intercepted]&Hc2%intercept_by&Hf).
  destruct (transitivity Hc1 Hc2) as (Hsp&evs&Hevs&Hh). clear Hc1 Hc2 c1.
  assert (is_mini_rex c2 = true) as Hm2 by (unfold is_mini_rex in *; by rewrite Hsp).
  exists evs. setoid_rewrite hooks_app. rewrite Hh. cbn [mbind outcome_bind].
  destruct intercepted as [res|]; simpl in Hf.
  - apply bind_Ret in Hf as (c3&Hp&[= <- <-]). exists [HPushEmpty]. split; [done|]. split; [|by left].
    unfold push_empty in Hp. rewrite Hm2 in Hp. apply bind_Ret in Hp as (al&Hal&[= <-]). simpl. by rewrite Hal.
  - apply bind_Ret in Hf as ([c3 exceeded]&Hl&Hf). unfold limit_frame_init in Hl. rewrite Hm2 in Hl.
    apply bind_Ret in Hl as ([[al j] x]&Hal&[= <- <-]). simpl in Hf.
    destruct x as [[res|]|]; [| |done].
    { injection Hf as <- <-. exists [HFrameInit fi (MegaContext.journal c2)]. split; [done|].
      split; [|right; eexists; by left]. simpl. by rewrite Hal. }
    apply bind_Ret in Hf as ([evm4 x]&Hx&Hf). simpl in Hf. destruct x as [x|]; [|done].
    pose proof (init_law _ _ _ _ Hx) as [[[Hk _] _] _]. simpl in Hk.
    rewrite Hm in Hf. apply bind_Ret in Hf as (al5&Hal5&[= <- <-]).
    exists [HFrameInit fi (MegaContext.journal c2); HAfterInit x]. split; [done|]. split.
    + simpl. rewrite Hal. simpl. rewrite <-Hk, Hal5. done.
    + right. eexists. right. split; [done|]. intros frame -> Hc.
      destruct (Hkind _ _ _ Hx Hc) as [ci Hci]. simpl. by rewrite Hci.
Qed.

Lemma run_hooks_step n ctx ctx' evm (frame : EthFrame Gas) o :
  before_frame_run (E:=E) ctx frame = Ret (ctx', o) →
  limits_at n (with_evm_ctx ctx evm) → limits_at n (with_evm_ctx ctx' evm).
Proof.
  unfold before_frame_run. intros Hb Hn. pose proof Hn as (Hm&_). simpl in Hm. rewrite Hm in Hb.
  apply bind_Ret in Hb as ([al r]&Hal&[= <- _]). apply (limits_at_set n n al _ Hn).
  eapply before_frame_run_depth; [exact Hal|apply Hn].
Qed.

Lemma after_instructions_step n ctx ctx' evm (frame : EthFrame Gas) a a' :
  after_frame_run_instructions (E:=E) ctx frame a = Ret (ctx', a') →
  limits_at n (with_evm_ctx ctx evm) → limits_at n (with_evm_ctx ctx' evm).
Proof.
  unfold after_frame_run_instructions. intros Hb Hn. pose proof Hn as (Hm&_). simpl in Hm.
  rewrite Hm in Hb. simpl in Hb. apply bind_Ret in Hb as (a1&_&Hb).
  apply bind_Ret in Hb as ([al r]&Hal&[= <- _]). apply (limits_at_set n n al _ Hn).
  eapply after_instructions_depth; [exact Hal|apply Hn].
Qed.

Lemma after_run_step n ctx ctx' evm o (g : option Z) (r : ItemOrResult FrameInit (FrameResult Gas)) :
  after_frame_run ctx r g = Ret (ctx', o) →
  limits_at n (with_evm_ctx ctx evm) →
  limits_at n (with_evm_ctx ctx' evm) ∧
  match o, r with Item _, Item _ | Result _, Result _ => True | _, _ => False end.
Proof.
  unfold after_frame_run. intros Hb Hn. pose proof Hn as (Hm&_). simpl in Hm. rewrite Hm in Hb.
  simpl in Hb. destruct r as [fi|res]; [by injection Hb as <- <-|].
  apply bind_Ret in Hb as ([al r]&Hal&[= <- <-]). split; [|done]. apply (limits_at_set n n al _ Hn).
  eapply after_frame_run_depth; [exact Hal|apply Hn].
Qed.

Lemma frame_run_step n evm evm' r :
  frame_run (E:=E) evm = Ret (evm', Ok r) → limits_at n evm →
  limits_at n evm' ∧
  flags evm' = match r, flags evm with Result _, _ :: l => true :: l | _, l => l end.
Proof.
  unfold frame_run, frame_run_with. intros Hf Hn.
  apply bind_Ret in Hf as ([c1 early]&Hb&Hf). apply (run_hooks_step n _ _ evm) in Hb; [|done].
  apply bind_Ret in Hf as ([evm2 action]&Hrun&Hf).
  assert (limits_at n evm2 ∧ flags evm2 = flags evm) as [Hn2 Hfl2].
  { destruct early as [a|]; [by injection Hrun as <- <-|]. apply run_law in Hrun as (Hi&Hfl&Hrel).
    split; [|exact Hfl].
    pose proof (Hrel by_instructions _ (tables_keep main _ ltac:(apply Hb) by_instructions_cap))
      as Hby. simpl in Hby. pose proof (limits_at_by n (evm_ctx evm2) (with_evm_ctx c1 evm) Hby Hb) as (Hx&Hy&Hz).
    split_and!; [exact Hx|by rewrite Hi|exact Hz]. }
  apply bind_Ret in Hf as ([c3 a3]&Hn3&Hf). apply (after_instructions_step n _ _ evm2) in Hn3; [|done].
  simpl in Hf. destruct (process_next_action _ _) as [evm4 out] eqn:Hp.
  apply process_law in Hp as [Hk Hfl4]. apply (limits_at_keeps n) in Hk; [|exact Hn3].
  destruct out as [out|]; [|done]. apply bind_Ret in Hf as ([c5 o]&Ho&[= <- <-]).
  simpl in Hfl4. rewrite Hfl2 in Hfl4.
  set (evm5 := match out with Result _ => _ | Item _ => _ end) in *.
  assert (limits_at n (with_evm_ctx (evm_ctx evm5) evm5)) as Hn5 by (subst evm5; by destruct out).
  apply (after_run_step n _ _ evm5) in Ho as [Hn6 Hs]; [|exact Hn5]. split; [exact Hn6|].
  destruct o, out; try done. simpl. rewrite finished_law, Hfl4. by destruct (flags evm).
Qed.

Lemma frame_return_step n r evm evm' o :
  frame_return_result (E:=E) r evm = Ret (evm', Ok o) → limits_at n evm →
  limits_at (pred n) evm' ∧
  flags evm' = match flags evm with true :: l => l | l => l end ∧
  (o = None ↔ flags evm' ≠ []).
Proof.
  unfold frame_return_result. intros Hf Hn. pose proof Hn as (Hm&_). rewrite Hm in Hf.
  apply bind_Ret in Hf as ([evm1 r1]&Hb&Hf). apply bind_Ret in Hb as ([al r2]&Hal&[= <- <-]).
  apply (return_depth n) in Hal; [|apply Hn].
  pose proof (limits_at_set n (pred n) al _ Hn Hal) as Hn1. simpl in Hf.
  destruct (revm_frame_return_result _ _) as [evm2 x] eqn:Hr. destruct x as [x|]; [|done].
  injection Hf as <- <-. apply return_law in Hr as (Hk&Hfl&Ho).
  apply (limits_at_keeps (pred n)) in Hk; [|exact Hn1]. split; [|by split].
  apply (limits_at_by (pred n) _ evm2); [|done]. apply by_same. unfold enable_access_if_returning.
  by destruct (MegaSpecId.is_enabled _ _).
Qed.

(** What holds before each step of the loop. *)
Definition in_step evm : Prop :=
  ∃ n, limits_at (Datatypes.S n) evm ∧ flags evm = repeat false (Datatypes.S n).

Lemma yields_step evm evm1 r :
  in_step evm → yields (frame_init (Log:=Log)) (frame_run (E:=E)) evm evm1 r →
  ∃ n, limits_at (Datatypes.S n) evm1 ∧
    match flags evm1 with true :: l => l | l => l end = repeat false n.
Proof.
  intros (n&Hn&Hf) [evm2 r2 Hr|evm2 fi evm3 r2 Hr Hi].
  - apply (frame_run_step (Datatypes.S n)) in Hr as [Hn1 Hfl]; [|done]. rewrite Hf in Hfl.
    exists n. split; [done|]. by rewrite Hfl.
  - apply (frame_run_step (Datatypes.S n)) in Hr as [Hn1 Hfl]; [|done].
    apply (frame_init_step (Datatypes.S n)) in Hi as [Hn2 Hfl2]; [|done].
    exists (Datatypes.S n). split; [done|]. by rewrite Hfl2, Hfl, Hf.
Qed.

Lemma running_in_step fi start evm :
  limits_at 0 start → flags start = [] →
  running (frame_init (Log:=Log)) (frame_run (E:=E)) frame_return_result fi start evm →
  in_step evm.
Proof.
  intros Hn0 Hf0. induction 1 as [evm frame Hi|evm evm1 fi1 evm2 frame _ Hstep Hr Hi
    |evm evm1 r evm2 _ Hstep Hy Hret].
  - apply (frame_init_step 0) in Hi as [Hn1 Hfl]; [|done]. exists 0%nat. by rewrite Hfl, Hf0.
  - destruct Hstep as (n&Hn&Hf).
    apply (frame_run_step (Datatypes.S n)) in Hr as [Hn1 Hfl]; [|done].
    apply (frame_init_step (Datatypes.S n)) in Hi as [Hn2 Hfl2]; [|done].
    exists (Datatypes.S n). by rewrite Hfl2, Hfl, Hf.
  - apply yields_step in Hy as (n&Hn&Hfl); [|done].
    apply (frame_return_step (Datatypes.S n)) in Hret as (Hn2&Hfl2&Ho); [|done].
    rewrite Hfl in Hfl2. destruct Ho as [Ho _]. specialize (Ho eq_refl).
    destruct n as [|n]; [by rewrite Hfl2 in Ho|]. by exists n.
Qed.

(** Where the loop ends, at most the frame that was answered at once is still there. *)
Lemma loop_ends_step fi start evm' r :
  limits_at 0 start → flags start = [] →
  loop_ends (frame_init (Log:=Log)) (frame_run (E:=E)) frame_return_result fi start evm' r →
  limits_at 0 evm' ∨ limits_at 1 evm'.
Proof.
  intros Hn0 Hf0 [Hi|evm evm1 r1 Hrun Hy Hret].
  - right. by apply (frame_init_step 0) in Hi as [Hn1 _].
  - left. apply (running_in_step fi start) in Hrun; [|done..].
    apply yields_step in Hy as (n&Hn&Hfl); [|done].
    apply (frame_return_step (Datatypes.S n)) in Hret as (Hn2&Hfl2&Ho); [|done].
    rewrite Hfl in Hfl2. destruct n as [|n]; [exact Hn2|].
    destruct Ho as [_ Ho]. rewrite Hfl2 in Ho. by specialize (Ho ltac:(done)).
Qed.

Lemma last_frame_step n r evm evm' r' :
  last_frame_result (Log:=Log) (E:=E) r evm = Ret (evm', Ok r') → limits_at n evm →
  limits_at (pred n) evm'.
Proof.
  unfold last_frame_result. intros Hf Hn. pose proof Hn as (Hm&_). rewrite Hm in Hf.
  apply bind_Ret in Hf as ([evm1 r1]&Hb&Hf). apply bind_Ret in Hb as ([al r2]&Hal&[= <- <-]).
  apply (return_depth n) in Hal; [|apply Hn].
  pose proof (limits_at_set n (pred n) al _ Hn Hal) as Hn1. simpl in Hf.
  destruct (op_last_frame_result _ _) as [[evm2 r3] x] eqn:Hl. apply last_result_law in Hl.
  destruct x as [x|]; [|done]. injection Hf as <- _. by eapply limits_at_keeps.
Qed.

Context {exec_loop : ExecLoop Gas E Evm} {loop_laws : ExecLoopLaws Gas E Evm}.

(** C2: the four trackers follow the frames of the EVM.  Whenever the loop is about to run
    a frame, every tracker is as deep as the frame stack of [revm], through frames that
    were made, calls that were intercepted or refused for a limit and so made no frame,
    and returns; and when the execution of a transaction ends with a result, all four
    trackers are empty again.  No usage is merged into the wrong frame, and none stays
    in a frame that has ended. *)
Theorem trackers_follow_frames evm :
  limits_at 0 evm → flags evm = [] →
  (∀ fi e, running (frame_init (Log:=Log)) (frame_run (E:=E)) frame_return_result fi evm e →
     ∃ n, at_depth (Datatypes.S n) (additional_limit (evm_ctx e)) ∧
       flags e = repeat false (Datatypes.S n)) ∧
  ∀ g evm' r, execution (Log:=Log) (E:=E) g evm = Ret (evm', Ok r) →
    at_depth 0 (additional_limit (evm_ctx evm')).
Proof.
  intros Hn Hf. split.
  - intros fi e Hr. apply (running_in_step fi evm) in Hr as (n&Hn1&Hfl); [|done..].
    exists n. split; [apply Hn1|done].
  - intros g evm' r He. unfold execution, execution_with in He.
    destruct (before_execution g evm) as [oog|]; [injection He as <- _; apply Hn|].
    apply bind_Ret in He as (gas&_&He).
    destruct (first_frame_input gas evm) as [evm1 x] eqn:Hx. destruct x as [fi|]; [|done].
    apply first_input_law in Hx as [Hk Hst]. apply (limits_at_keeps 0) in Hk; [|done].
    apply bind_Ret in He as ([evm2 y]&Hy&He). destruct y as [r1|]; [|done].
    apply run_exec_loop_ends in Hy.
    apply loop_ends_step in Hy as [Hn2|Hn2]; [| |done|by rewrite Hst];
      by apply (last_frame_step _ _ _ _ _ He) in Hn2 as (_&_&Hn3).
Qed.
End balance.

(** *** What an exceeded limit does to a transaction *)

Definition input_gas_limit (fi : FrameInit) : Z :=
  match fi_frame_input fi with
  | FrameInputCall ci => cin_gas_limit ci
  | FrameInputCreate ci => crin_gas_limit ci
  | FrameInputEmpty => 0
  end.

Lemma refused_frame {gas_laws : GasLaws Gas} fi (j j' : J) s s' r k l u :
  has_exceeded_limit s = ExceedsLimit k l u false → in_u64 (input_gas_limit fi) →
  AdditionalLimit.before_frame_init (Gas:=Gas) (E:=E) fi j s = Ret (s', j', Ok r) →
  ∃ res, r = Some res ∧ instruction_result res = OutOfGas ∧
    gas_remaining (frame_result_gas res) = input_gas_limit fi ∧
    has_exceeded_limit s' = ExceedsLimit k l u false ∧
    add_u64 (rescued_gas s) (input_gas_limit fi) = Ret (rescued_gas s').
Proof.
  intros Hfl Hgl Hb. unfold AdditionalLimit.before_frame_init in Hb.
  apply bind_Ret in Hb as ([[s1 j1] x]&Hi&Hb).
  apply init_trackers_same_control in Hi as (Hfl1&Hr1&_). rewrite Hfl in Hfl1.
  destruct x as [[]|]; [|done].
  assert (AdditionalLimit.check_limit s1 = Ret (s1, ExceedsLimit k l u false)) as Hc.
  { unfold AdditionalLimit.check_limit. by rewrite Hfl1. }
  rewrite Hc in Hb. simpl in Hb. apply bind_Ret in Hb as ([gl off]&Hin&Hb).
  assert (gl = input_gas_limit fi) as ->.
  { unfold input_gas_limit. by destruct (fi_frame_input fi); simplify_eq/=. }
  simpl in Hb. apply bind_Ret in Hb as (s2&Hr&[= <- _ <-]). eexists. split; [done|].
  unfold AdditionalLimit.try_rescue_gas, AdditionalLimit.exceeding_instruction_result in *.
  rewrite Hc in Hr. rewrite Hfl1 in *. simpl in *. unfold AdditionalLimit.rescue_gas in Hr.
  apply bind_Ret in Hr as (n&Hn&[= <-]).
  assert (gas_remaining (gas_new (input_gas_limit fi)) = input_gas_limit fi) as Hg
    by by apply gas_remaining_new.
  rewrite Hr1 in Hn.
  destruct off as [off|]; change (add_u64 (rescued_gas s) (gas_remaining (gas_new (input_gas_limit fi)))
    = Ret n) in Hn; rewrite Hg in Hn; by split_and!.
Qed.

(** C7: once a limit of the transaction is exceeded, no further frame is made.  A call or
    create that is not intercepted gets the result out of gas at once: [revm] is not
    asked, the frame stack and the frames below are as they were, the exceed stays, and
    the gas meant for the child is added to what is rescued for the sender. *)
Theorem exceeded_transaction_makes_no_frame {gas_laws : GasLaws Gas} fi evm evm' r k l u ctx1 ctx2 :
  is_mini_rex (evm_ctx evm) = true →
  has_exceeded_limit (additional_limit (evm_ctx evm)) = ExceedsLimit k l u false →
  in_u64 (input_gas_limit fi) →
  mark_frame (evm_ctx evm) fi = Ret ctx1 →
  intercept_frame (Gas:=Gas) ctx1 fi = Ret (ctx2, None) →
  frame_init (Log:=Log) fi evm = Ret (evm', Ok r) →
  ∃ res, r = Result res ∧ instruction_result res = OutOfGas ∧
    gas_remaining (frame_result_gas res) = input_gas_limit fi ∧
    evm_frame_stack evm' = evm_frame_stack evm ∧
    let al' := additional_limit (evm_ctx evm') in
    has_exceeded_limit al' = ExceedsLimit k l u false ∧
    add_u64 (rescued_gas (additional_limit (evm_ctx evm))) (input_gas_limit fi) =
      Ret (rescued_gas al').
Proof.
  intros Hm Hfl Hgl Hmark Hint Hf. unfold frame_init in Hf. rewrite Hmark in Hf. simpl in Hf.
  rewrite Hint in Hf. simpl in Hf.
  assert (by_instructions (evm_ctx evm) ctx2) as (Hsp&evs&Hevs&Hh).
  { etrans; [by eapply mark_frame_by|by eapply intercept_by]. }
  pose proof (control_final _ _ _ _ _ (hooks_control _ _ _ Hh) Hfl) as Hfl2.
  pose proof (instruction_events_rescued _ _ _ Hevs Hh) as Hr2.
  apply bind_Ret in Hf as ([c3 x]&Hl&Hf). unfold limit_frame_init, is_mini_rex in Hl, Hm.
  rewrite Hsp, Hm in Hl. apply bind_Ret in Hl as ([[al j] y]&Hal&[= <- <-]).
  destruct y as [y|]; simpl in Hf; [|done].
  apply (refused_frame _ _ _ _ _ _ k l u) in Hal as (res&->&Hres&Hg&Hfl3&Hr3); [|done..].
  injection Hf as <- <-. exists res. rewrite <- Hr2. done.
Qed.

(** C28: the halt reason of a transaction says which limit was exceeded.  Running out of gas
    under an exceeded limit is told apart from running out of gas, and any other reason
    is left alone.  When data was accessed that detains gas and the compute gas used is
    above a detained limit that is below the configured one, the reason names what was
    accessed, the detained limit and the usage; otherwise it names the first limit that
    was found exceeded, with its limit and usage.  A reason is always found. *)
Theorem halt_reason_is_exact info reason al al1 c used :
  AdditionalLimit.check_limit al = Ret (al1, c) →
  ComputeGasTracker.tx_usage (compute_gas al) = Ret used →
  let detained := detained_limit (compute_gas al) in
  mega_halt_reason info reason al = Ret
    match reason, c with
    | OpBase HaltOutOfGasBasic, ExceedsLimit kind limit actual _ =>
        (al1,
         match info with
         | Some accesses =>
             if bool_decide (detained < used) &&
                bool_decide (detained < FrameLimitTracker.tx_limit (cg_frame_tracker (compute_gas al)))
             then VolatileDataAccessOutOfGas accesses detained used
             else match kind with
                  | DataSize => DataLimitExceeded limit actual
                  | KVUpdate => KVUpdateLimitExceeded limit actual
                  | ComputeGas => ComputeGasLimitExceeded limit actual
                  | StateGrowth => StateGrowthLimitExceeded limit actual
                  end
         | None => match kind with
                   | DataSize => DataLimitExceeded limit actual
                   | KVUpdate => KVUpdateLimitExceeded limit actual
                   | ComputeGas => ComputeGasLimitExceeded limit actual
                   | StateGrowth => StateGrowthLimitExceeded limit actual
                   end
         end)
    | OpBase HaltOutOfGasBasic, WithinLimit => (al1, Base reason)
    | _, _ => (al, Base reason)
    end.
Proof.
  intros Hc Hu detained. unfold mega_halt_reason, AdditionalLimit.is_exceeding_limit_halt.
  pose proof (check_limit_trackers _ _ _ Hc) as (_&_&Hcg&_&_&_&Hfl).
  destruct reason as [[]|]; rewrite ?Hc; simpl; try (by destruct c).
  destruct c as [|kind limit actual fl]; simpl; [done|].
  assert (AdditionalLimit.check_limit al1 = Ret (al1, ExceedsLimit kind limit actual fl)) as Hc1.
  { unfold AdditionalLimit.check_limit. by rewrite Hfl. }
  unfold AdditionalLimit.detained_compute_gas_halt_reason, ComputeGasTracker.is_detained_exceed.
  rewrite Hcg, Hu. simpl. fold detained.
  destruct info as [acc|]; simpl; [destruct (_ && _); simpl; [done|]|];
    rewrite Hc1; by destruct kind.
Qed.

(** *** What a transaction pays before it runs *)

(** The storage gas of its calldata and, from Rex on, of itself. *)
Definition storage_gas_of (sp : MegaSpecId) (tokens : Z) : Z :=
  constants.mini_rex.CALLDATA_STANDARD_TOKEN_STORAGE_GAS * tokens +
  (if MegaSpecId.is_enabled sp REX then constants.rex.TX_INTRINSIC_STORAGE_GAS else 0).

Lemma add_storage_gas_spec sp tokens g :
  0 ≤ STANDARD_TOKEN_COST → 0 ≤ TOTAL_COST_FLOOR_PER_TOKEN →
  0 ≤ tokens → 0 ≤ initial_gas g → 0 ≤ floor_gas g →
  initial_gas g + storage_gas_of sp tokens ≤ u64_max →
  floor_gas g + constants.mini_rex.CALLDATA_STANDARD_TOKEN_STORAGE_FLOOR_GAS * tokens ≤ u64_max →
  add_storage_gas (MegaSpecId.is_enabled sp REX) tokens g =
    Ret (mkInitialAndFloorGas (initial_gas g + storage_gas_of sp tokens)
      (floor_gas g + constants.mini_rex.CALLDATA_STANDARD_TOKEN_STORAGE_FLOOR_GAS * tokens)).
Proof.
  unfold add_storage_gas, storage_gas_of, constants.mini_rex.CALLDATA_STANDARD_TOKEN_STORAGE_GAS,
    constants.mini_rex.CALLDATA_STANDARD_TOKEN_STORAGE_FLOOR_GAS,
    constants.rex.TX_INTRINSIC_STORAGE_GAS.
  intros Hc1 Hc2 Ht Hi Hf Hsum Hfl.
  assert (0 ≤ STANDARD_TOKEN_COST * 10 * tokens) by (repeat apply Z.mul_nonneg_nonneg; lia).
  assert (0 ≤ TOTAL_COST_FLOOR_PER_TOKEN * 10 * tokens) by (repeat apply Z.mul_nonneg_nonneg; lia).
  destruct (MegaSpecId.is_enabled sp REX);
    repeat (first [rewrite mul_u64_in by (unfold in_u64; lia)|rewrite add_u64_in by (unfold in_u64; lia)];
            cbn [mbind outcome_bind]); do 2 f_equal; lia.
Qed.

(** C27: what a transaction of a spec with storage gas pays before its first instruction, when
    the sums fit in 64 bits.  The initial gas is that of [revm] plus storage gas for every
    calldata token, plus 39000 from Rex on, plus the storage gas of the account it may
    make: nothing for a call without value.  The floor grows with the tokens too.  A gas
    limit that does not cover all but the account is refused; the account is not part of
    that check.  Only the gas of [revm] counts as compute gas. *)
Theorem transaction_pays_first evm evm1 g evm' r :
  validate_env (Log:=Log) (E:=E) evm = (evm1, Ok tt) →
  validate_initial_tx_gas (Log:=Log) (E:=E) evm1 = Ok g →
  is_mini_rex (evm_ctx evm1) = true →
  let t := MegaContext.tx (evm_ctx evm1) in
  let tokens := get_tokens_in_calldata (tx_input t) in
  let base := initial_gas g + storage_gas_of (spec (evm_ctx evm1)) tokens in
  0 ≤ STANDARD_TOKEN_COST → 0 ≤ TOTAL_COST_FLOOR_PER_TOKEN → 0 ≤ tokens → 0 ≤ initial_gas g → 0 ≤ floor_gas g → base ≤ u64_max →
  floor_gas g + constants.mini_rex.CALLDATA_STANDARD_TOKEN_STORAGE_FLOOR_GAS * tokens ≤ u64_max →
  validate (Log:=Log) (E:=E) (Gas:=Gas) evm = Ret (evm', r) →
  ∃ al within, AdditionalLimit.record_compute_gas (initial_gas g) (additional_limit (evm_ctx evm1))
                 = Ret (al, within) ∧
    let ctx1 := MegaContext.with_additional_limit al (evm_ctx evm1) in
    if bool_decide (tx_gas_limit t < base) then
      evm' = with_evm_ctx ctx1 evm1 ∧
      r = Err (CallGasCostMoreThanGasLimit (tx_gas_limit t) base)
    else
      ∃ ctx2 callee, callee_storage_gas ctx1 = Ret (ctx2, callee) ∧ evm' = with_evm_ctx ctx2 evm1 ∧
      match callee with
      | Ok (_, Some storage_gas) =>
          (∀ a, tx_kind t = TxCall a → tx_value t = 0 → storage_gas = 0) ∧
          ∃ initial, add_u64 base storage_gas = Ret initial ∧
            r = Ok (mkInitialAndFloorGas initial
                      (floor_gas g +
                       constants.mini_rex.CALLDATA_STANDARD_TOKEN_STORAGE_FLOOR_GAS * tokens))
      | _ => ∃ e, r = Err e
      end.
Proof.
  intros He Hg Hm t tokens base Hc1 Hc2 Ht Hi Hf Hb Hfl Hv. unfold validate in Hv.
  rewrite He, Hg, Hm in Hv. simpl in Hv. apply bind_Ret in Hv as ([al within]&Hal&Hv).
  exists al, within. split; [done|]. intros ctx1. cbv zeta in Hv. fold ctx1 in Hv.
  change (MegaContext.tx ctx1) with t in Hv. change (spec ctx1) with (spec (evm_ctx evm1)) in Hv.
  fold tokens in Hv. rewrite add_storage_gas_spec in Hv by done.
  cbn [mbind outcome_bind initial_gas floor_gas] in Hv. fold base in Hv.
  case_bool_decide; [by injection Hv as <- <-|].
  apply bind_Ret in Hv as ([ctx2 callee]&Hc&Hv). exists ctx2, callee.
  change (callee_storage_gas ctx1 = Ret (ctx2, callee)) in Hc. split; [exact Hc|].
  destruct callee as [[a [storage|]]|e]; simpl in Hv.
  - apply bind_Ret in Hv as (initial&Hin&[= <- <-]). split_and!; [done| |by exists initial].
    intros a' Hk Hz. unfold callee_storage_gas in Hc.
    change (MegaContext.tx ctx1) with t in Hc. rewrite Hk, bool_decide_true in Hc by done.
    simpl in Hc. by injection Hc.
  - injection Hv as <- <-. split; [done|]. by eexists.
  - injection Hv as <- <-. split; [done|]. by eexists.
Qed.

(** *** An inspector that only watches *)
Section inspector.
Context {exec_loop : ExecLoop Gas E Evm}.

(** Two EVMs that differ at most in their inspector and in whether it is used. *)
Definition same_evm evm evm' : Prop :=
  evm_ctx evm = evm_ctx evm' ∧ evm_instruction evm = evm_instruction evm' ∧
  evm_precompiles evm = evm_precompiles evm' ∧ evm_frame_stack evm = evm_frame_stack evm'.
#[export] Instance same_evm_equivalence : Equivalence same_evm.
Proof.
  split; unfold same_evm.
  - done.
  - intros x y (?&?&?&?). done.
  - intros x y z (?&?&?&?) (?&?&?&?). split_and!; congruence.
Qed.

Notation same_res := (res_rel same_evm).

#[export] Instance with_ctx_proper ctx : Proper (same_evm ==> same_evm) (with_evm_ctx ctx).
Proof. intros x y (?&?&?&?). done. Qed.
#[export] Instance with_stack_proper f : Proper (same_evm ==> same_evm) (with_frame_stack f).
Proof. intros x y (?&?&?&?). done. Qed.

(** [revm] and [op-revm] read the inspector only to inspect, and the inspector itself neither answers for a frame nor changes one. *)
Class QuietInspector : Prop := {
  start_quiet fi evm : ∃ evm1, frame_start fi evm = (evm1, fi, None) ∧ same_evm evm1 evm;
  end_quiet fi r evm : ∃ evm1, frame_end fi r evm = (evm1, r) ∧ same_evm evm1 evm;
  interp_quiet evm : same_evm (initialize_interp evm) evm;
  instructions_quiet evm evm' : same_evm evm evm' →
    outcome_rel same_res (inspect_instructions evm) (run_plain evm');
  init_unseen fi :: Proper (same_evm ==> outcome_rel same_res) (revm_frame_init fi);
  process_unseen a :: Proper (same_evm ==> same_res) (process_next_action a);
  return_unseen r :: Proper (same_evm ==> same_res) (revm_frame_return_result r);
  env_unseen :: Proper (same_evm ==> same_res) (validate_env (Log:=Log) (E:=E));
  initial_unseen :: Proper (same_evm ==> eq) (validate_initial_tx_gas (Log:=Log) (E:=E));
  pre_unseen :: Proper (same_evm ==> same_res) (pre_execution (Log:=Log) (E:=E));
  first_unseen g :: Proper (same_evm ==> same_res) (first_frame_input (Log:=Log) (E:=E) g);
  last_unseen r evm evm' : same_evm evm evm' →
    same_res (let '(e, r, x) := op_last_frame_result (Log:=Log) (E:=E) r evm in (e, (r, x)))
      (let '(e, r, x) := op_last_frame_result (Log:=Log) (E:=E) r evm' in (e, (r, x)));
  reward_unseen r :: Proper (same_evm ==> same_res) (op_reward_beneficiary (Log:=Log) (E:=E) r);
  result_unseen r :: Proper (same_evm ==> same_res) (op_execution_result (Log:=Log) (E:=E) r);
  catch_unseen e :: Proper (same_evm ==> same_res) (op_catch_error (Log:=Log) (E:=E) e);
  post_unseen reward r g refund evm evm' : (∀ r, Proper (same_evm ==> same_res) (reward r)) →
    same_evm evm evm' →
    same_res (let '(e, r, x) := post_execution (Log:=Log) (E:=E) reward r g refund evm in (e, (r, x)))
      (let '(e, r, x) := post_execution (Log:=Log) (E:=E) reward r g refund evm' in (e, (r, x)));
}.

Context {quiet : QuietInspector} {parametric : LoopParametric Gas E Evm}.

Lemma with_ctx_ret {X} ctx e e' (x : X) : same_evm e e' →
  outcome_rel same_res (Ret (with_evm_ctx ctx e, x)) (Ret (with_evm_ctx ctx e', x)).
Proof. intros He. split; [|done]. by apply with_ctx_proper. Qed.

Lemma frame_init_unseen fi evm evm' : same_evm evm evm' →
  outcome_rel same_res (frame_init (Log:=Log) fi evm) (frame_init (Log:=Log) fi evm').
Proof.
  intros He. pose proof He as (Hc&_). unfold frame_init. rewrite Hc.
  apply outcome_rel_same. intros c1. apply outcome_rel_same. intros [c2 [res|]].
  - apply outcome_rel_same. intros c3. by apply with_ctx_ret.
  - apply outcome_rel_same. intros [c3 [[res|]|err]]; [by apply with_ctx_ret| |by apply with_ctx_ret].
    eapply res_rel_bind; [by apply init_unseen, with_ctx_proper|]. intros e e' [r|err] (Hce&?&?&?); [|done].
    unfold with_limit. rewrite Hce. destruct (is_mini_rex (evm_ctx evm')); [|done].
    apply outcome_rel_same. intros al. by apply with_ctx_ret.
Qed.

Lemma run_with_unseen run run' evm evm' :
  (∀ e e', same_evm e e' → outcome_rel same_res (run e) (run' e')) → same_evm evm evm' →
  outcome_rel same_res (frame_run_with (E:=E) run evm) (frame_run_with (E:=E) run' evm').
Proof.
  intros Hrun He. pose proof He as (Hc&_&_&Hs). unfold frame_run_with. rewrite Hc, Hs.
  apply outcome_rel_same. intros [c1 early].
  apply (res_rel_bind (X:=InterpreterAction Gas)).
  { destruct early; [by apply with_ctx_ret|]. by apply Hrun, with_ctx_proper. }
  intros e e' a Hee. pose proof Hee as (Hc1&_&_&Hs1). rewrite Hc1, Hs1.
  apply outcome_rel_same. intros [c2 a2].
  pose proof (process_unseen a2 _ _ (with_ctx_proper c2 _ _ Hee)) as Hp.
  apply res_rel_case in Hp as (e1&e1'&out&->&->&Hee1). destruct out as [out|err]; [|done].
  assert (same_evm
    match out with Result _ => with_frame_stack (frame_set_finished (evm_frame_stack e1)) e1 | Item _ => e1 end
    match out with Result _ => with_frame_stack (frame_set_finished (evm_frame_stack e1')) e1' | Item _ => e1' end)
    as Hee2.
  { destruct out; [done|]. destruct Hee1 as (?&?&?&Hs2). rewrite Hs2. done. }
  pose proof Hee2 as (Hc2&_). rewrite Hc2. apply outcome_rel_same. intros [c3 o].
  by apply with_ctx_ret.
Qed.

Lemma frame_return_unseen r evm evm' : same_evm evm evm' →
  outcome_rel same_res (frame_return_result (E:=E) r evm) (frame_return_result (E:=E) r evm').
Proof.
  intros He. pose proof He as (Hc&_). unfold frame_return_result. rewrite Hc.
  apply (res_rel_bind (X:=FrameResult Gas)).
  { destruct (is_mini_rex (evm_ctx evm')); [|done]. apply outcome_rel_same. intros [al r1].
    unfold with_limit. rewrite Hc. by apply with_ctx_ret. }
  intros e e' r1 Hee. pose proof (return_unseen r1 _ _ Hee) as Hr.
  apply res_rel_case in Hr as (e1&e1'&ret&->&->&Hee1). destruct ret as [ret|err]; [|done].
  pose proof Hee1 as (Hc1&_). rewrite Hc1. by apply with_ctx_ret.
Qed.

(** The steps with inspection. *)
Lemma inspect_init_unseen fi evm evm' : same_evm evm evm' →
  outcome_rel same_res (inspect_frame_init (Log:=Log) fi evm) (frame_init (Log:=Log) fi evm').
Proof.
  intros He. unfold inspect_frame_init.
  destruct (start_quiet (fi_frame_input fi) evm) as (evm1&->&He1).
  replace (Build_FrameInit (fi_depth fi) (fi_frame_input fi)) with fi by by destruct fi.
  rewrite <- (fmap_Ret_id (frame_init fi evm')). eapply outcome_rel_bind.
  { apply frame_init_unseen. by etrans. }
  intros p q (e&e'&x&->&->&Hee)%res_rel_case. simpl. destruct x as [[frame|res]|err]; [| |done].
  - split; [|done]. simpl. etrans; [apply interp_quiet|done].
  - destruct (end_quiet (fi_frame_input fi) res e) as (e1&->&He2). split; [|done]. by etrans.
Qed.

Lemma inspect_run_unseen evm evm' : same_evm evm evm' →
  outcome_rel same_res (inspect_frame_run (E:=E) evm) (frame_run (E:=E) evm').
Proof.
  intros He. unfold inspect_frame_run, frame_run.
  rewrite <- (fmap_Ret_id (frame_run_with run_plain evm')). eapply outcome_rel_bind.
  { apply run_with_unseen; [apply instructions_quiet|done]. }
  intros p q (e&e'&x&->&->&Hee)%res_rel_case. destruct x as [[fi|res]|err]; [done| |done].
  destruct (end_quiet (frame_input_of (evm_frame_stack e)) res e) as (e1&->&He2). split; [|done].
  by etrans.
Qed.

Lemma last_frame_unseen r evm evm' : same_evm evm evm' →
  outcome_rel same_res (last_frame_result (Log:=Log) (E:=E) r evm)
    (last_frame_result (Log:=Log) (E:=E) r evm').
Proof.
  intros He. pose proof He as (Hc&_). unfold last_frame_result. rewrite Hc.
  apply (res_rel_bind (X:=FrameResult Gas)).
  { destruct (is_mini_rex (evm_ctx evm')); [|done]. apply outcome_rel_same. intros [al r1].
    unfold with_limit. rewrite Hc. by apply with_ctx_ret. }
  intros e e' r1 Hee. pose proof (last_unseen r1 _ _ Hee) as Hl.
  destruct (op_last_frame_result r1 e) as [[e1 r2] x], (op_last_frame_result r1 e') as [[e1' r2'] x'].
  destruct Hl as [Hee1 [= <- <-]]. simpl in Hee1. destruct x as [x|err]; [|done].
  pose proof Hee1 as (Hc1&_). rewrite Hc1. by destruct (is_mini_rex (evm_ctx evm')).
Qed.

Lemma execution_with_unseen loop loop' g evm evm' :
  (∀ fi e e', same_evm e e' → outcome_rel same_res (loop fi e) (loop' fi e')) →
  same_evm evm evm' →
  outcome_rel same_res (execution_with (Log:=Log) (E:=E) loop g evm)
    (execution_with (Log:=Log) (E:=E) loop' g evm').
Proof.
  intros Hloop He. pose proof He as (Hc&_). unfold execution_with, before_execution. rewrite Hc.
  case_bool_decide; [done|]. apply outcome_rel_same. intros gas.
  pose proof (first_unseen gas _ _ He) as Hf.
  apply res_rel_case in Hf as (e&e'&x&->&->&Hee). destruct x as [fi|err]; [|done].
  eapply res_rel_bind; [by apply Hloop|]. intros e1 e1' [r|err] Hee1; [|done].
  by apply last_frame_unseen.
Qed.

Lemma execution_unseen g evm evm' : same_evm evm evm' →
  outcome_rel same_res (inspect_execution (Log:=Log) (E:=E) g evm) (execution (Log:=Log) (E:=E) g evm').
Proof.
  apply execution_with_unseen. intros fi e e' He. apply loop_related; [..|done].
  - intros. by apply inspect_init_unseen.
  - intros. by apply inspect_run_unseen.
  - intros. by apply frame_return_unseen.
Qed.

Lemma before_run_unseen evm evm' : same_evm evm evm' →
  outcome_rel same_res (before_run (E:=E) evm) (before_run (E:=E) evm').
Proof.
  intros He. pose proof He as (Hc&_). unfold before_run. rewrite Hc.
  destruct (is_mini_rex _ && _); [destruct (negb _)|]; [done| |];
    apply outcome_rel_same; intros c; by apply with_ctx_ret.
Qed.

Lemma validate_unseen evm evm' : same_evm evm evm' →
  outcome_rel same_res (validate (Log:=Log) (E:=E) (Gas:=Gas) evm)
    (validate (Log:=Log) (E:=E) (Gas:=Gas) evm').
Proof.
  intros He. unfold validate. pose proof (env_unseen _ _ He) as Hv.
  apply res_rel_case in Hv as (e&e'&x&->&->&Hee). destruct x as [[]|err]; [|done].
  rewrite (initial_unseen _ _ Hee). destruct (validate_initial_tx_gas e') as [g|err]; [|done].
  pose proof Hee as (Hc&_). rewrite Hc. destruct (negb _); [done|].
  apply outcome_rel_same. intros [al b]. apply outcome_rel_same. intros g1.
  case_bool_decide; [by apply with_ctx_ret|]. apply outcome_rel_same.
  intros [c [[a [s|]]|err]]; [|by apply with_ctx_ret..].
  apply outcome_rel_same. intros i. by apply with_ctx_ret.
Qed.

Lemma execution_result_unseen r evm evm' : same_evm evm evm' →
  outcome_rel same_res (execution_result (Log:=Log) (E:=E) r evm)
    (execution_result (Log:=Log) (E:=E) r evm').
Proof.
  intros He. pose proof He as (Hc&_). unfold execution_result. rewrite Hc.
  pose proof (result_unseen r _ _ He) as Hr.
  apply res_rel_case in Hr as (e&e'&x&->&->&Hee). destruct x as [[]|err]; [done..| |done].
  pose proof Hee as (Hc1&_). unfold with_limit. rewrite Hc1. apply outcome_rel_same.
  intros [al h]. by apply with_ctx_ret.
Qed.

Lemma catch_error_unseen err evm evm' : same_evm evm evm' →
  outcome_rel same_res (catch_error (Log:=Log) err evm) (catch_error (Log:=Log) err evm').
Proof.
  intros He. unfold catch_error. pose proof (catch_unseen err _ _ He) as Hr.
  apply res_rel_case in Hr as (e&e'&x&->&->&Hee). destruct x as [res|e2]; [|done].
  by apply outcome_rel_same.
Qed.

Lemma reward_proper r :
  Proper (same_evm ==> same_res) (reward_beneficiary (Log:=Log) (E:=E) r).
Proof.
  intros e e' Hee. pose proof Hee as (Hc&_). unfold reward_beneficiary. rewrite Hc.
  destruct (disable_beneficiary _); [done|]. by apply reward_unseen.
Qed.

Lemma run_frames_unseen frames frames' evm evm' :
  (∀ g e e', same_evm e e' → outcome_rel same_res (frames g e) (frames' g e')) → same_evm evm evm' →
  outcome_rel same_res (run_without_catch_error_with (Log:=Log) (E:=E) frames evm)
    (run_without_catch_error_with (Log:=Log) (E:=E) frames' evm').
Proof.
  intros Hfr He. unfold run_without_catch_error_with.
  eapply res_rel_bind; [by apply before_run_unseen|]. intros e1 e1' [[]|err] He1; [|done].
  eapply res_rel_bind; [by apply validate_unseen|]. intros e2 e2' [g|err] He2; [|done].
  pose proof (pre_unseen _ _ He2) as Hp. apply res_rel_case in Hp as (e3&e3'&x&->&->&He3).
  destruct x as [refund|err]; [|done].
  eapply res_rel_bind; [by apply Hfr|]. intros e4 e4' [r|err] He4; [|done].
  pose proof (post_unseen _ r g refund _ _ reward_proper He4) as Hpost.
  destruct (post_execution _ _ _ _ e4) as [[e5 r5] x], (post_execution _ _ _ _ e4') as [[e5' r5'] x'].
  destruct Hpost as [He5 [= <- <-]]. simpl in He5. destruct x as [x|err]; [|done].
  by apply execution_result_unseen.
Qed.

(** a transaction runs the same with an inspector that only watches and without one.
    From EVMs that differ at most in their inspector, [inspect_one_tx] and
    [transact_one] return the same result or the same error, panic alike, and leave the
    same context (state, limits, trackers, oracle), precompiles and frame stack behind.
    The path with inspection repeats the hooks of the path without: this is what keeps
    the two from drifting apart. *)
Theorem quiet_inspector_changes_nothing t evm evm' :
  same_evm evm evm' →
  outcome_rel same_res (inspect_one_tx (Log:=Log) (E:=E) t evm) (transact_one (Log:=Log) (E:=E) t evm').
Proof.
  intros He. pose proof He as (Hc&_). unfold inspect_one_tx, transact_one, run_with. rewrite Hc.
  eapply res_rel_bind.
  - apply run_frames_unseen; [intros; by apply execution_unseen|by apply with_ctx_proper].
  - intros e e' [out|err] Hee; [done|]. by apply catch_error_unseen.
Qed.
End inspector.
End frames.

(** ** A concrete EVM for the witnesses: the loop, with fuel *)
Section reference_loop.
Context {Gas E Evm : Type}
  (init : FrameInit → Evm → outcome (Evm * result (ItemOrResult (EthFrame Gas) (FrameResult Gas)) E))
  (run : Evm → outcome (Evm * result (ItemOrResult FrameInit (FrameResult Gas)) E))
  (return_result : FrameResult Gas → Evm → outcome (Evm * result (option (FrameResult Gas)) E)).

(** A frame runs; what it asks for is made; a result goes to its caller. *)
Fixpoint frames_loop (fuel : nat) (evm : Evm) :
    outcome (Evm * result (FrameResult Gas) (MegaError E)) :=
  match fuel with
  | O => Ret (evm, Err (OtherTxError 0))
  | Datatypes.S fuel =>
      '(evm, out) ← run evm;
      '(evm, out) ← match out with
                    | Err e => Ret (evm, Err e)
                    | Ok (Result r) => Ret (evm, Ok (Some r))
                    | Ok (Item fi) =>
                        '(evm, made) ← init fi evm;
                        Ret (evm, match made with
                                  | Err e => Err e
                                  | Ok (Item _) => Ok None
                                  | Ok (Result r) => Ok (Some r)
                                  end)
                    end;
      match out with
      | Err e => Ret (evm, Err (DbError e))
      | Ok None => frames_loop fuel evm
      | Ok (Some r) =>
          '(evm, ret) ← return_result r evm;
          match ret with
          | Err e => Ret (evm, Err (DbError e))
          | Ok (Some r) => Ret (evm, Ok r)
          | Ok None => frames_loop fuel evm
          end
      end
  end.

Definition reference_run_loop (fi : FrameInit) (evm : Evm) :
    outcome (Evm * result (FrameResult Gas) (MegaError E)) :=
  '(evm, made) ← init fi evm;
  match made with
  | Err e => Ret (evm, Err (DbError e))
  | Ok (Result r) => Ret (evm, Ok r)
  | Ok (Item _) => frames_loop 50 evm
  end.

Lemma frames_loop_ends fuel fi start evm evm' r :
  running init run return_result fi start evm → frames_loop fuel evm = Ret (evm', Ok r) →
  loop_ends init run return_result fi start evm' r.
Proof.
  revert evm. induction fuel as [|fuel IH]; intros evm Hrun Hl; simpl in Hl; [done|].
  apply bind_Ret in Hl as ([evm1 out]&Ho&Hl). apply bind_Ret in Hl as ([evm2 out2]&Hs&Hl).
  destruct out as [[fi1|r1]|e]; [| |by simplify_eq].
  - apply bind_Ret in Hs as ([evm3 made]&Hi&[= <- <-]). destruct made as [[frame|r1]|e]; [| |done].
    + eapply IH; [|exact Hl]. by eapply RunCall.
    + apply bind_Ret in Hl as ([evm4 ret]&Hr&Hl). destruct ret as [[r2|]|e]; [| |done].
      * injection Hl as <- <-. eapply EndsRun; [done| |exact Hr]. by eapply YieldsAnswer.
      * eapply IH; [|exact Hl]. eapply RunReturn; [done| |exact Hr]. by eapply YieldsAnswer.
  - injection Hs as <- <-. apply bind_Ret in Hl as ([evm4 ret]&Hr&Hl).
    destruct ret as [[r2|]|e]; [| |done].
    + injection Hl as <- <-. eapply EndsRun; [done| |exact Hr]. by apply YieldsEnd.
    + eapply IH; [|exact Hl]. eapply RunReturn; [done| |exact Hr]. by apply YieldsEnd.
Qed.

Lemma reference_run_loop_ends fi evm evm' r :
  reference_run_loop fi evm = Ret (evm', Ok r) →
  loop_ends init run return_result fi evm evm' r.
Proof.
  unfold reference_run_loop. intros Hl. apply bind_Ret in Hl as ([evm1 made]&Hi&Hl).
  destruct made as [[frame|r1]|e]; [| |done].
  - eapply frames_loop_ends; [|exact Hl]. by eapply RunStart.
  - injection Hl as <- <-. by apply EndsAtOnce.
Qed.
End reference_loop.

Section reference_loop_related.
Context {Gas E Evm : Type} (R : relation Evm)
  (init init' : FrameInit → Evm → outcome (Evm * result (ItemOrResult (EthFrame Gas) (FrameResult Gas)) E))
  (run run' : Evm → outcome (Evm * result (ItemOrResult FrameInit (FrameResult Gas)) E))
  (ret ret' : FrameResult Gas → Evm → outcome (Evm * result (option (FrameResult Gas)) E)).
Hypotheses (Hinit : ∀ fi e e', R e e' → outcome_rel (res_rel R) (init fi e) (init' fi e'))
  (Hrun : ∀ e e', R e e' → outcome_rel (res_rel R) (run e) (run' e'))
  (Hret : ∀ r e e', R e e' → outcome_rel (res_rel R) (ret r e) (ret' r e')).

Lemma frames_loop_related fuel evm evm' : R evm evm' →
  outcome_rel (res_rel R) (frames_loop init run ret fuel evm) (frames_loop init' run' ret' fuel evm').
Proof.
  revert evm evm'. induction fuel as [|fuel IH]; intros evm evm' He; simpl; [done|].
  eapply res_rel_bind; [by apply Hrun|]. intros e1 e1' out He1.
  apply (res_rel_bind (X:=result (option (FrameResult Gas)) E)).
  { destruct out as [[fi|r]|err]; [|done..]. eapply res_rel_bind; [by apply Hinit|]. intros e2 e2' x He2. done. }
  intros e2 e2' [[r|]|err] He2; [|by apply IH|done].
  eapply res_rel_bind; [by apply Hret|]. intros e3 e3' [[r3|]|err] He3; [done|by apply IH|done].
Qed.

Lemma reference_run_loop_related fi evm evm' : R evm evm' →
  outcome_rel (res_rel R) (reference_run_loop init run ret fi evm)
    (reference_run_loop init' run' ret' fi evm').
Proof.
  intros He. unfold reference_run_loop.
  eapply res_rel_bind; [by apply Hinit|]. intros e1 e1' [[f|r]|err] He1; [|by split..].
  by apply frames_loop_related.
Qed.
End reference_loop_related.

Section example.
#[local] Existing Instances reference_revm example_database checked_build
  reference_instruction_result reference_sstore reference_gas reference_abi reference_bitflags
  reference_keyless_abi example_display example_bytecode example_keyless_tx example_evm
  example_intercept_abi reference_gas_constants reference_account reference_create
  reference_interpreter show_nothing reference_gas_laws.
Notation J := (Journal example_db Z).
Notation Ctx := (MegaContext J unit unit).

#[local] Instance example_address : Display Address := λ _, "address"%string.
#[local] Instance example_journal : JournalInspectTr J string bool := {|
  Trackers.inspect_account_delegated _ a j := (j, Ok (bool_decide (a = 4))) |}.
#[local] Instance example_slots : StorageInspectTr J string := {|
  inspect_slot _ _ key j := Ret (j, Ok (key, key)) |}.
#[local] Instance example_op_host : OpHost J unit unit := {|
  op_basefee _ := 7; op_gas_limit _ := 30000000; op_difficulty _ := 0; op_prevrandao _ := None;
  op_block_number _ := 10; op_timestamp _ := 1000; op_beneficiary _ := 77;
  op_block_hash _ c := (c, None); op_blob_gasprice _ := 0; op_blob_hash _ _ := None;
  op_caller _ := 1; op_selfdestruct _ _ c := (c, None); op_sload _ _ c := (c, None);
  op_balance _ c := (c, None); op_load_account_delegated _ c := (c, None);
  op_load_account_code _ c := (c, None); op_load_account_code_hash _ c := (c, None);
  op_journal_depth j := 1 |}.
#[local] Instance example_validation : ValidationApi Z := {|
  get_tokens_in_calldata b := Z.of_nat (length b);
  account_info_is_empty i := bool_decide (nonce i = 0) |}.
#[local] Instance example_instrs : RevmInstructions RefGas unit Ctx := {|
  revm _ i h := Ret (with_int_gas (mkRefGas (rg_limit (int_gas i)) (rg_remaining (int_gas i) - 3)) i, h) |}.
Lemma example_instrs_laws : RevmInstructionLaws RefGas unit J unit unit.
Proof. split. by intros f i h i' h' [= _ <-]. Qed.
#[local] Existing Instance example_instrs_laws.

(** A frame stack: for each frame whether it is finished, and how often it ran.  The
    first frame calls another one the first time it runs; account 3 answers at once. *)
Notation Frames := (list (bool * nat)).
Notation Evm := (MegaEvm Ctx nat unit Frames).
Definition frame_flags (f : Frames) : list bool := map fst f.
Definition example_child (gas : Z) : FrameInit :=
  Build_FrameInit 1 (FrameInputCall
    (Build_CallInputs 2 2 1 (ValueTransfer 0) gas (0, 0) [] SchemeCall)).
Definition example_main (op : opcode.Opcode) (i : Interpreter RefGas unit) (h : Ctx) :
  outcome (Interpreter RefGas unit * Ctx) := Ret (i, h).
Definition example_run (evm : Evm) : outcome (Evm * InterpreterAction RefGas) :=
  '(i, c) ← MegaInstructions_new example_main (evm_instruction evm) opcode.ADD
              (mkInterpreter [] [] (mkRefGas 10000 10000) 50 None tt) (evm_ctx evm);
  let evm := with_evm_ctx c evm in
  Ret match evm_frame_stack evm with
      | [(fin, O)] => (with_frame_stack [(fin, 1%nat)] evm,
                       ActionNewFrame (fi_frame_input (example_child 5000)))
      | _ => (evm, ActionReturn (mkInterpreterResult Return [] (int_gas i)))
      end.
#[local] Instance example_frames : FrameApi RefGas string Ctx nat unit Frames := {|
  top_frame _ := {| frame_data := FrameDataCall; frame_gas := mkRefGas 10000 10000 |};
  frame_set_finished f := match f with [] => [] | (_, n) :: f => (true, n) :: f end;
  revm_frame_init fi evm :=
    match fi_frame_input fi with
    | FrameInputCall ci =>
        if decide (cin_target_address ci = 3) then
          Ret (evm, Ok (Result (FrameResultCall
                 (mkInterpreterResult Return [] (gas_new (cin_gas_limit ci))) (0, 0))))
        else Ret (with_frame_stack ((false, O) :: evm_frame_stack evm) evm,
                  Ok (Item {| frame_data := FrameDataCall;
                              frame_gas := gas_new (cin_gas_limit ci) |}))
    | _ => Ret (evm, Err "input"%string)
    end;
  run_plain := example_run;
  process_next_action a evm :=
    (evm, Ok match a with
             | ActionReturn r => Result (FrameResultCall r (0, 0))
             | ActionNewFrame input => Item (Build_FrameInit 1 input)
             end);
  revm_frame_return_result r evm :=
    let l := match evm_frame_stack evm with (true, _) :: l => l | l => l end in
    (with_frame_stack l evm, Ok match l with [] => Some r | _ => None end) |}.
#[local] Instance example_inspector : InspectorApi RefGas Ctx nat unit Frames := {|
  frame_start input evm := (with_evm_inspector (S (evm_inspector evm)) evm, input, None);
  frame_end _ r evm := (with_evm_inspector (S (evm_inspector evm)) evm, r);
  initialize_interp evm := evm;
  inspect_instructions := example_run;
  frame_input_of _ := FrameInputEmpty |}.
#[local] Instance example_handler : OpHandler RefGas string unit Ctx nat unit Frames := {|
  validate_env evm := (evm, Ok tt);
  validate_initial_tx_gas evm :=
    let gas_limit := tx_gas_limit (MegaContext.tx (evm_ctx evm)) in
    if decide (gas_limit < 21000) then Err (CallGasCostMoreThanGasLimit gas_limit 21000)
    else Ok (mkInitialAndFloorGas 21000 21000);
  pre_execution evm := (evm, Ok 0);
  first_frame_input gas evm := (evm, Ok (Build_FrameInit 0 (fi_frame_input (example_child gas))));
  op_last_frame_result r evm := (evm, r, Ok tt);
  op_reward_beneficiary _ evm := (evm, Ok tt);
  op_execution_result r evm :=
    (evm, Ok (ExecSuccess (gas_remaining (frame_result_gas r)) 0 [] (OutputCall [])));
  op_catch_error e evm := (evm, Err e);
  post_execution reward r g refund evm := let '(evm, x) := reward r evm in (evm, r, x) |}.
#[local] Instance example_loop : ExecLoop RefGas string Evm := {| run_exec_loop := reference_run_loop |}.

Lemma example_loop_laws : ExecLoopLaws RefGas string Evm.
Proof. split. intros *. apply reference_run_loop_ends. Qed.
Lemma example_loop_parametric : LoopParametric RefGas string Evm.
Proof. split. intros *. intros Hi Hr Ht. by apply reference_run_loop_related. Qed.
Lemma example_handler_laws : HandlerLaws (Gas:=RefGas) (Log:=unit) (E:=string)
  (DB:=example_db) (Bytecode:=Z) (S:=unit) (O:=unit) (I:=nat) (P:=unit) (F:=Frames).
Proof. split; [by intros ? ? ? ? [= <- <-]|by intros ? ? ? ? ? [= <- <- <-]]. Qed.
Lemma example_frame_laws : FrameLaws example_main frame_flags
  (E:=string) (DB:=example_db) (Bytecode:=Z) (S:=unit) (O:=unit) (I:=nat) (P:=unit).
Proof.
  split.
  - by intros [|[b n] f].
  - intros fi evm evm' r Hi. simpl in Hi. destruct (fi_frame_input fi) as [ci|cr|]; [|done..].
    case_decide; by injection Hi as <- <-.
  - intros evm evm' action Hr. simpl in Hr. unfold example_run in Hr.
    apply bind_Ret in Hr as ([i c]&Hi&[= Hr]). destruct evm as [ctx0 ins sp pre st b]; simpl in *.
    assert (evm_ctx evm' = c ∧ evm_instruction evm' = sp ∧
      frame_flags (evm_frame_stack evm') = frame_flags st) as (->&->&->).
    { by destruct st as [|[fin [|n]] [|]]; injection Hr as <- _. }
    split_and!; [done..|]. intros Rel _ Hrel. by apply (Hrel _ _ _ _ _ Hi).
  - by intros a evm evm' r [= <- <-].
  - intros r evm evm' o [= <- <-]. split; [done|]. simpl.
    destruct (evm_frame_stack evm) as [|[[] n] [|]]; simpl; by split.
Qed.
#[local] Existing Instances example_loop_laws example_loop_parametric example_handler_laws example_frame_laws.

Definition example_al (s : MegaSpecId) : AdditionalLimit :=
  AdditionalLimit.new s (mkEvmTxRuntimeLimits 1000 10 500000 5 2000 1000).
Definition example_evm_at (s : MegaSpecId) (t : MegaTransaction) : Evm :=
  let c := MegaContext.with_tx t (keyless_context s (example_al s)) in
  mkEvm c 0%nat s tt [] false.

Lemma trackers_follow_frames_witness :
  let evm := example_evm_at REX4 (Deps.example_tx [] None [] 0) in
  ∃ evm' r, execution (Log:=unit) (E:=string) (mkInitialAndFloorGas 100 100) evm = Ret (evm', Ok r) ∧
    at_depth 0 (additional_limit (evm_ctx evm')).
Proof.
  intros evm.
  assert (limits_at 0 evm) as Hn by (unfold limits_at, at_depth; split_and!; reflexivity).
  destruct (trackers_follow_frames (main:=example_main) (frame_flags:=frame_flags) (R:=unit)
    (Log:=unit) (E:=string) evm Hn eq_refl) as [_ Hx].
  assert (∃ evm' r, execution (Log:=unit) (E:=string) (mkInitialAndFloorGas 100 100) evm
    = Ret (evm', Ok r)) as (evm' & r & He)
    by (do 2 eexists; vm_compute; reflexivity).
  exists evm', r. split; [exact He|]. exact (Hx _ _ _ He).
Defined.

(** Ten bytes of calldata: 400 of storage gas, and 39000 for the transaction. *)
Lemma transaction_pays_first_witness :
  let t := mkTransaction (repeat Byte.x01 10) None [] 0 1 (TxCall 2) 0 0 90000 0 0 0 None in
  let evm := example_evm_at REX4 t in
  ∃ evm' al within,
    AdditionalLimit.record_compute_gas 21000 (example_al REX4) = Ret (al, within) ∧
    validate (Log:=unit) (E:=string) (Gas:=RefGas) evm = Ret (evm', Ok (mkInitialAndFloorGas 60400 22000)) ∧
    additional_limit (evm_ctx evm') = al.
Proof.
  intros t evm.
  assert (∃ evm' r, validate (Log:=unit) (E:=string) (Gas:=RefGas) evm = Ret (evm', r)) as (evm'&r&Hv)
    by (do 2 eexists; vm_compute; reflexivity).
  edestruct (transaction_pays_first (Log:=unit) (E:=string) (Gas:=RefGas) evm evm
    (mkInitialAndFloorGas 21000 21000) evm' r) as (al&within&Hal&Hr);
    [reflexivity|reflexivity|reflexivity|vm_compute; discriminate..|exact Hv|].
  exists evm', al, within. split; [exact Hal|].
  cbv zeta in Hr. change (bool_decide _) with false in Hr. cbv iota in Hr.
  destruct Hr as (ctx2&callee&Hc&->&Hr). vm_compute in Hc. injection Hc as <- <-.
  destruct Hr as (_&initial&Hi&->). split; [|done].
  rewrite Hv. do 3 f_equal. vm_compute in Hi. by injection Hi as <-.
Defined.

Definition example_exceeded : AdditionalLimit :=
  AdditionalLimit.set_exceeded (ExceedsLimit ComputeGas 500000 600000 false) (example_al REX4).

Lemma exceeded_transaction_makes_no_frame_witness :
  let c := MegaContext.with_additional_limit example_exceeded
             (keyless_context REX4 (example_al REX4)) in
  let evm : Evm := mkEvm c 0%nat REX4 tt [(false, 1%nat)] false in
  ∃ evm' res, frame_init (Log:=unit) (example_child 5000) evm = Ret (evm', Ok (Result res)) ∧
    instruction_result res = OutOfGas ∧ evm_frame_stack evm' = [(false, 1%nat)] ∧
    add_u64 0 5000 = Ret (rescued_gas (additional_limit (evm_ctx evm'))).
Proof.
  intros c evm.
  assert (∃ evm' r, frame_init (Log:=unit) (example_child 5000) evm = Ret (evm', Ok r)) as (evm'&r&Hf)
    by (do 2 eexists; vm_compute; reflexivity).
  edestruct (exceeded_transaction_makes_no_frame (Log:=unit) (example_child 5000) evm evm' r
    ComputeGas 500000 600000 c c) as (res&Hr&Hres&_&Hst&_&Hresc);
    [reflexivity|reflexivity|by vm_compute|reflexivity|reflexivity|exact Hf|].
  exists evm', res. rewrite <- Hr. split_and!; [exact Hf|exact Hres|exact Hst|exact Hresc].
Defined.

Lemma halt_reason_is_exact_witness :
  mega_halt_reason None (OpBase HaltOutOfGasBasic) example_exceeded =
    Ret (example_exceeded, ComputeGasLimitExceeded 500000 600000).
Proof.
  exact (halt_reason_is_exact None (OpBase HaltOutOfGasBasic) example_exceeded example_exceeded
    (ExceedsLimit ComputeGas 500000 600000 false) 0 eq_refl eq_refl).
Defined.

(** An inspector that counts what it sees. *)
Lemma example_quiet : QuietInspector (Gas:=RefGas) (E:=string) (DB:=example_db) (Bytecode:=Z)
  (S:=unit) (O:=unit) (Log:=unit) (I:=nat) (P:=unit) (F:=Frames).
Proof.
  split.
  - intros fi evm. by eexists.
  - intros fi r evm. by eexists.
  - done.
  - intros e e' He. simpl. unfold example_run. pose proof He as (Hc&Hi&_&Hs). rewrite Hc, Hi.
    apply outcome_rel_same. intros [i c]. simpl. rewrite Hs.
    pose proof (with_ctx_proper c _ _ He) as Hx.
    destruct (evm_frame_stack e') as [|[fin [|n]] [|]]; split; try done. by apply with_stack_proper.
  - intros fi e e' He. simpl. destruct (fi_frame_input fi) as [ci|cr|]; [case_decide|..]; simpl;
      try (by split). split; [|done]. destruct He as (?&?&?&Hs). unfold same_evm. simpl. by rewrite Hs.
  - intros a e e' He. by split.
  - intros r e e' (?&?&?&Hs). simpl. rewrite Hs. by split.
  - intros e e' He. by split.
  - intros e e' (Hc&_). simpl. by rewrite Hc.
  - intros e e' He. by split.
  - intros g e e' He. by split.
  - intros r e e' He. by split.
  - intros r e e' He. by split.
  - intros r e e' He. by split.
  - intros r e e' He. by split.
  - intros reward r g refund e e' Hrw He. simpl. pose proof (Hrw r _ _ He) as Hx.
    apply res_rel_case in Hx as (e1&e1'&x&->&->&He1). by split.
Qed.

(** The inspector saw two frames start and end; without it the result is the same. *)
Lemma quiet_inspector_changes_nothing_witness :
  let t := mkTransaction [] None [] 0 1 (TxCall 2) 0 0 90000 0 0 0 None in
  let evm := example_evm_at REX4 (Deps.example_tx [] None [] 0) in
  ∃ seen unseen r,
    inspect_one_tx (Log:=unit) (E:=string) t evm = Ret (seen, Ok r) ∧
    transact_one (Log:=unit) (E:=string) t evm = Ret (unseen, Ok r) ∧
    evm_inspector seen = 4%nat ∧ evm_inspector unseen = 0%nat ∧ same_evm seen unseen.
Proof.
  intros t evm.
  assert (∃ seen r, inspect_one_tx (Log:=unit) (E:=string) t evm = Ret (seen, Ok r) ∧
    evm_inspector seen = 4%nat) as (seen&r&Hseen&Hn) by (do 2 eexists; split; vm_compute; reflexivity).
  assert (∃ unseen r, transact_one (Log:=unit) (E:=string) t evm = Ret (unseen, r) ∧
    evm_inspector unseen = 0%nat) as (unseen&r'&Hunseen&Hn') by (do 2 eexists; split; vm_compute; reflexivity).
  pose proof (quiet_inspector_changes_nothing (quiet:=example_quiet) t evm evm ltac:(done)) as Hrel.
  rewrite Hseen, Hunseen in Hrel. destruct Hrel as [Hsame Heq]. simpl in Heq. subst r'.
  exists seen, unseen, r.
  split; [exact Hseen|]. split; [exact Hunseen|]. split; [exact Hn|]. split; [exact Hn'|exact Hsame].
Defined.
End example.
