(* ===== verification/Equivalence.v ===== *)
(** * Under EQUIVALENCE the EVM is [op-revm]

    The spec [EQUIVALENCE] means to be the optimism EVM unchanged.  The reference is the
    handler, the frames and the host of [op-revm] and [revm] on the same EVM without any
    hook of the source; a transaction of [MegaHandler] is one of the reference, and the
    host answers what the host of [op-revm] answers. *)
From S2P Require Import Prelude Spec Deps Volatile LimitTypes FrameLimit Trackers AdditionalLimit.
From S2P Require Import LimitTheory EvmState Inspect StorageGas SystemContracts Context ContextTheory.
From S2P Require Import Sandbox SandboxTheory Intercept Instructions InstructionsTheory Execution.
From S2P Require Import ExecutionTheory.
Open Scope Z_scope.
Open Scope rust_scope.
#[local] Set Warnings "-notation-for-abbreviation".

(** ** The reference *)
Section reference.
Context `{Profile} `{BitflagsApi} {Gas E Log J S O I P F : Type}
  `{FrameApi Gas E (MegaContext J S O) I P F}
  `{OpHandler Gas E Log (MegaContext J S O) I P F}
  `{ExecLoop Gas E (MegaEvm (MegaContext J S O) I P F)}.
Notation Evm := (MegaEvm (MegaContext J S O) I P F).
Notation Error := (MegaError E).
Notation Executed := (outcome (Evm * result (ExecutionResult MegaHaltReason Log) Error)).
Implicit Types evm : Evm.

(** The steps of [revm]'s loop. *)
Definition op_frame_init (fi : FrameInit) evm :
    outcome (Evm * result (ItemOrResult (EthFrame Gas) (FrameResult Gas)) E) :=
  revm_frame_init fi evm.

Definition op_frame_run evm :
    outcome (Evm * result (ItemOrResult FrameInit (FrameResult Gas)) E) :=
  '(evm, action) ← run_plain evm;
  let '(evm, out) := process_next_action action evm in
  match out with
  | Ok (Result r) =>
      Ret (with_frame_stack (frame_set_finished (evm_frame_stack evm)) evm, Ok (Result r))
  | out => Ret (evm, out)
  end.

Definition op_frame_return_result (r : FrameResult Gas) evm :
    outcome (Evm * result (option (FrameResult Gas)) E) :=
  Ret (revm_frame_return_result r evm).

Definition op_execution (g : InitialAndFloorGas) evm :
    outcome (Evm * result (FrameResult Gas) Error) :=
  gas_limit ← sub_u64 (tx_gas_limit (MegaContext.tx (evm_ctx evm))) (initial_gas g);
  let '(evm, first) := first_frame_input gas_limit evm in
  match first with
  | Err e => Ret (evm, Err e)
  | Ok fi =>
      '(evm, r) ← run_exec_loop op_frame_init op_frame_run op_frame_return_result fi evm;
      match r with
      | Err e => Ret (evm, Err e)
      | Ok r =>
          let '(evm, r, x) := op_last_frame_result r evm in
          Ret (evm, match x with Ok _ => Ok r | Err e => Err e end)
      end
  end.

(** The halt reasons of [op-revm] stay what they are. *)
Definition op_result (r : result (ExecutionResult OpHaltReason Log) Error) :
    result (ExecutionResult MegaHaltReason Log) Error :=
  match r with
  | Ok (ExecSuccess g rf l o) => Ok (ExecSuccess g rf l o)
  | Ok (ExecRevert g o) => Ok (ExecRevert g o)
  | Ok (ExecHalt reason g) => Ok (ExecHalt (Base reason) g)
  | Err e => Err e
  end.

Definition op_run_without_catch_error evm : Executed :=
  let '(evm, valid) := validate_env evm in
  match valid with Err e => Ret (evm, Err e) | Ok _ =>
  match validate_initial_tx_gas evm with Err e => Ret (evm, Err e) | Ok g =>
  let '(evm, refund) := pre_execution evm in
  match refund with Err e => Ret (evm, Err e) | Ok refund =>
  '(evm, r) ← op_execution g evm;
  match r with Err e => Ret (evm, Err e) | Ok r =>
  let '(evm, r, x) := post_execution op_reward_beneficiary r g refund evm in
  match x with Err e => Ret (evm, Err e) | Ok _ =>
  let '(evm, r) := op_execution_result r evm in Ret (evm, op_result r)
  end end end end end.

Definition op_run evm : Executed :=
  '(evm, r) ← op_run_without_catch_error evm;
  match r with
  | Ok out => Ret (evm, Ok out)
  | Err e => let '(evm, r) := op_catch_error e evm in Ret (evm, op_result r)
  end.

(** All that [MegaHandler] does before: the record of volatile accesses starts again. *)
Definition start_tx (t : MegaTransaction) evm : Evm :=
  with_evm_ctx (MegaContext.check_tx_beneficiary_access
    (MegaContext.reset_volatile_data_access (MegaContext.with_tx t (evm_ctx evm)))) evm.
Definition op_transact_one (t : MegaTransaction) evm : Executed := op_run (start_tx t evm).
End reference.

(** ** A transaction *)
Section transaction.
Context `{Profile} `{BitflagsApi} `{InstructionResultApi} `{SStoreApi} `{AbiApi} `{KeylessAbi}
  `{InterceptAbi} `{RevmGasConstants} {Gas R : Type} `{GasApi Gas} {Sig : Type} `{KeylessTxApi Sig}
  `{InterpreterApi Gas R}
  {DB E Bytecode S SE SD AL O Log Acc I P F : Type} {revm_state : RevmState Bytecode}
  {bytecode : BytecodeApi Bytecode} {database : Database DB E Bytecode} {display : Display E}
  {show : Display SE} {show_address : Display Address} {oracle : OracleEnv O}
  {salt : SaltEnv S SE} {host : OpHost (Journal DB Bytecode) SD AL}
  {sandbox : SandboxEvm (Journal DB Bytecode) (SandboxDb DB Bytecode) S O Bytecode Log}
  {journal : JournalInspectTr (Journal DB Bytecode) E Acc} `{AccountApi Acc} `{CreateApi Acc}
  {slots : StorageInspectTr (Journal DB Bytecode) E}
  {instrs : RevmInstructions Gas R (MegaContext (Journal DB Bytecode) S O)}
  `{ValidationApi Bytecode}
  {frame_api : FrameApi Gas E (MegaContext (Journal DB Bytecode) S O) I P F}
  {inspector_api : InspectorApi Gas (MegaContext (Journal DB Bytecode) S O) I P F}
  {handler : OpHandler Gas E Log (MegaContext (Journal DB Bytecode) S O) I P F}
  {exec_loop : ExecLoop Gas E (MegaEvm (MegaContext (Journal DB Bytecode) S O) I P F)}.
Notation J := (Journal DB Bytecode).
Notation Ctx := (MegaContext J S O).
Notation Evm := (MegaEvm Ctx I P F).
Implicit Types (ctx : Ctx) (evm : Evm).

(** What the source adds to the context and nothing of [revm] or [op-revm] touches. *)
Definition same_mega ctx ctx' : Prop :=
  same_limits ctx ctx' ∧ disable_beneficiary ctx' = disable_beneficiary ctx.
#[export] Instance same_mega_preorder : PreOrder same_mega.
Proof.
  split; [done|]. intros x y z [[??]?] [[??]?]. repeat split; congruence.
Qed.

Definition mega_kept evm evm' : Prop :=
  same_mega (evm_ctx evm) (evm_ctx evm') ∧ evm_instruction evm' = evm_instruction evm.

(** [revm] and [op-revm] leave the fields of the source alone, their instructions too;
    initial gas above the gas limit is an error of validation, and [pre_execution] works
    on the state.  The reward is what [post_execution] asks the handler for. *)
Class OpLaws (main : opcode.Opcode → Interpreter Gas R → Ctx → outcome (Interpreter Gas R * Ctx)) :
    Prop := {
  op_main_law op : keeps same_mega (main op);
  op_env_law evm evm' r : validate_env (Log:=Log) (E:=E) evm = (evm', r) → mega_kept evm evm';
  op_initial_law evm g : validate_initial_tx_gas (Log:=Log) (E:=E) evm = Ok g →
    initial_gas g ≤ tx_gas_limit (MegaContext.tx (evm_ctx evm));
  op_pre_law evm evm' r : pre_execution (Log:=Log) (E:=E) evm = (evm', r) →
    mega_kept evm evm' ∧ MegaContext.tx (evm_ctx evm') = MegaContext.tx (evm_ctx evm);
  op_first_law gas evm evm' r : first_frame_input (Log:=Log) (E:=E) gas evm = (evm', r) →
    mega_kept evm evm';
  op_init_law fi evm evm' r : revm_frame_init fi evm = Ret (evm', r) → mega_kept evm evm';
  op_plain_law evm evm' action : run_plain evm = Ret (evm', action) →
    evm_instruction evm' = evm_instruction evm ∧
    ∀ Rel : relation Ctx, PreOrder Rel →
      (∀ op, keeps Rel (MegaInstructions_new main (evm_instruction evm) op)) →
      Rel (evm_ctx evm) (evm_ctx evm');
  op_process_law action evm evm' r : process_next_action action evm = (evm', r) → mega_kept evm evm';
  op_return_law r evm evm' o : revm_frame_return_result r evm = (evm', o) → mega_kept evm evm';
  op_last_law r evm evm' r' x : op_last_frame_result (Log:=Log) (E:=E) r evm = (evm', r', x) →
    mega_kept evm evm';
  op_reward_law r evm evm' x : op_reward_beneficiary (Log:=Log) (E:=E) r evm = (evm', x) →
    mega_kept evm evm';
  op_post_law reward r g refund evm evm' r' x :
    (∀ r e e' x, reward r e = (e', x) → mega_kept e e') →
    post_execution (Log:=Log) (E:=E) reward r g refund evm = (evm', r', x) → mega_kept evm evm';
  op_post_asks reward reward' r g refund evm :
    (∀ r e, mega_kept evm e → reward r e = reward' r e) →
    post_execution (Log:=Log) (E:=E) reward r g refund evm =
      post_execution (Log:=Log) (E:=E) reward' r g refund evm;
  op_result_law r evm evm' x : op_execution_result (Log:=Log) (E:=E) r evm = (evm', x) →
    mega_kept evm evm';
  op_catch_law e evm evm' x : op_catch_error (Log:=Log) (E:=E) e evm = (evm', x) →
    mega_kept evm evm';
}.

Context {main : opcode.Opcode → Interpreter Gas R → Ctx → outcome (Interpreter Gas R * Ctx)}
  {laws : OpLaws main} {parametric : LoopParametric Gas E Evm}.

(** An EVM of [EQUIVALENCE] that rewards and that has recorded nothing against a limit. *)
Definition plain evm : Prop :=
  spec (evm_ctx evm) = EQUIVALENCE ∧ evm_instruction evm = EQUIVALENCE ∧
  disable_beneficiary (evm_ctx evm) = false ∧
  AdditionalLimit.check_limit (additional_limit (evm_ctx evm)) =
    Ret (additional_limit (evm_ctx evm), WithinLimit).

Lemma plain_kept evm evm' : mega_kept evm evm' → plain evm → plain evm'.
Proof.
  intros [[[Hal Hsp] Hb] Hi] (?&?&?&?). unfold plain. rewrite Hsp, Hi, Hb, Hal. done.
Qed.

(** The same call from the same plain EVM, that leaves a plain one. *)
Definition plain_eq evm evm' : Prop := evm = evm' ∧ plain evm.
Notation agree m m' := (outcome_rel (res_rel plain_eq) m m').

Lemma agree_same {X} (m : outcome (Evm * X)) :
  (∀ e x, m = Ret (e, x) → plain e) → agree m m.
Proof. destruct m as [[e x]|]; [|done]. intros Hp. split; [|done]. split; [done|by eapply Hp]. Qed.

Lemma agree_ret {X} evm (x : X) : plain evm → agree (Ret (evm, x)) (Ret (evm, x)).
Proof. intros Hp. apply agree_same. by intros e y [= <- _]. Qed.

Lemma agree_eq {X} (m m' : outcome (Evm * X)) :
  agree m m' → m = m' ∧ ∀ e x, m = Ret (e, x) → plain e.
Proof.
  destruct m as [[e x]|], m' as [[e' x']|]; simpl; try done.
  intros [[He Hp] Hx]. simpl in *. subst. split; [done|]. by intros ? ? [= <- _].
Qed.

Lemma with_own_ctx evm : with_evm_ctx (evm_ctx evm) evm = evm.
Proof. by destruct evm. Qed.
Lemma with_own_limit evm : with_limit (additional_limit (evm_ctx evm)) evm = evm.
Proof. by destruct evm as [[] ? ? ? ? ?]. Qed.

Lemma plain_mini_rex evm : plain evm → is_mini_rex (evm_ctx evm) = false.
Proof. intros (Hs&_). unfold is_mini_rex. by rewrite Hs. Qed.

(** *** The steps of the loop *)
Lemma frame_init_plain fi evm evm' : plain_eq evm evm' →
  agree (frame_init (Log:=Log) fi evm) (op_frame_init fi evm').
Proof.
  intros [<- Hp]. unfold frame_init, op_frame_init. pose proof Hp as (Hs&_).
  assert (mark_frame (evm_ctx evm) fi = Ret (evm_ctx evm)) as ->.
  { unfold mark_frame, mark_oracle_call, detects_oracle_call. rewrite Hs.
    by destruct (fi_frame_input fi). }
  simpl. assert (intercept_frame (Gas:=Gas) (evm_ctx evm) fi = Ret (evm_ctx evm, None)) as ->.
  { unfold intercept_frame, dispatch_system_contract_interceptors. rewrite Hs.
    by destruct (fi_frame_input fi). }
  simpl. unfold limit_frame_init. rewrite (plain_mini_rex _ Hp). simpl. rewrite with_own_ctx.
  rewrite <- (fmap_Ret_id (revm_frame_init fi evm)) at 2.
  destruct (revm_frame_init fi evm) as [[e r]|] eqn:Hi; [|done]. simpl.
  apply op_init_law in Hi. apply (plain_kept evm) in Hi; [|done].
  destruct r; by apply (agree_ret e).
Qed.

Lemma frame_run_plain evm evm' : plain_eq evm evm' →
  agree (frame_run (E:=E) evm) (op_frame_run evm').
Proof.
  intros [<- Hp]. unfold frame_run, frame_run_with, op_frame_run, before_frame_run.
  rewrite (plain_mini_rex _ Hp). simpl. rewrite with_own_ctx.
  destruct (run_plain evm) as [[e1 a]|] eqn:Hr; [|done]. simpl.
  apply op_plain_law in Hr as [Hi1 Hr].
  assert (plain e1) as Hp1.
  { apply (plain_kept evm); [|done]. split; [|done].
    apply (Hr same_mega _). destruct Hp as (_&->&_). apply op_main_law. }
  unfold after_frame_run_instructions. rewrite (plain_mini_rex _ Hp1). simpl.
  rewrite (plain_mini_rex _ Hp1), with_own_ctx.
  destruct (process_next_action a e1) as [e2 out] eqn:Hx.
  apply op_process_law, plain_kept in Hx; [|done].
  destruct out as [[fi|r]|err]; simpl; [| |by apply agree_ret].
  - unfold after_frame_run. rewrite (plain_mini_rex _ Hx). simpl. rewrite with_own_ctx.
    by destruct a; apply agree_ret.
  - unfold after_frame_run. simpl. rewrite (plain_mini_rex _ Hx). simpl.
    by destruct a; apply agree_ret.
Qed.

Lemma frame_return_plain r evm evm' : plain_eq evm evm' →
  agree (frame_return_result (E:=E) r evm) (op_frame_return_result r evm').
Proof.
  intros [<- Hp]. unfold frame_return_result, op_frame_return_result.
  rewrite (plain_mini_rex _ Hp). simpl.
  destruct (revm_frame_return_result r evm) as [e o] eqn:Hr.
  apply op_return_law, plain_kept in Hr; [|done]. destruct o as [o|err]; [|by apply agree_ret].
  unfold enable_access_if_returning. pose proof Hr as (Hs&_). rewrite Hs. simpl.
  rewrite with_own_ctx. by apply agree_ret.
Qed.

(** *** Around the frames *)
Lemma last_frame_plain r evm : plain evm →
  agree (last_frame_result (Log:=Log) (E:=E) r evm)
    (let '(evm, r, x) := op_last_frame_result (Log:=Log) (E:=E) r evm in
     Ret (evm, match x with Ok _ => Ok r | Err e => Err e end)).
Proof.
  intros Hp. unfold last_frame_result. rewrite (plain_mini_rex _ Hp). simpl.
  destruct (op_last_frame_result r evm) as [[e r1] x] eqn:Hl.
  apply op_last_law, plain_kept in Hl; [|done]. destruct x; by apply agree_ret.
Qed.

Lemma execution_plain g evm : plain evm →
  initial_gas g ≤ tx_gas_limit (MegaContext.tx (evm_ctx evm)) →
  agree (execution (Log:=Log) (E:=E) g evm) (op_execution (Log:=Log) (E:=E) g evm).
Proof.
  intros Hp Hg. unfold execution, execution_with, op_execution, before_execution.
  rewrite bool_decide_false by lia. apply outcome_rel_same. intros gas.
  destruct (first_frame_input gas evm) as [e first] eqn:Hf.
  apply op_first_law, plain_kept in Hf; [|done]. destruct first as [fi|err]; [|by apply agree_ret].
  eapply res_rel_bind.
  - apply loop_related; [| | |by split].
    + intros. by apply frame_init_plain.
    + intros. by apply frame_run_plain.
    + intros. by apply frame_return_plain.
  - intros e1 e1' [r|err] [<- Hp1]; [by apply last_frame_plain|by apply agree_ret].
Qed.

Lemma reward_plain r evm : plain evm →
  reward_beneficiary (Log:=Log) (E:=E) r evm = op_reward_beneficiary r evm.
Proof. intros (_&_&Hb&_). unfold reward_beneficiary. by rewrite Hb. Qed.

Lemma validate_plain evm e : plain evm → validate_env (Log:=Log) (E:=E) evm = (e, Ok tt) →
  plain e ∧ validate (Log:=Log) (E:=E) (Gas:=Gas) evm = Ret (e, validate_initial_tx_gas e).
Proof.
  intros Hp Hv. unfold validate. rewrite Hv. apply op_env_law, plain_kept in Hv; [|done].
  split; [done|]. rewrite (plain_mini_rex _ Hv).
  by destruct (validate_initial_tx_gas e).
Qed.

(** No limit is exceeded, so running out of gas is what it is. *)
Lemma execution_result_plain r evm : plain evm →
  agree (execution_result (Log:=Log) (E:=E) r evm)
    (let '(evm, r) := op_execution_result (Log:=Log) (E:=E) r evm in Ret (evm, op_result r)).
Proof.
  intros Hp. unfold execution_result. rewrite (plain_mini_rex _ Hp).
  destruct (op_execution_result r evm) as [e x] eqn:Hx.
  apply op_result_law, plain_kept in Hx; [|done].
  destruct x as [[g rf l o|g o|reason g]|err]; [by apply agree_ret..| |by apply agree_ret].
  assert (mega_halt_reason None reason (additional_limit (evm_ctx e)) =
    Ret (additional_limit (evm_ctx e), Base reason)) as ->.
  { unfold mega_halt_reason, AdditionalLimit.is_exceeding_limit_halt.
    destruct Hx as (_&_&_&Hc). destruct reason as [[]|]; by rewrite ?Hc. }
  simpl. rewrite with_own_limit. by apply agree_ret.
Qed.

Lemma run_plain_agrees evm : plain evm →
  agree ('(evm, g) ← validate (Log:=Log) (E:=E) (Gas:=Gas) evm;
         match g with Err e => Ret (evm, Err e) | Ok g =>
         let '(evm, refund) := pre_execution evm in
         match refund with Err e => Ret (evm, Err e) | Ok refund =>
         '(evm, r) ← execution g evm;
         match r with Err e => Ret (evm, Err e) | Ok r =>
         let '(evm, r, x) :=
           post_execution (reward_beneficiary (Log:=Log) (E:=E)) r g refund evm in
         match x with Err e => Ret (evm, Err e) | Ok _ => execution_result r evm
         end end end end)
    (op_run_without_catch_error (Log:=Log) (E:=E) evm).
Proof.
  intros Hp. unfold op_run_without_catch_error.
  destruct (validate_env evm) as [e1 [[]|err]] eqn:Hv.
  2: { unfold validate. rewrite Hv. by eapply agree_ret, plain_kept, Hp; eapply op_env_law. }
  apply validate_plain in Hv as [Hp1 ->]; [|done]. simpl.
  destruct (validate_initial_tx_gas e1) as [g|err] eqn:Hg; [|by apply agree_ret].
  apply op_initial_law in Hg.
  destruct (pre_execution e1) as [e2 refund] eqn:Hpre. apply op_pre_law in Hpre as [Hk Ht].
  apply plain_kept in Hk as Hp2; [|done]. rewrite <- Ht in Hg. clear Hk Ht.
  destruct refund as [refund|err]; [|by apply agree_ret].
  eapply res_rel_bind; [by apply execution_plain|].
  intros e3 e3' [r|err] [<- Hp3]; [|by apply agree_ret].
  rewrite (op_post_asks _ op_reward_beneficiary) by
    (intros r1 e Hk; by eapply reward_plain, plain_kept).
  destruct (post_execution _ r g refund e3) as [[e4 r4] x] eqn:Hpost.
  apply op_post_law, plain_kept in Hpost; [|done|apply op_reward_law].
  destruct x; [by apply execution_result_plain|by apply agree_ret].
Qed.

Lemma equivalence_transaction t evm :
  plain evm →
  transact_one (Log:=Log) (E:=E) t evm = op_transact_one (Log:=Log) (E:=E) t evm ∧
  ∀ evm' r, transact_one (Log:=Log) (E:=E) t evm = Ret (evm', r) → plain evm'.
Proof.
  intros Hp. apply agree_eq. unfold transact_one, run_with, op_transact_one, op_run.
  assert (plain (start_tx t evm)) as Hp1.
  { unfold start_tx, MegaContext.check_tx_beneficiary_access. destruct Hp as (?&?&?&?).
    repeat case_match; done. }
  eapply res_rel_bind.
  - unfold run_without_catch_error, run_without_catch_error_with, before_run.
    pose proof Hp as (Hs&_). unfold is_mini_rex. simpl. rewrite Hs. simpl.
    unfold MegaContext.on_new_tx. fold (start_tx t evm).
    pose proof Hp1 as (Hs1&_). simpl in Hs1. rewrite Hs1. simpl.
    exact (run_plain_agrees _ Hp1).
  - intros e e' [out|err] [<- Hpe]; [by apply agree_ret|].
    unfold catch_error. destruct (op_catch_error err e) as [e1 x] eqn:Hx.
    apply op_catch_law, plain_kept in Hx; [|done].
    destruct x as [[]|]; by apply agree_ret.
Qed.

(** C8: under [EQUIVALENCE] a transaction of [MegaHandler] is a transaction of [op-revm].
    From an EVM that has recorded nothing against a limit, [transact_one] returns exactly
    what the reference returns, the run of [op-revm]'s handler over [revm]'s frames with
    no hook of the source: the same result, the same error, the same panic, the same
    halt reasons and the same EVM behind, its journal included.  What precedes is that
    the record of volatile accesses starts again.  And the EVM is left such that the
    next transaction is one of the reference too. *)
Theorem equivalence_is_op_revm t evm :
  plain evm →
  transact_one (Log:=Log) (E:=E) t evm = op_transact_one (Log:=Log) (E:=E) t evm ∧
  ∀ evm' r, transact_one (Log:=Log) (E:=E) t evm = Ret (evm', r) → plain evm'.
Proof. by apply equivalence_transaction. Qed.
End transaction.

(** ** The host

    Every method answers what the method of [OpContext] answers and leaves its context;
    the record of volatile accesses is all that is the source's. *)
Section host.
Context `{Profile} `{BitflagsApi} {J S O SD AL : Type} {host : OpHost J SD AL}
  {oracle : OracleEnv O}.
Implicit Types self : MegaContext J S O.

(** The context after a call that left [i] of the inner one, and its answer. *)
Definition as_op {A} (self : MegaContext J S O) (answer : OpContext J * A)
    (res : MegaContext J S O * A) : Prop :=
  ∃ v, res = (MegaContext.with_volatile v (MegaContext.with_inner (fst answer) self), snd answer).

Lemma as_op_pure {A} self (a : A) v :
  as_op self (inner self, a) (MegaContext.with_volatile v self, a).
Proof. exists v. by destruct self. Qed.

Lemma marked_beneficiary a self : ∃ v,
  fst (MegaContext.check_and_mark_beneficiary_balance_access a self) =
    MegaContext.with_volatile v self.
Proof.
  unfold MegaContext.check_and_mark_beneficiary_balance_access.
  case_bool_decide; [by eexists|]. exists (volatile_data_tracker self). by destruct self.
Qed.

Lemma as_op_marked {A} a self (f : OpContext J → OpContext J * A) :
  as_op self (f (inner self))
    (let self := fst (MegaContext.check_and_mark_beneficiary_balance_access a self) in
     let '(i, r) := f (inner self) in (MegaContext.with_inner i self, r)).
Proof.
  destruct (marked_beneficiary a self) as [v ->]. exists v. simpl.
  by destruct (f (inner self)).
Qed.

Lemma equivalence_host_reads self :
  as_op self (inner self, op_basefee (inner self)) (Host.basefee self) ∧
  as_op self (inner self, op_gas_limit (inner self)) (Host.gas_limit self) ∧
  as_op self (inner self, op_difficulty (inner self)) (Host.difficulty self) ∧
  as_op self (inner self, op_prevrandao (inner self)) (Host.prevrandao self) ∧
  as_op self (inner self, op_block_number (inner self)) (Host.block_number self) ∧
  as_op self (inner self, op_timestamp (inner self)) (Host.timestamp self) ∧
  as_op self (inner self, op_beneficiary (inner self)) (Host.beneficiary self) ∧
  as_op self (inner self, op_blob_gasprice (inner self)) (Host.blob_gasprice self) ∧
  ∀ n, as_op self (inner self, op_blob_hash n (inner self)) (Host.blob_hash n self).
Proof. split_and!; intros; apply as_op_pure. Qed.

(** Accounts, storage and self-destruction, for a spec without an oracle. *)
Lemma equivalence_host_is_op_host self address target key n :
  spec self = EQUIVALENCE →
  as_op self (op_sload address key (inner self)) (Host.sload address key self) ∧
  as_op self (op_selfdestruct address target (inner self)) (Host.selfdestruct address target self) ∧
  as_op self (op_balance address (inner self)) (Host.balance address self) ∧
  as_op self (op_load_account_delegated address (inner self)) (Host.load_account_delegated address self) ∧
  as_op self (op_load_account_code address (inner self)) (Host.load_account_code address self) ∧
  as_op self (op_load_account_code_hash address (inner self))
    (Host.load_account_code_hash address self) ∧
  as_op self (op_block_hash n (inner self)) (Host.block_hash n self).
Proof.
  intros Hs. split_and!; [..|by apply as_op_marked|by apply as_op_marked|by apply as_op_marked
    |by apply as_op_marked|].
  - unfold Host.sload. rewrite Hs. simpl.
    exists (volatile_data_tracker self). destruct (op_sload _ _ _) as [i [r|]]; by destruct self.
  - unfold Host.selfdestruct. rewrite Hs. simpl.
    exists (volatile_data_tracker self). destruct (op_selfdestruct _ _ _) as [i r]; by destruct self.
  - unfold Host.block_hash. eexists. simpl. by destruct (op_block_hash _ _).
Qed.
End host.

(** ** A concrete EVM *)
Section example.
#[local] Existing Instances reference_revm example_database checked_build
  reference_instruction_result reference_sstore reference_gas reference_abi reference_bitflags
  reference_keyless_abi example_display example_bytecode example_keyless_tx example_evm
  example_intercept_abi reference_gas_constants reference_account reference_create
  reference_interpreter show_nothing reference_gas_laws example_address example_journal
  example_slots example_op_host example_validation ExecutionTheory.example_instrs example_frames
  example_inspector example_handler example_loop example_loop_parametric.
Notation J := (Journal example_db Z).
Notation Ctx := (MegaContext J unit unit).
Notation Evm := (MegaEvm Ctx nat unit (list (bool * nat))).

Lemma example_op_laws : OpLaws (Gas:=RefGas) (E:=string) (DB:=example_db) (Bytecode:=Z) (S:=unit)
  (O:=unit) (Log:=unit) (I:=nat) (P:=unit) (F:=list (bool * nat)) ExecutionTheory.example_main.
Proof.
  split.
  - by intros op i h i' h' [= _ <-].
  - by intros ? ? ? [= <- _].
  - intros evm g. simpl. case_decide; [done|]. intros [= <-]. simpl. lia.
  - by intros ? ? ? [= <- _].
  - by intros ? ? ? ? [= <- _].
  - intros fi evm evm' r. simpl. repeat case_match; by intros [= <- _].
  - intros evm evm' action Hr. by apply (run_law (FrameLaws:=example_frame_laws)) in Hr as (?&_&?).
  - by intros ? ? ? ? [= <- _].
  - by intros ? ? ? ? [= <- _].
  - by intros ? ? ? ? ? [= <- _ _].
  - by intros ? ? ? ? [= <- _].
  - intros reward r g refund evm evm' r' x Hrw. simpl.
    destruct (reward r evm) as [e y] eqn:Hr. intros [= <- _ _]. by eapply Hrw.
  - intros reward reward' r g refund evm Hrw. simpl. by rewrite (Hrw r evm) by done.
  - by intros ? ? ? ? [= <- _].
  - by intros ? ? ? ? [= <- _].
Qed.

(** A transaction that calls a child, and one after it without the gas to start. *)
Lemma equivalence_is_op_revm_witness :
  let t gas := mkTransaction [] None [] 0 1 (TxCall 2) 0 0 gas 0 0 0 None in
  let evm := example_evm_at EQUIVALENCE (Deps.example_tx [] None [] 0) in
  ∃ evm1 evm2 used,
    transact_one (Log:=unit) (E:=string) (t 90000) evm = Ret (evm1, Ok (ExecSuccess used 0 [] (OutputCall []))) ∧
    op_transact_one (Log:=unit) (E:=string) (t 90000) evm = Ret (evm1, Ok (ExecSuccess used 0 [] (OutputCall []))) ∧
    op_transact_one (Log:=unit) (E:=string) (t 20000) evm1 =
      Ret (evm2, Err (CallGasCostMoreThanGasLimit 20000 21000)) ∧
    transact_one (Log:=unit) (E:=string) (t 20000) evm1 =
      Ret (evm2, Err (CallGasCostMoreThanGasLimit 20000 21000)).
Proof.
  intros t evm.
  assert (plain evm) as Hp by (unfold plain; split_and!; vm_compute; reflexivity).
  assert (∃ evm1 used, transact_one (Log:=unit) (E:=string) (t 90000) evm =
    Ret (evm1, Ok (ExecSuccess used 0 [] (OutputCall [])))) as (evm1&used&H1)
    by (do 2 eexists; vm_compute; reflexivity).
  destruct (equivalence_is_op_revm (laws:=example_op_laws) (t 90000) evm Hp) as [Heq Hnext].
  specialize (Hnext _ _ H1).
  destruct (equivalence_is_op_revm (laws:=example_op_laws) (t 20000) evm1 Hnext) as [Heq2 _].
  assert (∃ evm2, op_transact_one (Log:=unit) (E:=string) (t 20000) evm1 =
    Ret (evm2, Err (CallGasCostMoreThanGasLimit 20000 21000))) as (evm2&H2).
  { vm_compute in H1. injection H1 as <- _. eexists. vm_compute. reflexivity. }
  exists evm1, evm2, used.
  split; [exact H1|]. split; [exact (eq_trans (eq_sym Heq) H1)|].
  split; [exact H2|exact (eq_trans Heq2 H2)].
Defined.
End example.
