(* ===== verification/BlockExecutor.v ===== *)
(** * The block executor

    Models [block/executor.rs], [block/eips.rs], [block/factory.rs] and the outcome
    structs of [block/result.rs] and [evm/result.rs]: what happens before, between and
    after the transactions of a block.  The executor is written against an interface of
    the EVM ([BlockEvm]), which [MegaEvm] implements at the end. *)
From S2P Require Import Prelude Spec Deps Volatile LimitTypes FrameLimit Trackers Hardfork BlockLimit EvmState.
From S2P Require Import Inspect SystemContracts Context Sandbox Intercept StorageGas Instructions Execution AdditionalLimit.
Open Scope Z_scope.
Open Scope rust_scope.
#[local] Set Warnings "-notation-for-abbreviation".

(** The forks of Ethereum and Optimism that the executor asks for. *)
Class OpHardforks (T : Type) := {
  is_prague_active_at_timestamp : T → Z → bool;
  is_cancun_active_at_timestamp : T → Z → bool;
  is_regolith_active_at_timestamp : T → Z → bool;
  is_canyon_active_at_timestamp : T → Z → bool;
  is_isthmus_active_at_timestamp : T → Z → bool;
  (** [alloy_evm]'s [post_block_balance_increments], without ommers or withdrawals. *)
  post_block_balance_increments : T → BlockEnv → list (Address * Z);
}.

(** [saturating_to::<u64>()]. *)
Definition saturating_to (v : U256) : Z := Z.min u64_max v.

(** The state of a block ([State<DB>]): the flag and the commit of a state. *)
Class BlockState (DB Bytecode : Type) := {
  set_state_clear_flag : bool → DB → DB;
  commit_state : EvmState Bytecode → DB → DB;
  block_hashes : DB → list (Z * Z);
}.

(** A transaction of a block, with its signer. *)
Class BlockTx (Tx : Type) := {
  btx_hash : Tx → Z;
  btx_trie_hash : Tx → Z;
  btx_type : Tx → Z;
  btx_gas_limit : Tx → Z;
  encode_2718_len : Tx → Z;
  estimated_da_size : Tx → Z;
  btx_signer : Tx → Address;
  into_tx_env : Tx → MegaTransaction;
}.

(** ** Interface: what the executor needs of an EVM *)
Class BlockEvm (Evm DB E Bytecode Log : Type) := {
  be_block : Evm → BlockEnv;
  be_spec_id : Evm → MegaSpecId;
  be_db : Evm → DB;
  be_set_db : DB → Evm → Evm;
  be_execute_transaction : MegaTransaction → Evm →
    outcome (Evm * result (MegaTransactionOutcome (Bytecode:=Bytecode) (Log:=Log)) (MegaError E));
  be_transact_system_call : Address → Address → Bytes → Evm →
    outcome (Evm * result (EvmState Bytecode) (MegaError E));
  be_accessed_bucket_ids : Evm → list Z;
}.

(** Where a change of the state comes from. *)
Inductive StateChangeSource : Set :=
  | SourceTransaction (index : nat)
  | PreBlockBlockHashesContract
  | PreBlockBeaconRootContract
  | PostBlockBalanceIncrements.

Record MegaSystemCallOutcome (Bytecode : Type) := mkSystemCallOutcome {
  sc_source : StateChangeSource;
  sc_state : EvmState Bytecode;
}.
Arguments mkSystemCallOutcome {Bytecode}.
Arguments sc_source {Bytecode}.
Arguments sc_state {Bytecode}.

(** The hook of [SystemCaller]. *)
Class StateHook (Hook Bytecode : Type) := {
  on_state : StateChangeSource → EvmState Bytecode → Hook → Hook;
}.

(** [OpReceiptBuilder]: no receipt means that the transaction is a deposit. *)
Class ReceiptBuilder (Evm Tx Log Bytecode Receipt : Type) := {
  build_receipt : Tx → ExecutionResult MegaHaltReason Log → Z → Evm → EvmState Bytecode →
    option Receipt;
  build_deposit_receipt : bool → Z → list Log → option Z → option Z → Receipt;
  cumulative_gas_used : Receipt → Z;
}.

Definition result_gas_used {H Log} (r : ExecutionResult H Log) : Z :=
  match r with ExecSuccess g _ _ _ | ExecRevert g _ | ExecHalt _ g => g end.
Definition result_is_success {H Log} (r : ExecutionResult H Log) : bool :=
  match r with ExecSuccess _ _ _ _ => true | _ => false end.
Definition result_into_logs {H Log} (r : ExecutionResult H Log) : list Log :=
  match r with ExecSuccess _ _ logs _ => logs | _ => [] end.

(** ** [eips.rs] *)
Section eips.
Context {T Evm DB E Bytecode Log : Type} `{OpHardforks T} `{BlockEvm Evm DB E Bytecode Log}
  {revm : RevmState Bytecode} {sdb : StateDb DB E Bytecode} {show : Display (MegaError E)}
  (of_B256 : Z → Bytes) (SYSTEM_ADDRESS HISTORY_STORAGE_ADDRESS BEACON_ROOTS_ADDRESS : Address).
Notation SystemCall := (outcome (Evm * result (option (EvmState Bytecode)) BlockExecutionError)).

Definition transact_blockhashes_contract_call (spec : T) (parent_block_hash : Z) (evm : Evm) :
    SystemCall :=
  if negb (is_prague_active_at_timestamp spec (saturating_to (timestamp (be_block evm))))
  then Ret (evm, Ok None)
  else if bool_decide (block_number (be_block evm) = 0) then Ret (evm, Ok None)
  else
    '(evm, res) ← be_transact_system_call SYSTEM_ADDRESS HISTORY_STORAGE_ADDRESS
                    (of_B256 parent_block_hash) evm;
    match res with
    | Ok state => Ret (evm, Ok (Some state))
    | Err e => Ret (evm, Err (Validation (BlockHashContractCall (to_string e))))
    end.

Definition transact_beacon_root_contract_call (spec : T) (parent_beacon_block_root : option Z)
    (evm : Evm) : SystemCall :=
  if negb (is_cancun_active_at_timestamp spec (saturating_to (timestamp (be_block evm))))
  then Ret (evm, Ok None)
  else match parent_beacon_block_root with
  | None => Ret (evm, Err (Validation MissingParentBeaconBlockRoot))
  | Some root =>
      if bool_decide (block_number (be_block evm) = 0) then
        if negb (bool_decide (root = 0))
        then Ret (evm, Err (Validation (CancunGenesisParentBeaconBlockRootNotZero root)))
        else Ret (evm, Ok None)
      else
        '(evm, res) ← be_transact_system_call SYSTEM_ADDRESS BEACON_ROOTS_ADDRESS
                        (of_B256 root) evm;
        match res with
        | Ok state => Ret (evm, Ok (Some state))
        | Err e => Ret (evm, Err (Validation (BeaconRootContractCall root (to_string e))))
        end
  end.

(** The loop over the increments, with the state made so far. *)
Fixpoint increment_balances (balances : list (Address * Z)) (state : EvmState Bytecode) (db : DB) :
    DB * result (EvmState Bytecode) E :=
  match balances with
  | [] => (db, Ok state)
  | (address, balance_increment) :: balances =>
      if bool_decide (balance_increment = 0) then increment_balances balances state db
      else
        let '(db, cache_account) := load_cache_account address db in
        match cache_account with
        | Err e => (db, Err e)
        | Ok o =>
            let i := default AccountInfo_default o in
            let i := mkAccountInfo ((balance i + balance_increment) mod two_256) (nonce i)
                       (code_hash i) (code i) in
            let account := mark_touch (mkAccount i 0 ∅ ∅) in
            increment_balances balances (<[address := account]> state) db
        end
  end.

Definition transact_balance_increments (balances : list (Address * Z)) (db : DB) :
    DB * result (option (EvmState Bytecode)) E :=
  let '(db, r) := increment_balances balances ∅ db in
  (db, match r with Ok state => Ok (Some state) | Err e => Err e end).
End eips.

(** ** The executor *)
Record MegaBlockExecutionCtx := mkExecutionCtx {
  parent_hash : Z;
  parent_beacon_block_root : option Z;
  extra_data : Bytes;
  ctx_block_limits : BlockLimits.t;
}.

Record MegaBlockExecutor (T Evm Hook Receipt : Type) := mkExecutor {
  hardforks : T;
  ex_ctx : MegaBlockExecutionCtx;
  system_caller : Hook;
  ex_evm : Evm;
  block_limiter : BlockLimiter;
  receipts : list Receipt;
}.
Arguments mkExecutor {T Evm Hook Receipt}.
Arguments hardforks {T Evm Hook Receipt}.
Arguments ex_ctx {T Evm Hook Receipt}.
Arguments system_caller {T Evm Hook Receipt}.
Arguments ex_evm {T Evm Hook Receipt}.
Arguments block_limiter {T Evm Hook Receipt}.
Arguments receipts {T Evm Hook Receipt}.

(** [BlockMegaTransactionOutcome]. *)
Record BlockMegaTransactionOutcome (Tx Bytecode Log : Type) := mkBlockOutcome {
  bo_tx : Tx;
  bo_tx_size : Z;
  bo_da_size : Z;
  bo_depositor : option (AccountInfo Bytecode);
  bo_inner : MegaTransactionOutcome (Bytecode:=Bytecode) (Log:=Log);
}.
Arguments mkBlockOutcome {Tx Bytecode Log}.
Arguments bo_tx {Tx Bytecode Log}.
Arguments bo_tx_size {Tx Bytecode Log}.
Arguments bo_da_size {Tx Bytecode Log}.
Arguments bo_depositor {Tx Bytecode Log}.
Arguments bo_inner {Tx Bytecode Log}.

Section executor.
Context `{Profile} `{ForkApi} {T Evm DB E Bytecode Log Tx Hook Receipt : Type}
  `{OpHardforks T} `{MegaHardforks T} {codes : SystemContractCodes}
  `{BlockEvm Evm DB E Bytecode Log} {revm : RevmState Bytecode} {sdb : StateDb DB E Bytecode}
  `{BlockState DB Bytecode} `{BlockTx Tx} `{StateHook Hook Bytecode}
  `{ReceiptBuilder Evm Tx Log Bytecode Receipt}
  {show : Display E} {show_evm : Display (MegaError E)}
  (of_B256 : Z → Bytes) (SYSTEM_ADDRESS HISTORY_STORAGE_ADDRESS BEACON_ROOTS_ADDRESS : Address).
Notation Executor := (MegaBlockExecutor T Evm Hook Receipt).
Notation BlockOutcome := (BlockMegaTransactionOutcome Tx Bytecode Log).
Notation Error := BlockExecutionError.
Notation SystemOutcome := (MegaSystemCallOutcome Bytecode).
Implicit Types (self : Executor).

Definition with_ex_evm (evm : Evm) self : Executor :=
  mkExecutor (hardforks self) (ex_ctx self) (system_caller self) evm (block_limiter self)
    (receipts self).
Definition with_system_caller (hook : Hook) self : Executor :=
  mkExecutor (hardforks self) (ex_ctx self) hook (ex_evm self) (block_limiter self) (receipts self).
Definition with_block_limiter (l : BlockLimiter) self : Executor :=
  mkExecutor (hardforks self) (ex_ctx self) (system_caller self) (ex_evm self) l (receipts self).
Definition push_receipt (r : Receipt) self : Executor :=
  mkExecutor (hardforks self) (ex_ctx self) (system_caller self) (ex_evm self)
    (block_limiter self) (receipts self ++ [r]).
Definition db_of self : DB := be_db (ex_evm self).
Definition with_db (db : DB) self : Executor := with_ex_evm (be_set_db db (ex_evm self)) self.

(** The asserts of [new], as they are outside of tests. *)
Definition new (no_hook : Hook) (evm : Evm) (ctx : MegaBlockExecutionCtx) (forks : T) :
    outcome Executor :=
  let block_timestamp := saturating_to (timestamp (be_block evm)) in
  assert_true (bool_decide (be_spec_id evm = MegaHardforks.spec_id forks block_timestamp));;
  assert_true (is_regolith_active_at_timestamp forks block_timestamp);;
  assert_true (is_canyon_active_at_timestamp forks block_timestamp);;
  assert_true (is_isthmus_active_at_timestamp forks block_timestamp);;
  assert_true (bool_decide (BlockLimits.block_gas_limit (ctx_block_limits ctx) =
                            Context.block_gas_limit (be_block evm)));;
  Ret (mkExecutor forks ctx no_hook evm (to_block_limiter (ctx_block_limits ctx)) []).

(** *** Before the transactions *)

(** A deployment: its error is wrapped, its state is an outcome of its own. *)
Definition deploy (transact : T → Z → DB → DB * result (option (EvmState Bytecode)) E) self
    (outcomes : list SystemOutcome) : Executor * result (list SystemOutcome) Error :=
  let '(db, r) := transact (hardforks self) (saturating_to (timestamp (be_block (ex_evm self))))
                    (db_of self) in
  let self := with_db db self in
  match r with
  | Err e => (self, Err (OtherError (to_string e)))
  | Ok None => (self, Ok outcomes)
  | Ok (Some state) => (self, Ok (outcomes ++ [mkSystemCallOutcome (SourceTransaction 0) state]))
  end.

(** The five deployments, in the order of the source: the first error ends them. *)
Definition deployments : list (T → Z → DB → DB * result (option (EvmState Bytecode)) E) :=
  [transact_deploy_oracle_contract; transact_deploy_high_precision_timestamp_oracle;
   transact_deploy_keyless_deploy_contract; transact_deploy_access_control_contract;
   transact_deploy_limit_control_contract].

Fixpoint deploy_all (ds : list (T → Z → DB → DB * result (option (EvmState Bytecode)) E)) self
    (outcomes : list SystemOutcome) : Executor * result (list SystemOutcome) Error :=
  match ds with
  | [] => (self, Ok outcomes)
  | d :: ds =>
      let '(self, r) := deploy d self outcomes in
      match r with
      | Err e => (self, Err e)
      | Ok outcomes => deploy_all ds self outcomes
      end
  end.

Definition from_system_call (source : StateChangeSource) (r : option (EvmState Bytecode)) :
    list SystemOutcome :=
  match r with Some state => [mkSystemCallOutcome source state] | None => [] end.

Definition pre_execution_changes self :
    outcome (Executor * result (list SystemOutcome) Error) :=
  let self := with_db (set_state_clear_flag true (db_of self)) self in
  '(evm, r) ← transact_blockhashes_contract_call of_B256 SYSTEM_ADDRESS HISTORY_STORAGE_ADDRESS
                (hardforks self) (parent_hash (ex_ctx self)) (ex_evm self);
  let self := with_ex_evm evm self in
  match r with Err e => Ret (self, Err e) | Ok blockhashes =>
  '(evm, r) ← transact_beacon_root_contract_call of_B256 SYSTEM_ADDRESS BEACON_ROOTS_ADDRESS
                (hardforks self) (parent_beacon_block_root (ex_ctx self)) (ex_evm self);
  let self := with_ex_evm evm self in
  match r with Err e => Ret (self, Err e) | Ok beacon_root =>
  Ret (deploy_all deployments self
         (from_system_call PreBlockBlockHashesContract blockhashes ++
          from_system_call PreBlockBeaconRootContract beacon_root))
  end end.

(** *** After the transactions *)
Definition post_execution_changes self : Executor * result (list SystemOutcome) Error :=
  let balance_increments :=
    post_block_balance_increments (hardforks self) (be_block (ex_evm self)) in
  let '(db, r) := transact_balance_increments balance_increments (db_of self) in
  let self := with_db db self in
  match r with
  | Err e => (self, Err (OtherError (to_string e)))
  | Ok state => (self, Ok (from_system_call PostBlockBalanceIncrements state))
  end.

Definition commit_outcome (source : StateChangeSource) (state : EvmState Bytecode) self : Executor :=
  let self := with_system_caller (on_state source state (system_caller self)) self in
  with_db (commit_state state (db_of self)) self.

Definition commit_system_call_outcomes (outcomes : list SystemOutcome) self : Executor :=
  foldl (λ self o, commit_outcome (sc_source o) (sc_state o) self) self outcomes.

(** *** Transactions *)
Definition is_deposit (tx : Tx) : bool := bool_decide (btx_type tx = DEPOSIT_TRANSACTION_TYPE).

(** The account of a depositor, before the transaction. *)
Definition load_depositor (tx : Tx) self :
    Executor * result (option (AccountInfo Bytecode)) Error :=
  if is_deposit tx then
    let '(db, r) := load_cache_account (btx_signer tx) (db_of self) in
    let self := with_db db self in
    match r with
    | Err e => (self, Err (OtherError (to_string e)))
    | Ok o => (self, Ok (Some (default AccountInfo_default o)))
    end
  else (self, Ok None).

Definition run_transaction (tx : Tx) self : outcome (Executor * result BlockOutcome Error) :=
  let tx_size := as_u64 (encode_2718_len tx) in
  let da_size := estimated_da_size tx in
  checked ← BlockLimiter.pre_execution_check (block_limiter self) (btx_hash tx)
              (btx_gas_limit tx) tx_size da_size (is_deposit tx);
  match checked with Err e => Ret (self, Err e) | Ok _ =>
  let '(self, depositor) := load_depositor tx self in
  match depositor with Err e => Ret (self, Err e) | Ok depositor =>
  let hash := btx_trie_hash tx in
  '(evm, r) ← be_execute_transaction (into_tx_env tx) (ex_evm self);
  let self := with_ex_evm evm self in
  match r with
  | Err e => Ret (self, Err (EvmError (to_string e) hash))
  | Ok o => Ret (self, Ok (mkBlockOutcome tx tx_size da_size depositor o))
  end end end.

(** [BlockLimiter::post_execution_check]. *)
Definition post_execution_check (o : BlockOutcome) (l : BlockLimiter) : outcome BlockLimiter :=
  let inner := bo_inner o in
  BlockLimiter.post_execution_update_raw (result_gas_used (o_result inner)) (bo_tx_size o)
    (bo_da_size o) (o_data_size inner) (o_kv_updates inner) (o_compute_gas_used inner)
    (o_state_growth_used inner) (is_deposit (bo_tx o)) l.

(** The receipt: that of a deposit has a version and the nonce of the depositor. *)
Definition receipt_of (o : BlockOutcome) (block_gas_used : Z) self : Receipt :=
  let inner := bo_inner o in
  match build_receipt (bo_tx o) (o_result inner) block_gas_used (ex_evm self) (o_state inner) with
  | Some receipt => receipt
  | None =>
      build_deposit_receipt (result_is_success (o_result inner)) block_gas_used
        (result_into_logs (o_result inner))
        (option_map (λ _, 1) (bo_depositor o)) (option_map nonce (bo_depositor o))
  end.

Definition commit_transaction_outcome (o : BlockOutcome) self :
    outcome (Executor * result Z Error) :=
  checked ← BlockLimiter.pre_execution_check (block_limiter self) (btx_hash (bo_tx o))
              (btx_gas_limit (bo_tx o)) (bo_tx_size o) (bo_da_size o) (is_deposit (bo_tx o));
  match checked with Err e => Ret (self, Err e) | Ok _ =>
  l ← post_execution_check o (block_limiter self);
  let self := with_block_limiter l self in
  let inner := bo_inner o in
  let gas_used := result_gas_used (o_result inner) in
  let self := with_system_caller
    (on_state (SourceTransaction (length (receipts self))) (o_state inner) (system_caller self))
    self in
  let self := push_receipt (receipt_of o (block_gas_used (block_limiter self)) self) self in
  Ret (with_db (commit_state (o_state inner) (db_of self)) self, Ok gas_used)
  end.

(** The aliases. *)
Definition execute_mega_transaction := run_transaction.
Definition commit_execution_outcome := commit_transaction_outcome.

Definition get_accessed_bucket_ids self : list Z := be_accessed_bucket_ids (ex_evm self).
Definition get_accessed_block_hashes self : list (Z * Z) := block_hashes (db_of self).

(** *** [alloy_evm]'s [BlockExecutor] *)
Definition apply_pre_execution_changes self : outcome (Executor * result unit Error) :=
  '(self, r) ← pre_execution_changes self;
  match r with
  | Err e => Ret (self, Err e)
  | Ok outcomes => Ret (commit_system_call_outcomes outcomes self, Ok tt)
  end.

Definition execute_transaction_with_commit_condition (tx : Tx)
    (should_commit : ExecutionResult MegaHaltReason Log → bool) self :
    outcome (Executor * result (option Z) Error) :=
  '(self, r) ← run_transaction tx self;
  match r with
  | Err e => Ret (self, Err e)
  | Ok o =>
      if should_commit (o_result (bo_inner o)) then
        '(self, r) ← commit_execution_outcome o self;
        match r with
        | Err e => Ret (self, Err e)
        | Ok gas_used => Ret (self, Ok (Some gas_used))
        end
      else Ret (self, Ok None)
  end.

Record BlockExecutionResult := mkBlockResult {
  br_receipts : list Receipt;
  br_gas_used : Z;
}.

Definition finish self : result (Evm * BlockExecutionResult) Error :=
  let '(self, r) := post_execution_changes self in
  match r with
  | Err e => Err e
  | Ok outcomes =>
      let self := commit_system_call_outcomes outcomes self in
      let gas_used := match last (receipts self) with
                      | Some r => cumulative_gas_used r
                      | None => 0
                      end in
      Ok (ex_evm self, mkBlockResult (receipts self) gas_used)
  end.

Definition set_state_hook (hook : Hook) self : Executor := with_system_caller hook self.
End executor.

(** ** [MegaEvm] as the EVM of a block *)
Section mega_evm.
Context `{Profile} `{BitflagsApi} `{InstructionResultApi} `{SStoreApi} `{AbiApi} `{KeylessAbi}
  `{InterceptAbi} `{RevmGasConstants} {Gas : Type} `{GasApi Gas} {Sig : Type} `{KeylessTxApi Sig}
  {DB E Bytecode S SE SD AL O Log Acc I P F : Type} {revm : RevmState Bytecode}
  {bytecode : BytecodeApi Bytecode} {database : Database DB E Bytecode} {display : Display E}
  {show : Display SE} {show_address : Display Address} {oracle : OracleEnv O}
  {salt : SaltEnv S SE} {host : OpHost (Journal DB Bytecode) SD AL}
  {sandbox : SandboxEvm (Journal DB Bytecode) (SandboxDb DB Bytecode) S O Bytecode Log}
  {journal : JournalInspectTr (Journal DB Bytecode) E Acc} `{AccountApi Acc} `{CreateApi Acc}
  `{ValidationApi Bytecode}
  `{FrameApi Gas E (MegaContext (Journal DB Bytecode) S O) I P F}
  `{InspectorApi Gas (MegaContext (Journal DB Bytecode) S O) I P F}
  `{OpHandler Gas E Log (MegaContext (Journal DB Bytecode) S O) I P F}
  `{ExecLoop Gas E (MegaEvm (MegaContext (Journal DB Bytecode) S O) I P F)}
  (journal_finalize : Journal DB Bytecode → Journal DB Bytecode * EvmState Bytecode)
  (new_system_tx_with_caller : Address → Address → Bytes → MegaTransaction).
Notation Ctx := (MegaContext (Journal DB Bytecode) S O).
Notation Evm := (MegaEvm Ctx I P F).
Implicit Types evm : Evm.

Definition evm_set_db (d : DB) evm : Evm :=
  with_evm_ctx (set_database d (evm_ctx evm)) evm.

#[local] Instance mega_block_evm : BlockEvm Evm DB E Bytecode Log := {|
  be_block evm := MegaContext.block (evm_ctx evm);
  be_spec_id evm := HostExt.spec_id (evm_ctx evm);
  be_db evm := j_database (MegaContext.journal (evm_ctx evm));
  be_set_db := evm_set_db;
  be_execute_transaction t evm := execute_transaction (Log:=Log) (E:=E) journal_finalize t evm;
  be_transact_system_call caller contract data evm :=
    '(evm, r) ← Execution.transact_system_call (Log:=Log) (E:=E) journal_finalize
                  new_system_tx_with_caller caller contract data evm;
    Ret (evm, match r with Ok (_, st) => Ok st | Err e => Err e end);
  be_accessed_bucket_ids := Execution.get_accessed_bucket_ids |}.

(** ** [evm/factory.rs]: the context of a factory, and the EVM of a block

    [op_context] is the inner context that [revm] makes for a database, [external_envs]
    the environments of a block. *)
Variables (new_inner : DB → MegaSpecId → OpContext (Journal DB Bytecode))
  (empty_salt : S) (empty_oracle : O) (external_envs : Z → S * O) (default_tx : MegaTransaction)
  (default_chain : OpContext (Journal DB Bytecode) → OpContext (Journal DB Bytecode))
  (empty_frames : F) (NoOpInspector : I) (precompiles_of : MegaSpecId → P).

(** The builder of dynamic precompiles, when there is one. *)
Context {Dyn : Type} (apply_precompile : Address → Dyn → P → P)
  (dyn_precompiles_builder : option (MegaSpecId → list (Address * Dyn))).

Definition create_evm (db : DB) (block_env : BlockEnv) (cfg_env : CfgEnv MegaSpecId) :
    outcome Evm :=
  let spec_id := cfg_spec cfg_env in
  number ← (if decide (in_u64 (block_number block_env)) then Ret (block_number block_env) else Panic);
  let runtime_limits := EvmTxRuntimeLimits.from_spec spec_id in
  ctx ← MegaContext.new_with_shared_ext_envs (new_inner db spec_id) spec_id empty_salt empty_oracle;
  let '(salt_env, oracle_env) := external_envs number in
  ctx ← MegaContext.with_external_envs salt_env oracle_env ctx;
  let ctx := MegaContext.with_tx default_tx ctx in
  ctx ← MegaContext.with_block block_env ctx;
  let ctx := MegaContext.with_cfg cfg_env ctx in
  let ctx := MegaContext.with_inner (default_chain (inner ctx)) ctx in
  let ctx := MegaContext.with_tx_runtime_limits runtime_limits ctx in
  Ret (with_dyn_precompiles apply_precompile
         (match dyn_precompiles_builder with Some builder => builder spec_id | None => [] end)
         (Execution.new empty_frames NoOpInspector precompiles_of ctx)).

Definition create_evm_with_inspector (db : DB) (block_env : BlockEnv)
    (cfg_env : CfgEnv MegaSpecId) (inspector : I) : outcome Evm :=
  evm ← create_evm db block_env cfg_env;
  Ret (Execution.with_inspector empty_frames inspector evm).

(** ** [block/factory.rs] *)
Context `{ForkApi} {T Hook Receipt : Type} `{OpHardforks T} `{MegaHardforks T}.

Definition create_executor (no_hook : Hook) (forks : T) (db : DB)
    (block_ctx : MegaBlockExecutionCtx) (block_env : BlockEnv) (cfg_env : CfgEnv MegaSpecId) :
    outcome (MegaBlockExecutor T Evm Hook Receipt) :=
  let runtime_limits := BlockLimits.to_evm_tx_runtime_limits (ctx_block_limits block_ctx) in
  evm ← create_evm db block_env cfg_env;
  new no_hook (Execution.with_tx_runtime_limits runtime_limits evm) block_ctx forks.

Definition create_executor_with_inspector (no_hook : Hook) (forks : T) (db : DB)
    (block_ctx : MegaBlockExecutionCtx) (block_env : BlockEnv) (cfg_env : CfgEnv MegaSpecId)
    (inspector : I) : outcome (MegaBlockExecutor T Evm Hook Receipt) :=
  let runtime_limits := BlockLimits.to_evm_tx_runtime_limits (ctx_block_limits block_ctx) in
  evm ← create_evm_with_inspector db block_env cfg_env inspector;
  new no_hook (Execution.with_tx_runtime_limits runtime_limits evm) block_ctx forks.
End mega_evm.
