(* ===== verification/BlockExecutorTheory.v ===== *)
(** * Theorems about the block executor

    Every history of a block (runs, commits in any order, hooks, the changes before and
    after the transactions) keeps the receipts, the limiter and the hook in step; a
    transaction is committed or leaves no trace; the balance increments. *)
From S2P Require Import Prelude Spec Deps Volatile LimitTypes FrameLimit Trackers AdditionalLimit.
From S2P Require Import LimitTheory Hardfork BlockLimit EvmState Inspect StorageGas SystemContracts.
From S2P Require Import Context ContextTheory Sandbox SandboxTheory Intercept Instructions.
From S2P Require Import InstructionsTheory Execution ExecutionTheory BlockExecutor.
Open Scope Z_scope.
Open Scope rust_scope.
#[local] Set Warnings "-notation-for-abbreviation".

(** The builder puts the cumulative gas that it is given into the receipt. *)
Class ReceiptLaws (Evm Tx Log Bytecode Receipt : Type)
    `{ReceiptBuilder Evm Tx Log Bytecode Receipt} : Prop := {
  build_receipt_gas tx r gas evm st receipt :
    build_receipt tx r gas evm st = Some receipt → cumulative_gas_used receipt = gas;
  build_deposit_receipt_gas ok gas logs version n :
    cumulative_gas_used (build_deposit_receipt (Evm:=Evm) (Tx:=Tx) (Log:=Log)
      (Bytecode:=Bytecode) ok gas logs version n) = gas;
}.

Lemma Ret_pair_fst {A B} (x : A * B) a b : Ret x = Ret (a, b) → x.1 = a.
Proof. by intros [= ->]. Qed.

(** The running sums of a list of numbers. *)
Fixpoint running_sums (acc : Z) (l : list Z) : list Z :=
  match l with
  | [] => []
  | x :: l => (acc + x) :: running_sums (acc + x) l
  end.

Lemma running_sums_snoc l x : ∀ acc,
  running_sums acc (l ++ [x]) = running_sums acc l ++ [acc + foldr Z.add 0 l + x].
Proof.
  induction l as [|y l IH]; intros acc; simpl; [f_equal; lia|].
  rewrite IH. do 3 f_equal. lia.
Qed.

Lemma last_running_sums l acc :
  default acc (last (running_sums acc l)) = acc + foldr Z.add 0 l.
Proof.
  destruct l as [|x l] using rev_ind; [simpl; lia|].
  rewrite running_sums_snoc, last_snoc, foldr_app. simpl.
  clear. induction l; simpl; lia.
Qed.

Lemma length_running_sums l : ∀ acc, length (running_sums acc l) = length l.
Proof. induction l; intros acc; simpl; auto. Qed.

Section executor.
Context `{Profile} `{ForkApi} {T Evm DB E Bytecode Log Tx Hook Receipt : Type}
  `{OpHardforks T} `{MegaHardforks T} {codes : SystemContractCodes}
  `{BlockEvm Evm DB E Bytecode Log} {revm : RevmState Bytecode} {sdb : StateDb DB E Bytecode}
  `{BlockState DB Bytecode} `{BlockTx Tx} `{StateHook Hook Bytecode}
  {rb : ReceiptBuilder Evm Tx Log Bytecode Receipt}
  {show : Display E} {show_evm : Display (MegaError E)}
  (of_B256 : Z → Bytes) (SYSTEM_ADDRESS HISTORY_STORAGE_ADDRESS BEACON_ROOTS_ADDRESS : Address).
Notation Executor := (MegaBlockExecutor T Evm Hook Receipt).
Notation BlockOutcome := (BlockMegaTransactionOutcome Tx Bytecode Log).
Implicit Types (self : Executor).

(** What an outcome counts for in the limiter. *)
Definition candidate_of (o : BlockOutcome) : candidate :=
  mkCandidate (btx_hash (bo_tx o)) (btx_gas_limit (bo_tx o)) (bo_tx_size o) (bo_da_size o)
    (is_deposit (bo_tx o)) (result_gas_used (o_result (bo_inner o))) (o_data_size (bo_inner o))
    (o_kv_updates (bo_inner o)) (o_compute_gas_used (bo_inner o))
    (o_state_growth_used (bo_inner o)).

(** Only the EVM (and the database in it) may differ. *)
Definition only_evm self self' : Prop := ∃ evm, self' = with_ex_evm evm self.

#[local] Instance only_evm_preorder : PreOrder only_evm.
Proof.
  split; [intros self; exists (ex_evm self); by destruct self|].
  intros ??? (e&->) (e'&->). by exists e'.
Qed.

Lemma only_evm_ex_evm self evm : only_evm self (with_ex_evm evm self).
Proof. by exists evm. Qed.
Lemma only_evm_db self db : only_evm self (with_db db self).
Proof. apply only_evm_ex_evm. Qed.

(** ** Running *)
Lemma load_depositor_only_evm tx self self' r :
  load_depositor tx self = (self', r) → only_evm self self'.
Proof.
  unfold load_depositor. destruct (is_deposit tx); [|by intros [= <- _]].
  destruct (load_cache_account _ _) as [db [o|e]]; intros [= <- _]; apply only_evm_db.
Qed.

Lemma run_transaction_inv tx self self' r :
  run_transaction (Log:=Log) (E:=E) (Bytecode:=Bytecode) tx self = Ret (self', r) →
  only_evm self self' ∧
  match r with
  | Ok o => bo_tx o = tx ∧ ∃ u, check (block_limiter self) (candidate_of o) = Ret (Ok u)
  | Err e =>
      BlockLimiter.pre_execution_check (block_limiter self) (btx_hash tx) (btx_gas_limit tx)
        (as_u64 (encode_2718_len tx)) (estimated_da_size tx) (is_deposit tx) = Ret (Err e) →
      self' = self
  end.
Proof.
  unfold run_transaction. intros Hr. apply bind_Ret in Hr as ([u|e]&Hck&Hr).
  2:{ injection Hr as <- <-. done. }
  destruct (load_depositor tx self) as [self1 [d|e]] eqn:Hd; apply load_depositor_only_evm in Hd.
  2:{ injection Hr as <- <-. split; [done|]. congruence. }
  apply bind_Ret in Hr as ([evm r']&_&Hr).
  destruct r' as [o|e]; injection Hr as <- <-;
    (split; [etrans; [exact Hd|apply only_evm_ex_evm]|]); [|congruence].
  split; [done|]. by exists u.
Qed.

(** ** Committing *)

(** The executor after the commit of an outcome that was charged. *)
Definition committed (o : BlockOutcome) (l : BlockLimiter) self : Executor :=
  let self := with_system_caller (on_state (SourceTransaction (length (receipts self)))
                (o_state (bo_inner o)) (system_caller self)) (with_block_limiter l self) in
  let self := push_receipt (receipt_of o (block_gas_used l) self) self in
  with_db (commit_state (o_state (bo_inner o)) (db_of self)) self.

Lemma commit_is_charge o self :
  commit_transaction_outcome (E:=E) o self =
  (checked ← check (block_limiter self) (candidate_of o);
   match checked with
   | Err e => Ret (self, Err e)
   | Ok _ => l ← charge (candidate_of o) (block_limiter self);
             Ret (committed o l self, Ok (c_gas_used (candidate_of o)))
   end).
Proof. done. Qed.

Context {receipt_laws : ReceiptLaws Evm Tx Log Bytecode Receipt}.

Lemma receipt_of_gas o gas self : cumulative_gas_used (receipt_of o gas self) = gas.
Proof.
  unfold receipt_of. destruct (build_receipt _ _ _ _ _) eqn:Hb.
  - by eapply build_receipt_gas.
  - apply build_deposit_receipt_gas.
Qed.

(** ** Histories of a block *)

(** What an executor can do: [os] are the outcomes committed so far, in order.  An
    outcome may come from anywhere, for instance from a run of long ago. *)
Inductive history (start : Executor) : list BlockOutcome → Executor → Prop :=
  | history_start : history start [] start
  | history_run os self tx self' r :
      history start os self → run_transaction tx self = Ret (self', r) → history start os self'
  | history_commit os self o self' gas :
      history start os self → commit_transaction_outcome o self = Ret (self', Ok gas) →
      history start (os ++ [o]) self'
  | history_refuse os self o self' e :
      history start os self → commit_transaction_outcome o self = Ret (self', Err e) →
      history start os self'
  | history_system_calls os self outcomes :
      history start os self → history start os (commit_system_call_outcomes outcomes self)
  | history_pre os self self' r :
      history start os self →
      pre_execution_changes of_B256 SYSTEM_ADDRESS HISTORY_STORAGE_ADDRESS BEACON_ROOTS_ADDRESS
        self = Ret (self', r) → history start os self'
  | history_post os self :
      history start os self → history start os (post_execution_changes self).1
  | history_hook os self hook :
      history start os self → history start os (set_state_hook hook self).

(** The part of an executor that only commits change. *)
Definition same_ledger self self' : Prop :=
  block_limiter self' = block_limiter self ∧ receipts self' = receipts self.

#[local] Instance same_ledger_preorder : PreOrder same_ledger.
Proof. unfold same_ledger. split; [done|]. intros ???; naive_solver congruence. Qed.

Lemma only_evm_ledger self self' : only_evm self self' → same_ledger self self'.
Proof. by intros [evm ->]. Qed.

Lemma system_calls_ledger outcomes : ∀ self,
  same_ledger self (commit_system_call_outcomes outcomes self).
Proof. induction outcomes as [|o os IH]; intros self; [done|]. etrans; [|apply IH]. done. Qed.

Lemma deploy_only_evm d self outcomes : only_evm self (deploy d self outcomes).1.
Proof.
  unfold deploy. destruct (d _ _ _) as [db [[st|]|e]]; apply only_evm_db.
Qed.

Lemma deploy_all_only_evm ds : ∀ self outcomes, only_evm self (deploy_all ds self outcomes).1.
Proof.
  induction ds as [|d ds IH]; intros self outcomes; [done|]. simpl.
  pose proof (deploy_only_evm d self outcomes) as Hd.
  destruct (deploy d self outcomes) as [self' [os|e]]; [|done]. etrans; [exact Hd|apply IH].
Qed.

Lemma pre_execution_only_evm self self' r :
  pre_execution_changes of_B256 SYSTEM_ADDRESS HISTORY_STORAGE_ADDRESS BEACON_ROOTS_ADDRESS
    self = Ret (self', r) → only_evm self self'.
Proof.
  unfold pre_execution_changes. intros Hr.
  apply bind_Ret in Hr as ([evm [bh|e]]&_&Hr); [|injection Hr as <- <-; by eexists].
  apply bind_Ret in Hr as ([evm' [br|e]]&_&Hr); [|injection Hr as <- <-; by eexists].
  apply Ret_pair_fst in Hr as <-.
  etrans; [|apply deploy_all_only_evm]. by eexists.
Qed.

Lemma post_execution_only_evm self : only_evm self (post_execution_changes self).1.
Proof.
  unfold post_execution_changes. destruct (transact_balance_increments _ _) as [db [st|e]];
    apply only_evm_db.
Qed.

(** The ledger of a block: the limiter accounts for the committed outcomes, the
    receipts carry the running sums of their gas. *)
Record ledger (lim : BlockLimits.t) (os : list BlockOutcome) self : Prop := {
  ledger_limiter : block_ok lim (map candidate_of os) (block_limiter self);
  ledger_receipts : map cumulative_gas_used (receipts self) =
    running_sums 0 (map (λ o, result_gas_used (o_result (bo_inner o))) os);
}.

Lemma ledger_same lim os self self' : same_ledger self self' → ledger lim os self → ledger lim os self'.
Proof. intros [Hl Hr] []. split; by rewrite ?Hl, ?Hr. Qed.

Lemma total_gas os :
  total c_gas_used (map candidate_of os) =
    foldr Z.add 0 (map (λ o, result_gas_used (o_result (bo_inner o))) os).
Proof. induction os; simpl; congruence. Qed.

(** Bounds under which the sums of a block fit in a [u64]. *)
Record bounded (Q : Z) (lim : BlockLimits.t) (os : list BlockOutcome) : Prop := {
  bounded_Q : 0 ≤ Q;
  bounded_sane : Forall (sane Q) (map candidate_of os);
  bounded_sums : (Z.of_nat (length os) + 1) * Q ≤ u64_max;
  bounded_da : 0 ≤ BlockLimits.block_da_size_limit lim ≤ u64_max;
  bounded_gas : 0 ≤ BlockLimits.block_gas_limit lim ≤ u64_max;
}.

(** One more outcome: it is refused by an error, or committed. *)
Lemma commit_step Q lim os o self :
  bounded Q lim os → sane Q (candidate_of o) → ledger lim os self →
  (∃ e, commit_transaction_outcome (E:=E) o self = Ret (self, Err e) ∧
     check (block_limiter self) (candidate_of o) = Ret (Err e)) ∨
  ∃ l, commit_transaction_outcome (E:=E) o self =
         Ret (committed o l self, Ok (c_gas_used (candidate_of o))) ∧
       ledger lim (os ++ [o]) (committed o l self).
Proof.
  intros [] Ho [Hl Hr].
  destruct (block_ok_step Q lim (map candidate_of os) (block_limiter self) (candidate_of o))
    as [(e&He&_)|(Hck&_&l&Hc&Hok)]; [done|done|done|by rewrite length_map|done|done|done|..].
  - left. exists e. rewrite commit_is_charge, He. done.
  - right. exists l. rewrite commit_is_charge, Hck, bind_Ret_l, Hc, bind_Ret_l. split; [done|].
    assert (block_gas_used l = block_gas_used (block_limiter self) + c_gas_used (candidate_of o))
      as Hgas.
    { destruct (ok_totals _ _ _ Hok) as (->&_), (ok_totals _ _ _ Hl) as (->&_).
      rewrite total_app. simpl. lia. }
    split; [by rewrite map_app|]. simpl. rewrite !map_app, Hr. simpl. rewrite running_sums_snoc. simpl.
    rewrite receipt_of_gas, Hgas. destruct (ok_totals _ _ _ Hl) as (->&_).
    rewrite total_gas. done.
Qed.

Lemma bounded_prefix Q lim os o :
  bounded Q lim (os ++ [o]) → bounded Q lim os ∧ sane Q (candidate_of o).
Proof.
  intros [HQ Hs Hsum]. rewrite map_app, Forall_app in Hs. destruct Hs as [Hs Ho].
  apply Forall_inv in Ho. rewrite length_app in Hsum. simpl in Hsum.
  split; [|done]. split; try done. nia.
Qed.

Lemma history_ledger Q lim start os self :
  ledger lim [] start → history start os self → bounded Q lim os → ledger lim os self.
Proof.
  intros Hstart Hh. induction Hh as [|os self tx self' r Hh IH Hr|os self o self' gas Hh IH Hc
    |os self o self' e Hh IH Hc|os self outcomes Hh IH|os self self' r Hh IH Hr|os self Hh IH
    |os self hook Hh IH]; intros Hb; [done|..].
  - eapply ledger_same; [|by apply IH]. eapply only_evm_ledger, run_transaction_inv. eassumption.
  - apply bounded_prefix in Hb as [Hb Ho].
    destruct (commit_step Q lim os o self) as [(e&He&_)|(l&Hl&Hok)]; [done|done|by apply IH|..];
      [congruence|]. rewrite Hl in Hc. injection Hc as <- _. done.
  - eapply ledger_same; [|by apply IH]. rewrite commit_is_charge in Hc.
    apply bind_Ret in Hc as ([u|e']&Hck&Hc); [|by injection Hc as <- _].
    by apply bind_Ret in Hc as (?&_&[=]).
  - eapply ledger_same; [|by apply IH]. apply system_calls_ledger.
  - eapply ledger_same; [|by apply IH]. by eapply only_evm_ledger, pre_execution_only_evm.
  - eapply ledger_same; [|by apply IH]. by eapply only_evm_ledger, post_execution_only_evm.
  - by destruct (IH Hb).
Qed.

Lemma ledger_start no_hook evm ctx forks start :
  new (H1:=H1) no_hook evm ctx forks = Ret start →
  0 ≤ BlockLimits.block_gas_limit (ctx_block_limits ctx) →
  0 ≤ BlockLimits.block_da_size_limit (ctx_block_limits ctx) →
  0 ≤ BlockLimits.block_txs_encode_size_limit (ctx_block_limits ctx) →
  ledger (ctx_block_limits ctx) [] start.
Proof.
  unfold new. intros Hnew Hg Hd Hs. outcome_inv. split; [|done].
  split; simpl; [done|repeat split|lia..|]. intros before c Hnil. by destruct before.
Qed.

(** C1: the ledger of a block.  Start from a new executor and let anything happen: runs,
    commits of any outcomes in any order, refused commits, system calls, the changes
    before and after the transactions, new hooks.  As long as the numbers are small
    enough for their sums to fit in a [u64], the limiter's totals are the sums over the
    committed transactions and within the block's limits, the receipts are one per
    committed transaction and carry the running sums of their gas, and [finish] hands
    over these receipts and their whole gas, which is within the block's gas limit; it
    fails only when the database fails under the balance increments. *)
Theorem block_ledger Q no_hook evm ctx forks start os self :
  new (H1:=H1) no_hook evm ctx forks = Ret start → history start os self →
  bounded Q (ctx_block_limits ctx) os →
  0 ≤ BlockLimits.block_txs_encode_size_limit (ctx_block_limits ctx) →
  ledger (ctx_block_limits ctx) os self ∧
  match finish self with
  | Ok (_, res) =>
      br_receipts res = receipts self ∧ length (br_receipts res) = length os ∧
      br_gas_used res = total c_gas_used (map candidate_of os) ∧
      br_gas_used res ≤ BlockLimits.block_gas_limit (ctx_block_limits ctx)
  | Err e => ∃ e', e = OtherError (to_string e') ∧
      (transact_balance_increments
         (post_block_balance_increments (hardforks self) (be_block (ex_evm self)))
         (db_of self)).2 = Err e'
  end.
Proof.
  intros Hnew Hh Hb Hsize.
  assert (ledger (ctx_block_limits ctx) [] start) as Hstart.
  { destruct Hb. eapply ledger_start; [exact Hnew|lia..]. }
  pose proof (history_ledger _ _ _ _ _ Hstart Hh Hb) as Hl. split; [done|].
  unfold finish, post_execution_changes.
  destruct (transact_balance_increments _ _) as [db [st|e]]; simpl; [|by exists e].
  destruct (system_calls_ledger (from_system_call PostBlockBalanceIncrements st) (with_db db self))
    as [_ Hr]. rewrite Hr. simpl.
  destruct Hl as [Hok Hrec]. assert (length (receipts self) = length os) as Hlen.
  { apply (f_equal length) in Hrec. rewrite length_map in Hrec.
    rewrite Hrec, length_running_sums. by rewrite length_map. }
  assert (match last (receipts self) with Some r => cumulative_gas_used r | None => 0 end =
          total c_gas_used (map candidate_of os)) as ->; [|by destruct Hok].
  rewrite total_gas, <- (Z.add_0_l (foldr _ _ _)), <- last_running_sums, <- Hrec.
  rewrite fmap_last. by destruct (last (receipts self)).
Qed.

(** C29: a transaction is committed or leaves no trace.  In a block whose ledger is right,
    when a transaction ran and its numbers are bounded, offering it to the block
    returns: an error of the run, or a caller who does not want the outcome, leaves the
    limiter, the receipts and the hook as they were (a failed check leaves even the
    EVM), and otherwise the second check of the limits cannot fail: the limiter is
    charged, one receipt is appended, the hook and the database see the state once, and
    the gas is returned. *)
Theorem transaction_commits_or_leaves_no_trace Q lim os tx
    (should_commit : ExecutionResult MegaHaltReason Log → bool) self ran
    (r : result BlockOutcome BlockExecutionError) :
  run_transaction tx self = Ret (ran, r) → ledger lim os self → bounded Q lim os →
  (∀ o, r = Ok o → sane Q (candidate_of o)) →
  only_evm self ran ∧
  match r with
  | Err e =>
      execute_transaction_with_commit_condition tx should_commit self = Ret (ran, Err e) ∧
      (BlockLimiter.pre_execution_check (block_limiter self) (btx_hash tx) (btx_gas_limit tx)
         (as_u64 (encode_2718_len tx)) (estimated_da_size tx) (is_deposit tx) = Ret (Err e) →
       ran = self)
  | Ok o =>
      if should_commit (o_result (bo_inner o)) then
        ∃ l, charge (candidate_of o) (block_limiter self) = Ret l ∧
          execute_transaction_with_commit_condition tx should_commit self =
            Ret (committed o l ran, Ok (Some (result_gas_used (o_result (bo_inner o))))) ∧
          ledger lim (os ++ [o]) (committed o l ran)
      else execute_transaction_with_commit_condition tx should_commit self = Ret (ran, Ok None)
  end.
Proof.
  intros Hrun Hl Hb Hs. pose proof (run_transaction_inv tx self ran r Hrun) as [He Hr].
  split; [done|]. unfold execute_transaction_with_commit_condition. rewrite Hrun, bind_Ret_l.
  destruct r as [o|e]; [|done]. destruct Hr as (_&u&Hck). destruct (should_commit _); [|done].
  pose proof (only_evm_ledger _ _ He) as [Hlim Hrec].
  destruct (commit_step Q lim os o ran) as [(e&_&Hno)|(l&Hc&Hok)];
    [done|by apply Hs|by apply (ledger_same lim os self); [split|]|rewrite Hlim in Hno; congruence|].
  exists l. unfold commit_execution_outcome. rewrite Hc, bind_Ret_l. split_and!; [|done|done].
  rewrite commit_is_charge, Hlim, Hck, bind_Ret_l in Hc.
  apply bind_Ret in Hc as (l'&Hc&Heq). rewrite Hc. f_equal.
  apply Ret_pair_fst in Heq. simpl in Heq. by apply (f_equal block_limiter) in Heq.
Qed.
End executor.

(** ** Balance increments *)
Section balances.
Context {DB E Bytecode : Type} {revm : RevmState Bytecode} {sdb : StateDb DB E Bytecode}
  {laws : StateDbCommit DB E Bytecode}.

(** The account of [address] with [increment] more. *)
Definition credited (db : DB) (address : Address) (increment : Z) : Account Bytecode :=
  let i := info_before address db in
  mkAccount (mkAccountInfo ((balance i + increment) mod two_256) (nonce i) (code_hash i) (code i))
    0 ∅ {[Touched]}.

(** The increments as a map, without those of zero. *)
Definition increments_of (balances : list (Address * Z)) : gmap Address Z :=
  filter (λ an, an.2 ≠ 0) (list_to_map balances).

Definition same_loads (db db' : DB) : Prop :=
  ∀ a, (load_cache_account a db').2 = (load_cache_account a db).2.

Lemma credited_same_loads db db' a n : same_loads db db' → credited db' a n = credited db a n.
Proof. intros Hs. unfold credited, info_before. by rewrite Hs. Qed.

Lemma increment_balances_spec balances : ∀ state db,
  NoDup balances.*1 → (∀ a, a ∈ balances.*1 → state !! a = None) →
  match increment_balances balances state db with
  | (db', Ok st) => same_loads db db' ∧
      st = map_imap (λ a n, Some (credited db a n)) (increments_of balances) ∪ state
  | (_, Err e) => ∃ a n, (a, n) ∈ balances ∧ n ≠ 0 ∧ (load_cache_account a db).2 = Err e
  end.
Proof.
  induction balances as [|[a n] bs IH]; intros state db Hnd Hfresh; simpl.
  { split; [done|]. unfold increments_of. simpl. rewrite map_filter_empty, map_imap_empty.
    by rewrite (left_id_L ∅ (∪)). }
  simpl in Hnd. apply NoDup_cons in Hnd as [Ha Hnd].
  assert (list_to_map bs !! a = @None Z) as Hno by by apply not_elem_of_list_to_map_1.
  case_bool_decide as Hn.
  { pose proof (IH state db Hnd) as IHs.
    destruct (increment_balances bs state db) as [db' [st|e]].
    - destruct IHs as [Hs ->]; [intros b Hb; apply Hfresh; by right|]. split; [done|].
      f_equal. f_equal. unfold increments_of. simpl.
      rewrite map_filter_insert_False by (simpl; lia). by rewrite delete_id.
    - destruct IHs as (b&m&Hb&Hm&He); [intros b Hb; apply Hfresh; by right|].
      exists b, m. split; [by right|done]. }
  pose proof (λ b, load_pure a b db) as Hload.
  destruct (load_cache_account a db) as [db1 [o|e]] eqn:Hl; simpl in Hload.
  2:{ exists a, n. split; [by left|]. by rewrite Hl. }
  set (acct := mark_touch _).
  assert (acct = credited db a n) as ->.
  { unfold acct, credited, info_before, mark_touch, with_status. rewrite Hl. simpl.
    destruct o; simpl; f_equal; set_solver. }
  pose proof (IH (<[a := credited db a n]> state) db1 Hnd) as IHs.
  destruct (increment_balances bs _ db1) as [db' [st|e]].
  - destruct IHs as [Hs ->].
    { intros b Hb. rewrite lookup_insert_ne by (intros <-; done). apply Hfresh. by right. }
    split; [intros b; by rewrite Hs|].
    unfold increments_of. simpl. rewrite map_filter_insert_True by done.
    apply map_eq. intros b. rewrite !lookup_union, !map_lookup_imap.
    destruct (decide (b = a)) as [->|Hb].
    + rewrite !lookup_insert_eq. simpl. rewrite (map_lookup_filter_None_2 _ _ a) by (left; done).
      simpl. rewrite (Hfresh a) by (by left). done.
    + rewrite !lookup_insert_ne by done. f_equal.
      destruct (filter _ _ !! b); simpl; [|done]. by rewrite (credited_same_loads db db1).
  - destruct IHs as (b&m&Hb&Hm&He).
    { intros b Hb. rewrite lookup_insert_ne by (intros <-; done). apply Hfresh. by right. }
    exists b, m. split; [by right|]. split; [done|]. by rewrite <- Hload.
Qed.

(** the balance increments.  For increments of distinct accounts, the state is exactly
    the accounts with an increment that is not zero: each is touched, has the balance
    it had and its increment (as a [U256]) and keeps nonce and code, an absent account
    counting as an empty one; the database reads as before; and the only error is that
    of the database for such an account. *)
Theorem balance_increments_credit balances db :
  NoDup balances.*1 →
  match transact_balance_increments balances db with
  | (db', Ok st) => same_loads db db' ∧
      st = Some (map_imap (λ a n, Some (credited db a n)) (increments_of balances))
  | (_, Err e) => ∃ a n, (a, n) ∈ balances ∧ n ≠ 0 ∧ (load_cache_account a db).2 = Err e
  end.
Proof.
  intros Hnd. pose proof (increment_balances_spec balances ∅ db Hnd) as Hs.
  unfold transact_balance_increments.
  destruct (increment_balances balances ∅ db) as [db' [st|e]]; [|by apply Hs].
  destruct Hs as [Hl ->]; [done|]. by rewrite (right_id_L ∅ (∪)).
Qed.
End balances.

(** ** Factories *)
Section factories.
Context `{Profile} `{BitflagsApi} `{InstructionResultApi} `{SStoreApi} `{AbiApi} `{KeylessAbi}
  `{InterceptAbi} `{RevmGasConstants} {Gas : Type} `{GasApi Gas} {Sig : Type} `{KeylessTxApi Sig}
  {DB E Bytecode S SE SD AL O Log Acc I P F : Type} {revm : RevmState Bytecode}
  {bytecode : BytecodeApi Bytecode} {database : Database DB E Bytecode} {display : Display E}
  {show : Display SE} {show_address : Display Address} {oracle : OracleEnv O}
  {salt : SaltEnv S SE} {host : OpHost (Journal DB Bytecode) SD AL}
  {sandbox : SandboxEvm (Journal DB Bytecode) (SandboxDb DB Bytecode) S O Bytecode Log}
  {journal : JournalInspectTr (Journal DB Bytecode) E Acc} `{AccountApi Acc} `{CreateApi Acc}
  `{ValidationApi Bytecode}
  `{FrameApi Gas E (MegaContext (Journal DB Bytecode) S O) I P F}
  `{InspectorApi Gas (MegaContext (Journal DB Bytecode) S O) I P F}
  `{OpHandler Gas E Log (MegaContext (Journal DB Bytecode) S O) I P F}
  `{ExecLoop Gas E (MegaEvm (MegaContext (Journal DB Bytecode) S O) I P F)}
  (journal_finalize : Journal DB Bytecode → Journal DB Bytecode * EvmState Bytecode)
  (new_system_tx_with_caller : Address → Address → Bytes → MegaTransaction)
  (new_inner : DB → MegaSpecId → OpContext (Journal DB Bytecode))
  (empty_salt : S) (empty_oracle : O) (external_envs : Z → S * O) (default_tx : MegaTransaction)
  (default_chain : OpContext (Journal DB Bytecode) → OpContext (Journal DB Bytecode))
  (empty_frames : F) (NoOpInspector : I) (precompiles_of : MegaSpecId → P)
  {Dyn : Type} (apply_precompile : Address → Dyn → P → P)
  (dyn_precompiles_builder : option (MegaSpecId → list (Address * Dyn)))
  `{ForkApi} {T Hook Receipt : Type} `{OpHardforks T} `{MegaHardforks T}.
Notation Executor := (MegaBlockExecutor T (MegaEvm (MegaContext (Journal DB Bytecode) S O) I P F)
                        Hook Receipt).

(** The fresh database of [revm] has block zero; [L1BlockInfo] is a field of its own. *)
Hypothesis new_inner_block : ∀ db s, block_number (ctx_block (new_inner db s)) = 0.
Hypothesis default_chain_block : ∀ i, ctx_block (default_chain i) = ctx_block i.

Notation create := (create_executor (Log:=Log) (E:=E) (Hook:=Hook) (Receipt:=Receipt) (T:=T)
  journal_finalize new_system_tx_with_caller new_inner empty_salt empty_oracle external_envs
  default_tx default_chain empty_frames NoOpInspector precompiles_of apply_precompile
  dyn_precompiles_builder).

(** What the configuration must meet. *)
Record well_configured (forks : T) (ctx : MegaBlockExecutionCtx) (b : BlockEnv)
    (cfg : CfgEnv MegaSpecId) : Prop := {
  wc_number : in_u64 (block_number b);
  wc_spec : cfg_spec cfg = MegaHardforks.spec_id forks (saturating_to (timestamp b));
  wc_regolith : is_regolith_active_at_timestamp forks (saturating_to (timestamp b)) = true;
  wc_canyon : is_canyon_active_at_timestamp forks (saturating_to (timestamp b)) = true;
  wc_isthmus : is_isthmus_active_at_timestamp forks (saturating_to (timestamp b)) = true;
  wc_gas : BlockLimits.block_gas_limit (ctx_block_limits ctx) = Context.block_gas_limit b;
}.

(** What a fresh executor for a block looks like. *)
Record wired (forks : T) (ctx : MegaBlockExecutionCtx) (b : BlockEnv) (cfg : CfgEnv MegaSpecId)
    (no_hook : Hook) (ex : Executor) : Prop := {
  wired_block : MegaContext.block (evm_ctx (ex_evm ex)) = b;
  wired_spec : spec (evm_ctx (ex_evm ex)) = cfg_spec cfg;
  wired_instructions : evm_instruction (ex_evm ex) = cfg_spec cfg;
  wired_limits : additional_limit (evm_ctx (ex_evm ex)) =
    AdditionalLimit.new (cfg_spec cfg) (BlockLimits.to_evm_tx_runtime_limits (ctx_block_limits ctx));
  wired_volatile : volatile_data_tracker (evm_ctx (ex_evm ex)) =
    VolatileDataAccessTracker.new
      (BlockLimits.block_env_access_compute_gas_limit (ctx_block_limits ctx))
      (BlockLimits.oracle_access_compute_gas_limit (ctx_block_limits ctx));
  wired_oracle : oracle_env (evm_ctx (ex_evm ex)) = (external_envs (block_number b)).2;
  wired_salt : MegaSpecId.is_enabled (cfg_spec cfg) MINI_REX = true →
    dynamic_storage_gas_cost (evm_ctx (ex_evm ex)) =
      DynamicGasCost.new (cfg_spec cfg) (external_envs (block_number b)).1
        (sat_sub (block_number b) 1);
  wired_fresh : hardforks ex = forks ∧ ex_ctx ex = ctx ∧ system_caller ex = no_hook ∧
    block_limiter ex = to_block_limiter (ctx_block_limits ctx) ∧ receipts ex = [];
}.

Lemma create_evm_wired db b cfg : in_u64 (block_number b) →
  ∃ evm, create_evm new_inner empty_salt empty_oracle external_envs
    default_tx default_chain empty_frames NoOpInspector precompiles_of apply_precompile
    dyn_precompiles_builder db b cfg = Ret evm ∧
    MegaContext.block (evm_ctx evm) = b ∧ spec (evm_ctx evm) = cfg_spec cfg ∧
    evm_instruction evm = cfg_spec cfg ∧
    oracle_env (evm_ctx evm) = (external_envs (block_number b)).2 ∧
    (MegaSpecId.is_enabled (cfg_spec cfg) MINI_REX = true →
     dynamic_storage_gas_cost (evm_ctx evm) =
       DynamicGasCost.new (cfg_spec cfg) (external_envs (block_number b)).1
         (sat_sub (block_number b) 1)).
Proof.
  intros Hn. unfold create_evm. rewrite decide_True by done. rewrite bind_Ret_l.
  unfold MegaContext.new_with_shared_ext_envs. set (i0 := if MegaSpecId.is_enabled _ _ then _ else _).
  assert (MegaContext.parent_of (ctx_block i0) = Ret (sat_sub 0 1)) as Hp.
  { unfold MegaContext.parent_of. assert (block_number (ctx_block i0) = 0) as ->; [|done].
    unfold i0. destruct (MegaSpecId.is_enabled _ _); apply new_inner_block. }
  rewrite Hp, bind_Ret_l.
  destruct (external_envs (block_number b)) as [salt_env oracle'] eqn:Hx.
  unfold MegaContext.with_external_envs.
  rewrite bind_Ret_l. unfold MegaContext.block at 1. cbn [inner]. rewrite Hp, bind_Ret_l, bind_Ret_l.
  unfold MegaContext.with_block, MegaContext.on_new_block, DynamicGasCost.on_new_block. simpl.
  destruct (MegaSpecId.is_enabled (cfg_spec cfg) MINI_REX) eqn:Hm.
  - rewrite decide_True by done. simpl. eexists. split; [reflexivity|].
    unfold MegaContext.block. simpl. by rewrite default_chain_block.
  - simpl. eexists. split; [reflexivity|].
    unfold MegaContext.block. simpl. by rewrite default_chain_block.
Qed.

(** a block executor is made exactly for a configuration that fits: a block number of
    64 bits, the spec of the hardfork that is active at the block's time, Regolith,
    Canyon and Isthmus active, and the block's gas limit in the limits; otherwise making
    it panics.  What is made is wired to the block: environment, spec and instructions,
    limits of a transaction and caps of volatile accesses as the block limits give them
    (not those of the spec that the EVM had before), the block's external
    environments, and from [MINI_REX] on storage prices of the parent block; its ledger
    is empty. *)
Theorem created_executor_is_wired no_hook forks db ctx b cfg :
  (well_configured forks ctx b cfg → ∃ ex, create no_hook forks db ctx b cfg = Ret ex) ∧
  ∀ ex, create no_hook forks db ctx b cfg = Ret ex →
    well_configured forks ctx b cfg ∧ wired forks ctx b cfg no_hook ex.
Proof.
  pose proof (create_evm_wired db b cfg) as Hevm. unfold create_executor. split.
  - intros []. destruct Hevm as (evm&->&He); [done|]. rewrite bind_Ret_l. eexists. unfold new.
    unfold be_block, be_spec_id, mega_block_evm. simpl. unfold MegaContext.with_tx_runtime_limits.
    destruct He as (Hblock&Hspec&_). unfold MegaContext.block, HostExt.spec_id in *. simpl.
    rewrite Hblock, Hspec, !bool_decide_true by done.
    rewrite wc_regolith0, wc_canyon0, wc_isthmus0. simpl. done.
  - intros ex Hex. apply bind_Ret in Hex as (evm&Hc&Hex).
    destruct (decide (in_u64 (block_number b))) as [Hn|Hn];
      [|by unfold create_evm in Hc; rewrite decide_False in Hc by done].
    destruct (Hevm Hn) as (evm'&Hc'&Hblock&Hspec&Hi&Ho&Hs).
    rewrite Hc in Hc'. injection Hc' as <-.
    unfold new in Hex. unfold MegaContext.block in Hblock. outcome_inv.
    unfold MegaContext.block, HostExt.spec_id in *. simpl in *.
    rewrite !bool_decide_eq_true in *. rewrite Hspec in *.
    split; split; simpl; try done; by rewrite ?Hspec.
Qed.
End factories.

(** ** A concrete block for the witnesses *)
Section example.
#[local] Existing Instances reference_revm reference_forks map_state_db map_state_db_commit
  example_codes checked_build.
Notation DB := (gmap Z (AccountInfo Z)).

(** An EVM of a block environment and a database: a transaction of [MegaTransaction]
    data [n] uses [21000 + n] gas and adds one to account [n]. *)
Definition toy_evm : Type := BlockEnv * DB.
Definition toy_state (n : Z) : EvmState Z :=
  {[n := mkAccount (mkAccountInfo n 1 KECCAK_EMPTY None) 0 ∅ {[Touched]}]}.
Definition toy_outcome (t : MegaTransaction) : MegaTransactionOutcome (Bytecode:=Z) (Log:=Z) :=
  let n := tx_value t in
  mkOutcome (if decide (n = 7) then ExecRevert (21000 + n) [] else ExecSuccess (21000 + n) 0 [n] (OutputCall []))
    (toy_state n) 300 2 21000 0.
#[local] Instance toy_block_evm : BlockEvm toy_evm DB string Z Z := {|
  be_block := fst; be_spec_id _ := REX4; be_db := snd; be_set_db d evm := (fst evm, d);
  be_execute_transaction t evm :=
    Ret (evm, if decide (tx_value t = 9) then Err (FromString "no"%string) else Ok (toy_outcome t));
  be_transact_system_call _ _ _ evm := Ret (evm, Ok (toy_state 1));
  be_accessed_bucket_ids _ := [] |}.
#[local] Instance toy_block_state : BlockState DB Z := {|
  set_state_clear_flag _ d := d; commit_state := commit; block_hashes _ := [] |}.
#[local] Instance toy_op_forks : OpHardforks MegaHardforkConfig := {|
  is_prague_active_at_timestamp _ _ := true; is_cancun_active_at_timestamp _ _ := true;
  is_regolith_active_at_timestamp _ _ := true; is_canyon_active_at_timestamp _ _ := true;
  is_isthmus_active_at_timestamp _ _ := true; post_block_balance_increments _ _ := [(5, 40)] |}.
#[local] Instance toy_tx : BlockTx Z := {|
  btx_hash n := n; btx_trie_hash n := n;
  btx_type n := if decide (n = 6) then DEPOSIT_TRANSACTION_TYPE else 2;
  btx_gas_limit _ := 50000; encode_2718_len _ := 110; estimated_da_size _ := 100;
  btx_signer n := n; into_tx_env n := mkTransaction [] None [] 0 n (TxCall 2) 0 n 50000 0 0 0 None |}.
#[local] Instance toy_hook : StateHook (list StateChangeSource) Z := {|
  on_state s _ l := l ++ [s] |}.
#[local] Instance toy_receipts : ReceiptBuilder toy_evm Z Z Z Z := {|
  build_receipt n _ gas _ _ := if decide (n = 6) then None else Some gas;
  build_deposit_receipt _ gas _ _ _ := gas;
  cumulative_gas_used r := r |}.
#[local] Instance toy_receipt_laws : ReceiptLaws toy_evm Z Z Z Z.
Proof. split; [|done]. intros tx r gas evm st receipt. simpl. case_decide; [done|by intros [= ->]]. Qed.
#[local] Instance toy_show : Display string := λ s, s.
#[local] Instance toy_show_evm : Display (MegaError string) := λ _, "error"%string.
Notation Executor := (MegaBlockExecutor MegaHardforkConfig toy_evm (list StateChangeSource) Z).

Definition toy_ctx : MegaBlockExecutionCtx := mkExecutionCtx 3 (Some 4) [] example_limits.
Definition toy_block : toy_evm := (mkBlockEnv 10 77 1000 30000000, ∅).
Definition toy_forks : MegaHardforkConfig :=
  MegaHardforkConfig.with_all_activated MegaHardforkConfig.new.
Definition toy_ran (n : Z) : BlockMegaTransactionOutcome Z Z Z :=
  mkBlockOutcome n 110 100 None (toy_outcome (into_tx_env n)).

Lemma toy_bounded os : (Z.of_nat (length os) + 1) * 100000 ≤ u64_max → Forall (λ n, 0 ≤ n ≤ 1000) os →
  bounded 100000 example_limits (map toy_ran os).
Proof.
  intros Hsum Hos. split; [lia| |by rewrite length_map|vm_compute; split; discriminate..].
  apply Forall_map, Forall_map. eapply Forall_impl; [exact Hos|]. intros n Hn. simpl in Hn |- *.
  unfold sane, candidate_of, toy_outcome. simpl. case_decide; simpl; lia.
Qed.

Definition toy_executor : Executor :=
  mkExecutor toy_forks toy_ctx [] toy_block (to_block_limiter example_limits) [].
Definition toy_commit (n : Z) (self : Executor) : Executor :=
  match commit_transaction_outcome (toy_ran n) self with Ret (s, _) => s | Panic => self end.

Lemma block_ledger_witness :
  let self := toy_commit 6 (toy_commit 5 toy_executor) in
  history (λ _, []) 1 2 3 toy_executor (map toy_ran [5; 6]) self ∧
  match finish self with Ok (_, res) => br_gas_used res = 42011 | Err _ => False end.
Proof.
  intros self.
  assert (history (λ _, []) 1 2 3 toy_executor (map toy_ran [5; 6]) self) as Hh.
  { apply (history_commit (λ _, []) 1 2 3 toy_executor [toy_ran 5] (toy_commit 5 toy_executor)
      (toy_ran 6) self 21006); [|vm_compute; reflexivity].
    apply (history_commit (λ _, []) 1 2 3 toy_executor [] toy_executor (toy_ran 5)
      (toy_commit 5 toy_executor) 21005); [|vm_compute; reflexivity].
    apply history_start. }
  split; [exact Hh|].
  destruct (block_ledger (λ _, []) 1 2 3 100000 [] toy_block toy_ctx toy_forks toy_executor
    (map toy_ran [5; 6]) self) as (_&Hf).
  - vm_compute. reflexivity.
  - exact Hh.
  - apply toy_bounded; [vm_compute; discriminate|repeat constructor; lia].
  - vm_compute. discriminate.
  - destruct (finish self) as [[evm res]|e].
    + destruct Hf as (_&_&Hg&_). rewrite Hg. vm_compute. reflexivity.
    + destruct Hf as (e'&_&He). vm_compute in He. discriminate He.
Defined.

(** A deposit is committed; its receipt carries its gas. *)
Lemma transaction_commits_or_leaves_no_trace_witness :
  ∃ l, execute_transaction_with_commit_condition 6 result_is_success toy_executor =
      Ret (committed (toy_ran 6) l toy_executor, Ok (Some 21006)) ∧ block_gas_used l = 21006.
Proof.
  assert (ledger example_limits [] toy_executor) as Hl.
  { apply (ledger_start [] toy_block toy_ctx toy_forks); vm_compute; done. }
  destruct (transaction_commits_or_leaves_no_trace 100000 example_limits [] 6 result_is_success
    toy_executor toy_executor (Ok (mkBlockOutcome 6 110 100 (Some AccountInfo_default)
      (toy_outcome (into_tx_env 6))))) as (_&l&Hch&He&Hok).
  - vm_compute. reflexivity.
  - exact Hl.
  - apply (toy_bounded []); [vm_compute; discriminate|constructor].
  - intros o [= <-]. unfold sane, candidate_of. simpl. lia.
  - exists l. split; [exact He|]. vm_compute in Hch. injection Hch as <-. reflexivity.
Defined.

Lemma balance_increments_credit_witness :
  (transact_balance_increments [(5, 40); (6, 0)] ({[5 := mkAccountInfo 2 3 9 None]} : DB)).2 =
    Ok (Some {[5 := mkAccount (mkAccountInfo 42 3 9 None) 0 ∅ {[Touched]}]}).
Proof.
  pose proof (balance_increments_credit [(5, 40); (6, 0)]
    ({[5 := mkAccountInfo 2 3 9 None]} : DB)) as Hc.
  destruct (transact_balance_increments _ _) as [db' [st|e]].
  - destruct Hc as [_ ->]; [|vm_compute; reflexivity]. simpl. repeat constructor; set_solver.
  - destruct Hc as (a&n&_&_&He); [simpl; repeat constructor; set_solver|]. discriminate He.
Defined.
End example.

(** ** A concrete factory *)
Section example_factory.
#[local] Existing Instances reference_revm example_database checked_build
  reference_instruction_result reference_sstore reference_gas reference_abi reference_bitflags
  reference_keyless_abi example_display example_bytecode example_keyless_tx example_evm
  example_intercept_abi reference_gas_constants reference_account reference_create
  reference_interpreter show_nothing reference_gas_laws example_address example_journal
  example_op_host example_validation example_frames example_inspector example_handler
  example_loop reference_forks toy_op_forks.

Definition example_inner (db : example_db) (s : MegaSpecId) : OpContext (Journal example_db Z) :=
  mkOpContext (Deps.example_tx [] None [] 0) (mkBlockEnv 0 0 1 0)
    (into_op_cfg (mkCfgEnv s 1 true None None false None None None 0 false false false false false))
    (journal_of db) None.
Definition example_cfg (s : MegaSpecId) : CfgEnv MegaSpecId :=
  mkCfgEnv s 6342 true None None false None None None 0 false false false false false.
Definition example_block_env : BlockEnv := mkBlockEnv 10 77 1000 30000000.

(** An executor is made for [REX4], with the storage prices of block nine; a
    configuration of another spec panics. *)
Lemma created_executor_is_wired_witness :
  let create s := create_executor (Log:=unit) (E:=string) (Receipt:=unit) (λ j, (j, ∅))
    (λ _ _ _, Deps.example_tx [] None [] 0) example_inner tt tt (λ _, (tt, tt))
    (Deps.example_tx [] None [] 0) id [] 0%nat (λ _, tt) (λ _ _ p, p)
    (None : option (MegaSpecId → list (Address * unit))) tt toy_forks [] toy_ctx example_block_env
    (example_cfg s) in
  (∃ ex, create REX4 = Ret ex ∧
    parent_block (dynamic_storage_gas_cost (evm_ctx (ex_evm ex))) = 9) ∧
  ∀ ex, create REX3 ≠ Ret ex.
Proof.
  intros create. split.
  - destruct (created_executor_is_wired (Log:=unit) (E:=string) (Receipt:=unit) (Hook:=unit)
      (λ j, (j, ∅)) (λ _ _ _, Deps.example_tx [] None [] 0) example_inner tt tt (λ _, (tt, tt))
      (Deps.example_tx [] None [] 0) id [] 0%nat (λ _, tt) (λ _ _ p, p)
      (None : option (MegaSpecId → list (Address * unit))) ltac:(reflexivity) ltac:(reflexivity)
      tt toy_forks [] toy_ctx example_block_env (example_cfg REX4)) as [Hmade Hwired].
    destruct Hmade as [ex Hex]; [split; vm_compute; done|]. exists ex. split; [exact Hex|].
    destruct (Hwired ex Hex) as [_ Hw]. rewrite (wired_salt _ _ _ _ _ _ _ Hw); reflexivity.
  - intros ex Hex.
    destruct (created_executor_is_wired (Log:=unit) (E:=string) (Receipt:=unit) (Hook:=unit)
      (λ j, (j, ∅)) (λ _ _ _, Deps.example_tx [] None [] 0) example_inner tt tt (λ _, (tt, tt))
      (Deps.example_tx [] None [] 0) id [] 0%nat (λ _, tt) (λ _ _ p, p)
      (None : option (MegaSpecId → list (Address * unit))) ltac:(reflexivity) ltac:(reflexivity)
      tt toy_forks [] toy_ctx example_block_env (example_cfg REX3)) as [_ Hwired].
    destruct (Hwired ex Hex) as [[_ Hs _ _ _ _] _]. vm_compute in Hs. discriminate Hs.
Defined.
End example_factory.
