(* ===== verification/Factories.v ===== *)
(** * The factories

    Models what makes the EVM and the executor of a block: the external environments
    ([external/mod.rs], [external/factory.rs]), [MegaEvmFactory] ([evm/factory.rs]), the
    executor factory ([block/factory.rs]), the accessors of an EVM ([evm/mod.rs],
    [evm/interfaces.rs]), and the runner of the test utilities ([test_utils/evm.rs]).
    An EVM that is made for [EQUIVALENCE] is one that runs as [op-revm]. *)
From S2P Require Import Prelude Spec Deps Volatile LimitTypes FrameLimit Trackers Hardfork BlockLimit.
From S2P Require Import EvmState Inspect SystemContracts Context Sandbox Intercept StorageGas Instructions Execution.
From S2P Require Import AdditionalLimit ContextTheory SandboxTheory InstructionsTheory ExecutionTheory.
From S2P Require Import Equivalence BlockExecutor BlockExecutorTheory.
Open Scope Z_scope.
Open Scope rust_scope.
#[local] Set Warnings "-notation-for-abbreviation".

(** ** External environments *)
Record ExternalEnvs (S O : Type) := mkExternalEnvs { salt_env : S; oracle_env : O }.
Arguments mkExternalEnvs {S O}.
Arguments salt_env {S O}.
Arguments oracle_env {S O}.

(** The environments of a block, whose number is that of the block to run. *)
Class ExternalEnvFactory (Fac S O : Type) := {
  external_envs : Fac → Z → ExternalEnvs S O;
}.

(** [EmptyExternalEnv] is its own environments, and the default. *)
#[export] Instance EmptyExternalEnv_factory : ExternalEnvFactory unit unit unit := {|
  external_envs self _ := mkExternalEnvs self self |}.
Definition ExternalEnvs_default : ExternalEnvs unit unit := mkExternalEnvs tt tt.

(** ** [MegaEvmFactory] *)
Record MegaEvmFactory (Fac Builder : Type) := mkEvmFactory {
  external_env_factory : Fac;
  dyn_precompiles_builder : option Builder;
}.
Arguments mkEvmFactory {Fac Builder}.
Arguments external_env_factory {Fac Builder}.
Arguments dyn_precompiles_builder {Fac Builder}.

Module MegaEvmFactory.
Section ops.
Context {Fac Builder : Type}.
Implicit Types self : MegaEvmFactory Fac Builder.

Definition new : MegaEvmFactory unit Builder := mkEvmFactory tt None.
Definition default : MegaEvmFactory unit Builder := new.
Definition with_dyn_precompiles_builder (b : Builder) self : MegaEvmFactory Fac Builder :=
  mkEvmFactory (external_env_factory self) (Some b).
Definition with_external_env_factory {NewFac : Type} (f : NewFac) self :
    MegaEvmFactory NewFac Builder :=
  mkEvmFactory f (dyn_precompiles_builder self).
End ops.
End MegaEvmFactory.

(** ** [MegaBlockExecutorFactory] *)
Record MegaBlockExecutorFactory (T EvmF R : Type) := mkBlockExecutorFactory {
  receipt_builder : R;
  factory_hardforks : T;
  evm_factory : EvmF;
}.
Arguments mkBlockExecutorFactory {T EvmF R}.
Arguments receipt_builder {T EvmF R}.
Arguments factory_hardforks {T EvmF R}.
Arguments evm_factory {T EvmF R}.

Module MegaBlockExecutorFactory.
Section ops.
Context {T EvmF R : Type}.
Implicit Types self : MegaBlockExecutorFactory T EvmF R.

Definition new (forks : T) (evm_factory : EvmF) (receipt_builder : R) :
    MegaBlockExecutorFactory T EvmF R := mkBlockExecutorFactory receipt_builder forks evm_factory.
Definition evm_factory_ref self : EvmF := evm_factory self.

(** [evm_factory_mut]: what is assigned through the reference. *)
Definition evm_factory_mut (f : EvmF → EvmF) self : MegaBlockExecutorFactory T EvmF R :=
  mkBlockExecutorFactory (receipt_builder self) (factory_hardforks self) (f (evm_factory self)).
End ops.
End MegaBlockExecutorFactory.

Module MegaBlockExecutionCtx.
Definition new (parent_hash : Z) (parent_beacon_block_root : option Z) (extra_data : Bytes)
    (block_limits : BlockLimits.t) : MegaBlockExecutionCtx :=
  mkExecutionCtx parent_hash parent_beacon_block_root extra_data block_limits.
End MegaBlockExecutionCtx.

(** ** What the factories make *)
Section factories.
Context `{Profile} `{BitflagsApi} `{InstructionResultApi} `{SStoreApi} `{AbiApi} `{KeylessAbi}
  `{InterceptAbi} `{RevmGasConstants} {Gas : Type} `{GasApi Gas} {Sig : Type} `{KeylessTxApi Sig}
  {DB E Bytecode S SE SD AL O Log Acc I P F : Type} {revm : RevmState Bytecode}
  {bytecode : BytecodeApi Bytecode} {database : Database DB E Bytecode} {display : Display E}
  {show : Display SE} {show_address : Display Address} {oracle : OracleEnv O}
  {salt : SaltEnv S SE} {host : OpHost (Journal DB Bytecode) SD AL}
  {sandbox : SandboxEvm (Journal DB Bytecode) (SandboxDb DB Bytecode) S O Bytecode Log}
  {journal : JournalInspectTr (Journal DB Bytecode) E Acc} `{AccountApi Acc} `{CreateApi Acc}
  `{ValidationApi Bytecode}
  `{FrameApi Gas E (MegaContext (Journal DB Bytecode) S O) I P F}
  `{InspectorApi Gas (MegaContext (Journal DB Bytecode) S O) I P F}
  `{OpHandler Gas E Log (MegaContext (Journal DB Bytecode) S O) I P F}
  `{ExecLoop Gas E (MegaEvm (MegaContext (Journal DB Bytecode) S O) I P F)}
  (journal_finalize : Journal DB Bytecode → Journal DB Bytecode * EvmState Bytecode)
  (new_system_tx_with_caller : Address → Address → Bytes → MegaTransaction).
Notation J := (Journal DB Bytecode).
Notation Ctx := (MegaContext J S O).
Notation Evm := (MegaEvm Ctx I P F).
Implicit Types evm : Evm.

(** What [revm] makes: an inner context, a transaction, the chain, frames, an inspector
    and precompiles. *)
Variables (new_inner : DB → MegaSpecId → OpContext J) (empty_salt : S) (empty_oracle : O)
  (default_tx : MegaTransaction) (default_chain : OpContext J → OpContext J)
  (empty_frames : F) (NoOpInspector : I) (precompiles_of : MegaSpecId → P).
Context {Dyn Fac : Type} (apply_precompile : Address → Dyn → P → P)
  {env_factory : ExternalEnvFactory Fac S O}.
Notation Builder := (MegaSpecId → list (Address * Dyn)).
Notation EvmFactory := (MegaEvmFactory Fac Builder).

(** [EvmFactory for MegaEvmFactory]. *)
Definition factory_create_evm (self : EvmFactory) (db : DB) (b : BlockEnv)
    (cfg : CfgEnv MegaSpecId) : outcome Evm :=
  create_evm new_inner empty_salt empty_oracle
    (λ n, let e := external_envs (external_env_factory self) n in (salt_env e, oracle_env e))
    default_tx default_chain empty_frames NoOpInspector precompiles_of apply_precompile
    (dyn_precompiles_builder self) db b cfg.

(** [BlockExecutorFactory for MegaBlockExecutorFactory]: the executor of an EVM that is
    there. *)
Context `{ForkApi} {T Hook Receipt R : Type} `{OpHardforks T} `{MegaHardforks T}.
#[local] Instance the_block_evm : BlockEvm Evm DB E Bytecode Log :=
  mega_block_evm journal_finalize new_system_tx_with_caller.
Definition factory_evm_factory (self : MegaBlockExecutorFactory T EvmFactory R) : EvmFactory :=
  MegaBlockExecutorFactory.evm_factory_ref self.
Definition factory_create_executor (no_hook : Hook)
    (self : MegaBlockExecutorFactory T EvmFactory R) (evm : Evm) (ctx : MegaBlockExecutionCtx) :
    outcome (MegaBlockExecutor T Evm Hook Receipt) :=
  BlockExecutor.new no_hook evm ctx (factory_hardforks self).

(** ** The accessors of an EVM *)
Definition block_env_ref evm : BlockEnv := MegaContext.block (evm_ctx evm).
Definition block_env_mut (f : BlockEnv → BlockEnv) evm : Evm :=
  set_block (f (block_env_ref evm)) evm.
Definition journaled_state evm : J := MegaContext.journal (evm_ctx evm).
Definition journaled_state_mut (f : J → J) evm : Evm :=
  with_evm_ctx (MegaContext.with_inner (MegaContext.set_journal (f (journaled_state evm))
    (inner (evm_ctx evm))) (evm_ctx evm)) evm.
Definition into_journaled_state evm : J := journaled_state evm.
Definition evm_block evm : BlockEnv := block_env_ref evm.
Definition evm_chain_id evm : Z := cfg_chain_id _ (MegaContext.cfg (evm_ctx evm)).
Definition components evm : DB * I * P :=
  (j_database (journaled_state evm), evm_inspector evm, evm_precompiles evm).

Definition evm_get_accessed_block_hashes `{BlockState DB Bytecode} evm : list (Z * Z) :=
  block_hashes (j_database (journaled_state evm)).

(** ** [test_utils/evm.rs]: a transaction on a fresh EVM

    [zero_operator_fees] changes the chain of the inner context. *)
Variable zero_operator_fees : OpContext J → OpContext J.
Definition test_tx (caller : Address) (callee : option Address) (data : Bytes) (value : U256) :
    MegaTransaction :=
  mkTransaction data (tx_access_list_sizes default_tx) (tx_authorization_list default_tx)
    (tx_authorization_list_len default_tx) caller
    (match callee with Some a => TxCall a | None => TxCreate end) (tx_nonce default_tx) value
    1000000000000000000 (tx_gas_price default_tx) (tx_base_type default_tx)
    (tx_source_hash default_tx) (Some []).
Definition transact (sp : MegaSpecId) (db : DB) (caller : Address) (callee : option Address)
    (data : Bytes) (value : U256) :
    outcome (result (ExecutionResult MegaHaltReason Log * EvmState Bytecode) (MegaError E)) :=
  ctx ← MegaContext.new_with_shared_ext_envs (new_inner db sp) sp empty_salt empty_oracle;
  let ctx := MegaContext.with_inner (zero_operator_fees (inner ctx)) ctx in
  '(_, r) ← transact_raw (Log:=Log) (E:=E) journal_finalize (test_tx caller callee data value)
              (Execution.new empty_frames NoOpInspector precompiles_of ctx);
  Ret r.
End factories.

(** ** What is made *)

Section theory.
Context `{Profile} `{BitflagsApi} `{InstructionResultApi} `{SStoreApi} `{AbiApi} `{KeylessAbi}
  `{InterceptAbi} `{RevmGasConstants} {Gas R : Type} `{GasApi Gas} {Sig : Type} `{KeylessTxApi Sig}
  `{InterpreterApi Gas R}
  {DB E Bytecode S SE SD AL O Log Acc I P F : Type} {revm : RevmState Bytecode}
  {bytecode : BytecodeApi Bytecode} {database : Database DB E Bytecode} {display : Display E}
  {show : Display SE} {show_address : Display Address} {oracle : OracleEnv O}
  {salt : SaltEnv S SE} {host : OpHost (Journal DB Bytecode) SD AL}
  {sandbox : SandboxEvm (Journal DB Bytecode) (SandboxDb DB Bytecode) S O Bytecode Log}
  {journal : JournalInspectTr (Journal DB Bytecode) E Acc} `{AccountApi Acc} `{CreateApi Acc}
  {slots : StorageInspectTr (Journal DB Bytecode) E}
  {instrs : RevmInstructions Gas R (MegaContext (Journal DB Bytecode) S O)}
  `{ValidationApi Bytecode}
  {frame_api : FrameApi Gas E (MegaContext (Journal DB Bytecode) S O) I P F}
  {inspector_api : InspectorApi Gas (MegaContext (Journal DB Bytecode) S O) I P F}
  {handler : OpHandler Gas E Log (MegaContext (Journal DB Bytecode) S O) I P F}
  {exec_loop : ExecLoop Gas E (MegaEvm (MegaContext (Journal DB Bytecode) S O) I P F)}.
Notation J := (Journal DB Bytecode).
Notation Ctx := (MegaContext J S O).
Notation Evm := (MegaEvm Ctx I P F).
Context {main : opcode.Opcode → Interpreter Gas R → Ctx → outcome (Interpreter Gas R * Ctx)}
  {laws : OpLaws (Log:=Log) (E:=E) (F:=F) (I:=I) (P:=P) main} {parametric : LoopParametric Gas E Evm}.
Variables (new_inner : DB → MegaSpecId → OpContext J) (empty_salt : S) (empty_oracle : O)
  (default_tx : MegaTransaction) (default_chain : OpContext J → OpContext J)
  (empty_frames : F) (NoOpInspector : I) (precompiles_of : MegaSpecId → P).
Context {Dyn Fac : Type} (apply_precompile : Address → Dyn → P → P)
  {env_factory : ExternalEnvFactory Fac S O}.
Notation make := (factory_create_evm new_inner empty_salt empty_oracle default_tx default_chain
  empty_frames NoOpInspector precompiles_of apply_precompile).

(** The EVM of a factory has the spec of the configuration and fresh limits. *)
Lemma factory_evm_fresh self db b cfg evm :
  make self db b cfg = Ret evm →
  spec (evm_ctx evm) = cfg_spec cfg ∧ evm_instruction evm = cfg_spec cfg ∧
  disable_beneficiary (evm_ctx evm) = false ∧
  additional_limit (evm_ctx evm) =
    AdditionalLimit.new (cfg_spec cfg) (EvmTxRuntimeLimits.from_spec (cfg_spec cfg)).
Proof.
  unfold factory_create_evm, create_evm, MegaContext.new_with_shared_ext_envs,
    MegaContext.with_external_envs, MegaContext.with_block, MegaContext.on_new_block.
  intros Hm. outcome_inv. repeat (case_match; outcome_inv); done.
Qed.

Lemma equivalence_evm_plain self db b cfg evm :
  cfg_spec cfg = EQUIVALENCE → make self db b cfg = Ret evm → plain evm.
Proof.
  intros Hs (Hsp&Hi&Hb&Hal)%factory_evm_fresh. rewrite Hs in *. unfold plain. rewrite Hal.
  split_and!; try done.
Qed.

(** Transactions one after the other, with what each of them returned. *)
Fixpoint in_turn {X} (run : MegaTransaction → Evm → outcome (Evm * X)) (ts : list MegaTransaction)
    (evm : Evm) : outcome (Evm * list X) :=
  match ts with
  | [] => Ret (evm, [])
  | t :: ts =>
      '(evm, x) ← run t evm;
      '(evm, xs) ← in_turn run ts evm;
      Ret (evm, x :: xs)
  end.

(** The EVM that the factory makes for a configuration of [EQUIVALENCE] runs any sequence
    of transactions exactly as the reference does, whatever environments and dynamic
    precompiles the factory has. *)
Theorem equivalence_factory_is_op_revm self db b cfg evm ts :
  cfg_spec cfg = EQUIVALENCE → make self db b cfg = Ret evm →
  in_turn (transact_one (Log:=Log) (E:=E)) ts evm = in_turn (op_transact_one (Log:=Log) (E:=E)) ts evm.
Proof.
  intros Hs Hm. assert (plain evm) as Hp by by eapply equivalence_evm_plain. clear Hm Hs.
  revert evm Hp. induction ts as [|t ts IH]; intros evm Hp; simpl; [done|].
  destruct (equivalence_transaction t evm Hp) as [<- Hnext].
  destruct (transact_one t evm) as [[evm1 r]|]; [|done]. simpl. by rewrite IH by by eapply Hnext.
Qed.
End theory.
