(* ===== verification/Precompiles.v ===== *)
(** * Precompiles

    Models [evm/precompiles.rs]: the table of a spec, with [modexp] of Osaka and a KZG
    point evaluation of a fixed price from [MINI_REX] on, and the provider that records
    what a precompile spends as compute gas.  The precompiles themselves are those of
    [revm] and [op-revm]. *)
From S2P Require Import Prelude Spec Deps LimitTypes FrameLimit Trackers AdditionalLimit LimitTheory.
From S2P Require Import StorageGas Context.
Open Scope Z_scope.
Open Scope rust_scope.
#[local] Set Warnings "-notation-for-abbreviation".

Record PrecompileOutput := mkPrecompileOutput {
  po_gas_used : Z;
  po_bytes : Bytes;
}.

Inductive PrecompileError :=
  | PrecompileOutOfGas
  | OtherPrecompileError (code : Z).

Definition Precompile : Type := Bytes → Z → result PrecompileOutput PrecompileError.

(** ** [kzg_point_evaluation] *)
Module kzg_point_evaluation.
Definition GAS_COST : Z := 100000.

Definition KZG_POINT_EVALUATION (ADDRESS : Address) (run : Precompile) : Address * Precompile :=
  (ADDRESS, λ input gas_limit,
     if bool_decide (gas_limit < GAS_COST) then Err PrecompileOutOfGas
     else match run input gas_limit with
          | Err e => Err e
          | Ok output => Ok (mkPrecompileOutput GAS_COST (po_bytes output))
          end).
End kzg_point_evaluation.

Lemma last_cons_default {A} (l : list A) : ∀ x d, List.last (x :: l) d = List.last l x.
Proof.
  induction l as [|y l IH]; intros x d; [done|].
  change (List.last (y :: l) d = List.last (y :: l) x). by rewrite !IH.
Qed.

(** ** [MegaPrecompiles] *)
Section precompiles.
Context (isthmus : gmap Address Precompile) (OSAKA : Address * Precompile)
  (kzg_ADDRESS : Address) (kzg_run : Precompile)
  {OpSpecId EthSpecId : Type} (ISTHMUS : OpSpecId) (op_into_eth_spec : OpSpecId → EthSpecId).

(** [Precompiles::extend]: later ones override. *)
Definition extend (ps : list (Address * Precompile)) (table : gmap Address Precompile) :
    gmap Address Precompile :=
  foldl (λ table '(a, p), <[a := p]> table) table ps.

Definition mini_rex : gmap Address Precompile :=
  extend [OSAKA; kzg_point_evaluation.KZG_POINT_EVALUATION kzg_ADDRESS kzg_run] isthmus.
Definition rex : gmap Address Precompile := mini_rex.

(** [EthPrecompiles]. *)
Record EthPrecompiles := mkEthPrecompiles {
  eth_precompiles : gmap Address Precompile;
  eth_spec : EthSpecId;
}.
Record MegaPrecompiles := mkMegaPrecompiles {
  mp_inner : EthPrecompiles;
  mp_spec : MegaSpecId;
}.

Definition new_with_spec (spec : MegaSpecId) : MegaPrecompiles :=
  let inner := match spec with
               | EQUIVALENCE => isthmus
               | MINI_REX => mini_rex
               | REX | REX1 | REX2 | REX3 | REX4 => rex
               end in
  mkMegaPrecompiles (mkEthPrecompiles inner (MegaSpecId.into_eth_spec ISTHMUS op_into_eth_spec spec))
    spec.

Definition precompiles (self : MegaPrecompiles) : gmap Address Precompile :=
  eth_precompiles (mp_inner self).

Definition set_spec (spec : MegaSpecId) (self : MegaPrecompiles) : MegaPrecompiles * bool :=
  if bool_decide (spec = mp_spec self) then (self, false) else (new_with_spec spec, true).

Definition default : MegaPrecompiles := new_with_spec EQUIVALENCE.

(** What a spec answers at an address. *)
Definition precompile_at (spec : MegaSpecId) (a : Address) : option Precompile :=
  if MegaSpecId.is_enabled spec MINI_REX then
    if decide (a = kzg_ADDRESS)
    then Some (kzg_point_evaluation.KZG_POINT_EVALUATION kzg_ADDRESS kzg_run).2
    else if decide (a = OSAKA.1) then Some OSAKA.2
    else isthmus !! a
  else isthmus !! a.

(** [EQUIVALENCE] has the table of [op-revm]; every later spec has the same one, which
    differs at two addresses.  Whatever specs an EVM is switched through, its table is
    that of the last one, and a switch is reported exactly when the spec changes. *)
Theorem precompiles_follow_the_spec (switches : list MegaSpecId) (a : Address) :
  let p := foldl (λ p spec, (set_spec spec p).1) default switches in
  let current := List.last switches EQUIVALENCE in
  mp_spec p = current ∧ precompiles p !! a = precompile_at current a ∧
  ∀ spec, (set_spec spec p).2 = negb (bool_decide (spec = current)).
Proof.
  assert (∀ spec, precompiles (new_with_spec spec) !! a = precompile_at spec a) as Htable.
  { intros spec. destruct OSAKA as [oa op] eqn:Ho.
    unfold precompile_at, new_with_spec, precompiles, rex, mini_rex, extend. rewrite Ho. simpl.
    destruct spec; simpl; try done; (destruct (decide (a = kzg_ADDRESS)) as [->|Hk];
      [by rewrite lookup_insert_eq|rewrite lookup_insert_ne by done];
      destruct (decide (a = oa)) as [->|Hm];
      [by rewrite lookup_insert_eq|by rewrite lookup_insert_ne by done]). }
  assert (∀ l p, p = new_with_spec (mp_spec p) →
    foldl (λ p spec, (set_spec spec p).1) p l = new_with_spec (List.last l (mp_spec p))) as Hfold.
  { intros l. induction l as [|s l IH]; intros p Hp; [done|].
    cbn [foldl]. assert ((set_spec s p).1 = new_with_spec s) as ->.
    { unfold set_spec. case_bool_decide as Hs; [by rewrite Hs|done]. }
    rewrite IH by done. by rewrite last_cons_default. }
  intros p current. assert (p = new_with_spec current) as Hp by exact (Hfold switches default eq_refl).
  rewrite Hp. split_and!; [done|apply Htable|]. intros spec. unfold set_spec. simpl. by destruct (bool_decide _).
Qed.

(** From [MINI_REX] on a KZG point evaluation costs exactly [GAS_COST]: less gas runs out,
    an error stays, and no success costs anything else. *)
Theorem kzg_costs_a_fixed_price spec input gas_limit r :
  MegaSpecId.is_enabled spec MINI_REX = true →
  (∃ p, precompiles (new_with_spec spec) !! kzg_ADDRESS = Some p ∧ p input gas_limit = r) →
  match r with
  | Ok output => kzg_point_evaluation.GAS_COST ≤ gas_limit ∧
      po_gas_used output = kzg_point_evaluation.GAS_COST ∧
      ∃ original, kzg_run input gas_limit = Ok original ∧ po_bytes output = po_bytes original
  | Err e => gas_limit < kzg_point_evaluation.GAS_COST ∧ e = PrecompileOutOfGas ∨
      kzg_run input gas_limit = Err e
  end.
Proof.
  intros Hm (p&Hp&<-).
  assert (precompiles (new_with_spec spec) = mini_rex) as Ht by by destruct spec.
  rewrite Ht in Hp. unfold mini_rex, extend in Hp. destruct OSAKA as [oa op].
  simpl in Hp. rewrite lookup_insert_eq in Hp. injection Hp as <-.
  case_bool_decide; [by left|]. destruct (kzg_run input gas_limit) as [o|e]; [|by right].
  split_and!; [lia|done|by exists o].
Qed.
End precompiles.

(** ** [PrecompileProvider] for [PrecompilesMap] *)
Section provider.
Context `{Profile} `{BitflagsApi} `{InstructionResultApi} `{SStoreApi} `{AbiApi} {Gas : Type}
  `{GasApi Gas} {J S O P Inputs : Type}
  (op_run : P → Address → Inputs → bool → Z → MegaContext J S O →
    MegaContext J S O * result (option (InterpreterResult Gas)) string).

(** What was recorded is the only trace: an exceeded limit is left for the next check. *)
Definition run (self : P) (address : Address) (inputs : Inputs) (is_static : bool) (gas_limit : Z)
    (context : MegaContext J S O) :
    outcome (MegaContext J S O * result (option (InterpreterResult Gas)) string) :=
  let '(context, r) := op_run self address inputs is_static gas_limit context in
  match r with
  | Err e => Ret (context, Err e)
  | Ok None => Ret (context, Ok None)
  | Ok (Some output) =>
      if MegaSpecId.is_enabled (spec context) MINI_REX then
        '(al, _) ← AdditionalLimit.record_compute_gas (gas_spent (ir_gas output))
                     (additional_limit context);
        Ret (MegaContext.with_additional_limit al context, Ok (Some output))
      else Ret (context, Ok (Some output))
  end.

(** Running a precompile answers what [op-revm] answers; it cannot panic while the sums
    fit, and it changes the limits only by the compute gas that the output spent. *)
Theorem precompile_records_compute_gas (self : P) address inputs is_static gas_limit context n m :
  let '(ctx1, r) := op_run self address inputs is_static gas_limit context in
  let spent := match r with Ok (Some output) => gas_spent (ir_gas output) | _ => 0 end in
  al_ok n m (additional_limit ctx1) → 0 ≤ spent → m + spent ≤ u64_max →
  ∃ ctx2, run self address inputs is_static gas_limit context = Ret (ctx2, r) ∧
    al_ok n (m + spent) (additional_limit ctx2) ∧
    ctx2 = MegaContext.with_additional_limit (additional_limit ctx2) ctx1 ∧
    (MegaSpecId.is_enabled (spec ctx1) MINI_REX = false ∨ r = Ok None → ctx2 = ctx1).
Proof.
  unfold run. destruct (op_run _ _ _ _ _ _) as [ctx1 r]. simpl. intros Hal Hs Hm.
  destruct r as [[output|]|e]; simpl in *.
  - destruct (MegaSpecId.is_enabled (spec ctx1) MINI_REX).
    + destruct (record_compute_total n m (gas_spent (ir_gas output)) _ Hal Hs Hm) as (al&b&->&Hok).
      simpl. eexists. split_and!; [done|done|done|by intros [|]].
    + exists ctx1. split_and!; [done|by apply (al_ok_mono n m); [|lia]|by destruct ctx1|done].
  - exists ctx1. split_and!; [done|by apply (al_ok_mono n m); [|lia]|by destruct ctx1|done].
  - exists ctx1. split_and!; [done|by apply (al_ok_mono n m); [|lia]|by destruct ctx1|done].
Qed.
End provider.
