(* ===== verification/Evme.v ===== *)
(** * The state of the command line tool

    Models [bin/mega-evme/src/common/state.rs]: accounts read from and written to JSON,
    the overrides on the command line, and the database of the tool, an overlay of
    accounts over an empty or a forked chain.  Files, JSON, RPC and the parsers of
    [alloy] are parameters; text is ASCII. *)
From Stdlib Require Import Ascii.
From S2P Require Import Prelude Spec Deps EvmState SystemContracts.
Open Scope Z_scope.
Open Scope rust_scope.
#[local] Set Warnings "-notation-for-abbreviation".

(** ** Errors: the text of foreign errors is a string *)
Inductive EvmeError :=
  | RpcTransportError (e : string)
  | TransactionNotFound (tx_hash : B256)
  | BlockNotFound (number : Z)
  | BlockExecutionFailed (e : string)
  | InvalidBytecode (e : string)
  | FileRead (e : string)
  | InvalidHex (e : string)
  | ExecutionError (e : string)
  | InvalidInput (e : string)
  | RpcError (e : string)
  | UnsupportedTxType (ty : Z)
  | CodeHashMismatch (expected computed : B256)
  | EvmeOther (e : string).

(** ** Strings of the standard library *)
Definition is_whitespace (c : Ascii.ascii) : bool :=
  let n := Ascii.N_of_ascii c in ((9 <=? n) && (n <=? 13) || (n =? 32))%N.

Fixpoint trim_start (s : list Ascii.ascii) : list Ascii.ascii :=
  match s with
  | c :: s' => if is_whitespace c then trim_start s' else s
  | [] => []
  end.
Definition trim (s : string) : string :=
  String.string_of_list_ascii
    (rev (trim_start (rev (trim_start (String.list_ascii_of_string s))))).

(** [s.split_once(delim)]: at the first place where [delim] starts. *)
Fixpoint split_once (delim s : string) : option (string * string) :=
  if String.prefix delim s
  then Some (""%string, String.substring (String.length delim)
                          (String.length s - String.length delim) s)
  else match s with
       | ""%string => None
       | String.String c s' =>
           match split_once delim s' with
           | Some (before, after) => Some (String.String c before, after)
           | None => None
           end
       end.

(** [str::parse::<u64>], and its errors. *)
Definition digit_of (c : Ascii.ascii) : option Z :=
  let n := Z.of_N (Ascii.N_of_ascii c) in
  if bool_decide (48 ≤ n ≤ 57) then Some (n - 48) else None.

Fixpoint parse_digits (acc : Z) (s : string) : result Z string :=
  match s with
  | ""%string => Ok acc
  | String.String c s =>
      let mul := checked_mul acc 10 in
      match digit_of c with
      | None => Err "invalid digit found in string"%string
      | Some d =>
          match mul ≫= λ acc, checked_add acc d with
          | None => Err "number too large to fit in target type"%string
          | Some acc => parse_digits acc s
          end
      end
  end.

Definition parse_u64 (s : string) : result Z string :=
  match s with
  | ""%string => Err "cannot parse integer from empty string"%string
  | String.String "+"%char ""%string | String.String "-"%char ""%string =>
      Err "invalid digit found in string"%string
  | String.String "+"%char s => parse_digits 0 s
  | s => parse_digits 0 s
  end.

(** [iter().map(f).collect::<Result<Vec<_>>>()], and loops that end at the first error. *)
Fixpoint map_result {A B E} (f : A → result B E) (l : list A) : result (list B) E :=
  match l with
  | [] => Ok []
  | x :: l =>
      match f x with
      | Err e => Err e
      | Ok y => match map_result f l with Err e => Err e | Ok ys => Ok (y :: ys) end
      end
  end.

Definition and_then {A B E} (r : result A E) (f : A → result B E) : result B E :=
  match r with Ok a => f a | Err e => Err e end.
Definition map_err {A E F} (f : E → F) (r : result A E) : result A F :=
  match r with Ok a => Ok a | Err e => Err (f e) end.
Notation "x '←!' m ';' k" := (and_then m (λ x, k))
  (at level 20, m at level 100, k at level 200, right associativity) : rust_scope.
Notation "' x '←!' m ';' k" := (and_then m (λ x, k))
  (at level 20, x pattern, m at level 100, k at level 200, only parsing) : rust_scope.

(** ** Foreign parsers *)
Class EvmeParsers := {
  parse_units : string → string → result U256 string;
  B256_from_str : string → result B256 string;
  Address_from_str : string → result Address string;
  U256_from_str : string → result U256 string;
}.

(** What the tool needs of [revm]'s bytecodes. *)
Class EvmeBytecode (Bytecode : Type) := {
  bytecode_default : Bytecode;
  new_raw_checked : Bytes → result Bytecode string;
  hash_slow : Bytecode → B256;
  original_byte_slice : Bytecode → Bytes;
}.

(** ** [AccountState]: an account as in JSON *)
Record AccountState := mkAccountState {
  as_balance : option U256;
  as_nonce : option Z;
  as_code : option Bytes;
  as_code_hash : option B256;
  as_storage : option (gmap U256 U256);
}.

(** [EvmStorageSlot::new(value, 0)]. *)
Definition EvmStorageSlot_new (value : U256) : EvmStorageSlot := mkSlot value value 0 false.

Section account_state.
Context {Bytecode : Type} {revm : RevmState Bytecode} {codes : EvmeBytecode Bytecode}.

Definition from_account (account : Account Bytecode) : AccountState :=
  let i := info account in
  let code := default [] (original_byte_slice <$> code i) in
  mkAccountState (Some (balance i)) (Some (nonce i)) (Some code) (Some (code_hash i))
    (Some (slot_present_value <$> storage account)).

(** No code is the default bytecode. *)
Definition decode_code (code : Bytes) : result Bytecode EvmeError :=
  if bool_decide (code = []) then Ok bytecode_default
  else map_err InvalidBytecode (new_raw_checked code).

Definition into_account (self : AccountState) : result (Account Bytecode) EvmeError :=
  let code := default [] (as_code self) in
  bytecode ←! decode_code code;
  let computed_hash := hash_slow bytecode in
  let account :=
    with_storage (EvmStorageSlot_new <$> default ∅ (as_storage self))
      (Account_default (mkAccountInfo (default 0 (as_balance self)) (default 0 (as_nonce self))
                          computed_hash (Some bytecode))) in
  match as_code_hash self with
  | Some code_hash =>
      if bool_decide (computed_hash = code_hash) then Ok account
      else Err (CodeHashMismatch code_hash computed_hash)
  | None => Ok account
  end.
End account_state.

(** ** [PreStateArgs] *)
Record PreStateArgs := mkPreStateArgs {
  fork : bool;
  fork_block : option Z;
  fork_rpc : string;
  prestate_file : option string;
  arg_block_hashes : list string;
  sender_balance : option string;
  faucet : list string;
  arg_balance : list string;
  arg_storage : list string;
}.

Section parsing.
Context {parsers : EvmeParsers}.
Open Scope string_scope.

(** The digits and dots at the front, and the rest. *)
Fixpoint split_number (s : string) : string * string :=
  match s with
  | "" => ("", "")
  | String.String c s' =>
      if negb (bool_decide (is_Some (digit_of c))) && negb (bool_decide (c = "."%char))
      then ("", s)
      else let '(num, unit) := split_number s' in (String.String c num, unit)
  end.

Definition parse_ether_value (s : string) : result U256 EvmeError :=
  let s := trim s in
  let '(num_str, unit) := split_number s in
  let unit := if bool_decide (unit = "") then "wei" else unit in
  map_err (λ e, InvalidInput ("Invalid ether value '" ++ s ++ "': " ++ e))
    (parse_units num_str unit).

Definition ok_or {A} (o : option A) (e : EvmeError) : result A EvmeError :=
  match o with Some a => Ok a | None => Err e end.

Definition invalid (what str kind entry : string) (e : string) : EvmeError :=
  InvalidInput ("Invalid " ++ what ++ " '" ++ str ++ "' in " ++ kind ++ "entry '" ++ entry ++ "': "
                ++ e).
Definition expected (kind entry format : string) : EvmeError :=
  InvalidInput ("Invalid " ++ kind ++ " entry '" ++ entry ++ "': expected format '" ++ format ++ "'").

Definition parse_block_hash (entry : string) : result (Z * B256) EvmeError :=
  '(num_str, hash_str) ←! ok_or (split_once ":" entry)
                            (expected "block hash" entry "block_number:block_hash");
  block_num ←! map_err (invalid "block number" num_str "" entry) (parse_u64 (trim num_str));
  block_hash ←! map_err (invalid "block hash" hash_str "" entry) (B256_from_str (trim hash_str));
  Ok (block_num, block_hash).

(** Later entries override. *)
Definition parse_block_hashes (self : PreStateArgs) : result (gmap Z B256) EvmeError :=
  entries ←! map_result parse_block_hash (arg_block_hashes self);
  Ok (foldl (λ m '(n, h), <[n := h]> m) ∅ entries).

Definition parse_faucet_entry (entry : string) : result (Address * U256) EvmeError :=
  '(addr_str, value_str) ←! ok_or (split_once "+=" entry)
                              (expected "faucet" entry "ADDRESS+=VALUE");
  address ←! map_err (invalid "address" addr_str "faucet " entry) (Address_from_str (trim addr_str));
  wei ←! parse_ether_value value_str;
  Ok (address, wei).
Definition parse_faucet (self : PreStateArgs) : result (list (Address * U256)) EvmeError :=
  map_result parse_faucet_entry (faucet self).

Definition parse_balance_entry (entry : string) : result (Address * U256) EvmeError :=
  '(addr_str, value_str) ←! ok_or (split_once "=" entry)
                              (expected "balance" entry "ADDRESS=VALUE");
  address ←! map_err (invalid "address" addr_str "balance " entry)
              (Address_from_str (trim addr_str));
  wei ←! parse_ether_value value_str;
  Ok (address, wei).
Definition parse_balance (self : PreStateArgs) : result (list (Address * U256)) EvmeError :=
  map_result parse_balance_entry (arg_balance self).

Definition parse_storage_entry (entry : string) : result (Address * U256 * U256) EvmeError :=
  '(addr_str, rest) ←! ok_or (split_once ":" entry)
                         (expected "storage" entry "ADDRESS:SLOT=VALUE");
  '(slot_str, value_str) ←! ok_or (split_once "=" rest)
                              (expected "storage" entry "ADDRESS:SLOT=VALUE");
  address ←! map_err (invalid "address" addr_str "storage " entry)
              (Address_from_str (trim addr_str));
  slot ←! map_err (invalid "slot" slot_str "storage " entry) (U256_from_str (trim slot_str));
  value ←! map_err (invalid "value" value_str "storage " entry) (U256_from_str (trim value_str));
  Ok (address, slot, value).
Definition parse_storage (self : PreStateArgs) : result (list (Address * U256 * U256)) EvmeError :=
  map_result parse_storage_entry (arg_storage self).
End parsing.

(** ** Overrides of accounts *)
Section overrides.
Context {Bytecode : Type} {revm : RevmState Bytecode}.
Implicit Types st : EvmState Bytecode.

Definition entry_or_default (a : Address) st : Account Bytecode :=
  default (Account_default AccountInfo_default) (st !! a).
(** [entry(a).or_default()], changed by [f]. *)
Definition modify (a : Address) (f : Account Bytecode → Account Bytecode) st : EvmState Bytecode :=
  <[a := f (entry_or_default a st)]> st.

Definition set_info_balance (b : U256) (a : Account Bytecode) : Account Bytecode :=
  let i := info a in with_info (mkAccountInfo b (nonce i) (code_hash i) (code i)) a.
Definition add_info_balance (b : U256) (a : Account Bytecode) : Account Bytecode :=
  set_info_balance ((balance (info a) + b) mod two_256) a.
Definition set_info_nonce (n : Z) (a : Account Bytecode) : Account Bytecode :=
  let i := info a in with_info (mkAccountInfo (balance i) n (code_hash i) (code i)) a.
Definition set_info_code (c : Bytecode) (a : Account Bytecode) : Account Bytecode :=
  let i := info a in with_info (mkAccountInfo (balance i) (nonce i) (code_hash i) (Some c)) a.
(** [storage.extend(..)]: the new slots override. *)
Definition extend_storage (s : gmap U256 EvmStorageSlot) (a : Account Bytecode) : Account Bytecode :=
  with_storage (s ∪ storage a) a.

Context {codes : EvmeBytecode Bytecode} {parsers : EvmeParsers}
  (read_to_string : string → result string string)
  (json_accounts : string → result (list (Address * AccountState)) string).

Definition load_prestate_file (self : PreStateArgs) : result (EvmState Bytecode) EvmeError :=
  match prestate_file self with
  | None => Ok ∅
  | Some path =>
      prestate_content ←! map_err FileRead (read_to_string path);
      loaded ←! map_err (λ e, InvalidInput ("Failed to parse prestate JSON: " ++ e)%string)
                  (json_accounts prestate_content);
      accounts ←! map_result (λ '(a, s), acc ←! into_account s; Ok (a, acc)) loaded;
      Ok (foldl (λ st '(a, acc), <[a := acc]> st) ∅ accounts)
  end.

Definition load_prestate (self : PreStateArgs) (sender : Address) :
    result (EvmState Bytecode) EvmeError :=
  prestate ←! load_prestate_file self;
  balances ←! parse_balance self;
  let prestate := foldl (λ st '(a, b), modify a (set_info_balance b) st) prestate balances in
  slots ←! parse_storage self;
  let prestate := foldl (λ st '(a, slot, value),
    modify a (extend_storage {[slot := EvmStorageSlot_new value]}) st) prestate slots in
  prestate ←! match sender_balance self with
              | Some s =>
                  b ←! parse_ether_value s; Ok (modify sender (set_info_balance b) prestate)
              | None => Ok prestate
              end;
  faucets ←! parse_faucet self;
  Ok (foldl (λ st '(a, b), modify a (add_info_balance b) st) prestate faucets).
End overrides.

(** ** The database of the tool *)

(** [EmptyDB] of [revm]. *)
Class EmptyDb (Bytecode : Type) := {
  empty_basic : Address → option (AccountInfo Bytecode);
  empty_code_by_hash : B256 → Bytecode;
  empty_storage : Address → U256 → U256;
  empty_block_hash : Z → B256;
}.

(** The forked chain: [CacheDB] over [AlloyDB], read mutably and by reference; the text of
    its errors, with what was asked for. *)
Class ForkDb (F Bytecode : Type) := {
  fork_basic : Address → F → F * result (option (AccountInfo Bytecode)) string;
  fork_code_by_hash : B256 → F → F * result Bytecode string;
  fork_storage : Address → U256 → F → F * result U256 string;
  fork_block_hash : Z → F → F * result B256 string;
  fork_basic_ref : Address → F → result (option (AccountInfo Bytecode)) string;
  fork_code_by_hash_ref : B256 → F → result Bytecode string;
  fork_storage_ref : Address → U256 → F → result U256 string;
  fork_block_hash_ref : Z → F → result B256 string;
  show_address : Address → string;
  show_u256 : U256 → string;
  show_b256 : B256 → string;
  show_u64 : Z → string;
}.

Inductive EvmeBackend (F : Type) :=
  | Empty
  | Forked (db : F).
Arguments Empty {F}.
Arguments Forked {F}.

Record EvmeState (F Bytecode : Type) := mkEvmeState {
  backend : EvmeBackend F;
  prestate : EvmState Bytecode;
  code_map : gmap B256 Bytecode;
  block_hashes : gmap Z B256;
}.
Arguments mkEvmeState {F Bytecode}.
Arguments backend {F Bytecode}.
Arguments prestate {F Bytecode}.
Arguments code_map {F Bytecode}.
Arguments block_hashes {F Bytecode}.

Section evme_state.
Context {F Bytecode : Type} {revm : RevmState Bytecode} {bytecodes : EvmeBytecode Bytecode}
  {empty : EmptyDb Bytecode} {forkdb : ForkDb F Bytecode} {codes : SystemContractCodes}.
Notation State := (EvmeState F Bytecode).
Implicit Types self : State.

Definition with_backend (b : EvmeBackend F) self : State :=
  mkEvmeState b (prestate self) (code_map self) (block_hashes self).
Definition with_prestate (st : EvmState Bytecode) self : State :=
  mkEvmeState (backend self) st (code_map self) (block_hashes self).
Definition with_code_map (m : gmap B256 Bytecode) self : State :=
  mkEvmeState (backend self) (prestate self) m (block_hashes self).

(** The codes of the accounts, by the hash that the account has. *)
Definition code_map_of (st : EvmState Bytecode) : gmap B256 Bytecode :=
  list_to_map (omap (λ '(_, acc), (λ c, (code_hash (info acc), c)) <$> code (info acc))
                 (map_to_list st)).

Definition new_empty (st : EvmState Bytecode) (hashes : gmap Z B256) : State :=
  mkEvmeState Empty st (code_map_of st) hashes.

Definition insert_code (hash : B256) (c : option Bytecode) self : State :=
  match c with Some c => with_code_map (<[hash := c]> (code_map self)) self | None => self end.

Definition insert_account (address : Address) (account : Account Bytecode) self : State :=
  let self := insert_code (code_hash (info account)) (code (info account)) self in
  with_prestate (<[address := account]> (prestate self)) self.
Definition insert_storage (address : Address) (s : gmap U256 EvmStorageSlot) self : State :=
  with_prestate (modify address (extend_storage s) (prestate self)) self.
Definition insert_account_with_storage (address : Address) (i : AccountInfo Bytecode)
    (s : gmap U256 EvmStorageSlot) self : State :=
  let self := insert_code (code_hash i) (code i) self in
  with_prestate (<[address := with_storage s (Account_default i)]> (prestate self)) self.
Definition set_account_balance (address : Address) (b : U256) self : State :=
  with_prestate (modify address (set_info_balance b) (prestate self)) self.
Definition set_account_nonce (address : Address) (n : Z) self : State :=
  with_prestate (modify address (set_info_nonce n) (prestate self)) self.
Definition set_account_code (address : Address) (c : Bytecode) self : State :=
  let self := insert_code (hash_slow c) (Some c) self in
  with_prestate (modify address (set_info_code c) (prestate self)) self.
Definition set_account_storage (address : Address) (s : gmap U256 U256) self : State :=
  with_prestate (modify address (extend_storage (EvmStorageSlot_new <$> s)) (prestate self)) self.

Definition deploy_system_contracts (spec : MegaSpecId) self : State :=
  let self :=
    if MegaSpecId.is_enabled spec MINI_REX then
      let c := if MegaSpecId.is_enabled spec REX2 then ORACLE_CONTRACT_CODE_REX2
               else ORACLE_CONTRACT_CODE in
      set_account_code ORACLE_CONTRACT_ADDRESS (Bytecode_new_raw c) self
    else self in
  let self :=
    if MegaSpecId.is_enabled spec MINI_REX then
      set_account_code HIGH_PRECISION_TIMESTAMP_ORACLE_ADDRESS
        (Bytecode_new_raw HIGH_PRECISION_TIMESTAMP_ORACLE_CODE) self
    else self in
  if MegaSpecId.is_enabled spec REX2 then
    set_account_code KEYLESS_DEPLOY_ADDRESS (Bytecode_new_raw KEYLESS_DEPLOY_CODE) self
  else self.

(** [new_forked]: the latest block of the provider when none is given. *)
Definition new_forked (get_block_number : result Z string) (alloy_db : Z → F)
    (fork_block : option Z) (st : EvmState Bytecode) (hashes : gmap Z B256) :
    result State EvmeError :=
  block_num ←! match fork_block with
               | Some n => Ok n
               | None => map_err (λ e, RpcError ("Failed to fetch latest block: " ++ e)%string)
                           get_block_number
               end;
  Ok (mkEvmeState (Forked (alloy_db block_num)) st (code_map_of st) hashes).

(** *** [Database] *)
Definition read_backend {A} (of_empty : A) (of_fork : F → F * result A string) (msg : string)
    self : State * result A EvmeError :=
  match backend self with
  | Empty => (self, Ok of_empty)
  | Forked db =>
      let '(db, r) := of_fork db in
      (with_backend (Forked db) self, map_err (λ e, RpcError (msg ++ ": " ++ e)%string) r)
  end.

Definition basic (address : Address) self : State * result (option (AccountInfo Bytecode)) EvmeError :=
  match prestate self !! address with
  | Some account => (self, Ok (Some (info account)))
  | None => read_backend (empty_basic address) (fork_basic address)
              ("Failed to fetch account " ++ show_address address)%string self
  end.

Definition code_by_hash (hash : B256) self : State * result Bytecode EvmeError :=
  match code_map self !! hash with
  | Some c => (self, Ok c)
  | None => read_backend (empty_code_by_hash hash) (fork_code_by_hash hash)
              ("Failed to fetch code by hash " ++ show_b256 hash)%string self
  end.

Definition overridden_slot (address : Address) (index : U256) self : option U256 :=
  account ← prestate self !! address; slot ← storage account !! index;
  Some (slot_present_value slot).

Definition storage_at (address : Address) (index : U256) self : State * result U256 EvmeError :=
  match overridden_slot address index self with
  | Some v => (self, Ok v)
  | None => read_backend (empty_storage address index) (fork_storage address index)
              ("Failed to fetch storage for " ++ show_address address ++ " at slot " ++
               show_u256 index)%string self
  end.

Definition block_hash (number : Z) self : State * result B256 EvmeError :=
  match block_hashes self !! number with
  | Some hash => (self, Ok hash)
  | None => read_backend (empty_block_hash number) (fork_block_hash number)
              ("Failed to fetch block hash for block " ++ show_u64 number)%string self
  end.

(** *** [DatabaseRef] *)
Definition read_backend_ref {A} (of_empty : A) (of_fork : F → result A string) (msg : string)
    self : result A EvmeError :=
  match backend self with
  | Empty => Ok of_empty
  | Forked db => map_err (λ e, RpcError (msg ++ ": " ++ e)%string) (of_fork db)
  end.

Definition basic_ref (address : Address) self : result (option (AccountInfo Bytecode)) EvmeError :=
  match prestate self !! address with
  | Some account => Ok (Some (info account))
  | None => read_backend_ref (empty_basic address) (fork_basic_ref address)
              ("Failed to fetch account " ++ show_address address)%string self
  end.
Definition code_by_hash_ref (hash : B256) self : result Bytecode EvmeError :=
  match code_map self !! hash with
  | Some c => Ok c
  | None => read_backend_ref (empty_code_by_hash hash) (fork_code_by_hash_ref hash)
              ("Failed to fetch code by hash " ++ show_b256 hash)%string self
  end.
Definition storage_ref (address : Address) (index : U256) self : result U256 EvmeError :=
  match overridden_slot address index self with
  | Some v => Ok v
  | None => read_backend_ref (empty_storage address index) (fork_storage_ref address index)
              ("Failed to fetch storage for " ++ show_address address ++ " at slot " ++
               show_u256 index)%string self
  end.
Definition block_hash_ref (number : Z) self : result B256 EvmeError :=
  match block_hashes self !! number with
  | Some hash => Ok hash
  | None => read_backend_ref (empty_block_hash number) (fork_block_hash_ref number)
              ("Failed to fetch block hash for block " ++ show_u64 number)%string self
  end.

(** ** From the arguments to the state *)
Context {parsers : EvmeParsers} (read_to_string : string → result string string)
  (json_accounts : string → result (list (Address * AccountState)) string)
  {Provider : Type} (connect : string → result Provider string)
  (get_block_number : Provider → result Z string) (alloy_db : Provider → Z → F).

Definition create_provider (self : PreStateArgs) : result (option Provider) EvmeError :=
  if fork self then
    p ←! map_err (λ e, EvmeOther ("Invalid RPC URL '" ++ fork_rpc self ++ "': " ++ e)%string)
          (connect (fork_rpc self));
    Ok (Some p)
  else Ok None.

Definition create_initial_state (self : PreStateArgs) (sender : Address) : result State EvmeError :=
  provider ←! create_provider self;
  st ←! load_prestate read_to_string json_accounts self sender;
  hashes ←! parse_block_hashes self;
  match provider with
  | Some p => new_forked (get_block_number p) (alloy_db p) (fork_block self) st hashes
  | None => Ok (new_empty st hashes)
  end.

(** [convert_evm_state_to_json] and the dump, up to the text of JSON. *)
Definition convert_evm_state_to_json (to_string_pretty : gmap Address AccountState → result string string)
    (st : EvmState Bytecode) : result string EvmeError :=
  map_err (λ e, ExecutionError ("Failed to serialize state: " ++ e)%string)
    (to_string_pretty (from_account <$> st)).
End evme_state.
