(* ===== verification/EvmeTheory.v ===== *)
(** * Theorems about the state of the command line tool

    Reads through the overlay, the JSON form of an account, the overrides of the command
    line, and two ways in which the overlay hides what it should keep. *)
From S2P Require Import Prelude Spec Deps EvmState SystemContracts Evme.
Open Scope Z_scope.
Open Scope rust_scope.
#[local] Set Warnings "-notation-for-abbreviation".

(** ** Reads *)
Section reads.
Context {F Bytecode : Type} {revm : RevmState Bytecode} {empty : EmptyDb Bytecode}
  {forkdb : ForkDb F Bytecode}.
Notation State := (EvmeState F Bytecode).
Implicit Types (self : State) (db : F).

(** Two states of the fork that answer alike. *)
Record same_fork db db' : Prop := {
  same_basic a : fork_basic_ref a db' = fork_basic_ref a db;
  same_code h : fork_code_by_hash_ref h db' = fork_code_by_hash_ref (Bytecode:=Bytecode) h db;
  same_storage a i : fork_storage_ref a i db' = fork_storage_ref (Bytecode:=Bytecode) a i db;
  same_hash n : fork_block_hash_ref n db' = fork_block_hash_ref (Bytecode:=Bytecode) n db;
}.

(** Reading mutably answers what reading by reference answers, and changes no answer. *)
Class ForkDbLaws : Prop := {
  fork_basic_spec a db : same_fork db (fork_basic a db).1 ∧
    (fork_basic a db).2 = fork_basic_ref a db;
  fork_code_spec h db : same_fork db (fork_code_by_hash h db).1 ∧
    (fork_code_by_hash h db).2 = fork_code_by_hash_ref h db;
  fork_storage_spec a i db : same_fork db (fork_storage (Bytecode:=Bytecode) a i db).1 ∧
    (fork_storage (Bytecode:=Bytecode) a i db).2 = fork_storage_ref (Bytecode:=Bytecode) a i db;
  fork_hash_spec n db : same_fork db (fork_block_hash (Bytecode:=Bytecode) n db).1 ∧
    (fork_block_hash (Bytecode:=Bytecode) n db).2 = fork_block_hash_ref (Bytecode:=Bytecode) n db;
}.
Context {laws : ForkDbLaws}.

Inductive query :=
  | QBasic (a : Address) | QCode (h : B256) | QStorage (a : Address) (i : U256) | QHash (n : Z).
Inductive answer :=
  | ABasic (r : result (option (AccountInfo Bytecode)) EvmeError)
  | ACode (r : result Bytecode EvmeError)
  | AStorage (r : result U256 EvmeError)
  | AHash (r : result B256 EvmeError).

(** A read as [Database], and as [DatabaseRef]. *)
Definition read (q : query) self : State * answer :=
  match q with
  | QBasic a => let '(s, r) := basic a self in (s, ABasic r)
  | QCode h => let '(s, r) := code_by_hash h self in (s, ACode r)
  | QStorage a i => let '(s, r) := storage_at a i self in (s, AStorage r)
  | QHash n => let '(s, r) := block_hash n self in (s, AHash r)
  end.
Definition read_ref (q : query) self : answer :=
  match q with
  | QBasic a => ABasic (basic_ref a self)
  | QCode h => ACode (code_by_hash_ref h self)
  | QStorage a i => AStorage (storage_ref a i self)
  | QHash n => AHash (block_hash_ref n self)
  end.

Fixpoint read_all (qs : list query) self : State * list answer :=
  match qs with
  | [] => (self, [])
  | q :: qs => let '(self, a) := read q self in
               let '(self, l) := read_all qs self in (self, a :: l)
  end.

(** States that differ in what the fork has cached. *)
Record same_state self self' : Prop := {
  same_prestate : prestate self' = prestate self;
  same_code_map : code_map self' = code_map self;
  same_hashes : block_hashes self' = block_hashes self;
  same_backend : match backend self, backend self' with
                 | Empty, Empty => True
                 | Forked db, Forked db' => same_fork db db'
                 | _, _ => False
                 end;
}.

#[local] Instance same_fork_preorder : PreOrder same_fork.
Proof.
  split; [done|]. intros ??? [] []. split; intros; etrans; eauto.
Qed.

#[local] Instance same_state_preorder : PreOrder same_state.
Proof.
  split.
  - intros self. split; try done. by destruct (backend self).
  - intros x y z [? ? ? Hxy] [? ? ? Hyz]. split; [congruence..|].
    destruct (backend x), (backend y), (backend z); try done. by etrans.
Qed.

Lemma read_backend_ref_same {A} (of_empty : A) of_fork msg self self' :
  same_state self self' → (∀ db db', same_fork db db' → of_fork db' = of_fork db) →
  read_backend_ref of_empty of_fork msg self' = read_backend_ref of_empty of_fork msg self.
Proof.
  intros [_ _ _ Hb] Hf. unfold read_backend_ref.
  destruct (backend self), (backend self'); try done. by erewrite Hf.
Qed.

Lemma read_ref_same q self self' : same_state self self' → read_ref q self' = read_ref q self.
Proof.
  intros Hs. pose proof Hs as [Hp Hc Hh _].
  destruct q as [a|h|a i|n]; simpl; unfold basic_ref, code_by_hash_ref, storage_ref,
    block_hash_ref, overridden_slot; rewrite ?Hp, ?Hc, ?Hh; f_equal;
    (match goal with |- match ?x with Some _ => _ | None => _ end = _ => destruct x end; [done|]);
    apply read_backend_ref_same; try done; intros ?? []; done.
Qed.

Lemma read_backend_spec {A} (of_empty : A) of_fork of_ref msg self :
  (∀ db, same_fork db (of_fork db).1 ∧ (of_fork db).2 = of_ref db) →
  same_state self (read_backend of_empty of_fork msg self).1 ∧
  (read_backend of_empty of_fork msg self).2 = read_backend_ref of_empty of_ref msg self.
Proof.
  intros Hf. unfold read_backend, read_backend_ref.
  destruct (backend self) as [|db] eqn:Hb; [done|].
  destruct (Hf db) as [Hs Hr]. destruct (of_fork db) as [db' r]. simpl in *. subst r.
  split; [|done]. split; try done. simpl. by rewrite Hb.
Qed.

(** A read of a fork against its reference, under an overlay that has no answer. *)
Ltac by_backend of_ref law :=
  match goal with |- context [match ?x with Some _ => _ | None => _ end] => destruct x end; [done|];
  match goal with |- context [read_backend ?e ?f ?m ?self] =>
    destruct (read_backend_spec e f of_ref m self law) as [Hs Hr];
    destruct (read_backend e f m self) as [s r]; simpl in *; subst r; done
  end.

Lemma read_spec q self : same_state self (read q self).1 ∧ (read q self).2 = read_ref q self.
Proof.
  destruct q as [a|h|a i|n]; simpl.
  - unfold basic, basic_ref. by_backend (fork_basic_ref (F:=F) (Bytecode:=Bytecode) a) (fork_basic_spec a).
  - unfold code_by_hash, code_by_hash_ref. by_backend (fork_code_by_hash_ref (F:=F) (Bytecode:=Bytecode) h) (fork_code_spec h).
  - unfold storage_at, storage_ref. by_backend (fork_storage_ref (F:=F) (Bytecode:=Bytecode) a i) (fork_storage_spec a i).
  - unfold block_hash, block_hash_ref. by_backend (fork_block_hash_ref (F:=F) (Bytecode:=Bytecode) n) (fork_hash_spec n).
Qed.

(** C30: the two faces of the database agree.  Any sequence of reads through the mutable
    interface, which caches what it fetches, gives the answers that the reference
    interface gives in the first state, in any order and with repetitions, and leaves a
    state in which the reference interface answers as before. *)
Theorem reads_agree (qs : list query) self :
  (read_all qs self).2 = map (λ q, read_ref q self) qs ∧
  ∀ q, read_ref q (read_all qs self).1 = read_ref q self.
Proof.
  assert (same_state self (read_all qs self).1 ∧
    (read_all qs self).2 = map (λ q, read_ref q self) qs) as [Hs Hr];
    [|split; [done|intros q; by apply read_ref_same]].
  revert self. induction qs as [|q qs IH]; intros self; [done|]. simpl.
  destruct (read_spec q self) as [Hs Ha]. destruct (read q self) as [s1 a]. simpl in *.
  destruct (IH s1) as [Hs' Hl]. destruct (read_all qs s1) as [s2 l]. simpl in *.
  split; [by etrans|]. subst. f_equal. apply map_ext. intros q'. by apply read_ref_same.
Qed.
End reads.

(** ** Accounts in JSON *)
Section json.
Context {Bytecode : Type} {codes : EvmeBytecode Bytecode}.

(** The bytes of a code are read back as that code. *)
Definition readable (c : Bytecode) : Prop :=
  if bool_decide (original_byte_slice c = []) then c = bytecode_default
  else new_raw_checked (original_byte_slice c) = Ok c.

(** writing an account and reading it back.  The info of an account with a readable
    code comes back unchanged and its slots with their present values, so that it is
    written alike again; but only when its code hash is that of its code, otherwise
    what was written is refused with both hashes. *)
Theorem account_json_roundtrip (acc : Account Bytecode) c :
  code (info acc) = Some c → readable c →
  if bool_decide (code_hash (info acc) = hash_slow c) then
    ∃ acc', into_account (from_account acc) = Ok acc' ∧ info acc' = info acc ∧
      slot_present_value <$> storage acc' = slot_present_value <$> storage acc ∧
      from_account acc' = from_account acc
  else into_account (from_account acc) =
         Err (CodeHashMismatch (code_hash (info acc)) (hash_slow c)).
Proof.
  intros Hc Hread. unfold into_account, from_account. rewrite Hc. simpl.
  assert (decode_code (original_byte_slice c) = Ok c) as ->.
  { unfold readable, decode_code in *. case_bool_decide; [by subst|]. by rewrite Hread. }
  simpl. case_bool_decide as Hh.
  - rewrite bool_decide_true by done. eexists. split; [done|].
    assert (slot_present_value <$> (EvmStorageSlot_new <$> (slot_present_value <$> storage acc)) =
            slot_present_value <$> storage acc) as Hst.
    { rewrite <- !map_fmap_compose. apply map_fmap_ext. done. }
    destruct acc as [i t s st]. destruct i as [b n h code]. simpl in *. subst.
    rewrite Hst. done.
  - by rewrite bool_decide_false by congruence.
Qed.
End json.

(** ** Overrides *)
Section overrides.
Context {Bytecode : Type} {revm : RevmState Bytecode} {codes : EvmeBytecode Bytecode}
  {parsers : EvmeParsers} (read_to_string : string → result string string)
  (json_accounts : string → result (list (Address * AccountState)) string).
Implicit Types st : EvmState Bytecode.

(** The amounts of a list for one address, in order. *)
Definition amounts (a : Address) (l : list (Address * U256)) : list U256 :=
  map snd (filter (λ e, e.1 = a) l).

Lemma entry_modify_eq a f st : entry_or_default a (modify a f st) = f (entry_or_default a st).
Proof. unfold modify, entry_or_default. by rewrite lookup_insert_eq. Qed.
Lemma entry_modify_ne a b f st : a ≠ b → entry_or_default a (modify b f st) = entry_or_default a st.
Proof. intros Hne. unfold modify, entry_or_default. by rewrite lookup_insert_ne by done. Qed.

Lemma foldl_balance (f : U256 → Account Bytecode → Account Bytecode) a l : ∀ st,
  entry_or_default a (foldl (λ st '(b, v), modify b (f v) st) st l) =
  foldl (λ acc v, f v acc) (entry_or_default a st) (amounts a l).
Proof.
  induction l as [|[b v] l IH]; intros st; [done|]. simpl. rewrite IH. unfold amounts.
  rewrite filter_cons. simpl. case_decide as Hb; simpl.
  - subst. by rewrite entry_modify_eq.
  - by rewrite entry_modify_ne by done.
Qed.

Lemma foldl_slots a l : ∀ st,
  let acc := entry_or_default a (foldl (λ st '(b, k, v),
    modify b (extend_storage {[k := EvmStorageSlot_new v]}) st) st l) in
  info acc = info (entry_or_default a st) ∧
  ∀ k, slot_present_value <$> storage acc !! k =
    match last (map snd (filter (λ e, e.1 = (a, k)) l)) with
    | Some v => Some v
    | None => slot_present_value <$> storage (entry_or_default a st) !! k
    end.
Proof.
  induction l as [|[[b k'] v] l IH] using rev_ind; intros st; [done|]. simpl.
  rewrite foldl_app. simpl. destruct (IH st) as [Hi Hs]. destruct (decide (a = b)) as [<-|Hb].
  - rewrite entry_modify_eq. split; [done|]. intros k. simpl.
    rewrite filter_app, filter_cons. simpl. destruct (decide (k = k')) as [<-|Hk].
    + rewrite decide_True by done. rewrite filter_nil, map_app. simpl. rewrite last_snoc.
      by rewrite lookup_union, lookup_singleton_eq, union_Some_l.
    + rewrite decide_False by congruence. rewrite filter_nil, app_nil_r.
      rewrite lookup_union, lookup_singleton_ne, (left_id_L None (∪)) by done. apply Hs.
  - rewrite entry_modify_ne by done. split; [done|]. intros k.
    rewrite filter_app, filter_cons, decide_False, filter_nil, app_nil_r by (simpl; congruence).
    apply Hs.
Qed.

Lemma foldl_set (l : list U256) (acc : Account Bytecode) :
  foldl (λ acc v, set_info_balance v acc) acc l =
    match last l with Some v => set_info_balance v acc | None => acc end.
Proof.
  induction l as [|v l IH] using rev_ind; [done|]. rewrite foldl_app, last_snoc. simpl. rewrite IH.
  by destruct (last l), acc.
Qed.

Lemma foldl_add (l : list U256) (acc : Account Bytecode) :
  foldl (λ acc v, add_info_balance v acc) acc l =
    set_info_balance (foldl (λ b v, (b + v) mod two_256) (balance (info acc)) l) acc.
Proof.
  induction l as [|v l IH] using rev_ind; [by destruct acc as [[] ? ? ?]|].
  rewrite !foldl_app. simpl. rewrite IH. done.
Qed.

(** the state before a run.  When the arguments are accepted, the balance of an
    account is that of [--sender.balance] if it is the sender's, else the last
    [--balance] for it, else that of the file (or of a default account), and then every
    [--faucet] for it is added; a slot has the last value of [--storage], else that of
    the file; nonce and code are those of the file. *)
Theorem prestate_overrides (self : PreStateArgs) sender st :
  load_prestate (Bytecode:=Bytecode) read_to_string json_accounts self sender = Ok st →
  ∃ file balances slots sent faucets,
    load_prestate_file read_to_string json_accounts self = Ok file ∧
    parse_balance self = Ok balances ∧ parse_storage self = Ok slots ∧
    parse_faucet self = Ok faucets ∧
    match sender_balance self with
    | Some s => ∃ b, parse_ether_value s = Ok b ∧ sent = Some b
    | None => sent = None
    end ∧
    ∀ a, let before := entry_or_default a file in
         let after := entry_or_default a st in
      let base := match sent, last (amounts a balances) with
                  | Some b, l => if bool_decide (a = sender) then b
                                 else default (balance (info before)) l
                  | None, l => default (balance (info before)) l
                  end in
      balance (info after) = foldl (λ b v, (b + v) mod two_256) base (amounts a faucets) ∧
      nonce (info after) = nonce (info before) ∧ code_hash (info after) = code_hash (info before) ∧
      code (info after) = code (info before) ∧
      ∀ k, slot_present_value <$> storage after !! k =
        match last (map snd (filter (λ e, e.1 = (a, k)) slots)) with
        | Some v => Some v
        | None => slot_present_value <$> storage before !! k
        end.
Proof.
  unfold load_prestate. intros Hl.
  destruct (load_prestate_file _ _ self) as [file|] eqn:Hfile; [|done].
  destruct (parse_balance self) as [balances|] eqn:Hbal; [|done].
  destruct (parse_storage self) as [slots|] eqn:Hslots; [|done]. cbn [and_then] in Hl.
  set (st1 := foldl _ file balances) in Hl. set (st2 := foldl _ st1 slots) in Hl.
  assert (∃ sent st3, (match sender_balance self with
      | Some s => ∃ b, parse_ether_value s = Ok b ∧ sent = Some b
      | None => sent = None end) ∧
    (match sender_balance self with
     | Some s => b ←! parse_ether_value s; Ok (modify sender (set_info_balance b) st2)
     | None => Ok st2 end) = Ok st3 ∧
    st3 = match sent with Some b => modify sender (set_info_balance b) st2 | None => st2 end)
    as (sent&st3&Hsent&Heq&Hst3).
  { destruct (sender_balance self) as [s|]; [|by exists None, st2].
    destruct (parse_ether_value s) as [b|]; [|done]. exists (Some b). eexists. split; [by exists b|].
    done. }
  rewrite Heq in Hl. cbn [and_then] in Hl.
  destruct (parse_faucet self) as [faucets|] eqn:Hf; [|done]. injection Hl as <-.
  exists file, balances, slots, sent, faucets.
  do 4 (split; [done|]). split; [exact Hsent|].
  intros a. set (before := entry_or_default a file).
  match goal with |- balance (info ?x) = foldl _ ?b _ ∧ _ => set (after := x); set (base := b) end.
  pose proof (foldl_slots a slots st1) as [Hi2 Hs2]. fold st2 in Hi2, Hs2.
  assert (entry_or_default a st1 = match last (amounts a balances) with
            | Some v => set_info_balance v before | None => before end) as H1.
  { unfold st1. rewrite (foldl_balance (λ v, set_info_balance v)). apply foldl_set. }
  unfold after. rewrite (foldl_balance (λ v, add_info_balance v)), foldl_add. simpl.
  assert (storage (entry_or_default a st3) = storage (entry_or_default a st2) ∧
    nonce (info (entry_or_default a st3)) = nonce (info before) ∧
    code_hash (info (entry_or_default a st3)) = code_hash (info before) ∧
    code (info (entry_or_default a st3)) = code (info before) ∧
    balance (info (entry_or_default a st3)) = base) as (Hst&Hn&Hh&Hc&Hb).
  { rewrite Hst3. unfold base. destruct sent as [b|]; [destruct (decide (a = sender)) as [->|Hne]|].
    - rewrite entry_modify_eq, bool_decide_true by done. simpl. rewrite Hi2, H1.
      by destruct (last (amounts sender balances)).
    - rewrite entry_modify_ne, bool_decide_false by done. rewrite Hi2, H1.
      by destruct (last (amounts a balances)).
    - rewrite Hi2, H1. by destruct (last (amounts a balances)). }
  rewrite Hb. split_and!; [done..|]. intros k. rewrite Hst, Hs2, H1.
  destruct (last (map snd _)); [done|]. by destruct (last (amounts a balances)).
Qed.
End overrides.

(** ** The overlay over a fork *)
Section overlay.
Context {F Bytecode : Type} {revm : RevmState Bytecode} {bytecodes : EvmeBytecode Bytecode}
  {empty : EmptyDb Bytecode} {forkdb : ForkDb F Bytecode} {codes : SystemContractCodes}.
Notation State := (EvmeState F Bytecode).
Implicit Types self : State.

(** The single field that an operation on an account without an override changes. *)
Definition fresh (f : Account Bytecode → Account Bytecode) : AccountInfo Bytecode :=
  info (f (Account_default AccountInfo_default)).

Lemma basic_ref_modified (a : Address) f self st :
  prestate self = modify a f st → st !! a = None →
  basic_ref a self = Ok (Some (fresh f)).
Proof.
  intros Hp Ha. unfold basic_ref. rewrite Hp. unfold modify, entry_or_default.
  by rewrite lookup_insert_eq, Ha.
Qed.

(** an override of one field replaces the whole account of a fork.  Funding, giving a
    balance or a nonce to, or setting the code of an account that has no override yet
    makes one out of the default account: whatever the fork says of it, its balance,
    nonce and code are then those of an account that does not exist, but for that field. *)
Theorem single_override_forgets_the_fork (a : Address) self :
  prestate self !! a = None →
  let d := AccountInfo_default in
  (∀ b, basic_ref a (set_account_balance a b self) =
     Ok (Some (mkAccountInfo b (nonce d) (code_hash d) (code d)))) ∧
  (∀ n, basic_ref a (set_account_nonce a n self) =
     Ok (Some (mkAccountInfo (balance d) n (code_hash d) (code d)))) ∧
  (∀ c, basic_ref a (set_account_code a c self) =
     Ok (Some (mkAccountInfo (balance d) (nonce d) (code_hash d) (Some c)))) ∧
  (∀ v, basic_ref a (with_prestate (modify a (add_info_balance v) (prestate self)) self) =
     Ok (Some (mkAccountInfo ((balance d + v) mod two_256) (nonce d) (code_hash d) (code d)))).
Proof.
  intros Ha d. split_and!; intros x.
  - by rewrite (basic_ref_modified a (set_info_balance x) _ (prestate self)).
  - by rewrite (basic_ref_modified a (set_info_nonce x) _ (prestate self)).
  - by rewrite (basic_ref_modified a (set_info_code x) _ (prestate self)).
  - by rewrite (basic_ref_modified a (add_info_balance x) _ (prestate self)).
Qed.

(** The system contracts that the tool knows of, with their codes. *)
Definition tool_contracts (spec : MegaSpecId) : gmap Address Bytes :=
  if MegaSpecId.is_enabled spec REX2 then
    {[ORACLE_CONTRACT_ADDRESS := ORACLE_CONTRACT_CODE_REX2;
      HIGH_PRECISION_TIMESTAMP_ORACLE_ADDRESS := HIGH_PRECISION_TIMESTAMP_ORACLE_CODE;
      KEYLESS_DEPLOY_ADDRESS := KEYLESS_DEPLOY_CODE]}
  else if MegaSpecId.is_enabled spec MINI_REX then
    {[ORACLE_CONTRACT_ADDRESS := ORACLE_CONTRACT_CODE;
      HIGH_PRECISION_TIMESTAMP_ORACLE_ADDRESS := HIGH_PRECISION_TIMESTAMP_ORACLE_CODE]}
  else ∅.

Lemma deploy_system_contracts_prestate spec self a :
  prestate (deploy_system_contracts spec self) !! a =
    match tool_contracts spec !! a with
    | Some raw => Some (set_info_code (Bytecode_new_raw raw) (entry_or_default a (prestate self)))
    | None => prestate self !! a
    end.
Proof.
  assert (ORACLE_CONTRACT_ADDRESS ≠ HIGH_PRECISION_TIMESTAMP_ORACLE_ADDRESS ∧
    ORACLE_CONTRACT_ADDRESS ≠ KEYLESS_DEPLOY_ADDRESS ∧
    HIGH_PRECISION_TIMESTAMP_ORACLE_ADDRESS ≠ KEYLESS_DEPLOY_ADDRESS) as (H1&H2&H3) by done.
  unfold deploy_system_contracts, tool_contracts, set_account_code, insert_code, modify,
    entry_or_default.
  generalize dependent KEYLESS_DEPLOY_ADDRESS.
  generalize dependent HIGH_PRECISION_TIMESTAMP_ORACLE_ADDRESS.
  generalize dependent ORACLE_CONTRACT_ADDRESS. intros o t Hot k Hok Htk.
  destruct spec; simpl; repeat match goal with
  | |- context [<[?x := _]> _ !! a] => destruct (decide (a = x)) as [->|];
      [rewrite !lookup_insert_eq|rewrite !(lookup_insert_ne _ x a) by congruence];
      rewrite ?lookup_insert_ne by congruence
  | |- context [{[?x := _]} !! a] => destruct (decide (a = x)) as [->|];
      [rewrite !lookup_singleton_eq|rewrite !(lookup_singleton_ne x a) by congruence];
      rewrite ?lookup_insert_ne by congruence
  end; rewrite ?lookup_insert_eq, ?lookup_singleton_eq, ?lookup_empty; done.
Qed.

(** what the tool deploys.  For an account without an override the code of a system
    contract of the spec is there, but the code hash stays that of the empty code; and
    the two contracts that a block has from [REX4] on are deployed at no spec. *)
Theorem deployed_codes_have_the_empty_hash {laws : RevmStateLaws Bytecode} spec self a raw :
  (tool_contracts spec !! a = Some raw → prestate self !! a = None →
     ∃ i, basic_ref a (deploy_system_contracts spec self) = Ok (Some i) ∧
       code i = Some (Bytecode_new_raw raw) ∧ code_hash i = KECCAK_EMPTY) ∧
  (tool_contracts spec !! a = None →
     basic_ref a (deploy_system_contracts spec self) = basic_ref a self) ∧
  tool_contracts spec !! ACCESS_CONTROL_ADDRESS = None ∧
  tool_contracts spec !! LIMIT_CONTROL_ADDRESS = None.
Proof.
  assert (backend (deploy_system_contracts spec self) = backend self) as Hb
    by (unfold deploy_system_contracts; by destruct spec).
  split_and!; [| |by destruct spec..].
  - intros Ht Ha. unfold basic_ref. rewrite deploy_system_contracts_prestate, Ht.
    eexists. split; [done|]. unfold entry_or_default. rewrite Ha. simpl.
    split; [done|apply default_code_hash].
  - intros Ht. unfold basic_ref, read_backend_ref.
    by rewrite deploy_system_contracts_prestate, Ht, Hb.
Qed.
End overlay.

(** ** A concrete tool *)
Section example.
#[local] Existing Instances reference_revm example_codes.
#[local] Instance example_bytecodes : EvmeBytecode Z := {|
  bytecode_default := 0;
  new_raw_checked b := match b with [Byte.xef] => Err "bad"%string | _ => Ok (Z.of_nat (length b)) end;
  hash_slow c := 100 + c;
  original_byte_slice c := repeat Byte.x01 (Z.to_nat c) |}.
#[local] Instance example_empty : EmptyDb Z := {|
  empty_basic _ := None; empty_code_by_hash _ := 0; empty_storage _ _ := 0; empty_block_hash n := n |}.
(** A fork that counts what it fetches. *)
#[local] Instance example_fork : ForkDb nat Z := {|
  fork_basic a n := (S n, Ok (Some (mkAccountInfo a 3 107 None)));
  fork_code_by_hash h n := (S n, Ok (h - 100));
  fork_storage a i n := (S n, if decide (i = 9) then Err "timeout"%string else Ok (a + i));
  fork_block_hash k n := (S n, Ok k);
  fork_basic_ref a _ := Ok (Some (mkAccountInfo a 3 107 None));
  fork_code_by_hash_ref h _ := Ok (h - 100);
  fork_storage_ref a i _ := if decide (i = 9) then Err "timeout"%string else Ok (a + i);
  fork_block_hash_ref k _ := Ok k;
  show_address _ := "a"%string; show_u256 _ := "u"%string; show_b256 _ := "h"%string;
  show_u64 _ := "n"%string |}.
#[local] Instance example_fork_laws : ForkDbLaws (F:=nat) (Bytecode:=Z).
Proof. split; intros; done. Qed.
#[local] Instance example_parsers : EvmeParsers := {|
  parse_units num unit :=
    match parse_u64 num with
    | Ok n => if bool_decide (unit = "ether"%string) then Ok (n * 10 ^ 18) else Ok n
    | Err e => Err e
    end;
  B256_from_str := parse_u64; Address_from_str := parse_u64; U256_from_str := parse_u64 |}.

Definition example_tool : EvmeState nat Z :=
  mkEvmeState (Forked 0%nat) {[5 := Account_default (mkAccountInfo 1 1 102 (Some 2))]}
    {[102 := 2]} {[3 := 33]}.

Lemma reads_agree_witness :
  (read_all [QBasic 5; QBasic 6; QStorage 6 9; QBasic 6; QHash 3] example_tool).2 =
    [ABasic (Ok (Some (mkAccountInfo 1 1 102 (Some 2)))); ABasic (Ok (Some (mkAccountInfo 6 3 107 None)));
     AStorage (Err (RpcError "Failed to fetch storage for a at slot u: timeout"));
     ABasic (Ok (Some (mkAccountInfo 6 3 107 None))); AHash (Ok 33)] ∧
  backend (read_all [QBasic 5; QBasic 6; QStorage 6 9; QBasic 6; QHash 3] example_tool).1 = Forked 3%nat.
Proof.
  destruct (reads_agree [QBasic 5; QBasic 6; QStorage 6 9; QBasic 6; QHash 3] example_tool)
    as [Hr _].
  split; [rewrite Hr; vm_compute; reflexivity|vm_compute; reflexivity].
Defined.

Lemma account_json_roundtrip_witness :
  into_account (from_account (Account_default (mkAccountInfo 1 1 101 (Some 2)))) =
    Err (CodeHashMismatch 101 102) ∧
  ∃ acc', into_account (from_account (Account_default (mkAccountInfo 1 1 102 (Some 2)))) = Ok acc' ∧
    info acc' = mkAccountInfo 1 1 102 (Some 2).
Proof.
  assert (readable 2) as Hr by (vm_compute; reflexivity).
  split.
  - exact (account_json_roundtrip (Account_default (mkAccountInfo 1 1 101 (Some 2))) 2
      eq_refl Hr).
  - destruct (account_json_roundtrip (Account_default (mkAccountInfo 1 1 102 (Some 2))) 2
      eq_refl Hr) as (acc'&H1&H2&_). exists acc'. split; [exact H1|exact H2].
Defined.

Definition example_args : PreStateArgs :=
  mkPreStateArgs false None "" None [] (Some "3ether"%string) ["7+=5"; "7 += 6wei"]%string
    ["7=10"; "7=20"; "8=9"]%string ["7:1=2"; "7:1=4"]%string.

Lemma prestate_overrides_witness :
  ∃ st, load_prestate (Bytecode:=Z) (λ _, Err "no file"%string) (λ _, Ok []) example_args 8 = Ok st ∧
    balance (info (entry_or_default 7 st)) = 31 ∧
    slot_present_value <$> storage (entry_or_default 7 st) !! 1 = Some 4.
Proof.
  assert (∃ st, load_prestate (Bytecode:=Z) (λ _, Err "no file"%string) (λ _, Ok []) example_args 8 =
    Ok st) as [st Hl] by (eexists; vm_compute; reflexivity).
  exists st. split; [exact Hl|].
  destruct (prestate_overrides _ _ example_args 8 st Hl)
    as (file&balances&slots&sent&faucets&Hf&Hb&Hs&Hfa&(b&Hp&Hse)&Hall).
  vm_compute in Hf, Hb, Hs, Hfa, Hp.
  injection Hf as <-. injection Hb as <-. injection Hs as <-. injection Hfa as <-.
  destruct (Hall 7) as (Hbal&_&_&_&Hst). rewrite Hse in Hbal.
  split; [rewrite Hbal; vm_compute; reflexivity|].
  etransitivity; [exact (Hst 1)|vm_compute; reflexivity].
Defined.

Lemma single_override_forgets_the_fork_witness :
  basic_ref 6 example_tool = Ok (Some (mkAccountInfo 6 3 107 None)) ∧
  nonce <$> default None (match basic_ref 6 (set_account_balance 6 50 example_tool) with
                          | Ok r => Some r | Err _ => None end) = Some (nonce (Bytecode:=Z) AccountInfo_default).
Proof.
  split; [reflexivity|].
  destruct (single_override_forgets_the_fork 6 example_tool eq_refl) as (Hb&_).
  rewrite Hb. reflexivity.
Defined.

Lemma deployed_codes_have_the_empty_hash_witness :
  ∃ i, basic_ref ORACLE_CONTRACT_ADDRESS (deploy_system_contracts REX4 example_tool) = Ok (Some i) ∧
    code_hash i = KECCAK_EMPTY.
Proof.
  destruct (deployed_codes_have_the_empty_hash (laws:=reference_revm_laws) REX4 example_tool
    ORACLE_CONTRACT_ADDRESS ORACLE_CONTRACT_CODE_REX2) as [Hd _].
  destruct Hd as (i&Hi&_&Hh); [vm_compute; reflexivity|vm_compute; reflexivity|].
  exists i. split; [exact Hi|exact Hh].
Defined.
End example.
