(* ===== verification/EvmeTx.v ===== *)
(** * Transactions of the command line tool

    Models [common/tx.rs], [common/hex.rs] and [common/tx_override.rs] of
    [bin/mega-evme]: a transaction from arguments, the envelope made up for its size,
    a transaction decoded from raw bytes and overridden, and overrides for a replay,
    whose input lives in a thread-local cell.  Envelopes are encoded and decoded by
    [alloy], which is a parameter. *)
From Stdlib Require Import Ascii.
From stdpp Require Import pretty.
From S2P Require Import Prelude Spec Deps EvmState Evme.
Open Scope Z_scope.
Open Scope rust_scope.
#[local] Set Warnings "-notation-for-abbreviation".

(** ** Types of [revm] and [alloy] *)
Record Authorization := mkAuthorization {
  auth_chain_id : U256;
  auth_address : Address;
  auth_nonce : Z;
}.
Inductive RecoveredAuthority := ValidAuthority (a : Address) | InvalidAuthority.
Record RecoveredAuthorization := mkRecovered {
  ra_auth : Authorization;
  ra_authority : RecoveredAuthority;
}.
Record SignedAuthorization := mkSignedAuth {
  sa_auth : Authorization;
  sa_y_parity : Z;
  sa_r : U256;
  sa_s : U256;
}.
Record AccessListItem := mkAccessItem {
  al_address : Address;
  al_storage_keys : list B256;
}.
Notation AccessList := (list AccessListItem).

Record TxEnv := mkTxEnv {
  te_caller : Address;
  te_gas_price : Z;
  te_gas_priority_fee : option Z;
  te_blob_hashes : list B256;
  te_max_fee_per_blob_gas : Z;
  te_tx_type : Z;
  te_gas_limit : Z;
  te_data : Bytes;
  te_nonce : Z;
  te_value : U256;
  te_access_list : AccessList;
  te_authorization_list : list (SignedAuthorization + RecoveredAuthorization);
  te_kind : TxKind;
  te_chain_id : option Z;
}.

Record DepositTransactionParts := mkDepositParts {
  dp_source_hash : B256;
  dp_mint : option Z;
  dp_is_system_transaction : bool;
}.
Definition no_deposit : DepositTransactionParts := mkDepositParts 0 None false.

(** [MegaTransaction], with everything that the tool sets. *)
Record OpTransaction := mkOpTransaction {
  ot_base : TxEnv;
  ot_enveloped_tx : option Bytes;
  ot_deposit : DepositTransactionParts;
}.
Definition MegaTransaction_new (base : TxEnv) : OpTransaction := mkOpTransaction base None no_deposit.

Inductive MegaTxType := Legacy | Eip2930 | Eip1559 | Eip7702 | Deposit.
#[export] Instance MegaTxType_eq_dec : EqDecision MegaTxType.
Proof. solve_decision. Defined.

Record Signature := mkSignature { sig_r : U256; sig_s : U256; sig_y_parity : bool }.

(** The fields of the signed transactions, in the order of [alloy]; the recipient of an
    EIP-7702 transaction is an address. *)
Inductive OpTxEnvelope :=
  | TxLegacy (chain_id : option Z) (nonce gas_price gas_limit : Z) (to : TxKind) (value : U256)
      (input : Bytes) (sig : Signature)
  | TxEip2930 (chain_id nonce gas_price gas_limit : Z) (to : TxKind) (value : U256)
      (access_list : AccessList) (input : Bytes) (sig : Signature)
  | TxEip1559 (chain_id nonce gas_limit max_fee_per_gas max_priority_fee_per_gas : Z) (to : TxKind)
      (value : U256) (access_list : AccessList) (input : Bytes) (sig : Signature)
  | TxEip7702 (chain_id nonce gas_limit max_fee_per_gas max_priority_fee_per_gas : Z)
      (to : Address) (value : U256) (access_list : AccessList)
      (authorization_list : list SignedAuthorization) (input : Bytes) (sig : Signature)
  | TxDeposit (source_hash : B256) (from : Address) (to : TxKind) (mint : Z) (value : U256)
      (gas_limit : Z) (is_system_transaction : bool) (input : Bytes).

(** What the accessors of [alloy] answer about an envelope. *)
Record EnvelopeFields := mkFields {
  ef_chain_id : option Z;
  ef_gas_price : option Z;
  ef_max_fee_per_gas : Z;
  ef_max_priority_fee_per_gas : option Z;
  ef_authorization_list : option (list SignedAuthorization);
  ef_ty : Z;
  ef_gas_limit : Z;
  ef_input : Bytes;
  ef_nonce : Z;
  ef_value : U256;
  ef_access_list : option AccessList;
  ef_kind : TxKind;
}.

Class AlloyTx := {
  fields : OpTxEnvelope → EnvelopeFields;
  recover_signer : OpTxEnvelope → result Address string;
  encoded_2718 : OpTxEnvelope → Bytes;
  decode_2718 : Bytes → result OpTxEnvelope string;
  into_recovered : SignedAuthorization → RecoveredAuthorization;
  hex_decode : string → result Bytes string;
}.

(** ** [hex.rs] *)
Section hex.
Context {alloy : AlloyTx} (read_to_string : string → result string string)
  (read_stdin : result string string).
Open Scope string_scope.

Definition decode_hex (s : string) : result Bytes EvmeError :=
  let s := trim s in
  if bool_decide (s = "") then Ok []
  else
    let hex_str := if String.prefix "0x" s || String.prefix "0X" s
                   then String.substring 2 (String.length s - 2) s else s in
    if negb (bool_decide (String.length hex_str mod 2 = 0)%nat) then
      Err (InvalidInput ("Invalid hex string length: " ++ pretty (String.length hex_str) ++
                         " (must be even)"))
    else map_err InvalidHex (hex_decode hex_str).

Definition load_hex (arg file : option string) : result (option Bytes) EvmeError :=
  match arg, file with
  | None, None => Ok None
  | Some s, _ => b ←! decode_hex s; Ok (Some b)
  | None, Some f =>
      s ←! map_err FileRead (if bool_decide (f = "-") then read_stdin else read_to_string f);
      b ←! decode_hex s;
      Ok (Some b)
  end.
End hex.

(** ** [TxArgs] *)
Record TxArgs := mkTxArgs {
  arg_tx_type : option Z;
  arg_gas : option Z;
  arg_basefee : option Z;
  arg_priority_fee : option Z;
  arg_sender : option Address;
  arg_receiver : option Address;
  arg_nonce : option Z;
  arg_create : option bool;
  arg_value : option string;
  arg_input : option string;
  arg_inputfile : option string;
  arg_source_hash : option B256;
  arg_mint : option Z;
  arg_auth : list string;
  arg_access : list string;
}.

Definition DEFAULT_SENDER : Address := 0xf39Fd6e51aad88F6F4ce6aB8827279cffFb92266.

(** [s.split(delim).collect()], for a delimiter that is not empty. *)
Fixpoint split_fuel (fuel : nat) (delim s : string) : list string :=
  match fuel with
  | O => [s]
  | S fuel =>
      match split_once delim s with
      | Some (before, after) => before :: split_fuel fuel delim after
      | None => [s]
      end
  end.
Definition split (delim s : string) : list string := split_fuel (String.length s) delim s.

(** [s.trim_start_matches("0x")]: as often as it is there. *)
Fixpoint trim_0x (s : string) : string :=
  match s with
  | String.String "0"%char (String.String "x"%char s) => trim_0x s
  | s => s
  end.

Definition hex_digit_of (c : Ascii.ascii) : option Z :=
  let n := Z.of_N (Ascii.N_of_ascii c) in
  if bool_decide (48 ≤ n ≤ 57) then Some (n - 48)
  else if bool_decide (65 ≤ n ≤ 70) then Some (n - 55)
  else if bool_decide (97 ≤ n ≤ 102) then Some (n - 87)
  else None.

(** [u64::from_str_radix(s, 16).ok()]. *)
Fixpoint parse_hex_digits (acc : Z) (s : string) : option Z :=
  match s with
  | ""%string => Some acc
  | String.String c s =>
      d ← hex_digit_of c; m ← checked_mul acc 16; acc ← checked_add m d; parse_hex_digits acc s
  end.
Definition parse_hex_u64 (s : string) : option Z :=
  match s with
  | ""%string => None
  | String.String "+"%char ""%string => None
  | String.String "+"%char s => parse_hex_digits 0 s
  | s => parse_hex_digits 0 s
  end.

Definition result_ok {A E} (r : result A E) : option A :=
  match r with Ok a => Some a | Err _ => None end.

Section tx_args.
Context {parsers : EvmeParsers} {alloy : AlloyTx} (read_to_string : string → result string string)
  (read_stdin : result string string).
Open Scope string_scope.
Implicit Types self : TxArgs.

Definition tx_type self : Z := default 0 (arg_tx_type self).
Definition mega_tx_type self : result MegaTxType EvmeError :=
  let ty := tx_type self in
  if bool_decide (ty = 0)%Z then Ok Legacy
  else if bool_decide (ty = 1)%Z then Ok Eip2930
  else if bool_decide (ty = 2)%Z then Ok Eip1559
  else if bool_decide (ty = 4)%Z then Ok Eip7702
  else if bool_decide (ty = 126)%Z then Ok Deposit
  else Err (UnsupportedTxType ty).

Definition gas self : Z := default 10000000%Z (arg_gas self).
Definition basefee self : Z := default 0%Z (arg_basefee self).
Definition sender self : Address := default DEFAULT_SENDER (arg_sender self).
Definition create self : bool := default false (arg_create self).
Definition receiver self : Address := default 0%Z (arg_receiver self).
Definition value self : result U256 EvmeError :=
  match arg_value self with Some s => parse_ether_value s | None => Ok 0%Z end.

Definition validate self : result unit EvmeError :=
  ty ←! mega_tx_type self;
  if negb (bool_decide (ty = Deposit)) &&
     (bool_decide (is_Some (arg_source_hash self)) || bool_decide (is_Some (arg_mint self)))
  then Err (InvalidInput
    "--source-hash and --mint are only valid for deposit transactions (--tx-type 126)")
  else if bool_decide (ty = Deposit) && bool_decide (arg_source_hash self = None)
  then Err (InvalidInput "--source-hash is required for deposit transactions (--tx-type 126)")
  else if (bool_decide (ty = Legacy) || bool_decide (ty = Eip2930)) &&
          bool_decide (is_Some (arg_priority_fee self))
  then Err (InvalidInput "--priority-fee is not valid for legacy (0) or EIP-2930 (1) transactions")
  else if create self && bool_decide (is_Some (arg_receiver self))
  then Err (InvalidInput "--receiver must not be set when --create is specified")
  else if negb (bool_decide (ty = Eip7702)) && negb (bool_decide (arg_auth self = []))
  then Err (InvalidInput "--auth is only valid for EIP-7702 transactions (--tx-type 4)")
  else if negb (bool_decide (arg_access self = [])) &&
          negb (bool_decide (ty = Eip2930) || bool_decide (ty = Eip1559) || bool_decide (ty = Eip7702))
  then Err (InvalidInput
    "--access is only valid for EIP-2930 (1), EIP-1559 (2), or EIP-7702 (4) transactions")
  else Ok tt.

Definition bad_auth (s : string) : EvmeError :=
  InvalidInput ("Invalid authorization format '" ++ s ++ "'. Expected: AUTHORITY:NONCE->DELEGATION").

Definition parse_auth_fields (s : string) (chain_id : Z) :
    result (Authorization * Address) EvmeError :=
  match split "->" s with
  | [lhs; rhs] =>
      delegation ←! ok_or (result_ok (Address_from_str (trim rhs)))
                      (InvalidInput ("Invalid delegation address: " ++ trim rhs));
      match split ":" lhs with
      | [authority; nonce] =>
          authority ←! ok_or (result_ok (Address_from_str (trim authority)))
                         (InvalidInput ("Invalid authority address: " ++ trim authority));
          let n := trim nonce in
          nonce ←! ok_or (if String.prefix "0x" n then parse_hex_u64 (trim_0x n)
                          else result_ok (parse_u64 n))
                     (InvalidInput ("Invalid nonce: " ++ n));
          Ok (mkAuthorization chain_id delegation nonce, authority)
      | _ => Err (bad_auth s)
      end
  | _ => Err (bad_auth s)
  end.

Definition parse_authorization (chain_id : Z) (s : string) :
    result RecoveredAuthorization EvmeError :=
  '(auth, authority) ←! parse_auth_fields s chain_id;
  Ok (mkRecovered auth (ValidAuthority authority)).

Definition parse_authorization_list self (chain_id : Z) :
    result (list RecoveredAuthorization) EvmeError :=
  map_result (parse_authorization chain_id) (arg_auth self).

Definition parse_access_list_item (s : string) : result AccessListItem EvmeError :=
  match split_once ":" s with
  | Some (addr_str, keys_str) =>
      address ←! ok_or (result_ok (Address_from_str (trim addr_str)))
                   (InvalidInput ("Invalid access list address: " ++ trim addr_str));
      storage_keys ←! map_result (λ k, ok_or (result_ok (B256_from_str (trim k)))
                        (InvalidInput ("Invalid storage key: " ++ trim k))) (split "," keys_str);
      Ok (mkAccessItem address storage_keys)
  | None =>
      address ←! ok_or (result_ok (Address_from_str (trim s)))
                   (InvalidInput ("Invalid access list address: " ++ trim s));
      Ok (mkAccessItem address [])
  end.
Definition parse_access_list self : result AccessList EvmeError :=
  map_result parse_access_list_item (arg_access self).

Definition create_tx_env self (chain_id : Z) : result TxEnv EvmeError :=
  _ ←! validate self;
  data ←! load_hex read_to_string read_stdin (arg_input self) (arg_inputfile self);
  let data := default [] data in
  let kind := if create self then TxCreate else TxCall (receiver self) in
  authorization_list ←! parse_authorization_list self chain_id;
  access_list ←! parse_access_list self;
  v ←! value self;
  Ok (mkTxEnv (sender self) (basefee self) (arg_priority_fee self) [] 0 (tx_type self) (gas self)
        data (default 0%Z (arg_nonce self)) v access_list (map inr authorization_list) kind
        (Some chain_id)).

(** ** The envelope made up for a transaction *)
Definition dummy_sig : Signature := mkSignature 1 1 false.
Definition MegaTxType_try_from (ty : Z) : option MegaTxType :=
  if bool_decide (ty = 0)%Z then Some Legacy
  else if bool_decide (ty = 1)%Z then Some Eip2930
  else if bool_decide (ty = 2)%Z then Some Eip1559
  else if bool_decide (ty = 4)%Z then Some Eip7702
  else if bool_decide (ty = 126)%Z then Some Deposit
  else None.

Definition sign_auth (a : SignedAuthorization + RecoveredAuthorization) : SignedAuthorization :=
  match a with
  | inl signed => signed
  | inr recovered => mkSignedAuth (ra_auth recovered) 0 1 1
  end.

Definition create_fake_envelope (t : TxEnv) : result OpTxEnvelope EvmeError :=
  let chain_id := default 0%Z (te_chain_id t) in
  ty ←! ok_or (MegaTxType_try_from (te_tx_type t)) (UnsupportedTxType (te_tx_type t));
  match ty with
  | Legacy => Ok (TxLegacy (te_chain_id t) (te_nonce t) (te_gas_price t) (te_gas_limit t) (te_kind t)
                    (te_value t) (te_data t) dummy_sig)
  | Eip2930 => Ok (TxEip2930 chain_id (te_nonce t) (te_gas_price t) (te_gas_limit t) (te_kind t)
                     (te_value t) (te_access_list t) (te_data t) dummy_sig)
  | Eip1559 => Ok (TxEip1559 chain_id (te_nonce t) (te_gas_limit t) (te_gas_price t)
                     (default 0%Z (te_gas_priority_fee t)) (te_kind t) (te_value t)
                     (te_access_list t) (te_data t) dummy_sig)
  | Eip7702 =>
      match te_kind t with
      | TxCall a => Ok (TxEip7702 chain_id (te_nonce t) (te_gas_limit t) (te_gas_price t)
                          (default 0%Z (te_gas_priority_fee t)) a (te_value t) (te_access_list t)
                          (map sign_auth (te_authorization_list t)) (te_data t) dummy_sig)
      | TxCreate => Err (InvalidInput "EIP-7702 transactions cannot be contract creation")
      end
  | Deposit => Ok (TxDeposit 0 (te_caller t) (te_kind t) 0 (te_value t) (te_gas_limit t) false
                     (te_data t))
  end.

Definition create_tx self (chain_id : Z) : result OpTransaction EvmeError :=
  tx_env ←! create_tx_env self chain_id;
  envelope ←! create_fake_envelope tx_env;
  ty ←! mega_tx_type self;
  Ok (mkOpTransaction tx_env (Some (encoded_2718 envelope))
        (if bool_decide (ty = Deposit)
         then mkDepositParts (default 0%Z (arg_source_hash self)) (arg_mint self) false
         else no_deposit)).

(** ** [DecodedRawTx] *)
Record DecodedRawTx := mkDecoded {
  dr_tx_env : TxEnv;
  dr_raw_bytes : Bytes;
  dr_deposit : option (B256 * option Z * bool);
}.

Definition from_raw (raw_bytes : Bytes) : result DecodedRawTx EvmeError :=
  envelope ←! map_err (λ e, InvalidInput ("Failed to decode raw transaction: " ++ e))
                (decode_2718 raw_bytes);
  caller ←! map_err (λ e, InvalidInput ("Failed to recover signer: " ++ e))
              (recover_signer envelope);
  let deposit := match envelope with
                 | TxDeposit source_hash _ _ mint _ _ is_system _ =>
                     Some (source_hash, (if bool_decide (mint = 0)%Z then None else Some mint),
                           is_system)
                 | _ => None
                 end in
  let f := fields envelope in
  let '(gas_price, gas_priority_fee) :=
    match envelope with
    | TxLegacy _ _ _ _ _ _ _ _ | TxEip2930 _ _ _ _ _ _ _ _ _ => (default 0%Z (ef_gas_price f), None)
    | TxEip1559 _ _ _ _ _ _ _ _ _ _ | TxEip7702 _ _ _ _ _ _ _ _ _ _ _ =>
        (ef_max_fee_per_gas f, ef_max_priority_fee_per_gas f)
    | TxDeposit _ _ _ _ _ _ _ _ => (0%Z, None)
    end in
  let authorization_list :=
    default [] (map (λ sa, inr (into_recovered sa)) <$> ef_authorization_list f) in
  Ok (mkDecoded
        (mkTxEnv caller gas_price gas_priority_fee [] 0 (ef_ty f) (ef_gas_limit f) (ef_input f)
           (ef_nonce f) (ef_value f) (default [] (ef_access_list f)) authorization_list (ef_kind f)
           (ef_chain_id f))
        raw_bytes deposit).

Definition override_tx_env (tx_args : TxArgs) (self : DecodedRawTx) :
    result DecodedRawTx EvmeError :=
  let t := dr_tx_env self in
  let tx_type := default (te_tx_type t) (arg_tx_type tx_args) in
  let gas_limit := default (te_gas_limit t) (arg_gas tx_args) in
  let gas_price := default (te_gas_price t) (arg_basefee tx_args) in
  let gas_priority_fee :=
    match arg_priority_fee tx_args with Some f => Some f | None => te_gas_priority_fee t end in
  let caller := default (te_caller t) (arg_sender tx_args) in
  value ←! match arg_value tx_args with Some v => parse_ether_value v | None => Ok (te_value t) end;
  let nonce := default (te_nonce t) (arg_nonce tx_args) in
  data ←! (if bool_decide (is_Some (arg_input tx_args)) || bool_decide (is_Some (arg_inputfile tx_args))
           then d ←! load_hex read_to_string read_stdin (arg_input tx_args) (arg_inputfile tx_args);
                Ok (default [] d)
           else Ok (te_data t));
  let kind :=
    if default false (arg_create tx_args) then TxCreate
    else match arg_receiver tx_args with Some r => TxCall r | None => te_kind t end in
  access_list ←! (if negb (bool_decide (arg_access tx_args = [])) then parse_access_list tx_args
                  else Ok (te_access_list t));
  authorization_list ←!
    (if negb (bool_decide (arg_auth tx_args = []))
     then l ←! parse_authorization_list tx_args (default 0%Z (te_chain_id t)); Ok (map inr l)
     else Ok (te_authorization_list t));
  let deposit :=
    match dr_deposit self with
    | Some (source_hash, mint, is_system) =>
        Some (default source_hash (arg_source_hash tx_args),
              match arg_mint tx_args with Some m => Some m | None => mint end, is_system)
    | None => None
    end in
  Ok (mkDecoded
        (mkTxEnv caller gas_price gas_priority_fee (te_blob_hashes t) (te_max_fee_per_blob_gas t)
           tx_type gas_limit data nonce value access_list authorization_list kind (te_chain_id t))
        (dr_raw_bytes self) deposit).

Definition into_tx (self : DecodedRawTx) : OpTransaction :=
  mkOpTransaction (dr_tx_env self) (Some (dr_raw_bytes self))
    match dr_deposit self with
    | Some (source_hash, mint, is_system) => mkDepositParts source_hash mint is_system
    | None => no_deposit
    end.

(** ** [tx_override.rs]: the cell [INPUT_OVERRIDE] of the thread is passed along *)
Record TxOverrideArgs := mkTxOverrideArgs {
  ov_gas_limit : option Z;
  ov_value : option string;
  ov_input : option string;
  ov_input_file : option string;
}.
Record TxOverrides := mkTxOverrides {
  o_gas_limit : option Z;
  o_value : option U256;
  o_has_input_override : bool;
}.
Record OverriddenTx (T : Type) := mkOverridden { inner : T; overrides : TxOverrides }.
#[global] Arguments mkOverridden {T}.
#[global] Arguments inner {T}.
#[global] Arguments overrides {T}.
Notation INPUT_OVERRIDE := (option Bytes).

Definition has_overrides (a : TxOverrideArgs) : bool :=
  bool_decide (is_Some (ov_gas_limit a)) || bool_decide (is_Some (ov_value a)) ||
  bool_decide (is_Some (ov_input a)) || bool_decide (is_Some (ov_input_file a)).

(** The cell after the call and what the call returns: it is written before the value is
    parsed, which can fail, and is left alone when the input cannot be loaded. *)
Definition wrap {T} (a : TxOverrideArgs) (tx : T) (cell : INPUT_OVERRIDE) :
    INPUT_OVERRIDE * result (OverriddenTx T) EvmeError :=
  match load_hex read_to_string read_stdin (ov_input a) (ov_input_file a) with
  | Err e => (cell, Err e)
  | Ok loaded =>
      (loaded,
       value ←! match ov_value a with
                | Some v => v ←! parse_ether_value v; Ok (Some v)
                | None => Ok None
                end;
       Ok (mkOverridden tx (mkTxOverrides (ov_gas_limit a) value (bool_decide (is_Some loaded)))))
  end.

Definition apply (self : TxOverrides) (cell : INPUT_OVERRIDE) (tx : OpTransaction) :
    OpTransaction :=
  let b := ot_base tx in
  let data := if o_has_input_override self then default (te_data b) cell else te_data b in
  mkOpTransaction
    (mkTxEnv (te_caller b) (te_gas_price b) (te_gas_priority_fee b) (te_blob_hashes b)
       (te_max_fee_per_blob_gas b) (te_tx_type b) (default (te_gas_limit b) (o_gas_limit self))
       data (te_nonce b) (default (te_value b) (o_value self)) (te_access_list b)
       (te_authorization_list b) (te_kind b) (te_chain_id b))
    (ot_enveloped_tx tx) (ot_deposit tx).

Definition into_tx_env {T} (into_inner : T → OpTransaction) (self : OverriddenTx T)
    (cell : INPUT_OVERRIDE) : OpTransaction :=
  apply (overrides self) cell (into_inner (inner self)).
End tx_args.
