(* ===== verification/EvmeTxTheory.v ===== *)
(** * Theorems about the transactions of the command line tool

    What [validate] accepts, the round trip through the envelope that is made up for a
    transaction, overriding a decoded transaction, and the thread-local input of a
    replay. *)
From S2P Require Import Prelude Spec Deps EvmState Evme EvmeTx.
Open Scope Z_scope.
Open Scope rust_scope.
#[local] Set Warnings "-notation-for-abbreviation".

(** ** Results *)
Lemma and_then_ok {A B E} (r : result A E) (f : A → result B E) b :
  and_then r f = Ok b ↔ ∃ a, r = Ok a ∧ f a = Ok b.
Proof. destruct r; cbn; naive_solver. Qed.

(** Takes apart a computation that succeeded. *)
Ltac ok_inv H :=
  repeat lazymatch type of H with
  | and_then _ _ = Ok _ =>
      let a := fresh "a" in let Ha := fresh "Ha" in
      apply and_then_ok in H as (a & Ha & H)
  end.

Lemma map_result_ok {A B E} (f : A → result B E) (l : list A) ys :
  map_result f l = Ok ys ↔ Forall2 (λ x y, f x = Ok y) l ys.
Proof.
  revert ys. induction l as [|x l IH]; intros ys; cbn.
  - split; [intros [= <-]; constructor|inversion 1; reflexivity].
  - destruct (f x) as [y|e] eqn:Hx.
    + destruct (map_result f l) as [zs|e] eqn:Hl.
      * split; [intros [= <-]; constructor; [done|by apply IH]|].
        inversion 1 as [|? ? ? ? Hy Hys]; subst. apply IH in Hys. congruence.
      * split; [done|]. inversion 1 as [|? ? ? ? Hy Hys]; subst. apply IH in Hys. congruence.
    + split; [done|]. inversion 1; subst; congruence.
Qed.

(** ** Splitting strings *)
Lemma prefix_length p s : String.prefix p s = true → (String.length p ≤ String.length s)%nat.
Proof.
  revert s. induction p as [|c p IH]; intros [|c' s]; cbn; try done; [lia|].
  destruct (Ascii.ascii_dec c c'); [|done]. intros Hp. specialize (IH s Hp). lia.
Qed.

Lemma substring_length n m s :
  (n + m ≤ String.length s)%nat → String.length (String.substring n m s) = m.
Proof.
  revert n m. induction s as [|c s IH]; intros [|n] [|m]; cbn; try lia; intros Hl.
  - f_equal. apply (IH 0%nat m). lia.
  - rewrite IH; lia.
  - rewrite IH; lia.
Qed.

(** What comes after a delimiter is shorter than the string by its length. *)
Lemma split_once_shorter delim s before after :
  split_once delim s = Some (before, after) →
  (String.length after + String.length delim ≤ String.length s)%nat.
Proof.
  revert before. induction s as [|c s IH]; intros before; cbn [split_once].
  - destruct delim; [by intros [= <- <-]|done].
  - destruct (String.prefix delim (String.String c s)) eqn:Hp.
    + set (rest := String.substring _ _ _). intros Hs. assert (after = rest) as -> by congruence.
      apply prefix_length in Hp. unfold rest. rewrite substring_length; lia.
    + destruct (split_once delim s) as [[b a]|]; [|done]. intros [= <- <-].
      specialize (IH b eq_refl). cbn. lia.
Qed.

(** The length of a string is fuel enough to split it at a delimiter. *)
Lemma split_fuel_enough delim s n :
  delim ≠ ""%string → (String.length s ≤ n)%nat → split_fuel n delim s = split delim s.
Proof.
  intros Hd. unfold split.
  assert (0 < String.length delim)%nat as Hpos by (destruct delim; [done|cbn; lia]).
  assert (∀ m n s, (String.length s ≤ n)%nat → (String.length s ≤ m)%nat →
    split_fuel n delim s = split_fuel m delim s) as Hall by (clear s n;
    induction m as [|m IH]; intros [|n] s Hn Hm; cbn; try done;
    (destruct (split_once delim s) as [[b a]|] eqn:Hs; [|done]);
    apply split_once_shorter in Hs; [lia|lia|f_equal; apply IH; lia]).
  intros Hn. by apply Hall.
Qed.

(** ** What [validate] accepts *)
(** The rules of the flags, for a transaction of type [ty]. *)
Definition flags_fit (self : TxArgs) (ty : MegaTxType) : Prop :=
  (arg_source_hash self ≠ None ↔ ty = Deposit) ∧
  (arg_mint self ≠ None → ty = Deposit) ∧
  (arg_priority_fee self ≠ None → ty ≠ Legacy ∧ ty ≠ Eip2930) ∧
  (create self = true → arg_receiver self = None) ∧
  (arg_auth self ≠ [] → ty = Eip7702) ∧
  (arg_access self ≠ [] → ty = Eip2930 ∨ ty = Eip1559 ∨ ty = Eip7702).

Lemma is_Some_false {A} (o : option A) : bool_decide (is_Some o) = false ↔ o = None.
Proof. rewrite bool_decide_eq_false, eq_None_not_Some. reflexivity. Qed.

(** A check that ends in an error. *)
Lemma guard_ok (c : bool) (e : EvmeError) k :
  (if c then Err e else k) = Ok tt ↔ c = false ∧ k = Ok tt.
Proof. destruct c; naive_solver. Qed.

(** The arguments are accepted exactly when the type is known and the flags fit it; a
    missing receiver is not among the rules. *)
Theorem validate_exact (self : TxArgs) :
  validate self = Ok tt ↔ ∃ ty, mega_tx_type self = Ok ty ∧ flags_fit self ty.
Proof.
  unfold validate, flags_fit. destruct (mega_tx_type self) as [ty|e]; cbn [and_then]; [|naive_solver].
  assert (∀ P : MegaTxType → Prop, (∃ ty', Ok (E:=EvmeError) ty = Ok ty' ∧ P ty') ↔ P ty) as ->
    by naive_solver.
  rewrite !guard_ok.
  assert ((negb (bool_decide (ty = Deposit)) &&
     (bool_decide (is_Some (arg_source_hash self)) || bool_decide (is_Some (arg_mint self)))) = false ∧
    (bool_decide (ty = Deposit) && bool_decide (arg_source_hash self = None)) = false ↔
    (arg_source_hash self ≠ None ↔ ty = Deposit) ∧ (arg_mint self ≠ None → ty = Deposit)) as Hd
    by (destruct ty, (arg_source_hash self), (arg_mint self); cbn; naive_solver).
  assert (((bool_decide (ty = Legacy) || bool_decide (ty = Eip2930)) &&
     bool_decide (is_Some (arg_priority_fee self))) = false ↔
    (arg_priority_fee self ≠ None → ty ≠ Legacy ∧ ty ≠ Eip2930)) as Hp
    by (destruct ty, (arg_priority_fee self); cbn; naive_solver).
  assert ((create self && bool_decide (is_Some (arg_receiver self))) = false ↔
    (create self = true → arg_receiver self = None)) as Hr
    by (destruct (create self), (arg_receiver self); cbn; naive_solver).
  assert ((negb (bool_decide (ty = Eip7702)) && negb (bool_decide (arg_auth self = []))) = false ↔
    (arg_auth self ≠ [] → ty = Eip7702)) as Hau
    by (destruct ty, (arg_auth self); cbn; naive_solver).
  assert ((negb (bool_decide (arg_access self = [])) &&
     negb (bool_decide (ty = Eip2930) || bool_decide (ty = Eip1559) || bool_decide (ty = Eip7702))) = false ↔
    (arg_access self ≠ [] → ty = Eip2930 ∨ ty = Eip1559 ∨ ty = Eip7702)) as Hac
    by (destruct ty, (arg_access self); cbn; naive_solver).
  rewrite Hp, Hr, Hau, Hac, (assoc and), Hd.
  split; [intros ((?&?)&?&?&?&?&_)|intros (?&?&?&?&?&?)]; auto 10.
Qed.

(** ** The envelope made up for a transaction *)
(** What the accessors of [alloy] answer for the three types that carry no authorization. *)
Class EnvelopeLaws {alloy : AlloyTx} : Prop := {
  fields_legacy c n p g to v i sig :
    fields (TxLegacy c n p g to v i sig) = mkFields c (Some p) p None None 0 g i n v None to;
  fields_2930 c n p g to v al i sig :
    fields (TxEip2930 c n p g to v al i sig) =
      mkFields (Some c) (Some p) p None None 1 g i n v (Some al) to;
  fields_1559 c n g f pf to v al i sig :
    fields (TxEip1559 c n g f pf to v al i sig) =
      mkFields (Some c) None f (Some pf) None 2 g i n v (Some al) to;
}.

(** The transaction as its envelope tells it: the signer is recovered, and the priority
    fee of an EIP-1559 transaction is explicit. *)
Definition signed_by (signer : Address) (t : TxEnv) : TxEnv :=
  mkTxEnv signer (te_gas_price t)
    (if bool_decide (te_tx_type t = 2) then Some (default 0 (te_gas_priority_fee t)) else None)
    (te_blob_hashes t) (te_max_fee_per_blob_gas t) (te_tx_type t) (te_gas_limit t) (te_data t)
    (te_nonce t) (te_value t) (te_access_list t) (te_authorization_list t) (te_kind t)
    (te_chain_id t).

Section tx_theory.
Context {parsers : EvmeParsers} {alloy : AlloyTx} (read_to_string : string → result string string)
  (read_stdin : result string string).
Notation create_tx_env := (create_tx_env read_to_string read_stdin).
Notation create_tx := (create_tx read_to_string read_stdin).
Notation load_hex := (load_hex read_to_string read_stdin).
Notation override_tx_env := (override_tx_env read_to_string read_stdin).
Notation wrap := (wrap read_to_string read_stdin).

(** The transaction that accepted arguments stand for. *)
Lemma create_tx_env_inv self chain_id t :
  create_tx_env self chain_id = Ok t →
  ∃ ty data auths acl v,
    mega_tx_type self = Ok ty ∧ flags_fit self ty ∧
    load_hex (arg_input self) (arg_inputfile self) = Ok data ∧
    parse_authorization_list self chain_id = Ok auths ∧
    parse_access_list self = Ok acl ∧ value self = Ok v ∧
    t = mkTxEnv (sender self) (basefee self) (arg_priority_fee self) [] 0 (tx_type self) (gas self)
          (default [] data) (default 0 (arg_nonce self)) v acl (map inr auths)
          (if create self then TxCreate else TxCall (receiver self)) (Some chain_id).
Proof.
  unfold EvmeTx.create_tx_env. intros H. ok_inv H. destruct a. injection H as <-.
  match goal with Hv : validate self = _ |- _ => apply validate_exact in Hv as (ty&Hty&Hf) end.
  eauto 15.
Qed.

Lemma mega_tx_type_try self ty :
  mega_tx_type self = Ok ty → MegaTxType_try_from (tx_type self) = Some ty.
Proof. unfold mega_tx_type, MegaTxType_try_from. repeat case_bool_decide; congruence. Qed.

Lemma mega_tx_type_plain self ty :
  mega_tx_type self = Ok ty →
  (tx_type self = 0 → ty = Legacy) ∧ (tx_type self = 1 → ty = Eip2930) ∧
  (tx_type self = 2 → ty = Eip1559).
Proof. unfold mega_tx_type. repeat case_bool_decide; intros [= <-]; repeat split; congruence. Qed.

(** A transaction without flags of its type has nothing of other types. *)
Lemma plain_lists self chain_id ty auths acl :
  flags_fit self ty →
  parse_authorization_list self chain_id = Ok auths → parse_access_list self = Ok acl →
  (ty ≠ Eip7702 → auths = []) ∧ (ty = Legacy → acl = []).
Proof.
  unfold parse_authorization_list, parse_access_list. rewrite !map_result_ok.
  intros (_&_&_&_&Hau&Hac) Ha Hl. split; intros Ht.
  - destruct (arg_auth self); [by inversion Ha|]. by destruct Ht; apply Hau.
  - subst. destruct (arg_access self); [by inversion Hl|].
    destruct Hac as [?|[?|?]]; done.
Qed.

(** C31: The envelope made up for a transaction of type 0, 1 or 2 is a faithful one:
    decoded, it is the transaction that was built from the arguments, under the signer
    recovered from it, and the same envelope is made up for what was decoded. *)
Theorem fake_envelope_roundtrip {laws : EnvelopeLaws} self chain_id tx
    (Htx : create_tx self chain_id = Ok tx)
    (Hty : tx_type self = 0 ∨ tx_type self = 1 ∨ tx_type self = 2) :
  ∃ e, ot_enveloped_tx tx = Some (encoded_2718 e) ∧ create_fake_envelope (ot_base tx) = Ok e ∧
    ∀ signer (Hdec : decode_2718 (encoded_2718 e) = Ok e) (Hrec : recover_signer e = Ok signer),
      ∃ d, from_raw (encoded_2718 e) = Ok d ∧
        into_tx d = mkOpTransaction (signed_by signer (ot_base tx)) (ot_enveloped_tx tx) (ot_deposit tx) ∧
        create_fake_envelope (dr_tx_env d) = Ok e.
Proof.
  unfold EvmeTx.create_tx in Htx. ok_inv Htx. injection Htx as <-. rename a into t, a0 into e.
  apply create_tx_env_inv in Ha as (ty&data&auths&acl&v&Hmt&Hfit&Hd&Hau&Hacl&Hv&->).
  destruct (plain_lists _ _ _ _ _ Hfit Hau Hacl) as [Hna Hnl].
  assert (a1 = ty) as -> by congruence.
  exists e. split; [done|]. split; [exact Ha0|]. intros signer Hdec Hrec.
  unfold from_raw. rewrite Hdec. cbn [map_err and_then]. rewrite Hrec. cbn [map_err and_then].
  pose proof (mega_tx_type_try _ _ Hmt) as Htry. destruct Hfit as (_&_&Hpf&_).
  unfold create_fake_envelope in *. cbn in *. rewrite Htry in *. cbn in *. clear Htry.
  destruct (mega_tx_type_plain _ _ Hmt) as (Hl&H2930&H1559).
  destruct Hty as [Ht|[Ht|Ht]];
    [pose proof (Hl Ht) as Hc|pose proof (H2930 Ht) as Hc|pose proof (H1559 Ht) as Hc];
    clear Hl H2930 H1559 Hmt; subst ty; injection Ha0 as <-; rewrite (Hna ltac:(discriminate)), ?Ht;
    clear Hna.
  - rewrite (Hnl eq_refl), fields_legacy. eexists. split; [reflexivity|]. split; reflexivity.
  - rewrite fields_2930. eexists. split; [reflexivity|]. split; reflexivity.
  - rewrite fields_1559. eexists. split; [reflexivity|]. split; reflexivity.
Qed.

(** ** Overrides of a decoded transaction *)
(** Every flag is there that has a default of its own. *)
Definition explicit (self : TxArgs) : Prop :=
  is_Some (arg_tx_type self) ∧ is_Some (arg_gas self) ∧ is_Some (arg_basefee self) ∧
  is_Some (arg_sender self) ∧ is_Some (arg_value self) ∧ is_Some (arg_nonce self) ∧
  (is_Some (arg_input self) ∨ is_Some (arg_inputfile self)) ∧
  (create self = true ∨ is_Some (arg_receiver self)).

(** Arguments that set every field make a decoded transaction into the one they
    stand for by themselves, whatever was decoded; arguments that set none leave it as
    it was decoded. *)
Theorem explicit_arguments_decide self chain_id t d
    (Ht : create_tx_env self chain_id = Ok t) (Hex : explicit self)
    (Hchain : te_chain_id (dr_tx_env d) = Some chain_id)
    (Hblob : te_blob_hashes (dr_tx_env d) = [] ∧ te_max_fee_per_blob_gas (dr_tx_env d) = 0)
    (Hpf : arg_priority_fee self = None → te_gas_priority_fee (dr_tx_env d) = None)
    (Hacl : arg_access self = [] → te_access_list (dr_tx_env d) = [])
    (Hau : arg_auth self = [] → te_authorization_list (dr_tx_env d) = []) :
  (∃ d', override_tx_env self d = Ok d' ∧ dr_tx_env d' = t ∧ dr_raw_bytes d' = dr_raw_bytes d) ∧
  override_tx_env (mkTxArgs None None None None None None None None None None None None None [] []) d
    = Ok d.
Proof.
  split.
  - apply create_tx_env_inv in Ht as (ty&data&auths&acl&v&Hmt&Hfit&Hd&Hpa&Hpl&Hv&->).
    destruct Hex as ([ty' Hty]&[g Hg]&[b Hb]&[s Hs]&[val Hval]&[n Hn]&Hin&Hkind).
    unfold EvmeTx.override_tx_env. unfold value in Hv. rewrite Hval in Hv |- *. rewrite Hv.
    cbn [and_then].
    assert (bool_decide (is_Some (arg_input self)) || bool_decide (is_Some (arg_inputfile self)) = true)
      as -> by (by rewrite <-bool_decide_or; apply bool_decide_true).
    rewrite Hd. cbn [and_then]. rewrite Hchain. change (default 0 (Some chain_id)) with chain_id.
    assert ((if negb (bool_decide (arg_access self = [])) then parse_access_list self
             else Ok (te_access_list (dr_tx_env d))) = Ok acl) as ->.
    { case_bool_decide as Hno; cbn [negb]; [|done]. rewrite (Hacl Hno).
      unfold parse_access_list in Hpl. rewrite Hno in Hpl. by injection Hpl as <-. }
    cbn [and_then].
    assert ((if negb (bool_decide (arg_auth self = []))
             then l ←! parse_authorization_list self chain_id; Ok (map inr l)
             else Ok (te_authorization_list (dr_tx_env d))) = Ok (map inr auths)) as ->.
    { case_bool_decide as Hno; cbn [negb]; [|by rewrite Hpa]. rewrite (Hau Hno).
      unfold parse_authorization_list in Hpa. rewrite Hno in Hpa. by injection Hpa as <-. }
    cbn [and_then]. eexists. split; [reflexivity|]. split; [|reflexivity]. cbn [dr_tx_env].
    destruct Hblob as [-> ->].
    unfold sender, basefee, tx_type, gas, create, receiver in *.
    rewrite Hty, Hg, Hb, Hs, Hn. cbn [default from_option id].
    f_equal.
    + destruct (arg_priority_fee self); [done|]. by apply Hpf.
    + destruct (default false (arg_create self)); [done|]. destruct Hkind as [?|[r ->]]; done.
  - destruct d as [[] raw [[[] ?]|]]; reflexivity.
Qed.

(** Without a receiver and without [create] the zero address is called: nothing asks for
    the receiver. *)
Theorem call_without_receiver self chain_id t :
  create_tx_env self chain_id = Ok t → create self = false → arg_receiver self = None →
  te_kind t = TxCall 0.
Proof.
  intros Ht Hc Hr. apply create_tx_env_inv in Ht as (ty&data&auths&acl&v&_&_&_&_&_&_&->).
  cbn. unfold receiver. by rewrite Hc, Hr.
Qed.

(** ** Overrides of a replay *)
Section overrides.
Context {T : Type} (into_inner : T → OpTransaction).

(** What a wrapped transaction becomes: its own gas limit and value, and the input that
    is in the cell when it is converted. *)
Definition overridden (a : TxOverrideArgs) (value : option U256) (input : option Bytes)
    (tx : OpTransaction) : OpTransaction :=
  let b := ot_base tx in
  mkOpTransaction
    (mkTxEnv (te_caller b) (te_gas_price b) (te_gas_priority_fee b) (te_blob_hashes b)
       (te_max_fee_per_blob_gas b) (te_tx_type b) (default (te_gas_limit b) (ov_gas_limit a))
       (default (te_data b) input) (te_nonce b) (default (te_value b) value) (te_access_list b)
       (te_authorization_list b) (te_kind b) (te_chain_id b))
    (ot_enveloped_tx tx) (ot_deposit tx).

Lemma wrap_inv a (tx : T) cell cell' w :
  wrap a tx cell = (cell', Ok w) →
  ∃ v, load_hex (ov_input a) (ov_input_file a) = Ok cell' ∧
    match ov_value a with Some s => ∃ n, parse_ether_value s = Ok n ∧ v = Some n | None => v = None end ∧
    w = mkOverridden tx (mkTxOverrides (ov_gas_limit a) v (bool_decide (is_Some cell'))).
Proof.
  unfold EvmeTx.wrap. destruct (load_hex _ _) as [l|e]; [|done]. intros H. injection H as -> H.
  ok_inv H. injection H as <-. exists a0. split; [done|]. split; [|done].
  destruct (ov_value a); [|by injection Ha as <-]. ok_inv Ha. injection Ha as <-. eauto.
Qed.

(** A wrapped transaction is overridden with its own input as long as no other one is
    wrapped on its thread. A later one decides instead which input it gets, if it was to
    get one at all; gas limit and value stay its own. *)
Theorem input_override_is_the_threads a b (tx tx' : T) cell c1 c2 w1 w2
    (Ha : wrap a tx cell = (c1, Ok w1)) (Hb : wrap b tx' c1 = (c2, Ok w2)) :
  load_hex (ov_input a) (ov_input_file a) = Ok c1 ∧ load_hex (ov_input b) (ov_input_file b) = Ok c2 ∧
  ∃ v, into_tx_env into_inner w1 c1 = overridden a v c1 (into_inner tx) ∧
    into_tx_env into_inner w1 c2 =
      overridden a v (if bool_decide (is_Some c1) then c2 else None) (into_inner tx) ∧
    (has_overrides a = false → ∀ c, into_tx_env into_inner w1 c = into_inner tx).
Proof.
  apply wrap_inv in Ha as (v&Hl&Hv&->). apply wrap_inv in Hb as (v'&Hl'&_&_).
  split; [done|]. split; [done|]. exists v. split; [|split].
  - unfold into_tx_env, apply, overridden. cbn. by destruct c1.
  - unfold into_tx_env, apply, overridden. cbn. by destruct c1.
  - unfold has_overrides. rewrite !orb_false_iff, !is_Some_false. intros (((Hg&Hval)&Hi)&Hf) c.
    rewrite Hval in Hv. subst v. rewrite Hi, Hf in Hl. injection Hl as <-. rewrite Hg.
    unfold into_tx_env, apply. cbn. by destruct (into_inner tx) as [[] ? ?].
Qed.
End overrides.
End tx_theory.

(** ** Witnesses *)
Section example.
(** Parsers that read one number, and a codec that knows the envelopes of one
    transaction of each type. *)
#[local] Instance example_parsers : EvmeParsers := {|
  parse_units n _ := parse_u64 n;
  B256_from_str := parse_u64; Address_from_str := parse_u64; U256_from_str := parse_u64;
|}.

Definition data12 : Bytes := [Byte.x01; Byte.x02].
Definition example_envelope : OpTxEnvelope :=
  TxEip1559 6342 3 21000 7 0 (TxCall 9) 5 [mkAccessItem 4 [1; 2]] data12 dummy_sig.
Definition example_fields (e : OpTxEnvelope) : EnvelopeFields :=
  match e with
  | TxLegacy c n p g to v i _ => mkFields c (Some p) p None None 0 g i n v None to
  | TxEip2930 c n p g to v al i _ => mkFields (Some c) (Some p) p None None 1 g i n v (Some al) to
  | TxEip1559 c n g f pf to v al i _ =>
      mkFields (Some c) None f (Some pf) None 2 g i n v (Some al) to
  | TxEip7702 c n g f pf to v al au i _ =>
      mkFields (Some c) None f (Some pf) (Some au) 4 g i n v (Some al) (TxCall to)
  | TxDeposit _ _ to _ v g _ i => mkFields None None 0 None None 126 g i 0 v None to
  end.
#[local] Instance example_alloy : AlloyTx := {|
  fields := example_fields;
  recover_signer _ := Ok 77;
  encoded_2718 e := if bool_decide (ef_ty (example_fields e) = 2) then [Byte.x02] else [];
  decode_2718 b := if Byte.eqb (List.hd Byte.x00 b) Byte.x02 then Ok example_envelope else Err "short"%string;
  into_recovered sa := mkRecovered (sa_auth sa) InvalidAuthority;
  hex_decode s := if bool_decide (s = "0102"%string) then Ok data12 else Err "hex"%string;
|}.
#[local] Instance example_laws : EnvelopeLaws := ltac:(split; reflexivity).

Definition no_file (_ : string) : result string string := Err "no such file"%string.
Definition example_tx_args : TxArgs :=
  mkTxArgs (Some 2) (Some 21000) (Some 7) None (Some 8) (Some 9) (Some 3) None (Some "5"%string)
    (Some "0x0102"%string) None None None [] ["4:1,2"%string].

Lemma fake_envelope_roundtrip_witness :
  ∃ tx d, create_tx no_file (Ok ""%string) example_tx_args 6342 = Ok tx ∧
    from_raw [Byte.x02] = Ok d ∧ te_caller (ot_base tx) = 8 ∧ te_caller (dr_tx_env d) = 77 ∧
    te_gas_priority_fee (ot_base (into_tx d)) = Some 0 ∧ te_data (dr_tx_env d) = data12.
Proof.
  assert (∃ tx, create_tx no_file (Ok ""%string) example_tx_args 6342 = Ok tx) as [tx Htx]
    by (eexists; vm_compute; reflexivity).
  destruct (fake_envelope_roundtrip no_file (Ok ""%string) example_tx_args 6342 tx Htx
    (or_intror (or_intror eq_refl))) as (e&Henv&He&Hd).
  vm_compute in Htx. injection Htx as <-. vm_compute in He. injection He as <-.
  destruct (Hd 77 eq_refl eq_refl) as (d&Hr&Hi&_).
  eexists _, d. split; [reflexivity|]. split; [exact Hr|]. split; [reflexivity|].
  assert (dr_tx_env d = ot_base (into_tx d)) as -> by reflexivity. rewrite Hi.
  split; [reflexivity|]. split; reflexivity.
Defined.

Lemma explicit_arguments_decide_witness :
  ∃ t d d', create_tx_env no_file (Ok ""%string) example_tx_args 6342 = Ok t ∧
    from_raw [Byte.x02] = Ok d ∧ te_caller (dr_tx_env d) = 77 ∧
    override_tx_env no_file (Ok ""%string)
      (mkTxArgs (Some 2) (Some 21000) (Some 7) (Some 1) (Some 8) (Some 9) (Some 3) None
         (Some "6"%string) (Some "0x0102"%string) None None None [] ["4"%string]) d = Ok d' ∧
    te_value (dr_tx_env d') = 6.
Proof.
  assert (∃ t, create_tx_env no_file (Ok ""%string) example_tx_args 6342 = Ok t) as [t Ht]
    by (eexists; vm_compute; reflexivity).
  assert (∃ d, from_raw [Byte.x02] = Ok d) as [d Hd] by (eexists; vm_compute; reflexivity).
  set (args := mkTxArgs (Some 2) (Some 21000) (Some 7) (Some 1) (Some 8) (Some 9) (Some 3) None
         (Some "6"%string) (Some "0x0102"%string) None None None [] ["4"%string]).
  assert (∃ t', create_tx_env no_file (Ok ""%string) args 6342 = Ok t') as [t' Ht']
    by (eexists; vm_compute; reflexivity).
  exists t, d. vm_compute in Hd. injection Hd as <-.
  destruct (explicit_arguments_decide no_file (Ok ""%string) args 6342 t'
    (mkDecoded (dr_tx_env (mkDecoded (signed_by 77
      (mkTxEnv 0 7 None [] 0 2 21000 data12 3 5 [mkAccessItem 4 [1; 2]] [] (TxCall 9) (Some 6342)))
      [] None)) [Byte.x02] None) Ht'
    ltac:(unfold explicit; cbn; repeat split; eauto) eq_refl (conj eq_refl eq_refl)
    ltac:(discriminate) ltac:(discriminate) (λ _, eq_refl)) as [(d'&Hd'&Hbase&_) _].
  exists d'. split; [exact Ht|]. split; [reflexivity|]. split; [reflexivity|].
  split; [exact Hd'|]. rewrite Hbase. vm_compute in Ht'. by injection Ht' as <-.
Defined.

Lemma input_override_is_the_threads_witness :
  ∃ w, wrap no_file (Ok ""%string) (mkTxOverrideArgs None None (Some "0x0102"%string) None) 1 None =
      (Some data12, Ok w) ∧
    te_data (ot_base (into_tx_env (λ n, MegaTransaction_new (mkTxEnv 0 0 None [] 0 0 n [Byte.x09] 0 0 [] []
      TxCreate None)) w None)) = [Byte.x09].
Proof.
  eexists. split; [vm_compute; reflexivity|].
  destruct (input_override_is_the_threads (parsers:=example_parsers) (alloy:=example_alloy) no_file (Ok ""%string)
    (λ n, MegaTransaction_new (mkTxEnv 0 0 None [] 0 0 n [Byte.x09] 0 0 [] [] TxCreate None))
    (mkTxOverrideArgs None None (Some "0x0102"%string) None)
    (mkTxOverrideArgs (Some 5) None None None) 1 2 None (Some data12) None
    (mkOverridden 1 (mkTxOverrides None None true)) (mkOverridden 2 (mkTxOverrides (Some 5) None false))
    eq_refl eq_refl)
    as (_&_&v&_&Hlater&_).
  rewrite Hlater. reflexivity.
Defined.
End example.
