(* ===== verification/ToolEvm.v ===== *)
(** * The EVM as the state test runner and the transition tool use it

    Both make a context with [MegaContext::default().with_db(..).with_cfg(..)
    .with_block(..)] and run one transaction on it that is committed to the database.
    Models the constructors of [evm/context.rs] that are theirs, and what [revm] makes of
    [evm/interfaces.rs] to commit a transaction; [ToolEvm] is what the tools need. *)
From S2P Require Import Prelude Spec Deps Volatile LimitTypes FrameLimit Trackers Hardfork BlockLimit.
From S2P Require Import EvmState Inspect SystemContracts Context Sandbox Intercept StorageGas Instructions Execution.
From S2P Require Import AdditionalLimit BlockExecutor.
Open Scope Z_scope.
Open Scope rust_scope.
#[local] Set Warnings "-notation-for-abbreviation".

(** ** The context *)
Section context.
Context `{Profile} `{BitflagsApi} `{InstructionResultApi} `{SStoreApi} `{AbiApi} {J0 J S O : Type}.

(** [with_db] gives the inner context another journal; the rest is kept. *)
Definition with_db (op_with_db : OpContext J0 → OpContext J) (self : MegaContext J0 S O) :
    MegaContext J S O :=
  mkMegaContext (op_with_db (inner self)) (spec self) (disable_beneficiary self)
    (additional_limit self) (ctx_salt_env self) (dynamic_storage_gas_cost self) (oracle_env self)
    (volatile_data_tracker self) (disable_sandbox self).

(** [MegaContext::default()], on the inner context that [revm] makes for it. *)
Definition MegaContext_default (empty_inner : OpContext J0) (salt_env : S) (oracle_env : O) :
    outcome (MegaContext J0 S O) :=
  MegaContext.new_with_shared_ext_envs empty_inner EQUIVALENCE salt_env oracle_env.

Definition tool_context (empty_inner : OpContext J0) (salt_env : S) (oracle_env : O)
    (op_with_db : OpContext J0 → OpContext J) (cfg : CfgEnv MegaSpecId) (block : BlockEnv) :
    outcome (MegaContext J S O) :=
  ctx ← MegaContext_default empty_inner salt_env oracle_env;
  MegaContext.with_block block (MegaContext.with_cfg cfg (with_db op_with_db ctx)).
End context.

(** ** What a tool needs of an EVM *)
Class ToolEvm (Ctx Evm DB E Log : Type) := {
  te_new : Ctx → Evm;
  te_transact_commit : MegaTransaction → Evm →
    outcome (Evm * result (ExecutionResult MegaHaltReason Log) E);
  te_inspect_tx_commit : MegaTransaction → Evm →
    outcome (Evm * result (ExecutionResult MegaHaltReason Log) E);
  te_into_db : Evm → DB;
}.

(** ** [MegaEvm] is one *)
Section mega_evm.
Context `{Profile} `{BitflagsApi} `{InstructionResultApi} `{SStoreApi} `{AbiApi} `{KeylessAbi}
  `{InterceptAbi} `{RevmGasConstants} {Gas : Type} `{GasApi Gas} {Sig : Type} `{KeylessTxApi Sig}
  {DB E Bytecode S SE SD AL O Log Acc I P F : Type} {revm : RevmState Bytecode}
  {bytecode : BytecodeApi Bytecode} {database : Database DB E Bytecode} {display : Display E}
  {show : Display SE} {show_address : Display Address} {oracle : OracleEnv O}
  {salt : SaltEnv S SE} {host : OpHost (Journal DB Bytecode) SD AL}
  {sandbox : SandboxEvm (Journal DB Bytecode) (SandboxDb DB Bytecode) S O Bytecode Log}
  {journal : JournalInspectTr (Journal DB Bytecode) E Acc} `{AccountApi Acc} `{CreateApi Acc}
  `{ValidationApi Bytecode}
  `{FrameApi Gas E (MegaContext (Journal DB Bytecode) S O) I P F}
  `{InspectorApi Gas (MegaContext (Journal DB Bytecode) S O) I P F}
  `{OpHandler Gas E Log (MegaContext (Journal DB Bytecode) S O) I P F}
  `{ExecLoop Gas E (MegaEvm (MegaContext (Journal DB Bytecode) S O) I P F)}
  (journal_finalize : Journal DB Bytecode → Journal DB Bytecode * EvmState Bytecode)
  (empty_frames : F) (NoOpInspector tracer : I) (precompiles_of : MegaSpecId → P)
  (db_commit : EvmState Bytecode → DB → DB).
Notation Ctx := (MegaContext (Journal DB Bytecode) S O).
Notation Evm := (MegaEvm Ctx I P F).
Notation Executed := (outcome (Evm * result (ExecutionResult MegaHaltReason Log) (MegaError E))).
Implicit Types evm : Evm.

Definition evm_db evm : DB := j_database (MegaContext.journal (evm_ctx evm)).

(** [ExecuteCommitEvm::commit] hands the state to the database. *)
Definition commit (state : EvmState Bytecode) evm : Evm :=
  with_evm_ctx (set_database (db_commit state (evm_db evm)) (evm_ctx evm)) evm.

(** [transact_commit] and [inspect_tx_commit]: what ran without an error is finalized and
    committed. *)
Definition and_commit (ran : Evm * result (ExecutionResult MegaHaltReason Log) (MegaError E)) :
    Evm * result (ExecutionResult MegaHaltReason Log) (MegaError E) :=
  match and_finalize journal_finalize ran with
  | (evm, Ok (res, state)) => (commit state evm, Ok res)
  | (evm, Err e) => (evm, Err e)
  end.
Definition transact_commit (t : MegaTransaction) evm : Executed :=
  ran ← transact_one (Log:=Log) (E:=E) t evm; Ret (and_commit ran).
Definition inspect_tx_commit (t : MegaTransaction) evm : Executed :=
  ran ← inspect_one_tx (Log:=Log) (E:=E) t (Execution.with_inspector empty_frames tracer evm);
  Ret (and_commit ran).

#[local] Instance mega_tool_evm : ToolEvm Ctx Evm DB (MegaError E) Log := {|
  te_new := Execution.new empty_frames NoOpInspector precompiles_of;
  te_transact_commit := transact_commit;
  te_inspect_tx_commit := inspect_tx_commit;
  te_into_db := evm_db |}.
End mega_evm.

(** ** The limits of a tool's context *)
Section theory.
Context `{Profile} `{BitflagsApi} `{InstructionResultApi} `{SStoreApi} `{AbiApi} {J0 J S O : Type}.

(** The limits of two specs differ as soon as one of them has limits. *)
Lemma limits_differ spec :
  spec ≠ EQUIVALENCE →
  EvmTxRuntimeLimits.from_spec spec ≠ EvmTxRuntimeLimits.from_spec EQUIVALENCE.
Proof.
  intros Hs Heq. apply (f_equal tx_data_size_limit) in Heq. by destruct spec.
Qed.

(** C32: Whatever spec a tool configures, its context runs that spec with the limits, the
    detention caps and the storage gas rules of [EQUIVALENCE], which no other spec has. *)
Theorem tools_run_with_equivalence_limits (empty_inner : OpContext J0) (salt_env : S)
    (oracle_env : O) (op_with_db : OpContext J0 → OpContext J) cfg block ctx
    (Hctx : tool_context empty_inner salt_env oracle_env op_with_db cfg block = Ret ctx) :
  let limits := EvmTxRuntimeLimits.from_spec EQUIVALENCE in
  spec ctx = cfg_spec cfg ∧
  additional_limit ctx = AdditionalLimit.new EQUIVALENCE limits ∧
  volatile_data_tracker ctx =
    VolatileDataAccessTracker.new (block_env_access_compute_gas_limit limits)
      (oracle_access_compute_gas_limit limits) ∧
  gas_spec (dynamic_storage_gas_cost ctx) = EQUIVALENCE ∧
  (cfg_spec cfg ≠ EQUIVALENCE → limits ≠ EvmTxRuntimeLimits.from_spec (cfg_spec cfg)).
Proof.
  intros limits.
  cut (spec ctx = cfg_spec cfg ∧ additional_limit ctx = AdditionalLimit.new EQUIVALENCE limits ∧
    volatile_data_tracker ctx =
      VolatileDataAccessTracker.new (block_env_access_compute_gas_limit limits)
        (oracle_access_compute_gas_limit limits) ∧
    gas_spec (dynamic_storage_gas_cost ctx) = EQUIVALENCE).
  { intros (Hs&Ha&Hv&Hg). repeat (split; [assumption|]). intros Hne Heq.
    by apply (limits_differ _ Hne). }
  unfold tool_context, MegaContext_default, MegaContext.new_with_shared_ext_envs, MegaContext.with_block,
    MegaContext.on_new_block, DynamicGasCost.on_new_block in Hctx.
  outcome_inv. repeat case_match; outcome_inv; done.
Qed.
End theory.

(** ** Witness *)
Section example.
#[local] Existing Instances checked_build reference_instruction_result reference_sstore
  reference_abi reference_bitflags.

Definition example_cfg : CfgEnv MegaSpecId :=
  mkCfgEnv REX4 6342 true None None false None None None 0 false false false false false.
Definition example_op : OpContext unit :=
  mkOpContext (example_tx Bytes_new None [] 0) (mkBlockEnv 0 0 1 30000000) (into_op_cfg example_cfg) tt None.

Lemma tools_run_with_equivalence_limits_witness :
  ∃ ctx, tool_context example_op tt tt id example_cfg (mkBlockEnv 10 77 1000 30000000) = Ret ctx ∧
    spec ctx = REX4 ∧ gas_spec (dynamic_storage_gas_cost ctx) = EQUIVALENCE ∧
    additional_limit ctx ≠ AdditionalLimit.new REX4 (EvmTxRuntimeLimits.from_spec REX4).
Proof.
  assert (∃ ctx, tool_context example_op tt tt id example_cfg (mkBlockEnv 10 77 1000 30000000) = Ret ctx)
    as [ctx Hctx] by (eexists; vm_compute; reflexivity).
  exists ctx. split; [exact Hctx|].
  destruct (tools_run_with_equivalence_limits example_op tt tt id example_cfg
    (mkBlockEnv 10 77 1000 30000000) ctx Hctx) as (Hs&Ha&_&Hg&Hne).
  split; [exact Hs|]. split; [exact Hg|]. rewrite Ha. intros Heq.
  apply Hne; [discriminate|]. apply (f_equal AdditionalLimit.limits Heq).
Defined.
End example.
