(* ===== verification/StateTest.v ===== *)
(** * The state tests

    Models [crates/state-test]: the tests of a file ([types/]), the environment and the
    transaction that a test is run with, the execution of one test and its checks, and the
    loop over the tests of a file ([runner.rs] without its threads).  JSON, hashes, keys
    and the cache of [revm] are parameters. *)
From stdpp Require Import pretty.
From S2P Require Import Prelude Spec Deps EvmState LimitTypes Context Sandbox Evme EvmeTx ToolEvm.
Open Scope Z_scope.
Open Scope rust_scope.
#[local] Set Warnings "-notation-for-abbreviation".

#[export] Instance Byte_eq_dec : EqDecision Byte.byte := Stdlib.Strings.Byte.byte_eq_dec.
#[export] Instance Bytes_eq_dec : EqDecision Bytes := list_eq_dec.

(** ** [types/spec.rs] *)
Inductive SpecName :=
  | Frontier | FrontierToHomesteadAt5 | Homestead | HomesteadToDaoAt5 | HomesteadToEIP150At5
  | EIP150 | EIP158 | EIP158ToByzantiumAt5 | Byzantium | ByzantiumToConstantinopleAt5
  | ByzantiumToConstantinopleFixAt5 | Constantinople | ConstantinopleFix | Istanbul | Berlin
  | BerlinToLondonAt5 | London | Paris | Merge | Shanghai | Cancun | Prague | Osaka | MiniRex
  | UnknownSpec.
#[export] Instance SpecName_eq_dec : EqDecision SpecName.
Proof. solve_decision. Defined.

(** [to_spec_id] panics on an unknown spec. *)
Definition to_spec_id (self : SpecName) : outcome MegaSpecId :=
  match self with
  | MiniRex => Ret MINI_REX
  | UnknownSpec => Panic
  | _ => Ret EQUIVALENCE
  end.

(** ** Accounts and environments: the fields that are read *)
Record StAccountInfo := mkStAccount {
  st_balance : U256;
  st_code : Bytes;
  st_nonce : Z;
  st_storage : gmap U256 U256;
}.

Record Env := mkEnv {
  current_chain_id : option U256;
  current_coinbase : Address;
  current_difficulty : U256;
  current_gas_limit : U256;
  current_number : U256;
  current_timestamp : U256;
  current_base_fee : option U256;
  current_random : option U256;
  parent_blob_gas_used : option U256;
  parent_excess_blob_gas : option U256;
  parent_target_blobs_per_block : option U256;
  current_excess_blob_gas : option U256;
}.

(** The block environment of [revm], with what the tools set. *)
Record BlobExcessGasAndPrice := mkBlob { excess_blob_gas : Z; blob_gasprice : Z }.
Record ToolBlockEnv := mkToolBlock {
  tb_number : U256;
  tb_beneficiary : Address;
  tb_timestamp : U256;
  tb_gas_limit : Z;
  tb_basefee : Z;
  tb_difficulty : U256;
  tb_prevrandao : option B256;
  tb_blob : option BlobExcessGasAndPrice;
}.
Definition with_blob (b : BlobExcessGasAndPrice) (t : ToolBlockEnv) : ToolBlockEnv :=
  mkToolBlock (tb_number t) (tb_beneficiary t) (tb_timestamp t) (tb_gas_limit t) (tb_basefee t)
    (tb_difficulty t) (tb_prevrandao t) (Some b).
Definition with_prevrandao (r : B256) (t : ToolBlockEnv) : ToolBlockEnv :=
  mkToolBlock (tb_number t) (tb_beneficiary t) (tb_timestamp t) (tb_gas_limit t) (tb_basefee t)
    (tb_difficulty t) (Some r) (tb_blob t).
Definition to_block_env (t : ToolBlockEnv) : BlockEnv :=
  mkBlockEnv (tb_number t) (tb_beneficiary t) (tb_timestamp t) (tb_gas_limit t).

(** [x.to::<u64>()] panics, [x.try_into().unwrap_or(u64::MAX)] and [x.saturating_to()] do
    not. *)
Definition to_u64 (x : U256) : outcome Z := if decide (in_u64 x) then Ret x else Panic.
Definition u64_or_max (x : U256) : Z := if decide (in_u64 x) then x else u64_max.
Definition u128_max : Z := 340282366920938463463374607431768211455.
Definition u128_or_max (x : U256) : Z := if decide (0 ≤ x ≤ u128_max) then x else u128_max.
Definition expect_u128 (x : U256) : outcome Z :=
  if decide (0 ≤ x ≤ u128_max) then Ret x else Panic.

(** Blob prices are [revm]'s, and so is the order of Ethereum's specs. *)
Inductive EthSpec := SPURIOUS_DRAGON | MERGE | PRAGUE | OSAKA.
Class EthRules := {
  blob_price : Z → BlobExcessGasAndPrice;
  calc_excess_blob_gas : Z → Z → Z → Z;
  TARGET_BLOB_GAS_PER_BLOCK_CANCUN : Z;
  eth_enabled : MegaSpecId → EthSpec → bool;
}.

(** ** [types/transaction.rs] *)
Inductive TransactionType := TypeLegacy | TypeEip2930 | TypeEip1559 | TypeEip4844 | TypeEip7702 | TypeCustom.
Class RevmTxTypes := {
  TransactionType_from : Z → TransactionType;
  TransactionType_as_u8 : TransactionType → Z;
  TxEnv_default : TxEnv;
}.

(** The parts of a test's transactions; [initcodes] is never read. *)
Record TransactionParts := mkParts {
  p_tx_type : option Z;
  p_data : list Bytes;
  p_gas_limit : list U256;
  p_gas_price : option U256;
  p_nonce : U256;
  p_secret_key : B256;
  p_sender : option Address;
  p_to : option Address;
  p_value : list U256;
  p_max_fee_per_gas : option U256;
  p_max_priority_fee_per_gas : option U256;
  p_access_lists : list (option AccessList);
  p_authorization_list : option (list SignedAuthorization);
  p_blob_versioned_hashes : list B256;
  p_max_fee_per_blob_gas : option U256;
}.

Record TxPartIndices := mkIndices { i_data : nat; i_gas : nat; i_value : nat }.

Definition parts_tx_type `{RevmTxTypes} (self : TransactionParts) (access_list_index : nat) :
    option TransactionType :=
  match p_tx_type self with
  | Some ty => Some (TransactionType_from ty)
  | None =>
      let tx_type := match p_access_lists self !! access_list_index with
                     | Some (Some _) => TypeEip2930
                     | _ => TypeLegacy
                     end in
      let tx_type := match p_max_fee_per_gas self with Some _ => TypeEip1559 | None => tx_type end in
      match p_max_fee_per_blob_gas self with
      | Some _ => match p_to self with Some _ => Some TypeEip4844 | None => None end
      | None =>
          match p_authorization_list self with
          | Some _ => match p_to self with Some _ => Some TypeEip7702 | None => None end
          | None => Some tx_type
          end
      end
  end.

(** ** [types/test.rs] and [types/test_unit.rs] *)
Inductive StTestError :=
  | UnknownPrivateKey (key : B256)
  | InvalidTransactionType
  | UnexpectedTxException (expected got : option string).

(** What is read of a test and of a unit; [post_state], [state], [txbytes] and [_info]
    are not. *)
Record Test := mkTest {
  expect_exception : option string;
  indexes : TxPartIndices;
  t_hash : B256;
  t_logs : B256;
}.

Record TestUnit := mkUnit {
  u_env : Env;
  u_pre : gmap Address StAccountInfo;
  u_post : list (SpecName * list Test);
  u_transaction : TransactionParts;
  u_out : option Bytes;
}.

Section tx_env.
Context `{RevmTxTypes} (recover_address : B256 → option Address).

(** [opt.map(f)] for an [f] that may panic. *)
Definition map_outcome {A B} (f : A → outcome B) (o : option A) : outcome (option B) :=
  match o with Some a => b ← f a; Ret (Some b) | None => Ret None end.

(** The fields are read in order, and each access out of range panics. *)
Definition tx_env (self : Test) (unit : TestUnit) : outcome (result TxEnv StTestError) :=
  let t := u_transaction unit in
  match (match p_sender t with
         | Some address => Ok address
         | None => match recover_address (p_secret_key t) with
                   | Some address => Ok address
                   | None => Err (UnknownPrivateKey (p_secret_key t))
                   end
         end) with
  | Err e => Ret (Err e)
  | Ok caller =>
      match parts_tx_type t (i_data (indexes self)) with
      | None =>
          Ret (Err (if bool_decide (is_Some (expect_exception self))
                    then UnexpectedTxException (expect_exception self)
                           (Some "Invalid transaction type"%string)
                    else InvalidTransactionType))
      | Some tx_type =>
          let gas_price := match p_gas_price t with
                           | Some p => Some p | None => p_max_fee_per_gas t end in
          gas_priority_fee ← map_outcome expect_u128 (p_max_priority_fee_per_gas t);
          max_fee_per_blob_gas ← map_outcome expect_u128 (p_max_fee_per_blob_gas t);
          gas_limit ← expect (p_gas_limit t !! i_gas (indexes self));
          data ← expect (p_data t !! i_data (indexes self));
          nonce ← to_u64 (p_nonce t);
          value ← expect (p_value t !! i_value (indexes self));
          let access_list :=
            match p_access_lists t !! i_data (indexes self) with
            | Some (Some l) => l
            | _ => []
            end in
          Ret (Ok (mkTxEnv caller (u128_or_max (default 0 gas_price)) gas_priority_fee
            (p_blob_versioned_hashes t) (default u128_max max_fee_per_blob_gas)
            (TransactionType_as_u8 tx_type) (Z.min u64_max gas_limit) data nonce value access_list
            (map inl (default [] (p_authorization_list t)))
            (match p_to t with Some a => TxCall a | None => TxCreate end)
            (te_chain_id TxEnv_default)))
      end
  end.
End tx_env.

(** ** The cache and the database of [revm] *)
Class CacheApi (Cache Bytecode : Type) := {
  cache_new : bool → Cache;
  insert_account_with_storage : Address → AccountInfo Bytecode → gmap U256 U256 → Cache → Cache;
  cache_set_state_clear_flag : bool → Cache → Cache;
  new_legacy : Bytes → Bytecode;
  keccak256 : Bytes → B256;
}.
Class StateApi (DB Cache Bytecode : Type) := {
  with_cached_prestate : Cache → DB;
  remove_cached_account : Address → DB → DB;
  trie_account : DB → list (Address * (AccountInfo Bytecode * gmap U256 U256));
}.

(** What [triehash], RLP and Keccak make of a state and of logs. *)
Record TrieAccount := mkTrieAccount {
  ta_nonce : Z;
  ta_balance : U256;
  ta_root_hash : B256;
  ta_code_hash : B256;
}.
Class HashApi (Log : Type) := {
  storage_root : list (U256 * U256) → B256;
  trie_root : list (Address * TrieAccount) → B256;
  log_rlp_hash : list Log → B256;
}.

Section unit.
Context `{EthRules} {Cache Bytecode : Type} {revm : RevmState Bytecode}
  {codes : EvmeBytecode Bytecode} {cache_api : CacheApi Cache Bytecode}.

(** Code that is no bytecode of a known form is taken as legacy code. *)
Definition bytecode_of (code : Bytes) : Bytecode :=
  match new_raw_checked code with Ok b => b | Err _ => new_legacy code end.

Definition state (self : TestUnit) : Cache :=
  map_fold (λ address i cache,
    insert_account_with_storage address
      (mkAccountInfo (st_balance i) (st_nonce i) (keccak256 (st_code i))
         (Some (bytecode_of (st_code i)))) (st_storage i) cache)
    (cache_new false) (u_pre self).

(** The environment without its blob price. *)
Definition base_block_env (env : Env) : ToolBlockEnv :=
  mkToolBlock (current_number env) (current_coinbase env) (current_timestamp env)
    (u64_or_max (current_gas_limit env)) (u64_or_max (default 0 (current_base_fee env)))
    (current_difficulty env) (current_random env) None.

Definition block_env (self : TestUnit) (cfg : CfgEnv MegaSpecId) : outcome ToolBlockEnv :=
  let env := u_env self in
  let block := base_block_env env in
  block ← match current_excess_blob_gas env, parent_blob_gas_used env, parent_excess_blob_gas env with
          | Some excess, _, _ => excess ← to_u64 excess; Ret (with_blob (blob_price excess) block)
          | None, Some used, Some excess =>
              used ← to_u64 used;
              excess ← to_u64 excess;
              target ← match parent_target_blobs_per_block env with
                       | Some i => to_u64 i
                       | None => Ret TARGET_BLOB_GAS_PER_BLOCK_CANCUN
                       end;
              Ret (with_blob (blob_price (calc_excess_blob_gas used excess target)) block)
          | None, _, _ => Ret block
          end;
  Ret (if eth_enabled (cfg_spec cfg) MERGE && bool_decide (tb_prevrandao block = None)
       then with_prevrandao 0 block else block).
End unit.

(** ** [runner.rs]: the checks of a test *)
Inductive TestErrorKind :=
  | LogsRootMismatch (got expected : B256)
  | StateRootMismatch (got expected : B256)
  | KindUnknownPrivateKey (key : B256)
  | UnexpectedException (expected_exception got_exception : option string)
  | UnexpectedOutput (expected_output got_output : option Bytes)
  | SerdeDeserialize (e : string)
  | KindPanic
  | InvalidPath
  | NoJsonFiles.
Record TestError := mkTestError { te_name : string; te_path : string; te_kind : TestErrorKind }.

Record TestValidationResult := mkValidation { logs_root : B256; state_root : B256 }.

Section checks.
Context {DB Cache Bytecode E Log : Type} {revm : RevmState Bytecode}
  {states : StateApi DB Cache Bytecode} {hashes : HashApi Log} {display : Display E}
  (debug_success : ExecutionResult MegaHaltReason Log → string)
  (debug_halt : MegaHaltReason → string) (error_to_string : TestErrorKind → string).
Notation ExecResult := (result (ExecutionResult MegaHaltReason Log) E).

(** [output()], [logs()] and [gas_used()] of a result. *)
Definition result_output (r : ExecutionResult MegaHaltReason Log) : option Bytes :=
  match r with
  | ExecSuccess _ _ _ (OutputCall data) | ExecSuccess _ _ _ (OutputCreate data _) => Some data
  | ExecRevert _ output => Some output
  | ExecHalt _ _ => None
  end.
Definition result_logs (r : ExecutionResult MegaHaltReason Log) : list Log :=
  match r with ExecSuccess _ _ logs _ => logs | _ => [] end.
Definition result_gas_used (r : ExecutionResult MegaHaltReason Log) : Z :=
  match r with ExecSuccess g _ _ _ | ExecRevert g _ | ExecHalt _ g => g end.

Definition TrieAccount_new (acc : AccountInfo Bytecode * gmap U256 U256) : TrieAccount :=
  mkTrieAccount (nonce acc.1) (balance acc.1)
    (storage_root (filter (λ kv, kv.2 ≠ 0) (map_to_list acc.2))) (code_hash acc.1).
Definition state_merkle_trie_root (accounts : list (Address * (AccountInfo Bytecode * gmap U256 U256))) :
    B256 :=
  trie_root (map (λ '(address, acc), (address, TrieAccount_new acc)) accounts).
Definition compute_test_roots (exec_result : ExecResult) (db : DB) : TestValidationResult :=
  mkValidation (log_rlp_hash (match exec_result with Ok r => result_logs r | Err _ => [] end))
    (state_merkle_trie_root (trie_account db)).

Definition format_evm_result (exec_result : ExecResult) : string :=
  match exec_result with
  | Ok (ExecSuccess _ _ _ _ as r) => "Success: " ++ debug_success r
  | Ok (ExecRevert _ _) => "Revert"
  | Ok (ExecHalt reason _) => "Halt: " ++ debug_halt reason
  | Err e => to_string e
  end%string.

Record JsonOutcome := mkJson {
  js_state_root : B256;
  js_logs_root : B256;
  js_output : Bytes;
  js_gas_used : Z;
  js_pass : bool;
  js_error_msg : string;
  js_evm_result : string;
  js_fork : MegaSpecId;
  js_test : string;
  js_indexes : TxPartIndices;
}.
Definition build_json_output (test : Test) (test_name : string) (exec_result : ExecResult)
    (validation : TestValidationResult) (spec : MegaSpecId) (error : option string) : JsonOutcome :=
  mkJson (state_root validation) (logs_root validation)
    (match exec_result with Ok r => default [] (result_output r) | Err _ => [] end)
    (match exec_result with Ok r => result_gas_used r | Err _ => 0 end)
    (bool_decide (error = None)) (default ""%string error) (format_evm_result exec_result) spec
    test_name (indexes test).

Definition validate_exception (test : Test) (exec_result : ExecResult) :
    result bool TestErrorKind :=
  match expect_exception test, exec_result with
  | None, Ok _ => Ok false
  | Some _, Err _ => Ok true
  | _, _ => Err (UnexpectedException (expect_exception test)
                   (match exec_result with Ok _ => None | Err e => Some (to_string e) end))
  end.

Definition validate_output (expected_output : option Bytes)
    (actual_result : ExecutionResult MegaHaltReason Log) : result unit TestErrorKind :=
  match expected_output, result_output actual_result with
  | Some expected, Some actual =>
      if bool_decide (expected = actual) then Ok tt
      else Err (UnexpectedOutput (Some expected) (result_output actual_result))
  | _, _ => Ok tt
  end.

(** What is printed, and the verdict. *)
Definition check_evm_execution (test : Test) (expected_output : option Bytes)
    (test_name : string) (exec_result : ExecResult) (db : DB) (spec : MegaSpecId)
    (print_json_outcome : bool) : list JsonOutcome * result unit TestErrorKind :=
  let validation := compute_test_roots exec_result db in
  let print_json error :=
    if print_json_outcome
    then [build_json_output test test_name exec_result validation spec (error_to_string <$> error)]
    else [] in
  match validate_exception test exec_result with
  | Err e => (print_json (Some e), Err e)
  | Ok true => (print_json None, Ok tt)
  | Ok false =>
      match (match exec_result with
             | Ok r => validate_output expected_output r
             | Err _ => Ok tt
             end) with
      | Err e => (print_json (Some e), Err e)
      | Ok _ =>
          if negb (bool_decide (logs_root validation = t_logs test)) then
            let error := LogsRootMismatch (logs_root validation) (t_logs test) in
            (print_json (Some error), Err error)
          else if negb (bool_decide (state_root validation = t_hash test)) then
            let error := StateRootMismatch (state_root validation) (t_hash test) in
            (print_json (Some error), Err error)
          else (print_json None, Ok tt)
      end
  end.
End checks.

(** ** [runner.rs]: one test, and the tests of a file *)
Definition base_fee_vault : Address := 0x4200000000000000000000000000000000000019.

(** The names that [skip_test] knows. *)
Definition skipped_names : list string := [
  "CreateTransactionHighNonce.json"; "RevertInCreateInInit_Paris.json";
  "RevertInCreateInInit.json"; "dynamicAccountOverwriteEmpty.json";
  "dynamicAccountOverwriteEmpty_Paris.json"; "RevertInCreateInInitCreate2Paris.json";
  "create2collisionStorage.json"; "RevertInCreateInInitCreate2.json";
  "create2collisionStorageParis.json"; "InitCollision.json"; "InitCollisionParis.json";
  "ValueOverflow.json"; "ValueOverflowParis.json"; "Call50000_sha256.json";
  "static_Call50000_sha256.json"; "loopMul.json"; "CALLBlake2f_MaxRounds.json"]%string.

Section suite.
Context `{Profile} `{BitflagsApi} `{InstructionResultApi} `{SStoreApi} `{AbiApi} `{EthRules}
  `{RevmTxTypes} {J0 J S O Evm DB Cache Bytecode E Log : Type} {revm : RevmState Bytecode}
  {codes : EvmeBytecode Bytecode} {cache_api : CacheApi Cache Bytecode}
  {states : StateApi DB Cache Bytecode} {hashes : HashApi Log} {display : Display E}
  {tool : ToolEvm (MegaContext J S O) Evm DB E Log}
  (debug_success : ExecutionResult MegaHaltReason Log → string)
  (debug_halt : MegaHaltReason → string) (error_to_string : TestErrorKind → string)
  (recover_address : B256 → option Address)
  (empty_inner : OpContext J0) (salt_env : S) (oracle_env : O)
  (op_with_db : DB → OpContext J0 → OpContext J) (cfg_default : CfgEnv MegaSpecId)
  (as_mega : OpTransaction → MegaTransaction)
  (file_name : string → option string) (read_to_string : string → option string)
  (parse_suite : string → result (list (string * TestUnit)) string).

Definition prune_base_fee_vault_changes (db : DB) : DB := remove_cached_account base_fee_vault db.

(** The EVM of a test, and its transaction. *)
Definition test_evm (cfg : CfgEnv MegaSpecId) (block : ToolBlockEnv) (cache_state : Cache) :
    outcome Evm :=
  let cache := cache_set_state_clear_flag (eth_enabled (cfg_spec cfg) SPURIOUS_DRAGON) cache_state in
  evm_context ← tool_context empty_inner salt_env oracle_env
                  (op_with_db (with_cached_prestate cache)) cfg (to_block_env block);
  Ret (te_new evm_context).
Definition test_tx (tx : TxEnv) : MegaTransaction := as_mega (mkOpTransaction tx (Some []) no_deposit).

Definition execute_single_test (name : string) (unit : TestUnit) (test : Test)
    (cfg : CfgEnv MegaSpecId) (block : ToolBlockEnv) (tx : TxEnv) (cache_state : Cache)
    (trace print_json_outcome : bool) : outcome (list JsonOutcome * result () TestErrorKind) :=
  evm ← test_evm cfg block cache_state;
  '(evm, exec_result) ← (if trace then te_inspect_tx_commit (test_tx tx) evm
                         else te_transact_commit (test_tx tx) evm);
  let db := prune_base_fee_vault_changes (te_into_db evm) in
  Ret (check_evm_execution debug_success debug_halt error_to_string test (u_out unit) name
         exec_result db (cfg_spec cfg) print_json_outcome).

(** The same test again under a tracer; what it prints is not modelled. *)
Definition debug_failed_test (cfg : CfgEnv MegaSpecId) (block : ToolBlockEnv) (tx : TxEnv)
    (cache_state : Cache) : outcome () :=
  evm ← test_evm cfg block cache_state;
  _ ← te_inspect_tx_commit (test_tx tx) evm;
  Ret ().

Definition skip_test (path : string) : outcome bool :=
  name ← expect (file_name path); Ret (bool_decide (name ∈ skipped_names)).

(** A loop with an early return: [FAILED], what is printed, and the verdict. *)
Notation Suite := (outcome (bool * list JsonOutcome * result () TestError)).
Fixpoint run_all {A} (f : A → bool → Suite) (l : list A) (failed : bool) : Suite :=
  match l with
  | [] => Ret (failed, [], Ok tt)
  | x :: l =>
      '(failed, out, r) ← f x failed;
      match r with
      | Err e => Ret (failed, out, Err e)
      | Ok _ =>
          '(failed, out', r) ← run_all f l failed;
          Ret (failed, out ++ out', r)
      end
  end.

Section file.
Variables (path : string) (trace print_json_outcome : bool).

Definition run_test (name : string) (unit : TestUnit) (cfg : CfgEnv MegaSpecId)
    (block : ToolBlockEnv) (cache_state : Cache) (test : Test) (failed : bool) : Suite :=
  tx ← tx_env recover_address test unit;
  match tx with
  | Err _ =>
      Ret (failed, [],
           if bool_decide (is_Some (expect_exception test)) then Ok tt
           else Err (mkTestError name path
                       (KindUnknownPrivateKey (p_secret_key (u_transaction unit)))))
  | Ok tx =>
      '(out, result) ← execute_single_test name unit test cfg block tx cache_state trace
                         print_json_outcome;
      match result with
      | Ok _ => Ret (failed, out, Ok tt)
      | Err e =>
          if print_json_outcome then Ret (failed, out, Err (mkTestError name path e))
          else if failed then Ret (true, out, Err (mkTestError name path e))
          else
            _ ← debug_failed_test cfg block tx cache_state;
            Ret (true, out, Err (mkTestError name path e))
      end
  end.

(** The configuration of a unit, and of a spec. *)
Definition unit_cfg (unit : TestUnit) : CfgEnv MegaSpecId :=
  let id := default 6342 (current_chain_id (u_env unit)) in
  let c := cfg_default in
  mkCfgEnv (cfg_spec c) (if decide (in_u64 id) then id else 6342) (cfg_tx_chain_id_check _ c)
    (cfg_limit_contract_code_size c) (cfg_limit_contract_initcode_size c)
    (cfg_disable_nonce_check _ c) (cfg_max_blobs_per_tx _ c)
    (cfg_blob_base_fee_update_fraction _ c) (cfg_tx_gas_limit_cap _ c) (cfg_memory_limit _ c)
    (cfg_disable_balance_check _ c) (cfg_disable_block_gas_limit _ c) (cfg_disable_eip3541 _ c)
    (cfg_disable_eip3607 _ c) (cfg_disable_base_fee _ c).
Definition set_max_blobs_per_tx (n : Z) (c : CfgEnv MegaSpecId) : CfgEnv MegaSpecId :=
  mkCfgEnv (cfg_spec c) (cfg_chain_id _ c) (cfg_tx_chain_id_check _ c)
    (cfg_limit_contract_code_size c) (cfg_limit_contract_initcode_size c)
    (cfg_disable_nonce_check _ c) (Some n)
    (cfg_blob_base_fee_update_fraction _ c) (cfg_tx_gas_limit_cap _ c) (cfg_memory_limit _ c)
    (cfg_disable_balance_check _ c) (cfg_disable_block_gas_limit _ c) (cfg_disable_eip3541 _ c)
    (cfg_disable_eip3607 _ c) (cfg_disable_base_fee _ c).
Definition spec_cfg (spec : MegaSpecId) (cfg : CfgEnv MegaSpecId) : CfgEnv MegaSpecId :=
  set_max_blobs_per_tx
    (if eth_enabled spec OSAKA then 6 else if eth_enabled spec PRAGUE then 9 else 6)
    (with_cfg_spec spec cfg).

Definition run_spec (name : string) (unit : TestUnit) (cache_state : Cache)
    (post : SpecName * list Test) (failed : bool) : Suite :=
  let '(spec_name, tests) := post in
  if bool_decide (spec_name = Constantinople) then Ret (failed, [], Ok tt)
  else
    spec ← to_spec_id spec_name;
    let cfg := spec_cfg spec (unit_cfg unit) in
    block ← block_env unit cfg;
    run_all (run_test name unit cfg block cache_state) tests failed.

Definition run_unit (named : string * TestUnit) (failed : bool) : Suite :=
  let '(name, unit) := named in
  run_all (run_spec name unit (state unit)) (u_post unit) failed.

Definition execute_test_suite (failed : bool) : Suite :=
  skip ← skip_test path;
  if (skip : bool) then Ret (failed, [], Ok tt)
  else
    s ← expect (read_to_string path);
    match parse_suite s with
    | Err e => Ret (failed, [], Err (mkTestError "Unknown"%string path (SerdeDeserialize e)))
    | Ok suite => run_all run_unit suite failed
    end.
End file.
End suite.
