(* ===== verification/StateTestTheory.v ===== *)
(** * Theorems about the state tests

    The verdict of a check is exactly the promise of the test, and a file passes exactly
    when every test of it does. *)
From S2P Require Import Prelude Spec Deps EvmState LimitTypes Context Sandbox Evme EvmeTx ToolEvm.
From S2P Require Import StateTest.
Open Scope Z_scope.
Open Scope rust_scope.
#[local] Set Warnings "-notation-for-abbreviation".

(** ** The verdict of a check *)
Section checks.
Context {DB Cache Bytecode E Log : Type} {revm : RevmState Bytecode}
  {states : StateApi DB Cache Bytecode} {hashes : HashApi Log} {display : Display E}
  (debug_success : ExecutionResult MegaHaltReason Log → string)
  (debug_halt : MegaHaltReason → string) (error_to_string : TestErrorKind → string).

(** What a test promises of a result and of the database after it: an exception, or an
    execution with the output, the logs and the state that were written down. *)
Definition keeps_promise (test : Test) (expected_output : option Bytes)
    (exec_result : result (ExecutionResult MegaHaltReason Log) E) (db : DB) : Prop :=
  match expect_exception test, exec_result with
  | Some _, Err _ => True
  | None, Ok r =>
      (∀ x y, expected_output = Some x → result_output r = Some y → x = y) ∧
      log_rlp_hash (result_logs r) = t_logs test ∧
      state_merkle_trie_root (trie_account db) = t_hash test
  | _, _ => False
  end.

(** The verdict of a check is the promise of the test; one outcome is printed when
    outcomes are printed, and it names the verdict. *)
Theorem check_exact test expected_output name exec_result (db : DB) spec print :
  let '(printed, verdict) :=
    check_evm_execution debug_success debug_halt error_to_string test expected_output name
      exec_result db spec print in
  (verdict = Ok tt ↔ keeps_promise test expected_output exec_result db) ∧
  length printed = (if print then 1 else 0)%nat ∧
  ∀ j, j ∈ printed → js_pass j = true ↔ verdict = Ok tt.
Proof.
  assert (∀ out (v : result () TestErrorKind) (P : Prop) err,
    out = (if print then [build_json_output debug_success debug_halt test name exec_result
                            (compute_test_roots exec_result db) spec (error_to_string <$> err)] else []) →
    (v = Ok tt ↔ err = None) → (v = Ok tt ↔ P) →
    (v = Ok tt ↔ P) ∧ length out = (if print then 1 else 0)%nat ∧
    ∀ j, j ∈ out → js_pass j = true ↔ v = Ok tt) as Hone.
  { intros out v P err -> Herr HP. split; [done|]. split; [by destruct print|].
    destruct print; intros j Hj; [|by apply not_elem_of_nil in Hj].
    apply list_elem_of_singleton in Hj as ->. cbn. rewrite bool_decide_eq_true, Herr.
    by destruct err. }
  unfold check_evm_execution, keeps_promise, validate_exception.
  destruct (expect_exception test) as [x|], exec_result as [r|e].
  - eapply (Hone _ _ _ (Some _)); done.
  - eapply (Hone _ _ _ None); done.
  - unfold validate_output.
    destruct expected_output as [x|], (result_output r) as [y|] eqn:Hy;
      cbn [logs_root state_root compute_test_roots]; repeat (case_bool_decide; cbn [negb]);
      first [ by eapply (Hone _ _ _ None); [reflexivity|done|naive_solver]
            | by eapply (Hone _ _ _ (Some _)); [reflexivity|done|naive_solver] ].
  - eapply (Hone _ _ _ (Some _)); done.
Qed.
End checks.

(** ** A file passes exactly when its tests do *)
Section suite.
Context `{Profile} `{BitflagsApi} `{InstructionResultApi} `{SStoreApi} `{AbiApi} `{EthRules}
  `{RevmTxTypes} {J0 J S O Evm DB Cache Bytecode E Log : Type} {revm : RevmState Bytecode}
  {codes : EvmeBytecode Bytecode} {cache_api : CacheApi Cache Bytecode}
  {states : StateApi DB Cache Bytecode} {hashes : HashApi Log} {display : Display E}
  {tool : ToolEvm (MegaContext J S O) Evm DB E Log}
  (debug_success : ExecutionResult MegaHaltReason Log → string)
  (debug_halt : MegaHaltReason → string) (error_to_string : TestErrorKind → string)
  (recover_address : B256 → option Address)
  (empty_inner : OpContext J0) (salt_env : S) (oracle_env : O)
  (op_with_db : DB → OpContext J0 → OpContext J) (cfg_default : CfgEnv MegaSpecId)
  (as_mega : OpTransaction → MegaTransaction)
  (file_name : string → option string) (read_to_string : string → option string)
  (parse_suite : string → result (list (string * TestUnit)) string)
  (path : string) (trace print : bool).
Notation run_test := (run_test debug_success debug_halt error_to_string recover_address empty_inner
  salt_env oracle_env op_with_db as_mega path trace print).
Notation run_spec := (run_spec debug_success debug_halt error_to_string recover_address empty_inner
  salt_env oracle_env op_with_db cfg_default as_mega path trace print).
Notation run_unit := (run_unit debug_success debug_halt error_to_string recover_address empty_inner
  salt_env oracle_env op_with_db cfg_default as_mega path trace print).
Notation suite := (execute_test_suite debug_success debug_halt error_to_string recover_address
  empty_inner salt_env oracle_env op_with_db cfg_default as_mega file_name read_to_string parse_suite
  path trace print).
Notation test_evm := (test_evm empty_inner salt_env oracle_env op_with_db).

(** A test passes when it has no transaction and expects an exception, or when the
    execution of its transaction keeps its promise. *)
Definition test_passes (unit : TestUnit) (cfg : CfgEnv MegaSpecId) (block : ToolBlockEnv)
    (test : Test) : Prop :=
  match tx_env recover_address test unit with
  | Ret (Err _) => is_Some (expect_exception test)
  | Ret (Ok tx) =>
      ∃ evm evm' r, test_evm cfg block (state unit) = Ret evm ∧
        (if trace then te_inspect_tx_commit (test_tx as_mega tx) evm
         else te_transact_commit (test_tx as_mega tx) evm) = Ret (evm', r) ∧
        keeps_promise test (u_out unit) r (prune_base_fee_vault_changes (te_into_db evm'))
  | Panic => False
  end.
Definition spec_passes (unit : TestUnit) (post : SpecName * list Test) : Prop :=
  post.1 ≠ Constantinople →
  ∃ spec block, to_spec_id post.1 = Ret spec ∧
    block_env unit (spec_cfg spec (unit_cfg cfg_default unit)) = Ret block ∧
    Forall (test_passes unit (spec_cfg spec (unit_cfg cfg_default unit)) block) post.2.
Definition unit_passes (named : string * TestUnit) : Prop :=
  Forall (spec_passes named.2) (u_post named.2).

(** A loop passes when each of its rounds does. *)
Lemma run_all_passes {A} (f : A → bool → outcome (bool * list JsonOutcome * result () TestError))
    (P : A → Prop) l :
  (∀ x failed failed' out r, x ∈ l → f x failed = Ret (failed', out, r) → (r = Ok tt ↔ P x)) →
  ∀ failed failed' out r,
    run_all f l failed = Ret (failed', out, r) → (r = Ok tt ↔ Forall P l).
Proof.
  induction l as [|x l IH]; intros Hf failed failed' out r Hr; cbn in Hr.
  { injection Hr as <- <- <-. split; [constructor|done]. }
  apply bind_Ret in Hr as ([[failed1 out1] r1]&Hx&Hr).
  specialize (Hf x) as Hfx. apply Hfx in Hx; [|constructor].
  rewrite Forall_cons. destruct r1 as [[]|e].
  - apply bind_Ret in Hr as ([[failed2 out2] r2]&Hl&Hr). injection Hr as <- <- <-.
    apply IH in Hl; [|intros; eapply Hf; [by constructor|done]]. naive_solver.
  - injection Hr as <- <- <-. naive_solver.
Qed.

Lemma run_test_passes name unit cfg block test failed failed' out r :
  run_test name unit cfg block (state unit) test failed = Ret (failed', out, r) →
  (r = Ok tt ↔ test_passes unit cfg block test).
Proof.
  unfold StateTest.run_test, test_passes, execute_single_test.
  destruct (tx_env recover_address test unit) as [[tx|e]|]; cbn [mbind outcome_bind]; [| |done].
  - intros Hr. apply bind_Ret in Hr as ([out1 v]&He&Hr).
    apply bind_Ret in He as (evm&Hevm&He). apply bind_Ret in He as ([evm' exec]&Hrun&He).
    injection He as He.
    pose proof (check_exact debug_success debug_halt error_to_string test (u_out unit) name exec
      (prune_base_fee_vault_changes (te_into_db evm')) (cfg_spec cfg) print) as Hcheck.
    rewrite He in Hcheck. destruct Hcheck as [Hv _].
    assert (r = Ok tt ↔ v = Ok tt) as ->.
    { destruct v as [[]|e]; [by injection Hr as <- <- <-|].
      assert (∃ e', r = Err e') as [e' ->]; [|done].
      destruct print; [injection Hr as <- <- <-; eauto|].
      destruct failed; [injection Hr as <- <- <-; eauto|].
      apply bind_Ret in Hr as (_&_&Hr). injection Hr as <- <- <-. eauto. }
    rewrite Hv. split; [eauto 10|]. intros (evm1&evm2&r1&Hevm1&Hrun1&Hk).
    rewrite Hevm in Hevm1. injection Hevm1 as <-. rewrite Hrun in Hrun1. by injection Hrun1 as <- <-.
  - intros [= <- <- <-]. case_bool_decide; naive_solver.
Qed.

Lemma run_spec_passes name unit post failed failed' out r :
  run_spec name unit (state unit) post failed = Ret (failed', out, r) →
  (r = Ok tt ↔ spec_passes unit post).
Proof.
  destruct post as [spec_name tests]. unfold StateTest.run_spec, spec_passes. cbn.
  case_bool_decide as Hc; [intros [= <- <- <-]; naive_solver|]. intros Hr.
  apply bind_Ret in Hr as (spec&Hs&Hr). apply bind_Ret in Hr as (block&Hb&Hr).
  eapply run_all_passes in Hr; [|intros; eapply run_test_passes; eassumption].
  rewrite Hr. split; [eauto|]. intros Hall. destruct (Hall Hc) as (spec'&block'&Hs'&Hb'&Ht).
  rewrite Hs in Hs'. injection Hs' as <-. rewrite Hb in Hb'. by injection Hb' as <-.
Qed.

(** C33: A file passes, in whatever state the process-wide flag [FAILED] is, exactly when
    it is one to skip, or when it can be read and parsed and every test of every unit and
    every spec but Constantinople passes. *)
Theorem suite_passes_exactly failed failed' out r
    (Hr : suite failed = Ret (failed', out, r)) :
  r = Ok tt ↔
  skip_test file_name path = Ret true ∨
  ∃ text units, skip_test file_name path = Ret false ∧ read_to_string path = Some text ∧
    parse_suite text = Ok units ∧ Forall unit_passes units.
Proof.
  unfold execute_test_suite in Hr. apply bind_Ret in Hr as (skip&Hs&Hr). rewrite Hs.
  destruct skip; [injection Hr as <- <- <-; split; auto|].
  apply bind_Ret in Hr as (text&Ht&Hr). apply expect_Ret in Ht. rewrite Ht.
  assert (r = Ok tt ↔ ∃ units, parse_suite text = Ok units ∧ Forall unit_passes units) as ->.
  2:{ split; [intros (units&Hu&Hall); right; eauto 10|].
      intros [?|(text'&units&_&[= <-]&Hu&Hall)]; [done|eauto]. }
  destruct (parse_suite text) as [units|e] eqn:Hp.
  2:{ injection Hr as <- <- <-. split; [done|]. by intros (?&?&_). }
  eapply (run_all_passes _ unit_passes) in Hr.
  - rewrite Hr. split; [eauto|]. by intros (units'&[= <-]&Hall).
  - intros [name unit] f f' o v _ Hv. eapply run_all_passes in Hv; [exact Hv|].
    intros. eapply run_spec_passes. eassumption.
Qed.
End suite.

(** ** Witness: a file with one test, on an EVM that succeeds at once *)
Section example.
#[local] Existing Instances reference_revm reference_bitflags reference_instruction_result
  reference_sstore reference_abi checked_build.
#[local] Instance example_bytecodes : EvmeBytecode Z := {|
  bytecode_default := 0; new_raw_checked b := Ok (Z.of_nat (length b)); hash_slow c := 100 + c;
  original_byte_slice c := [] |}.
#[local] Instance example_cache : CacheApi nat Z := {|
  cache_new _ := 0%nat; insert_account_with_storage _ _ _ c := S c;
  cache_set_state_clear_flag _ c := c; new_legacy _ := 0; keccak256 b := Z.of_nat (length b) |}.
#[local] Instance example_state : StateApi nat nat Z := {|
  with_cached_prestate c := c; remove_cached_account _ d := d; trie_account _ := [] |}.
#[local] Instance example_hashes : HashApi Z := {|
  storage_root _ := 1; trie_root _ := 7; log_rlp_hash l := Z.of_nat (length l) |}.
#[local] Instance example_display : Display Z := λ _, "error"%string.
#[local] Instance example_evm : ToolEvm (MegaContext unit unit unit) nat nat Z Z := {|
  te_new _ := 5%nat; te_into_db db := db;
  te_transact_commit _ db := Ret (db, Ok (ExecSuccess 21000 0 [3] (OutputCall [])));
  te_inspect_tx_commit _ db := Ret (db, Err 0) |}.
#[local] Instance example_eth : EthRules := {|
  blob_price e := mkBlob e 1; calc_excess_blob_gas a b c := a + b - c;
  TARGET_BLOB_GAS_PER_BLOCK_CANCUN := 393216; eth_enabled _ s := match s with OSAKA => false | _ => true end |}.
#[local] Instance example_types : RevmTxTypes := {|
  TransactionType_from _ := TypeLegacy; TransactionType_as_u8 _ := 0;
  TxEnv_default := mkTxEnv 0 0 None [] 0 0 0 [] 0 0 [] [] TxCreate (Some 1) |}.

Definition example_test : Test := mkTest None (mkIndices 0 0 0) 7 1.
Definition example_unit : TestUnit :=
  mkUnit (mkEnv None 1 0 30000000 5 1000 None None None None None None)
    {[ 4 := mkStAccount 9 [] 0 ∅ ]} [(Constantinople, []); (MiniRex, [example_test])]
    (mkParts None [[]] [21000] (Some 1) 0 1 (Some 4) (Some 8) [0] None None [] None [] None) None.
Definition example_tool_cfg : CfgEnv MegaSpecId :=
  mkCfgEnv EQUIVALENCE 1 true None None false None None None 0 false false false false false.

Notation example_suite := (execute_test_suite (λ _, "success"%string) (λ _, "halt"%string)
  (λ _, "failure"%string) (λ _, None)
  (mkOpContext (example_tx Bytes_new None [] 0) (mkBlockEnv 0 0 1 30000000)
     (into_op_cfg example_tool_cfg) tt None) tt tt (λ _ i, i) example_tool_cfg
  (λ _, example_tx Bytes_new None [] 0) Some (λ _, Some "{}"%string)
  (λ _, Ok [("one"%string, example_unit)])).

Lemma suite_passes_exactly_witness :
  ∃ out, example_suite "one.json"%string false false true = Ret (true, out, Ok tt) ∧
  ∃ units, (λ _ : string, Ok (E:=string) [("one"%string, example_unit)]) "{}"%string = Ok units ∧
    Forall (unit_passes (λ _, None)
      (mkOpContext (example_tx Bytes_new None [] 0) (mkBlockEnv 0 0 1 30000000)
        (into_op_cfg example_tool_cfg) tt None) tt tt (λ _ i, i) example_tool_cfg
      (λ _, example_tx Bytes_new None [] 0) false) units.
Proof.
  assert (∃ out, example_suite "one.json"%string false false true = Ret (true, out, Ok tt))
    as [out Hr] by (eexists; vm_compute; reflexivity).
  exists out. split; [exact Hr|].
  destruct (proj1 (suite_passes_exactly _ _ _ _ _ _ _ _ _ _ _ _ _ _ _ _ _ _ _ _ Hr) eq_refl)
    as [Hskip|(text&units&_&_&Hu&Hall)]; [discriminate Hskip|].
  exists units. split; [exact Hu|exact Hall].
Defined.
End example.
