(* ===== verification/StateRunner.v ===== *)
(** * The threads of the state test runner

    Models the second half of [crates/state-test/src/runner.rs]: workers that take files
    from a shared queue, run them, and count errors in a shared counter, until the queue
    is empty or, unless the run is to keep going, an error was counted.  Each access to
    shared state is one step, and a schedule interleaves the steps of the workers. *)
From stdpp Require Import relations pretty.
From S2P Require Import Prelude StateTest.
Open Scope nat_scope.
#[local] Set Warnings "-notation-for-abbreviation".

(** ** Configuration and shared state *)
Record TestRunnerConfig := mkConfig {
  single_thread : bool;
  trace : bool;
  print_outcome : bool;
  keep_going : bool;
}.
Definition TestRunnerConfig_new (single_thread trace print_outcome keep_going : bool) :
    TestRunnerConfig :=
  let print_outcome := print_outcome || trace in
  let single_thread := single_thread || print_outcome in
  mkConfig single_thread trace print_outcome keep_going.

(** The progress bar and the clock are left out. *)
Record TestRunnerState := mkRunner {
  n_errors : nat;
  current_idx : nat;
  queue : list string;
}.
Definition TestRunnerState_new (test_files : list string) : TestRunnerState :=
  mkRunner 0 0 test_files.

Definition next_test (self : TestRunnerState) : option string * TestRunnerState :=
  match queue self !! current_idx self with
  | Some test_path =>
      (Some test_path, mkRunner (n_errors self) (S (current_idx self)) (queue self))
  | None => (None, self)
  end.

Definition determine_thread_count (single_thread : bool) (available_parallelism : option nat)
    (n_files : nat) : nat :=
  match single_thread, available_parallelism with
  | true, _ | false, None => 1
  | false, Some n => n `min` n_files
  end.

(** ** Workers: where one is in the loop of [run_test_worker] *)
Inductive worker :=
  | AtCheck
  | AtFetch
  | Running (test_path : string)
  | Failed (err : TestError)
  | Finished (r : result () TestError)
  | Panicked.

(** What [run] answers: [Ok], the exit of the process, or the first thread's error. *)
Inductive run_outcome := RunOk | RunExit | RunErr (e : TestError).

Section runner.
(** The verdict on a file, or a panic; [execute_test_suite] with the flags of the run. *)
Variables (suite : string → outcome (result () TestError)) (config : TestRunnerConfig).

(** One step of a worker; a worker that ended has none. *)
Definition worker_step (st : TestRunnerState) (w : worker) : option (TestRunnerState * worker) :=
  match w with
  | AtCheck =>
      Some (st, if negb (keep_going config) && bool_decide (0 < n_errors st)
                then Finished (Ok ()) else AtFetch)
  | AtFetch =>
      match next_test st with
      | (Some test_path, st) => Some (st, Running test_path)
      | (None, st) => Some (st, Finished (Ok ()))
      end
  | Running test_path =>
      Some (st, match suite test_path with
                | Ret (Ok _) => AtCheck
                | Ret (Err err) => Failed err
                | Panic => Panicked
                end)
  | Failed err =>
      Some (mkRunner (S (n_errors st)) (current_idx st) (queue st),
            if keep_going config then AtCheck else Finished (Err err))
  | Finished _ | Panicked => None
  end.

Definition run_test_worker : worker := AtCheck.

(** Any worker may be the next to step. *)
Definition threads : Type := TestRunnerState * list worker.
Inductive step : threads → threads → Prop :=
  | Step i st ws w st' w' :
      ws !! i = Some w → worker_step st w = Some (st', w') →
      step (st, ws) (st', <[i := w']> ws).

(** The run of a schedule, the next worker first. *)
Fixpoint run_schedule (schedule : list nat) (c : threads) : threads :=
  match schedule with
  | [] => c
  | i :: schedule =>
      run_schedule schedule
        match c.2 !! i ≫= worker_step c.1 with
        | Some (st, w) => (st, <[i := w]> c.2)
        | None => c
        end
  end.

Definition start (available_parallelism : option nat) (test_files : list string) : threads :=
  (TestRunnerState_new test_files,
   replicate (determine_thread_count (single_thread config) available_parallelism
                (length test_files)) run_test_worker).

(** ** [run] after the joins: none while a thread is running *)
Definition join_result (i : nat) (w : worker) : option TestError :=
  match w with
  | Finished (Err e) => Some e
  | Panicked =>
      Some (mkTestError ("thread " ++ pretty i ++ " panicked")%string ""%string KindPanic)
  | _ => None
  end.
Definition ended (w : worker) : bool :=
  match w with Finished _ | Panicked => true | _ => false end.
Definition thread_errors (ws : list worker) : list TestError := omap id (imap join_result ws).

Definition finish (c : threads) : option run_outcome :=
  let '(st, ws) := c in
  if forallb ended ws then
    match thread_errors ws with
    | [] => Some (if bool_decide (n_errors st = 0) then RunOk else RunExit)
    | e :: _ => Some (RunErr e)
    end
  else None.
End runner.

(** ** Counting *)
Section theory.
Context (suite : string → outcome (result () TestError)) (config : TestRunnerConfig).
Notation worker_step := (worker_step suite config).
Notation step := (step suite config).

Definition fails (f : string) : bool := match suite f with Ret (Err _) => true | _ => false end.
Definition panics (f : string) : bool := match suite f with Panic => true | _ => false end.
Definition count (P : string → bool) (l : list string) : nat := length (filter P l).

(** The errors, and the panics, that a worker holds and has not brought home. *)
Definition err_load (w : worker) : nat :=
  match w with Failed _ => 1 | Running f => Nat.b2n (fails f) | _ => 0 end.
Definition panic_load (w : worker) : nat :=
  match w with Panicked => 1 | Running f => Nat.b2n (panics f) | _ => 0 end.
Notation load g ws := (sum_list (g <$> ws)).

Lemma load_insert (g : worker → nat) ws i w w' :
  ws !! i = Some w → load g (<[i := w']> ws) + g w = load g ws + g w'.
Proof.
  revert i. induction ws as [|v ws IH]; intros [|i] Hi; [done..| |].
  - injection Hi as ->. csimpl. lia.
  - csimpl. specialize (IH i Hi). lia.
Qed.

Lemma count_snoc P l f : count P (l ++ [f]) = count P l + Nat.b2n (P f).
Proof.
  unfold count. rewrite filter_app, length_app. f_equal. cbn.
  by destruct (P f) eqn:Hf; rewrite ?Hf.
Qed.
Lemma count_take_next P (l : list string) k f :
  l !! k = Some f → count P (take (S k) l) = count P (take k l) + Nat.b2n (P f).
Proof. intros Hk. by rewrite (take_S_r _ _ f Hk), count_snoc. Qed.

(** ** What every schedule keeps *)
Record runner_inv (files : list string) (c : threads) : Prop := {
  inv_queue : queue c.1 = files;
  inv_idx : current_idx c.1 ≤ length files;
  inv_errors : count fails (take (current_idx c.1) files) = n_errors c.1 + load err_load c.2;
  inv_panics : count panics (take (current_idx c.1) files) = load panic_load c.2;
  inv_finished w : w ∈ c.2 → ended w = true → w ≠ Panicked →
    keep_going config = false ∧ 0 < n_errors c.1 ∨
    w = Finished (Ok ()) ∧ current_idx c.1 = length files;
}.

Lemma start_inv avail files : runner_inv files (start config avail files).
Proof.
  assert (∀ g n, g run_test_worker = 0 → load g (replicate n run_test_worker) = 0) as Hz.
  { intros g n Hg. induction n; csimpl; lia. }
  split; cbn; [done|lia| | |].
  - by rewrite Hz.
  - by rewrite Hz.
  - intros w Hw He. apply elem_of_replicate in Hw as [-> _]. done.
Qed.

(** What one step does to the shared state and to the loads of its worker. *)
Lemma worker_step_effect st w st' w' :
  worker_step st w = Some (st', w') →
  queue st' = queue st ∧ n_errors st ≤ n_errors st' ∧ current_idx st ≤ current_idx st' ∧
  (∀ (P : string → bool),
    count P (take (current_idx st') (queue st)) = count P (take (current_idx st) (queue st)) +
      match w' with Running f => Nat.b2n (P f) | _ => 0 end) ∧
  (current_idx st ≤ length (queue st) → current_idx st' ≤ length (queue st)) ∧
  n_errors st' + err_load w' =
    n_errors st + err_load w + match w' with Running f => Nat.b2n (fails f) | _ => 0 end ∧
  panic_load w' =
    panic_load w + match w' with Running f => Nat.b2n (panics f) | _ => 0 end ∧
  (ended w' = true → w' ≠ Panicked →
    keep_going config = false ∧ 0 < n_errors st' ∨
    w' = Finished (Ok ()) ∧ length (queue st) ≤ current_idx st').
Proof.
  destruct w as [| |f|err| |]; cbn; try done.
  - intros [= <- <-]. destruct (negb _ && _) eqn:Hc; cbn; repeat split; auto with lia.
    intros _ _. left. apply andb_true_iff in Hc as [Hk Hn]. apply bool_decide_eq_true in Hn.
    by destruct (keep_going config).
  - unfold next_test. destruct (queue st !! current_idx st) as [f|] eqn:Hq; intros [= <- <-]; cbn.
    + pose proof (lookup_lt_Some _ _ _ Hq).
      split; [done|]. split; [lia|]. split; [lia|].
      split; [intros P; by apply count_take_next|]. split; [lia|].
      split; [unfold err_load; lia|]. split; [unfold panic_load; lia|done].
    + apply lookup_ge_None in Hq. repeat split; auto with lia.
  - intros [= <- <-]. unfold fails, panics. destruct (suite f) as [[]|]; cbn; repeat split; auto with lia; done.
  - intros [= <- <-]. cbn. destruct (keep_going config); cbn; repeat split; auto with lia.
Qed.

Lemma step_inv files c c' : step c c' → runner_inv files c → runner_inv files c'.
Proof.
  intros [i st ws w st' w' Hi Hw] [Hq Hidx He Hp Hf]. cbn in *.
  apply worker_step_effect in Hw as (Hq'&Hn&Hci&Hcount&Hlen&Herr&Hpan&Hend).
  rewrite Hq in *.
  pose proof (load_insert err_load ws i w w' Hi) as Hle.
  pose proof (load_insert panic_load ws i w w' Hi) as Hlp.
  split; cbn; [done|auto| | |].
  - rewrite Hcount. lia.
  - rewrite Hcount. lia.
  - intros v Hv Hev Hnp. apply list_elem_of_lookup in Hv as [j Hj].
    apply list_lookup_insert_Some in Hj as [(<-&<-&_)|[_ Hj]].
    + destruct (Hend Hev Hnp) as [?|[??]]; [by left|right; split; [done|]]. specialize (Hlen Hidx). lia.
    + apply list_elem_of_lookup_2 in Hj. specialize (Hlen Hidx).
      destruct (Hf v Hj Hev Hnp) as [[??]|[??]]; [left; split; [done|lia]|right; split; [done|lia]].
Qed.

Lemma reachable_inv avail files c :
  rtc step (start config avail files) c → runner_inv files c ∧ length c.2 = length (start config avail files).2.
Proof.
  revert c. apply rtc_ind_r.
  - split; [apply start_inv|done].
  - intros c1 c2 _ Hs [Hi Hl]. split; [by eapply step_inv|].
    destruct Hs. cbn in *. by rewrite length_insert.
Qed.

(** ** The verdict *)
Lemma load_zero (g : worker → nat) ws : load g ws = 0 ↔ Forall (λ w, g w = 0) ws.
Proof. induction ws as [|w ws IH]; csimpl; [done|]. rewrite Forall_cons, <-IH. lia. Qed.

Lemma count_zero P l : count P l = 0 ↔ Forall (λ f, P f = false) l.
Proof.
  induction l as [|f l IH]; [done|]. unfold count in *. rewrite Forall_cons, filter_cons.
  case_decide as Hd; cbn; [split; [lia|]; intros [Hf _]; by rewrite Hf in Hd|].
  rewrite IH. destruct (P f); naive_solver.
Qed.

(** A file neither fails nor panics exactly when it passes. *)
Lemma passes_iff f : suite f = Ret (Ok ()) ↔ fails f = false ∧ panics f = false.
Proof. unfold fails, panics. destruct (suite f) as [[[]|]|]; naive_solver. Qed.

Lemma thread_errors_nil ws :
  thread_errors ws = [] ↔ Forall (λ w, w ≠ Panicked ∧ ∀ e, w ≠ Finished (Err e)) ws.
Proof.
  unfold thread_errors.
  enough (∀ k, omap id (imap (λ i, join_result (k + i)) ws) = [] ↔
    Forall (λ w, w ≠ Panicked ∧ ∀ e, w ≠ Finished (Err e)) ws) as Hk by exact (Hk 0).
  induction ws as [|w ws IH]; intros k; [done|]. rewrite imap_cons, Forall_cons. csimpl.
  specialize (IH (S k)).
  assert (imap ((λ i, join_result (k + i)) ∘ S) ws = imap (λ i, join_result (S k + i)) ws) as ->.
  { apply imap_ext. intros. cbn. by rewrite Nat.add_succ_r. }
  destruct w as [| | | |[]|]; cbn; try rewrite IH; naive_solver.
Qed.

(** When every thread has ended, errors are counted, and panics are in the threads. *)
Lemma ended_inv files c :
  runner_inv files c → forallb ended c.2 = true →
  n_errors c.1 = count fails (take (current_idx c.1) files) ∧
  (count panics (take (current_idx c.1) files) = 0 ↔ Forall (λ w, w ≠ Panicked) c.2).
Proof.
  intros [Hq Hidx He Hp _]. rewrite forallb_forall. intros Hall.
  assert (load err_load c.2 = 0) as Hz.
  { apply load_zero, Forall_forall. intros w Hw. apply list_elem_of_In, Hall in Hw. by destruct w. }
  split; [lia|]. rewrite Hp, load_zero, !Forall_forall. split; intros Hw w Hin.
  - intros ->. by specialize (Hw _ Hin).
  - specialize (Hw w Hin). apply list_elem_of_In, Hall in Hin. by destruct w.
Qed.

(** Then every file was taken, unless a thread panicked or the run was stopped. *)
Lemma ended_taken avail files c :
  avail ≠ Some 0 → runner_inv files c → length c.2 = length (start config avail files).2 →
  forallb ended c.2 = true → Forall (λ w, w ≠ Panicked) c.2 →
  keep_going config = true ∨ n_errors c.1 = 0 → take (current_idx c.1) files = files.
Proof.
  intros Ha Hinv Hlen Hend Hnp Hkeep. apply take_ge.
  destruct c as [st [|w ws]]; cbn in *.
  - rewrite length_replicate in Hlen. unfold determine_thread_count in Hlen.
    destruct files; [cbn; lia|]. by destruct (single_thread config), avail as [[|n]|].
  - apply andb_true_iff in Hend as [He _]. apply Forall_cons in Hnp as [Hp _].
    destruct (inv_finished _ _ Hinv w) as [[Hk Hn]|[_ Hidx]]; [constructor|done|done| |];
      cbn in *; [|lia]. destruct Hkeep; [congruence|lia].
Qed.

Lemma count_pass files :
  Forall (λ f, suite f = Ret (Ok ())) files ↔ count fails files = 0 ∧ count panics files = 0.
Proof.
  rewrite !count_zero, <-Forall_and. apply Forall_iff. intros f. apply passes_iff.
Qed.

Lemma verdict_passes avail files c v :
  avail ≠ Some 0 → rtc step (start config avail files) c → finish c = Some v →
  v = RunOk ↔ Forall (λ f, suite f = Ret (Ok ())) files.
Proof.
  intros Havail Hreach Hend. apply reachable_inv in Hreach as [Hinv Hlen].
  destruct (forallb ended c.2) eqn:He; [|destruct c; cbn in *; by rewrite He in Hend].
  destruct (ended_inv _ _ Hinv He) as [Herr Hpan].
  pose proof (ended_taken _ _ _ Havail Hinv Hlen He) as Htaken.
  assert (v = RunOk ↔ thread_errors c.2 = [] ∧ n_errors c.1 = 0) as Hv.
  { destruct c as [st ws]. unfold finish in Hend. cbn [fst snd] in *. rewrite He in Hend.
    destruct (thread_errors ws); [case_bool_decide|]; injection Hend as <-;
      (split; [intros Hx; first [done|discriminate Hx]|by intros [? ?]]). }
  rewrite thread_errors_nil in Hv. rewrite Hv. split.
  - intros [Hw Hn]. apply Forall_and in Hw as [Hnp _].
    rewrite <-(Htaken Hnp (or_intror Hn)). apply count_pass. split; [lia|by apply Hpan].
  - intros Hpass. apply (Forall_take _ (current_idx c.1)) in Hpass. apply count_pass in Hpass as [Hf Hp].
    assert (n_errors c.1 = 0) as Hn by lia. split; [|done]. apply Hpan in Hp.
    rewrite Forall_forall in Hp |- *. intros w Hw. split; [by apply Hp|]. intros e ->.
    destruct (inv_finished _ _ Hinv _ Hw) as [[_ ?]|[? _]]; [done|done|lia|done].
Qed.

(** C34: In whatever order the threads run, the run answers [Ok] exactly when every file
    passes; and if it is to keep going and no file panics, the errors it has counted are
    the files that fail, each once. *)
Theorem runner_verdict avail files c v
    (Havail : avail ≠ Some 0) (Hreach : rtc step (start config avail files) c)
    (Hend : finish c = Some v) :
  (v = RunOk ↔ Forall (λ f, suite f = Ret (Ok ())) files) ∧
  (keep_going config = true → Forall (λ f, suite f ≠ Panic) files →
    n_errors c.1 = count fails files).
Proof.
  split; [by eapply verdict_passes|]. intros Hk Hnopanic.
  apply reachable_inv in Hreach as [Hinv Hlen].
  destruct (forallb ended c.2) eqn:He; [|destruct c; cbn in *; by rewrite He in Hend].
  destruct (ended_inv _ _ Hinv He) as [Herr Hpan].
  rewrite Herr, (ended_taken _ _ _ Havail Hinv Hlen He); [done| |by left].
  apply Hpan, count_zero. apply Forall_take. eapply Forall_impl; [exact Hnopanic|].
  intros f Hf. cbn in Hf. unfold panics. by destruct (suite f).
Qed.

(** ** Termination *)
(** How many steps a worker may take before it is at the queue again; a file that is
    left counts for what comes after it is taken. *)
Definition rank (w : worker) : nat :=
  match w with
  | AtCheck => 2 | AtFetch => 1 | Running _ => 4 | Failed _ => 3 | Finished _ | Panicked => 0
  end.
Definition measure (c : threads) : nat :=
  4 * (length (queue c.1) - current_idx c.1) + load rank c.2.

Lemma step_measure c c' : step c c' → measure c' < measure c.
Proof.
  intros [i st ws w st' w' Hi Hw]. unfold measure. cbn [fst snd].
  pose proof (load_insert rank ws i w w' Hi) as Hl.
  destruct w as [| |f|err| |]; cbn in Hw; try done.
  - injection Hw as <- <-. destruct (negb _ && _); cbn in *; lia.
  - unfold next_test in Hw. destruct (queue st !! current_idx st) eqn:Hq; injection Hw as <- <-; cbn in *.
    + apply lookup_lt_Some in Hq. lia.
    + lia.
  - injection Hw as <- <-. destruct (suite f) as [[]|]; cbn in *; lia.
  - injection Hw as <- <-. destruct (keep_going config); cbn in *; lia.
Qed.

Lemma step_or_ended c : (∃ c', step c c') ∨ ∃ v, finish c = Some v.
Proof.
  destruct c as [st ws]. destruct (forallb ended ws) eqn:He.
  - right. cbn. rewrite He. destruct (thread_errors ws); eauto.
  - left.
    assert (∃ i w, ws !! i = Some w ∧ ended w = false) as (i&w&Hi&Hw).
    { clear -He. induction ws as [|w ws IH]; [done|]. cbn in He.
      destruct (ended w) eqn:Hw; [|by exists 0, w].
      destruct (IH He) as (i&w'&?&?). by exists (S i), w'. }
    destruct (worker_step st w) as [[st' w']|] eqn:Hs; [eexists; econstructor; eassumption|].
    destruct w; cbn in *; try done. unfold next_test in Hs. by destruct (queue st !! current_idx st).
Qed.

(** C35: Every schedule of the threads comes to an end, and then every thread has ended
    and the run has a verdict. *)
Theorem runner_terminates c :
  sn step c ∧ ∀ c', rtc step c c' → nf step c' → ∃ v, finish c' = Some v.
Proof.
  split.
  - remember (measure c) as n eqn:Hn. revert c Hn.
    induction n as [n IH] using lt_wf_ind. intros c ->. constructor. intros c' Hs.
    eapply IH; [by apply step_measure|done].
  - intros c' _ Hnf. destruct (step_or_ended c') as [[c'' Hs]|Hv]; [|done].
    destruct Hnf. by exists c''.
Qed.
End theory.

(** ** Witnesses: two threads and three files, one of which fails *)
Section example.
Definition example_suite (f : string) : outcome (result () TestError) :=
  if bool_decide (f = "bad"%string) then Ret (Err (mkTestError "t" f KindPanic)) else Ret (Ok ()).
Definition example_files : list string := ["a"; "bad"; "c"]%string.
(** Round robin: long enough for every thread to end. *)
Definition round_robin : list nat := concat (replicate 20 [0; 1]).

Lemma run_schedule_reaches suite config schedule c :
  rtc (step suite config) c (run_schedule suite config schedule c).
Proof.
  revert c. induction schedule as [|i schedule IH]; intros c; cbn [run_schedule]; [constructor|].
  destruct c as [st ws]. cbn [fst snd]. destruct (ws !! i) as [w|] eqn:Hi; cbn; [|apply IH].
  destruct (worker_step suite config st w) as [[st' w']|] eqn:Hw; [|apply IH].
  eapply rtc_l; [by econstructor|apply IH].
Qed.

Lemma runner_verdict_witness :
  let config := TestRunnerConfig_new false false false true in
  let c := run_schedule example_suite config round_robin (start config (Some 2) example_files) in
  finish c = Some RunExit ∧ length c.2 = 2 ∧ n_errors c.1 = 1 ∧
  ¬ Forall (λ f, example_suite f = Ret (Ok ())) example_files.
Proof.
  intros config c.
  destruct (runner_verdict example_suite config (Some 2) example_files c RunExit ltac:(done)
    (run_schedule_reaches _ _ _ _) ltac:(vm_compute; reflexivity)) as [Hv Hn].
  split; [vm_compute; reflexivity|]. split; [vm_compute; reflexivity|]. split.
  - rewrite Hn; [vm_compute; reflexivity|reflexivity|]. repeat constructor; discriminate.
  - intros Hall. apply Hv in Hall. discriminate Hall.
Defined.

Lemma runner_terminates_witness :
  let config := TestRunnerConfig_new true false false false in
  let c := start config None example_files in
  let c' := run_schedule example_suite config (replicate 20 0) c in
  sn (step example_suite config) c ∧ current_idx c'.1 = 2 ∧ ∃ v, finish c' = Some v.
Proof.
  intros config c c'.
  destruct (runner_terminates example_suite config c) as [Hsn Hend].
  split; [exact Hsn|]. split; [vm_compute; reflexivity|]. apply Hend.
  - apply run_schedule_reaches.
  - intros [c'' Hs].
    assert (c' = (mkRunner 1 2 example_files,
                  [Finished (Err (mkTestError "t"%string "bad"%string KindPanic))])) as Hc
      by (vm_compute; reflexivity).
    rewrite Hc in Hs. inversion Hs as [i ? ? w ? ? Hi Hw].
    destruct i as [|i]; [|discriminate Hi]. injection Hi as <-. discriminate Hw.
Defined.
End example.
