(* ===== verification/T8n.v ===== *)
(** * The state transition tool

    Models [bin/mega-evme/src/t8n]: transactions as the tool reads them, their envelopes
    and environments, the loop over the transactions of a block with its receipts, and
    how inputs are loaded and results written.  Files, JSON, hashes and keys are
    parameters; the EVM is that of [ToolEvm.v]. *)
From stdpp Require Import pretty.
From S2P Require Import Prelude Spec Deps EvmState LimitTypes Context Sandbox Evme EvmeTx ToolEvm StateTest.
Open Scope Z_scope.
Open Scope rust_scope.
#[local] Set Warnings "-notation-for-abbreviation".

(** ** [error.rs], [types/] *)
Inductive T8nError :=
  | InputLoad (file source : string)
  | JsonParse (file source : string)
  | EvmExecution (e : string)
  | OutputWrite (file source : string)
  | InvalidFork (e : string)
  | InvalidTransaction (e : string).

Inductive TransactionConversionError :=
  | UnsupportedType (ty : Z)
  | MissingField (field : string)
  | InvalidSignature (e : string)
  | Eip7702CannotBeCreate.
Definition conversion_error_to_string (e : TransactionConversionError) : string :=
  match e with
  | UnsupportedType ty => "Unsupported transaction type: " ++ pretty ty
  | MissingField field => "Missing required field: " ++ field
  | InvalidSignature e => "Invalid signature: " ++ e
  | Eip7702CannotBeCreate => "EIP-7702 transactions cannot be contract creation transactions"
  end%string.

Record Transaction := mkT8nTx {
  x_tx_type : option Z;
  x_chain_id : option U256;
  x_nonce : Z;
  x_gas_price : option Z;
  x_max_fee_per_gas : option Z;
  x_max_priority_fee_per_gas : option Z;
  x_gas : Z;
  x_to : option Address;
  x_value : U256;
  x_data : Bytes;
  x_access_list : option AccessList;
  x_authorization_list : option (list SignedAuthorization);
  x_max_fee_per_blob_gas : option U256;
  x_blob_versioned_hashes : list B256;
  x_v : U256;
  x_r : U256;
  x_s : U256;
  x_secret_key : option B256;
}.

(** [x.try_into::<u64>().ok()]. *)
Definition try_u64 (x : U256) : option Z := if decide (in_u64 x) then Some x else None.

Section conversion.
Context `{Profile}.

Definition to_u64_or {A} (x : U256) (e : string) (k : Z → outcome (result A TransactionConversionError)) :
    outcome (result A TransactionConversionError) :=
  match try_u64 x with
  | Some n => k n
  | None => Ret (Err (InvalidSignature e))
  end.

Definition to_signature (self : Transaction) : outcome (result Signature TransactionConversionError) :=
  let signature y_parity := Ok (mkSignature (x_r self) (x_s self) y_parity) in
  match x_chain_id self with
  | Some chain_id =>
      to_u64_or chain_id "chain_id too large" (λ chain_id,
      to_u64_or (x_v self) "v value too large" (λ v,
        twice ← mul_u64 chain_id 2;
        base ← add_u64 twice 35;
        if bool_decide (base ≤ v) then
          twice ← mul_u64 chain_id 2;
          d ← sub_u64 v twice;
          d ← sub_u64 d 35;
          Ret (signature (bool_decide (d = 1)))
        else Ret (signature (bool_decide (v = 28)))))
  | None =>
      to_u64_or (x_v self) "v value too large" (λ v, Ret (signature (bool_decide (v = 28))))
  end.

(** [field.ok_or(MissingField(name))?]. *)
Definition required {A B} (o : option A) (name : string)
    (k : A → result B TransactionConversionError) : result B TransactionConversionError :=
  match o with Some a => k a | None => Err (MissingField name) end.

Definition envelope_of (self : Transaction) (signature : Signature) :
    result OpTxEnvelope TransactionConversionError :=
  let tx_kind := match x_to self with Some addr => TxCall addr | None => TxCreate end in
  let tx_type := default 0 (x_tx_type self) in
  let chain_id := x_chain_id self ≫= try_u64 in
  let access_list := default [] (x_access_list self) in
  if bool_decide (tx_type = 0) then
    required (x_gas_price self) "gas_price" (λ gas_price,
    Ok (TxLegacy chain_id (x_nonce self) gas_price (x_gas self) tx_kind (x_value self) (x_data self)
          signature))
  else if bool_decide (tx_type = 1) then
    required chain_id "chain_id" (λ chain_id,
    required (x_gas_price self) "gas_price" (λ gas_price,
    Ok (TxEip2930 chain_id (x_nonce self) gas_price (x_gas self) tx_kind (x_value self) access_list
          (x_data self) signature)))
  else if bool_decide (tx_type = 2) then
    required chain_id "chain_id" (λ chain_id,
    required (x_max_fee_per_gas self) "max_fee_per_gas" (λ max_fee,
    required (x_max_priority_fee_per_gas self) "max_priority_fee_per_gas" (λ max_priority_fee,
    Ok (TxEip1559 chain_id (x_nonce self) (x_gas self) max_fee max_priority_fee tx_kind
          (x_value self) access_list (x_data self) signature))))
  else if bool_decide (tx_type = 3) then Err (UnsupportedType 3)
  else if bool_decide (tx_type = 4) then
    required chain_id "chain_id" (λ chain_id,
    required (x_max_fee_per_gas self) "max_fee_per_gas" (λ max_fee,
    required (x_max_priority_fee_per_gas self) "max_priority_fee_per_gas" (λ max_priority_fee,
    match x_to self with
    | None => Err Eip7702CannotBeCreate
    | Some to_addr =>
        required (x_authorization_list self) "authorization_list" (λ authorization_list,
        Ok (TxEip7702 chain_id (x_nonce self) (x_gas self) max_fee max_priority_fee to_addr
              (x_value self) access_list authorization_list (x_data self) signature))
    end)))
  else Err (UnsupportedType tx_type).

Definition to_envelope (self : Transaction) :
    outcome (result OpTxEnvelope TransactionConversionError) :=
  signature ←? to_signature self;
  Ret (envelope_of self signature).
End conversion.

(** ** Receipts and results *)
Record TransactionLog := mkT8nLog {
  l_address : Address;
  l_topics : list B256;
  l_data : Bytes;
  l_block_number : Z;
  l_transaction_hash : B256;
  l_transaction_index : Z;
  l_block_hash : B256;
  l_log_index : Z;
  l_removed : bool;
}.
(** The fields that the tool never fills in ([root], [logs_bloom], [contract_address] and
    so on are all [None]) are left out. *)
Record TransactionReceipt := mkT8nReceipt {
  r_transaction_hash : B256;
  r_gas_used : Z;
  r_status : Z;
  r_cumulative_gas_used : Z;
  r_logs : list TransactionLog;
}.
Record RejectedTx := mkRejected { rej_index : Z; rej_error : string }.
Notation StateAlloc := (gmap Address StAccountInfo).

Record TransitionInputs := mkInputs {
  in_alloc : StateAlloc;
  in_env : Env;
  in_txs : list Transaction;
}.
Record TransitionResults (Bloom : Type) := mkResults {
  res_state_root : B256;
  res_tx_root : B256;
  res_receipts_root : B256;
  res_logs_hash : B256;
  res_logs_bloom : Bloom;
  res_receipts : list TransactionReceipt;
  res_rejected : list RejectedTx;
  res_difficulty : U256;
  res_gas_used : Z;
  res_base_fee : U256;
  res_post_state_alloc : StateAlloc;
}.
Arguments mkResults {Bloom}.
Arguments res_logs_hash {Bloom}.
Arguments res_logs_bloom {Bloom}.
Arguments res_receipts {Bloom}.
Arguments res_rejected {Bloom}.
Arguments res_gas_used {Bloom}.
Arguments res_post_state_alloc {Bloom}.

(** What the tool reads of logs, and the bloom filter. *)
Class LogApi (Log Bloom : Type) := {
  log_address : Log → Address;
  log_topics : Log → list B256;
  log_data : Log → Bytes;
  bloom_default : Bloom;
  accrue_log : Bloom → Log → Bloom;
}.

(** ** [cmd.rs] *)
Section transition.
Context `{Profile} `{BitflagsApi} `{InstructionResultApi} `{SStoreApi} `{AbiApi} `{EthRules}
  {J0 J S O Evm DB Cache Bytecode E Log Bloom : Type} {revm : RevmState Bytecode}
  {codes : EvmeBytecode Bytecode} {cache_api : CacheApi Cache Bytecode}
  {states : StateApi DB Cache Bytecode} {hashes : HashApi Log} {logs_api : LogApi Log Bloom}
  {tool : ToolEvm (MegaContext J S O) Evm DB E Log}
  (recover_address : B256 → option Address) (tx_hash : OpTxEnvelope → B256)
  (debug_b256 : B256 → string) (debug_t8n : T8nError → string) (debug_evm : E → string)
  (empty_inner : OpContext J0) (salt_env : S) (oracle_env : O)
  (op_with_db : DB → OpContext J0 → OpContext J) (cfg_default : CfgEnv MegaSpecId)
  (as_mega : OpTransaction → MegaTransaction).

(** The options that are read; those of the tracer and the reward are not. *)
Record Cmd := mkCmd {
  fork_name : string;
  chain_id : Z;
  output_basedir : option string;
  output_alloc : string;
  output_result : string;
  output_body : option string;
  input_alloc : string;
  input_env : string;
  input_txs : string;
}.
Implicit Types self : Cmd.

Definition spec_id self : outcome MegaSpecId :=
  match spec_from_str (fork_name self) with Ok spec => Ret spec | Err _ => Panic end.

Definition create_block_env (env : Env) : outcome ToolBlockEnv :=
  let block := base_block_env env in
  match current_excess_blob_gas env with
  | Some excess => excess ← to_u64 excess; Ret (with_blob (blob_price excess) block)
  | None => Ret block
  end.

(** [State::builder().with_cached_prestate(cache)]. *)
Definition create_initial_state (spec : MegaSpecId) (alloc : StateAlloc) : DB :=
  with_cached_prestate (map_fold (λ address i cache,
    let bytecode := bytecode_of (st_code i) in
    insert_account_with_storage address
      (mkAccountInfo (st_balance i) (st_nonce i) (hash_slow bytecode) (Some bytecode))
      (st_storage i) cache)
    (cache_new (eth_enabled spec SPURIOUS_DRAGON)) alloc).

Definition recover_address_from_secret_key (secret_key : B256) : result Address T8nError :=
  match recover_address secret_key with
  | Some a => Ok a
  | None => Err (InvalidTransaction
      ("Failed to recover address from secret key: " ++ debug_b256 secret_key))
  end%string.

Definition convert_transaction_to_env (tx : Transaction) : outcome (result TxEnv T8nError) :=
  match x_secret_key tx with
  | None => Ret (Err (InvalidTransaction "Missing secret key for transaction"))
  | Some secret_key =>
      match recover_address_from_secret_key secret_key with
      | Err e => Ret (Err e)
      | Ok caller =>
          let gas_price := match x_gas_price tx with
                           | Some p => Some p | None => x_max_fee_per_gas tx end in
          max_fee_per_blob_gas ← map_outcome expect_u128 (x_max_fee_per_blob_gas tx);
          chain_id ← map_outcome to_u64 (x_chain_id tx);
          Ret (Ok (mkTxEnv caller (default 0 gas_price) (x_max_priority_fee_per_gas tx)
                 (x_blob_versioned_hashes tx) (default u128_max max_fee_per_blob_gas)
                 (default 0 (x_tx_type tx)) (x_gas tx) (x_data tx) (x_nonce tx) (x_value tx)
                 (default [] (x_access_list tx))
                 (map inl (default [] (x_authorization_list tx)))
                 (match x_to tx with Some addr => TxCall addr | None => TxCreate end) chain_id))
      end
  end.

(** The receipt of a transaction that did not succeed. *)
Definition failed_receipt (hash : B256) (gas_used total_gas_used : Z) : TransactionReceipt :=
  mkT8nReceipt hash gas_used 0 total_gas_used [].

Definition receipt_logs (hash : B256) (tx_index : nat) (logs : list Log) : list TransactionLog :=
  imap (λ log_index log,
    mkT8nLog (log_address log) (log_topics log) (log_data log) 0 hash (Z.of_nat tx_index) 0
      (Z.of_nat log_index) false) logs.

(** What the loop over the transactions changes. *)
Record Progress := mkProgress {
  pr_state : DB;
  pr_total_gas_used : Z;
  pr_all_logs : list Log;
  pr_receipts : list TransactionReceipt;
  pr_rejected : list RejectedTx;
}.

(** Running one transaction on a context of its own. *)
Definition execute (cfg : CfgEnv MegaSpecId) (block : ToolBlockEnv) (tx_env : TxEnv) (db : DB) :
    outcome (DB * result (ExecutionResult MegaHaltReason Log) E) :=
  evm_context ← tool_context empty_inner salt_env oracle_env (op_with_db db) cfg
                  (to_block_env block);
  '(evm, exec_result) ← te_transact_commit (as_mega (mkOpTransaction tx_env (Some []) no_deposit))
                          (te_new evm_context);
  Ret (te_into_db evm, exec_result).

Definition process (cfg : CfgEnv MegaSpecId) (block : ToolBlockEnv) (tx_index : nat)
    (tx_data : Transaction) (p : Progress) : outcome (result Progress T8nError) :=
  envelope ← to_envelope tx_data;
  match envelope with
  | Err e => Ret (Err (InvalidTransaction (conversion_error_to_string e)))
  | Ok tx =>
      let hash := tx_hash tx in
      tx_env ← convert_transaction_to_env tx_data;
      match tx_env with
      | Err e =>
          Ret (Ok (mkProgress (pr_state p) (pr_total_gas_used p) (pr_all_logs p)
            (pr_receipts p ++ [failed_receipt hash 0 (pr_total_gas_used p)])
            (pr_rejected p ++ [mkRejected (Z.of_nat tx_index)
               ("Failed to convert transaction: " ++ debug_t8n e)])))
      | Ok tx_env =>
          '(db, exec_result) ← execute cfg block tx_env (pr_state p);
          match exec_result with
          | Ok result =>
              let tx_gas_used := result_gas_used result in
              total_gas_used ← add_u64 (pr_total_gas_used p) tx_gas_used;
              match result with
              | ExecSuccess _ _ logs _ =>
                  Ret (Ok (mkProgress db total_gas_used (pr_all_logs p ++ logs)
                    (pr_receipts p ++ [mkT8nReceipt hash tx_gas_used 1 total_gas_used
                                         (receipt_logs hash tx_index logs)])
                    (pr_rejected p)))
              | _ =>
                  Ret (Ok (mkProgress db total_gas_used (pr_all_logs p)
                    (pr_receipts p ++ [failed_receipt hash tx_gas_used total_gas_used])
                    (pr_rejected p)))
              end
          | Err e =>
              Ret (Ok (mkProgress db (pr_total_gas_used p) (pr_all_logs p)
                (pr_receipts p ++ [failed_receipt hash 0 (pr_total_gas_used p)])
                (pr_rejected p ++ [mkRejected (Z.of_nat tx_index) (debug_evm e)])))
          end
      end
  end%string.

Fixpoint process_all (cfg : CfgEnv MegaSpecId) (block : ToolBlockEnv) (tx_index : nat)
    (txs : list Transaction) (p : Progress) : outcome (result Progress T8nError) :=
  match txs with
  | [] => Ret (Ok p)
  | tx :: txs =>
      p ←? process cfg block tx_index tx p;
      process_all cfg block (tx_index + 1) txs p
  end.

(** [utils.rs] *)
Definition calculate_state_root (db : DB) : B256 := state_merkle_trie_root (Log:=Log) (trie_account db).
Definition calculate_logs_root (logs : list Log) : B256 := log_rlp_hash logs.
Definition calculate_logs_bloom (logs : list Log) : Bloom := foldl accrue_log bloom_default logs.
Definition extract_post_state_alloc_from_state (db : DB) : StateAlloc :=
  foldl (λ post_alloc '(address, account),
    <[address := mkStAccount (balance account.1)
        (default [] (original_byte_slice <$> code account.1)) (nonce account.1) account.2]>
      post_alloc) ∅ (trie_account db).

Definition transition_cfg self (spec : MegaSpecId) : CfgEnv MegaSpecId :=
  let c := cfg_default in
  mkCfgEnv spec (chain_id self) (cfg_tx_chain_id_check _ c)
    (cfg_limit_contract_code_size c) (cfg_limit_contract_initcode_size c)
    (cfg_disable_nonce_check _ c) (cfg_max_blobs_per_tx _ c)
    (cfg_blob_base_fee_update_fraction _ c) (cfg_tx_gas_limit_cap _ c) (cfg_memory_limit _ c)
    (cfg_disable_balance_check _ c) (cfg_disable_block_gas_limit _ c) (cfg_disable_eip3541 _ c)
    (cfg_disable_eip3607 _ c) (cfg_disable_base_fee _ c).

Definition run_evm_transition self (inputs : TransitionInputs) :
    outcome (result (TransitionResults Bloom) T8nError) :=
  spec ← spec_id self;
  let cfg := transition_cfg self spec in
  block ← create_block_env (in_env inputs);
  let state := create_initial_state spec (in_alloc inputs) in
  p ←? process_all cfg block 0 (in_txs inputs) (mkProgress state 0 [] [] []);
  Ret (Ok (mkResults (calculate_state_root (pr_state p)) 0 0
    (calculate_logs_root (pr_all_logs p)) (calculate_logs_bloom (pr_all_logs p))
    (pr_receipts p) (pr_rejected p) (current_difficulty (in_env inputs)) (pr_total_gas_used p)
    (default 0 (current_base_fee (in_env inputs)))
    (extract_post_state_alloc_from_state (pr_state p)))).
End transition.

(** ** [io.rs]: a world of files, and JSON *)
Class T8nIo (W Bloom : Type) := {
  read_file : string → W → result string string;
  read_stdin : W → result string string;
  create_dir_all : string → W → W * result () string;
  write_file : string → string → W → W * result () string;
  println : string → W → W;
  path_join : string → string → string;
  path_parent : string → option string;
  parse_alloc : string → result StateAlloc string;
  parse_env : string → result Env string;
  parse_txs : string → result (list Transaction) string;
  parse_stdin : string → result (StateAlloc * Env * list Transaction) string;
  alloc_to_json : StateAlloc → result string string;
  results_to_json : TransitionResults Bloom → result string string;
  output_to_json : StateAlloc → TransitionResults Bloom → result string string;
}.

Section io.
Context {W Bloom : Type} {io : T8nIo W Bloom}.

(** A file that is read and parsed. *)
Definition load {A} (parse : string → result A string) (path : string) (w : W) :
    result A T8nError :=
  content ←! map_err (InputLoad path) (read_file path w);
  map_err (JsonParse path) (parse content).
Definition load_alloc := load parse_alloc.
Definition load_env := load parse_env.
Definition load_transactions := load parse_txs.

Definition load_from_stdin (w : W) : result TransitionInputs T8nError :=
  buffer ←! map_err (InputLoad "stdin") (read_stdin w);
  '(alloc, env, txs) ←! map_err (JsonParse "stdin") (parse_stdin buffer);
  Ok (mkInputs alloc env txs).

Definition load_inputs (self : Cmd) (w : W) : result TransitionInputs T8nError :=
  if bool_decide (input_alloc self = "stdin"%string) || bool_decide (input_env self = "stdin"%string)
     || bool_decide (input_txs self = "stdin"%string)
  then load_from_stdin w
  else
    alloc ←! load_alloc (input_alloc self) w;
    env ←! load_env (input_env self) w;
    txs ←! load_transactions (input_txs self) w;
    Ok (mkInputs alloc env txs).

(** A value written as JSON to a file, its directory made when it is missing. *)
Definition write_json {A} (to_json : A → result string string) (value : A) (output : string)
    (output_basedir : option string) (w : W) : W * result () T8nError :=
  let output_path := match output_basedir with
                     | Some base_dir => path_join base_dir output
                     | None => output
                     end in
  match to_json value with
  | Err e => (w, Err (JsonParse output_path e))
  | Ok json_output =>
      let '(w, made) := match path_parent output_path with
                        | Some parent =>
                            let '(w, r) := create_dir_all parent w in
                            (w, map_err (OutputWrite parent) r)
                        | None => (w, Ok tt)
                        end in
      match made with
      | Err e => (w, Err e)
      | Ok _ =>
          let '(w, r) := write_file output_path json_output w in
          (w, map_err (OutputWrite output_path) r)
      end
  end.
Definition write_alloc_to_file := write_json alloc_to_json.
Definition write_result_to_file := write_json results_to_json.
(** Writing the body is not implemented. *)
Definition write_body_output (body_file : string) (output_basedir : option string) :
    result () T8nError := Ok tt.

Definition output_results (self : Cmd) (results : TransitionResults Bloom) (w : W) :
    W * result () T8nError :=
  match output_to_json (res_post_state_alloc results) results with
  | Err e => (w, Err (JsonParse "stdout" e))
  | Ok result_json =>
      let w := println result_json w in
      let '(w, r) :=
        if bool_decide (output_result self = "stdout"%string) then (w, Ok tt)
        else write_result_to_file results (output_result self) (output_basedir self) w in
      match r with
      | Err e => (w, Err e)
      | Ok _ =>
          let '(w, r) :=
            if bool_decide (output_alloc self = "stdout"%string) then (w, Ok tt)
            else write_alloc_to_file (res_post_state_alloc results) (output_alloc self)
                   (output_basedir self) w in
          match r with
          | Err e => (w, Err e)
          | Ok _ =>
              (w, match output_body self with
                  | Some body_file => write_body_output body_file (output_basedir self)
                  | None => Ok tt
                  end)
          end
      end
  end.

(** The three steps of the command, for a transition. *)
Definition run (self : Cmd)
    (run_evm_transition : TransitionInputs → outcome (result (TransitionResults Bloom) T8nError))
    (w : W) : outcome (W * result () T8nError) :=
  match load_inputs self w with
  | Err e => Ret (w, Err e)
  | Ok inputs =>
      results ← run_evm_transition inputs;
      Ret match results with
          | Err e => (w, Err e)
          | Ok results => output_results self results w
          end
  end.
End io.
