(* ===== verification/T8nTheory.v ===== *)
(** * Theorems about the state transition tool

    The results of a transition are those of its transactions, one after the other; and
    what becomes of the parity of a signature. *)
From S2P Require Import Prelude Spec Deps EvmState LimitTypes Context Sandbox Evme EvmeTx ToolEvm.
From S2P Require Import StateTest T8n.
Open Scope Z_scope.
Open Scope rust_scope.
#[local] Set Warnings "-notation-for-abbreviation".

(** ** Signatures *)
Section signatures.
Context `{Profile}.

(** The [v] of a legacy signature: EIP-155 with a chain id, 27 or 28 without. *)
Definition legacy_v (chain_id : option U256) (y_parity : bool) : Z :=
  match chain_id with
  | Some c => 2 * c + 35 + Z.b2z y_parity
  | None => 27 + Z.b2z y_parity
  end.

Lemma try_u64_in x : in_u64 x → try_u64 x = Some x.
Proof. intros Hx. unfold try_u64. by rewrite decide_True. Qed.

(** Bounds of sums with a parity; and sums that fit. *)
Ltac parity_lia := match goal with b : bool |- _ => destruct b end; cbn; u64_lia.
Ltac fit_sums := repeat (rewrite fit_u64_in by parity_lia; cbn [mbind outcome_bind]).

(** The parity is read back from the [v] of a legacy signature of any chain. A typed
    transaction has its parity itself as [v], and always gets the parity false. *)
Theorem parity_of_legacy_only (t : Transaction) (y_parity : bool)
    (Hchain : ∀ c, x_chain_id t = Some c → 0 ≤ c ∧ 2 * c + 36 ≤ u64_max) :
  (x_v t = legacy_v (x_chain_id t) y_parity →
   to_signature t = Ret (Ok (mkSignature (x_r t) (x_s t) y_parity))) ∧
  (x_v t = Z.b2z y_parity →
   to_signature t = Ret (Ok (mkSignature (x_r t) (x_s t) false))).
Proof.
  unfold to_signature, legacy_v, to_u64_or.
  destruct (x_chain_id t) as [c|] eqn:Hc; split; intros Hv; rewrite Hv.
  - destruct (Hchain c eq_refl). rewrite !try_u64_in by parity_lia. unfold mul_u64, add_u64, sub_u64.
    fit_sums. rewrite bool_decide_true by parity_lia. fit_sums.
    do 3 f_equal. destruct y_parity; [apply bool_decide_true|apply bool_decide_false]; cbn; lia.
  - destruct (Hchain c eq_refl). rewrite !try_u64_in by parity_lia. unfold mul_u64, add_u64.
    fit_sums. by rewrite !bool_decide_false by parity_lia.
  - rewrite try_u64_in by parity_lia. by destruct y_parity.
  - rewrite try_u64_in by parity_lia. by destruct y_parity.
Qed.
End signatures.

(** ** What a transition is made of *)
Inductive entry (Log : Type) :=
  | Executed (hash : B256) (gas_used : Z) (logs : list Log)
  | Unsuccessful (hash : B256) (gas_used : Z)
  | Refused (hash : B256) (error : string).
Arguments Executed {Log}.
Arguments Unsuccessful {Log}.
Arguments Refused {Log}.

Section theory.
Context `{Profile} `{BitflagsApi} `{InstructionResultApi} `{SStoreApi} `{AbiApi} `{EthRules}
  {J0 J S O Evm DB Cache Bytecode E Log Bloom : Type} {revm : RevmState Bytecode}
  {codes : EvmeBytecode Bytecode} {cache_api : CacheApi Cache Bytecode}
  {states : StateApi DB Cache Bytecode} {hashes : HashApi Log} {logs_api : LogApi Log Bloom}
  {tool : ToolEvm (MegaContext J S O) Evm DB E Log}
  (recover_address : B256 → option Address) (tx_hash : OpTxEnvelope → B256)
  (debug_b256 : B256 → string) (debug_t8n : T8nError → string) (debug_evm : E → string)
  (empty_inner : OpContext J0) (salt_env : S) (oracle_env : O)
  (op_with_db : DB → OpContext J0 → OpContext J) (cfg_default : CfgEnv MegaSpecId)
  (as_mega : OpTransaction → MegaTransaction).
Notation process := (process recover_address tx_hash debug_b256 debug_t8n debug_evm empty_inner
  salt_env oracle_env op_with_db as_mega).
Notation process_all := (process_all recover_address tx_hash debug_b256 debug_t8n debug_evm
  empty_inner salt_env oracle_env op_with_db as_mega).
Notation run_evm_transition := (run_evm_transition recover_address tx_hash debug_b256 debug_t8n
  debug_evm empty_inner salt_env oracle_env op_with_db cfg_default as_mega).

Definition entry_hash (e : entry Log) : B256 :=
  match e with Executed h _ _ | Unsuccessful h _ | Refused h _ => h end.
Definition entry_gas (e : entry Log) : Z :=
  match e with Executed _ g _ | Unsuccessful _ g => g | Refused _ _ => 0 end.
Definition entry_logs (e : entry Log) : list Log :=
  match e with Executed _ _ logs => logs | _ => [] end.

(** What the EVM answered, as an entry: a success has its logs, a revert and a halt only
    their gas, and a transaction that the EVM refuses has neither. *)
Definition answered (hash : B256) (res : result (ExecutionResult MegaHaltReason Log) E) : entry Log :=
  match res with
  | Ok (ExecSuccess g _ logs _) => Executed hash g logs
  | Ok (ExecRevert g _) | Ok (ExecHalt _ g) => Unsuccessful hash g
  | Err e => Refused hash (debug_evm e)
  end.

(** One transaction on a database: it has no environment and nothing changes, or it is run
    by a new EVM on the database and leaves the database of this EVM. *)
Inductive ran_one (cfg : CfgEnv MegaSpecId) (block : ToolBlockEnv) (db : DB) (tx : Transaction) :
    entry Log → DB → Prop :=
  | ran_unconverted env e :
      to_envelope tx = Ret (Ok env) →
      convert_transaction_to_env recover_address debug_b256 tx = Ret (Err e) →
      ran_one cfg block db tx
        (Refused (tx_hash env) ("Failed to convert transaction: " ++ debug_t8n e)%string) db
  | ran_by_evm env tx_env ctx evm res :
      to_envelope tx = Ret (Ok env) →
      convert_transaction_to_env recover_address debug_b256 tx = Ret (Ok tx_env) →
      tool_context empty_inner salt_env oracle_env (op_with_db db) cfg (to_block_env block) = Ret ctx →
      te_transact_commit (as_mega (mkOpTransaction tx_env (Some []) no_deposit)) (te_new ctx) =
        Ret (evm, res) →
      ran_one cfg block db tx (answered (tx_hash env) res) (te_into_db evm).

(** The transactions of a block in their order, each on the database the one before left. *)
Inductive ran (cfg : CfgEnv MegaSpecId) (block : ToolBlockEnv) :
    DB → list Transaction → list (entry Log) → DB → Prop :=
  | ran_nil db : ran cfg block db [] [] db
  | ran_cons db tx e db1 txs es db2 :
      ran_one cfg block db tx e db1 → ran cfg block db1 txs es db2 →
      ran cfg block db (tx :: txs) (e :: es) db2.

(** The gas of a block so far, as a 64-bit sum. *)
Definition gas_after (es : list (entry Log)) : Z := foldl Z.add 0 (entry_gas <$> es) mod (u64_max + 1).

(** The receipt of the entry at [i]: its own gas, status and logs, and the running sum. *)
Definition receipt_of (es : list (entry Log)) (i : nat) (e : entry Log) : TransactionReceipt :=
  mkT8nReceipt (entry_hash e) (entry_gas e) (match e with Executed _ _ _ => 1 | _ => 0 end)
    (gas_after (take (i + 1) es)) (receipt_logs (entry_hash e) i (entry_logs e)).
Definition rejection_of (i : nat) (e : entry Log) : option RejectedTx :=
  match e with Refused _ error => Some (mkRejected (Z.of_nat i) error) | _ => None end.

(** The progress after the entries, on whatever state. *)
Definition progress_of (es : list (entry Log)) (p : Progress (DB:=DB) (Log:=Log)) : Prop :=
  pr_total_gas_used p = gas_after es ∧
  pr_all_logs p = concat (entry_logs <$> es) ∧
  pr_receipts p = imap (receipt_of es) es ∧
  pr_rejected p = omap id (imap rejection_of es).

Lemma add_u64_mod a b r : add_u64 a b = Ret r → r = (a + b) mod (u64_max + 1).
Proof.
  unfold add_u64, fit_u64. case_decide as Hd.
  - intros [= <-]. rewrite Z.mod_small; lia.
  - destruct overflow_checks; [done|]. by intros [= <-].
Qed.

Lemma gas_after_snoc es e : gas_after (es ++ [e]) = (gas_after es + entry_gas e) mod (u64_max + 1).
Proof.
  unfold gas_after. rewrite fmap_app, foldl_app. cbn [fmap list_fmap foldl].
  by rewrite Zplus_mod_idemp_l.
Qed.

Lemma receipts_snoc es e :
  imap (receipt_of (es ++ [e])) (es ++ [e]) =
  imap (receipt_of es) es ++ [receipt_of (es ++ [e]) (length es) e].
Proof.
  rewrite imap_app. f_equal.
  - apply imap_ext. intros i x Hx. apply lookup_lt_Some in Hx. unfold receipt_of.
    by rewrite take_app_le by lia.
  - cbn. by rewrite Nat.add_0_r.
Qed.

Lemma rejected_snoc es e :
  omap id (imap rejection_of (es ++ [e])) =
  omap id (imap rejection_of es) ++ omap id [rejection_of (length es) e].
Proof. rewrite imap_app, omap_app. cbn. by rewrite Nat.add_0_r. Qed.

Lemma progress_snoc es e (p p' : Progress (DB:=DB) (Log:=Log)) :
  progress_of es p →
  pr_total_gas_used p' = (pr_total_gas_used p + entry_gas e) mod (u64_max + 1) →
  pr_all_logs p' = pr_all_logs p ++ entry_logs e →
  pr_receipts p' = pr_receipts p ++
    [mkT8nReceipt (entry_hash e) (entry_gas e) (match e with Executed _ _ _ => 1 | _ => 0 end)
       (pr_total_gas_used p') (receipt_logs (entry_hash e) (length es) (entry_logs e))] →
  pr_rejected p' = pr_rejected p ++ omap id [rejection_of (length es) e] →
  progress_of (es ++ [e]) p'.
Proof.
  intros (Hg&Hl&Hr&Hrej) Hg' Hl' Hr' Hrej'.
  assert (pr_total_gas_used p' = gas_after (es ++ [e])) as Hga by (by rewrite gas_after_snoc, <-Hg).
  split; [done|]. split; [|split].
  - by rewrite Hl', Hl, fmap_app, concat_app; cbn; rewrite app_nil_r.
  - rewrite Hr', receipts_snoc, Hr. do 2 f_equal. unfold receipt_of. rewrite Hga.
    by rewrite take_ge by (rewrite length_app; cbn; lia).
  - by rewrite Hrej', rejected_snoc, Hrej.
Qed.

(** Running gas that nothing is added to. *)
Lemma gas_unchanged es (p : Progress (DB:=DB) (Log:=Log)) :
  progress_of es p → pr_total_gas_used p = (pr_total_gas_used p + 0) mod (u64_max + 1).
Proof.
  intros (->&_). rewrite Z.add_0_r. unfold gas_after. by rewrite Z.mod_mod.
Qed.

(** One transaction adds the entry of what it did. *)
Lemma process_entry cfg block tx p p' es :
  process cfg block (length es) tx p = Ret (Ok p') → progress_of es p →
  ∃ e, ran_one cfg block (pr_state p) tx e (pr_state p') ∧ progress_of (es ++ [e]) p'.
Proof.
  intros Hp Hes. unfold T8n.process in Hp.
  apply bind_Ret in Hp as ([env|]&Henv&Hp); [|done].
  apply bind_Ret in Hp as ([tx_env|e]&Hconv&Hp).
  2:{ injection Hp as <-. eexists. split; [by eapply ran_unconverted|].
      eapply progress_snoc; [exact Hes|exact (gas_unchanged _ _ Hes)|cbn; by rewrite app_nil_r|done|done]. }
  apply bind_Ret in Hp as ([db exec]&Hexec&Hp). unfold T8n.execute in Hexec.
  apply bind_Ret in Hexec as (ctx&Hctx&Hexec). apply bind_Ret in Hexec as ([evm res]&Hevm&Hexec).
  injection Hexec as <- <-. pose proof (ran_by_evm _ _ _ _ _ _ _ _ _ Henv Hconv Hctx Hevm) as Hran.
  destruct res as [r|e].
  2:{ injection Hp as <-. eexists. split; [exact Hran|].
      eapply progress_snoc; [exact Hes|exact (gas_unchanged _ _ Hes)|cbn; by rewrite app_nil_r|done|done]. }
  apply bind_Ret in Hp as (total&Htotal&Hp). apply add_u64_mod in Htotal.
  destruct r as [g rf logs out|g out|reason g]; injection Hp as <-; (eexists; split; [exact Hran|]);
    (eapply progress_snoc; [exact Hes|exact Htotal| |done|cbn; by rewrite app_nil_r]); [done|..];
    cbn; by rewrite app_nil_r.
Qed.

Lemma process_all_entries cfg block txs : ∀ p p' es,
  process_all cfg block (length es) txs p = Ret (Ok p') → progress_of es p →
  ∃ es', ran cfg block (pr_state p) txs es' (pr_state p') ∧ progress_of (es ++ es') p'.
Proof.
  induction txs as [|tx txs IH]; intros p p' es Hp Hes; cbn in Hp.
  - injection Hp as <-. exists []. split; [constructor|by rewrite app_nil_r].
  - unfold result_bind in Hp. apply bind_Ret in Hp as ([p1|]&Hp1&Hp); [|done].
    destruct (process_entry _ _ _ _ _ _ Hp1 Hes) as (e&He&Hes1).
    replace (length es + 1)%nat with (length (es ++ [e])) in Hp by (rewrite length_app; cbn; lia).
    destruct (IH _ _ _ Hp Hes1) as (es'&Hall&Hes').
    exists (e :: es'). split; [by econstructor|]. by rewrite <-app_assoc in Hes'.
Qed.

(** C36: The results of a transition are those of its transactions.  Under the spec, the
    chain and the block of the inputs, each is run by an EVM of its own on the database
    that the one before left, the first on the allocation of the inputs.  The results
    have one entry per transaction, which is what the EVM answered, or that the
    transaction could not be converted: its receipt has the status, the gas and the logs
    of the answer and the gas used so far, the refused ones are listed with their index
    and their error, the logs of the block are those of the successful ones in order, and
    the state root and the allocation afterwards are those of the last database. *)
Theorem transition_is_its_transactions self inputs (r : TransitionResults Bloom)
    (Hr : run_evm_transition self inputs = Ret (Ok r)) :
  ∃ spec block (es : list (entry Log)) (db : DB),
    let cfg := transition_cfg cfg_default self spec in
    spec_from_str (fork_name self) = Ok spec ∧
    cfg_spec cfg = spec ∧ cfg_chain_id _ cfg = T8n.chain_id self ∧
    create_block_env (in_env inputs) = Ret block ∧
    ran cfg block (create_initial_state spec (in_alloc inputs)) (in_txs inputs) es db ∧
    res_receipts r = imap (receipt_of es) es ∧
    res_rejected r = omap id (imap rejection_of es) ∧
    res_gas_used r = gas_after es ∧
    res_logs_hash r = log_rlp_hash (concat (entry_logs <$> es)) ∧
    res_logs_bloom r = foldl accrue_log bloom_default (concat (entry_logs <$> es)) ∧
    res_state_root _ r = state_merkle_trie_root (Log:=Log) (trie_account db) ∧
    res_post_state_alloc r = extract_post_state_alloc_from_state db.
Proof.
  unfold T8n.run_evm_transition in Hr.
  apply bind_Ret in Hr as (spec&Hspec&Hr). apply bind_Ret in Hr as (block&Hblock&Hr).
  unfold result_bind in Hr. apply bind_Ret in Hr as ([p|]&Hp&Hr); [|done]. injection Hr as <-.
  apply (process_all_entries _ _ _ _ _ []) in Hp as (es&Hall&Hg&Hl&Hrec&Hrej).
  2:{ by repeat split. }
  exists spec, block, es, (pr_state p).
  unfold calculate_logs_root, calculate_logs_bloom. cbn in Hall |- *. rewrite Hl. split_and!; try done.
  unfold spec_id in Hspec. destruct (spec_from_str _); [by injection Hspec as ->|done].
Qed.
End theory.

(** ** Witnesses *)
Section example.
#[local] Existing Instances reference_revm reference_bitflags reference_instruction_result
  reference_sstore reference_abi checked_build.
#[local] Instance example_bytecodes : EvmeBytecode Z := {|
  bytecode_default := 0; new_raw_checked b := Ok (Z.of_nat (length b)); hash_slow c := 100 + c;
  original_byte_slice c := [] |}.
#[local] Instance example_cache : CacheApi nat Z := {|
  cache_new _ := 0%nat; insert_account_with_storage _ _ _ c := S c;
  cache_set_state_clear_flag _ c := c; new_legacy _ := 0; keccak256 b := Z.of_nat (length b) |}.
#[local] Instance example_state : StateApi nat nat Z := {|
  with_cached_prestate c := c; remove_cached_account _ d := d; trie_account _ := [] |}.
#[local] Instance example_hashes : HashApi Z := {|
  storage_root _ := 1; trie_root _ := 7; log_rlp_hash l := Z.of_nat (length l) |}.
#[local] Instance example_logs : LogApi Z Z := {|
  log_address l := l; log_topics _ := []; log_data _ := []; bloom_default := 0; accrue_log := Z.lor |}.
(** An EVM that counts transactions in its database and succeeds on the first. *)
#[local] Instance example_evm : ToolEvm (MegaContext nat unit unit) nat nat Z Z := {|
  te_new ctx := ctx_journal (Context.inner ctx); te_into_db db := db;
  te_transact_commit _ db := Ret (S db,
    match db with O => Ok (ExecSuccess 21000 0 [3] (OutputCall [])) | _ => Ok (ExecRevert 500 []) end);
  te_inspect_tx_commit _ db := Ret (db, Err 0) |}.
#[local] Instance example_eth : EthRules := {|
  blob_price e := mkBlob e 1; calc_excess_blob_gas a b c := a + b - c;
  TARGET_BLOB_GAS_PER_BLOCK_CANCUN := 393216; eth_enabled _ s := true |}.

Definition example_t8n_tx (secret_key : option B256) : Transaction :=
  mkT8nTx None (Some 6342) 0 (Some 7) None None 21000 (Some 8) 5 [] None None None [] 12720 1 1 secret_key.
Definition example_t8n_cfg : CfgEnv MegaSpecId :=
  mkCfgEnv EQUIVALENCE 1 true None None false None None None 0 false false false false false.
Definition example_cmd : Cmd := mkCmd "MiniRex" 6342 None "stdout" "stdout" None "a" "e" "t".
Definition example_inputs : TransitionInputs :=
  mkInputs ∅ (mkEnv None 1 0 30000000 5 1000 None None None None None None)
    [example_t8n_tx (Some 1); example_t8n_tx None; example_t8n_tx (Some 2)].

Lemma parity_of_legacy_only_witness :
  to_signature (example_t8n_tx None) = Ret (Ok (mkSignature 1 1 true)) ∧
  to_signature (mkT8nTx (Some 2) (Some 6342) 0 None (Some 7) (Some 1) 21000 (Some 8) 5 [] None None
    None [] 1 1 1 None) = Ret (Ok (mkSignature 1 1 false)).
Proof.
  split.
  - apply (proj1 (parity_of_legacy_only (example_t8n_tx None) true
      ltac:(intros c [= <-]; unfold u64_max; lia))). reflexivity.
  - refine (proj2 (parity_of_legacy_only _ true _) _); [|reflexivity].
    intros c [= <-]. unfold u64_max. lia.
Defined.

Lemma transition_is_its_transactions_witness :
  ∃ r : TransitionResults Z,
    run_evm_transition (λ key, Some key) (λ _, 9) (λ _, "key"%string) (λ _, "error"%string)
      (λ _, "error"%string)
      (mkOpContext (example_tx Bytes_new None [] 0) (mkBlockEnv 0 0 1 30000000)
        (into_op_cfg example_t8n_cfg) tt None) tt tt
      (λ db i, mkOpContext (ctx_tx i) (ctx_block i) (ctx_cfg i) db None) example_t8n_cfg
      (λ _, example_tx Bytes_new None [] 0) example_cmd example_inputs = Ret (Ok r) ∧
    r_cumulative_gas_used <$> res_receipts r = [21000; 21000; 21500] ∧
    rej_index <$> res_rejected r = [1] ∧
    res_post_state_alloc r = ∅ ∧
    ∃ es : list (entry Z), length es = 3%nat ∧ res_receipts r = imap (receipt_of es) es.
Proof.
  match goal with |- ∃ r, ?run = _ ∧ _ => assert (∃ r, run = Ret (Ok r)) as [r Hr] end.
  { eexists. vm_compute. reflexivity. }
  exists r. split; [exact Hr|].
  destruct (transition_is_its_transactions _ _ _ _ _ _ _ _ _ _ _ _ _ _ Hr)
    as (spec&block&es&db&_&_&_&_&Hall&Hrec&_).
  vm_compute in Hr. injection Hr as Hr. subst r.
  split; [reflexivity|]. split; [reflexivity|]. split; [reflexivity|].
  exists es. split; [|exact Hrec].
  inversion_clear Hall as [|? ? ? ? ? ? ? _ H1]. inversion_clear H1 as [|? ? ? ? ? ? ? _ H2].
  inversion_clear H2 as [|? ? ? ? ? ? ? _ H3]. inversion_clear H3. reflexivity.
Defined.
End example.
