(* ===== verification/TestEnv.v ===== *)
(** * The external environments of tests and tools

    Models [external/test_utils.rs]: bucket capacities, oracle storage and recorded hints
    behind handles.  A handle has three shared cells; cloning a handle shares them, so the
    operations work on a store of cells and a clone is the handle itself.  Inside one EVM
    context, whose SALT and oracle halves read disjoint cells, [TestExternalEnvs] is the
    content that a handle has, and implements [SaltEnv] and [OracleEnv]. *)
From S2P Require Import Prelude Spec Deps StorageGas Context.
Open Scope Z_scope.
#[local] Set Warnings "-notation-for-abbreviation".

Record RecordedHint := mkHint {
  hint_from : Address;
  hint_topic : B256;
  hint_data : Bytes;
}.

(** The content of the cells of a handle. *)
Record TestExternalEnvs := mkTestEnvs {
  oracle_storage : gmap U256 U256;
  bucket_capacity : gmap Z Z;
  recorded_hints : list RecordedHint;
}.

(** The hasher of the [salt] crate, and how addresses and words are laid out for it. *)
Class SaltHasher := {
  hasher_bucket_id : Bytes → Z;
  salt_MIN_BUCKET_SIZE : Z;
  address_as_slice : Address → Bytes;
  word_as_slice : U256 → Bytes;
}.

Module TestExternalEnvs.
Implicit Types self : TestExternalEnvs.

Definition new : TestExternalEnvs := mkTestEnvs ∅ ∅ [].

Definition with_bucket_capacity (bucket_id capacity : Z) self : TestExternalEnvs :=
  mkTestEnvs (oracle_storage self) (<[bucket_id := capacity]> (bucket_capacity self))
    (recorded_hints self).
Definition clear_bucket_capacity self : TestExternalEnvs :=
  mkTestEnvs (oracle_storage self) ∅ (recorded_hints self).
Definition with_oracle_storage (slot value : U256) self : TestExternalEnvs :=
  mkTestEnvs (<[slot := value]> (oracle_storage self)) (bucket_capacity self) (recorded_hints self).
Definition clear_oracle_storage self : TestExternalEnvs :=
  mkTestEnvs ∅ (bucket_capacity self) (recorded_hints self).
Definition clear_recorded_hints self : TestExternalEnvs :=
  mkTestEnvs (oracle_storage self) (bucket_capacity self) [].

(** [SaltEnv]: a bucket that is not configured has the size of the [salt] crate. *)
Definition get_bucket_capacity `{SaltHasher} self (bucket_id : Z) : result Z Empty_set :=
  Ok (default salt_MIN_BUCKET_SIZE (bucket_capacity self !! bucket_id)).
Definition bucket_id_for_account `{SaltHasher} (account : Address) : Z :=
  hasher_bucket_id (address_as_slice account).
Definition bucket_id_for_slot `{SaltHasher} (address : Address) (key : U256) : Z :=
  hasher_bucket_id (address_as_slice address ++ word_as_slice key).

(** [OracleEnv]. *)
Definition get_oracle_storage (slot : U256) self : option U256 := oracle_storage self !! slot.
Definition on_hint (from : Address) (topic : B256) (data : Bytes) self : TestExternalEnvs :=
  mkTestEnvs (oracle_storage self) (bucket_capacity self)
    (recorded_hints self ++ [mkHint from topic data]).

(** [ExternalEnvFactory] and the conversions into [ExternalEnvs]: both halves are the same. *)
Definition external_envs self (block : Z) : TestExternalEnvs * TestExternalEnvs := (self, self).
End TestExternalEnvs.

#[export] Instance test_salt_env `{SaltHasher} : SaltEnv TestExternalEnvs Empty_set := {|
  get_bucket_capacity := TestExternalEnvs.get_bucket_capacity;
  bucket_id_for_account := TestExternalEnvs.bucket_id_for_account;
  bucket_id_for_slot := TestExternalEnvs.bucket_id_for_slot |}.
#[export] Instance test_oracle_env : OracleEnv TestExternalEnvs := {|
  get_oracle_storage := TestExternalEnvs.get_oracle_storage;
  on_hint := TestExternalEnvs.on_hint |}.

(** ** Handles *)

(** The store of the cells; a handle is the location of its content. *)
Notation Store := (gmap nat TestExternalEnvs).

(** A step that some holder of handle [l] takes. *)
Inductive EnvStep :=
  | SetBucket (bucket_id capacity : Z)
  | ClearBuckets
  | SetSlot (slot value : U256)
  | ClearSlots
  | Hint (from : Address) (topic : B256) (data : Bytes)
  | ClearHints.

Definition step_content (s : EnvStep) (self : TestExternalEnvs) : TestExternalEnvs :=
  match s with
  | SetBucket b c => TestExternalEnvs.with_bucket_capacity b c self
  | ClearBuckets => TestExternalEnvs.clear_bucket_capacity self
  | SetSlot k v => TestExternalEnvs.with_oracle_storage k v self
  | ClearSlots => TestExternalEnvs.clear_oracle_storage self
  | Hint f t d => TestExternalEnvs.on_hint f t d self
  | ClearHints => TestExternalEnvs.clear_recorded_hints self
  end.
Definition store_step (ls : nat * EnvStep) (m : Store) : Store := alter (step_content ls.2) ls.1 m.
Definition store_steps (steps : list (nat * EnvStep)) (m : Store) : Store :=
  foldl (λ m ls, store_step ls m) m steps.

(** What a sequence of steps leaves: the last word on each cell. *)
Fixpoint last_bucket (b : Z) (steps : list EnvStep) (before : option Z) : option Z :=
  match steps with
  | [] => before
  | SetBucket b' c :: steps => last_bucket b steps (if decide (b = b') then Some c else before)
  | ClearBuckets :: steps => last_bucket b steps None
  | _ :: steps => last_bucket b steps before
  end.
Fixpoint last_slot (k : U256) (steps : list EnvStep) (before : option U256) : option U256 :=
  match steps with
  | [] => before
  | SetSlot k' v :: steps => last_slot k steps (if decide (k = k') then Some v else before)
  | ClearSlots :: steps => last_slot k steps None
  | _ :: steps => last_slot k steps before
  end.
Fixpoint hints_since (steps : list EnvStep) (before : list RecordedHint) : list RecordedHint :=
  match steps with
  | [] => before
  | Hint f t d :: steps => hints_since steps (before ++ [mkHint f t d])
  | ClearHints :: steps => hints_since steps []
  | _ :: steps => hints_since steps before
  end.

(** The steps on one handle, whoever took them. *)
Definition steps_on (l : nat) (steps : list (nat * EnvStep)) : list EnvStep :=
  omap (λ ls, if decide (ls.1 = l) then Some ls.2 else None) steps.

Lemma store_steps_on steps : ∀ l m env,
  m !! l = Some env →
  store_steps steps m !! l = Some (foldl (λ e s, step_content s e) env (steps_on l steps)).
Proof.
  induction steps as [|[l' s] steps IH]; intros l m env Hm; [done|]. simpl.
  unfold store_step at 1. simpl. case_decide as Hl.
  - subst l'. simpl. apply IH. by rewrite lookup_alter_eq, Hm.
  - apply IH. by rewrite lookup_alter_ne.
Qed.

Lemma contents_since steps : ∀ env b k,
  let env' := foldl (λ e s, step_content s e) env steps in
  bucket_capacity env' !! b = last_bucket b steps (bucket_capacity env !! b) ∧
  oracle_storage env' !! k = last_slot k steps (oracle_storage env !! k) ∧
  recorded_hints env' = hints_since steps (recorded_hints env).
Proof.
  induction steps as [|s steps IH]; intros env b k; [done|]. simpl.
  destruct (IH (step_content s env) b k) as (->&->&->).
  destruct s; simpl; rewrite ?lookup_empty; try done.
  - split_and!; [|done..]. f_equal. destruct (decide (b = bucket_id)) as [->|Hne];
      [by rewrite lookup_insert_eq|by rewrite lookup_insert_ne].
  - split_and!; [done| |done]. f_equal. destruct (decide (k = slot)) as [->|Hne];
      [by rewrite lookup_insert_eq|by rewrite lookup_insert_ne].
Qed.

(** all clones of a handle see one environment.  After any steps on any handles, a bucket
    of a handle has the capacity that was last set on it (by whichever clone) since the
    last clearing, and the size of the [salt] crate when there is none; an oracle slot
    the last value set; and the hints are those recorded since they were last cleared, in
    order.  Steps on other handles change nothing. *)
Theorem clones_share_one_environment `{SaltHasher} steps l (m : Store) env b k :
  m !! l = Some env →
  ∃ env', store_steps steps m !! l = Some env' ∧
    get_bucket_capacity env' b =
      Ok (E:=Empty_set) (default salt_MIN_BUCKET_SIZE
            (last_bucket b (steps_on l steps) (bucket_capacity env !! b))) ∧
    get_oracle_storage k env' = last_slot k (steps_on l steps) (oracle_storage env !! k) ∧
    recorded_hints env' = hints_since (steps_on l steps) (recorded_hints env).
Proof.
  intros Hm. eexists. split; [by apply store_steps_on|].
  destruct (contents_since (steps_on l steps) env b k) as (Hb&Hk&Hh).
  split_and!; [|exact Hk|exact Hh]. simpl. unfold TestExternalEnvs.get_bucket_capacity. by rewrite Hb.
Qed.

(** ** Witness *)
Section example.
#[local] Instance reference_hasher : SaltHasher := {|
  hasher_bucket_id b := Z.of_nat (length b); salt_MIN_BUCKET_SIZE := 256;
  address_as_slice _ := []; word_as_slice _ := [] |}.

Lemma clones_share_one_environment_witness :
  ∃ env', store_steps [(0%nat, SetBucket 5 512); (1%nat, ClearBuckets); (0%nat, Hint 1 2 []);
             (0%nat, SetBucket 5 1024)]
            {[0%nat := TestExternalEnvs.new; 1%nat := TestExternalEnvs.new]} !! 0%nat = Some env' ∧
    get_bucket_capacity (SaltEnv:=test_salt_env) env' 5 = Ok 1024 ∧
    recorded_hints env' = [mkHint 1 2 []].
Proof.
  destruct (clones_share_one_environment [(0%nat, SetBucket 5 512); (1%nat, ClearBuckets);
      (0%nat, Hint 1 2 []); (0%nat, SetBucket 5 1024)] 0
      {[0%nat := TestExternalEnvs.new; 1%nat := TestExternalEnvs.new]} TestExternalEnvs.new 5 7)
    as (env'&He&Hb&_&Hh); [vm_compute; reflexivity|].
  exists env'. split; [exact He|]. split; [exact Hb|exact Hh].
Defined.
End example.
