(* ===== verification/CmdEnv.v ===== *)
(** * Environments and tracing of the command line tool

    Models [common/env.rs] and [common/trace.rs] of [bin/mega-evme]: the configuration,
    block and external environments that arguments give, the context that is made of
    them, and how a transaction is executed with or without a tracer.  The tracing
    inspector and its JSON are parameters; [RunEvm] is what the commands need of an EVM,
    and [MegaEvm] is one. *)
From Stdlib Require Import Ascii.
From stdpp Require Import pretty.
From S2P Require Import Prelude Spec Deps Volatile LimitTypes FrameLimit Trackers Hardfork BlockLimit.
From S2P Require Import EvmState Inspect SystemContracts Context Sandbox Intercept StorageGas Instructions Execution.
From S2P Require Import AdditionalLimit BlockExecutor Evme EvmeTx ToolEvm StateTest TestEnv.
Open Scope Z_scope.
Open Scope rust_scope.
#[local] Set Warnings "-notation-for-abbreviation".

(** ** Chain and block *)
Record ChainArgs := mkChainArgs { arg_spec : string; arg_chain_id : Z }.

(** [{:?}] of [UnknownHardfork] is its name. *)
Definition invalid_spec (e : UnknownHardfork) : EvmeError :=
  InvalidInput "Invalid spec name: UnknownHardfork".
Definition chain_spec_id (self : ChainArgs) : result MegaSpecId EvmeError :=
  map_err invalid_spec (spec_from_str (arg_spec self)).

Definition with_chain {A} (chain_id : Z) (spec : A) (c : CfgEnv A) : CfgEnv A :=
  mkCfgEnv spec chain_id (cfg_tx_chain_id_check _ c)
    (cfg_limit_contract_code_size c) (cfg_limit_contract_initcode_size c)
    (cfg_disable_nonce_check _ c) (cfg_max_blobs_per_tx _ c)
    (cfg_blob_base_fee_update_fraction _ c) (cfg_tx_gas_limit_cap _ c) (cfg_memory_limit _ c)
    (cfg_disable_balance_check _ c) (cfg_disable_block_gas_limit _ c) (cfg_disable_eip3541 _ c)
    (cfg_disable_eip3607 _ c) (cfg_disable_base_fee _ c).

(** [CfgEnv::default()] is [revm]'s. *)
Definition create_cfg_env (cfg_default : CfgEnv MegaSpecId) (self : ChainArgs) :
    result (CfgEnv MegaSpecId) EvmeError :=
  spec ←! chain_spec_id self;
  Ok (with_chain (arg_chain_id self) spec cfg_default).

Record BlockEnvArgs := mkBlockEnvArgs {
  arg_block_number : Z;
  arg_block_coinbase : Address;
  arg_block_timestamp : Z;
  arg_block_gas_limit : Z;
  arg_block_basefee : Z;
  arg_block_difficulty : U256;
  arg_block_prevrandao : B256;
  arg_block_blob_excess_gas : option Z;
}.

Definition create_block_env `{EthRules} (self : BlockEnvArgs) : result ToolBlockEnv EvmeError :=
  let block := mkToolBlock (arg_block_number self) (arg_block_coinbase self)
                 (arg_block_timestamp self) (arg_block_gas_limit self) (arg_block_basefee self)
                 (arg_block_difficulty self) (Some (arg_block_prevrandao self)) None in
  Ok match arg_block_blob_excess_gas self with
     | Some excess_gas => with_blob (blob_price excess_gas) block
     | None => block
     end.

(** ** Bucket capacities *)

(** [str::parse] of an unsigned type with the greatest value [max]. *)
Fixpoint parse_digits_max (max acc : Z) (s : string) : result Z string :=
  match s with
  | ""%string => Ok acc
  | String.String c s =>
      match digit_of c with
      | None => Err "invalid digit found in string"%string
      | Some d =>
          if bool_decide (acc * 10 + d ≤ max) then parse_digits_max max (acc * 10 + d) s
          else Err "number too large to fit in target type"%string
      end
  end.
Definition parse_unsigned (max : Z) (s : string) : result Z string :=
  match s with
  | ""%string => Err "cannot parse integer from empty string"%string
  | String.String "+"%char ""%string | String.String "-"%char ""%string =>
      Err "invalid digit found in string"%string
  | String.String "+"%char s => parse_digits_max max 0 s
  | s => parse_digits_max max 0 s
  end.
Definition u32_max : Z := 4294967295.

Section bucket.
Open Scope string_scope.

Definition parse_bucket_capacity (s : string) : result (Z * Z) EvmeError :=
  match split ":" s with
  | [id_str; capacity_str] =>
      bucket_id ←! map_err (λ e, InvalidInput ("Invalid bucket ID '" ++ id_str ++ "': " ++ e))
                    (parse_unsigned u32_max id_str);
      capacity ←! map_err (λ e, InvalidInput ("Invalid capacity '" ++ capacity_str ++ "': " ++ e))
                   (parse_unsigned u64_max capacity_str);
      Ok (bucket_id, capacity)
  | _ => Err (InvalidInput ("Invalid bucket capacity format: '" ++ s ++
                            "'. Expected format: 'bucket_id:capacity'"))
  end.
End bucket.

Fixpoint add_buckets (l : list string) (external_envs : TestExternalEnvs) :
    result TestExternalEnvs EvmeError :=
  match l with
  | [] => Ok external_envs
  | s :: l =>
      '(bucket_id, capacity) ←! parse_bucket_capacity s;
      add_buckets l (TestExternalEnvs.with_bucket_capacity bucket_id capacity external_envs)
  end.
Record ExtEnvArgs := mkExtEnvArgs { arg_bucket_capacity : list string }.
Definition create_external_envs (self : ExtEnvArgs) : result TestExternalEnvs EvmeError :=
  add_buckets (arg_bucket_capacity self) TestExternalEnvs.new.

(** ** The context *)
Record EnvArgs := mkEnvArgs { env_chain : ChainArgs; env_block : BlockEnvArgs; env_ext : ExtEnvArgs }.

Section context.
Context `{Profile} `{BitflagsApi} `{InstructionResultApi} `{SStoreApi} `{AbiApi} `{EthRules}
  {J : Type} (cfg_default : CfgEnv MegaSpecId).
Notation Ctx := (MegaContext J TestExternalEnvs TestExternalEnvs).

(** [create_evm_context], for the inner context that [revm] makes of the database. *)
Definition create_evm_context (self : EnvArgs) (new_inner : MegaSpecId → OpContext J) :
    outcome (result Ctx EvmeError) :=
  match create_cfg_env cfg_default (env_chain self), create_block_env (env_block self),
        create_external_envs (env_ext self) with
  | Ok cfg, Ok block, Ok envs =>
      ctx ← MegaContext.new_with_shared_ext_envs (new_inner (cfg_spec cfg)) (cfg_spec cfg) tt tt;
      ctx ← MegaContext.with_block (to_block_env block) (MegaContext.with_cfg cfg ctx);
      ctx ← MegaContext.with_external_envs envs envs ctx;
      Ret (Ok ctx)
  | Ok _, Ok _, Err e => Ret (Err e)
  | Ok _, Err e, _ => Ret (Err e)
  | Err e, _, _ => Ret (Err e)
  end.
End context.

(** ** Tracing *)
Inductive TracerType := TraceOpcode | TraceCall | TracePreState.

Record TraceArgs := mkTraceArgs {
  trace : bool;
  trace_output_file : option string;
  tracer : TracerType;
  trace_opcode_disable_memory : bool;
  trace_opcode_disable_stack : bool;
  trace_opcode_disable_storage : bool;
  trace_opcode_enable_return_data : bool;
  trace_call_only_top_call : bool;
  trace_call_with_log : bool;
  trace_prestate_diff_mode : bool;
  trace_prestate_disable_code : bool;
  trace_prestate_disable_storage : bool;
}.

(** The options of the Geth tracers, as far as they are set. *)
Record GethDefaultTracingOptions := mkGethOptions {
  disable_storage : option bool;
  disable_memory : option bool;
  disable_stack : option bool;
  enable_return_data : option bool;
}.
Record CallConfig := mkCallConfig { only_top_call : option bool; with_log : option bool }.
Record PreStateConfig := mkPreStateConfig {
  diff_mode : option bool;
  prestate_disable_code : option bool;
  prestate_disable_storage : option bool;
}.

(** [revm_inspectors]: an inspector that traces everything, the frames it builds, and
    their JSON or the error of making it. *)
Class TracingInspector (I DB Bytecode Log : Type) := {
  GethFrame : Type;
  tracing_inspector_all : I;
  geth_traces : I → Z → Bytes → GethDefaultTracingOptions → GethFrame;
  geth_call_traces : I → CallConfig → Z → GethFrame;
  geth_prestate_traces : I → ExecutionResult MegaHaltReason Log * EvmState Bytecode →
    PreStateConfig → DB → result GethFrame string;
  to_string_pretty : GethFrame → result string string;
}.

Section trace.
Context {I DB Bytecode Log : Type} {tracing : TracingInspector I DB Bytecode Log}.
Notation Executed := (ExecutionResult MegaHaltReason Log * EvmState Bytecode)%type.
Implicit Types self : TraceArgs.
Open Scope string_scope.

Definition is_tracing_enabled self : bool := trace self.
Definition create_inspector self : I := tracing_inspector_all.

Definition create_geth_options self : GethDefaultTracingOptions :=
  mkGethOptions (Some (trace_opcode_disable_storage self)) (Some (trace_opcode_disable_memory self))
    (Some (trace_opcode_disable_stack self)) (Some (trace_opcode_enable_return_data self)).
Definition create_call_config self : CallConfig :=
  mkCallConfig (Some (trace_call_only_top_call self)) (Some (trace_call_with_log self)).
Definition create_prestate_config self : PreStateConfig :=
  mkPreStateConfig (Some (trace_prestate_diff_mode self)) (Some (trace_prestate_disable_code self))
    (Some (trace_prestate_disable_storage self)).

(** The text of a serialized frame, or of what went wrong. *)
Definition json_or (message : string) (r : result string string) : string :=
  match r with Ok json => json | Err e => message ++ e end.

Definition generate_default_trace self (inspector : I) (exec_result : ExecutionResult MegaHaltReason Log) :
    string :=
  let output := match exec_result with
                | ExecSuccess _ _ _ (OutputCall data) | ExecSuccess _ _ _ (OutputCreate data _) => data
                | ExecRevert _ output => output
                | ExecHalt _ _ => []
                end in
  json_or "Error serializing trace: "
    (to_string_pretty (geth_traces inspector (result_gas_used exec_result) output
                         (create_geth_options self))).

Definition generate_call_trace self (inspector : I) (exec_result : ExecutionResult MegaHaltReason Log) :
    string :=
  json_or "Error serializing call trace: "
    (to_string_pretty (geth_call_traces inspector (create_call_config self)
                         (result_gas_used exec_result))).

Definition generate_prestate_trace self (inspector : I) (result_and_state : Executed) (prestate : DB) :
    string :=
  match geth_prestate_traces inspector result_and_state (create_prestate_config self) prestate with
  | Ok frame => json_or "Error serializing prestate trace: " (to_string_pretty frame)
  | Err e => "Error generating prestate trace: " ++ e
  end.

Definition generate_trace self (inspector : I) (result_and_state : Executed) (prestate : DB) : string :=
  match tracer self with
  | TraceOpcode => generate_default_trace self inspector result_and_state.1
  | TraceCall => generate_call_trace self inspector result_and_state.1
  | TracePreState => generate_prestate_trace self inspector result_and_state prestate
  end.
End trace.

(** ** What the commands need of an EVM *)
Class RunEvm (Ctx Evm I DB E Log Bytecode : Type) := {
  re_new : Ctx → Evm;
  re_with_inspector : I → Evm → Evm;
  re_inspector : Evm → I;
  re_db : Evm → DB;
  re_inspect_tx : MegaTransaction → Evm →
    outcome (Evm * result (ExecutionResult MegaHaltReason Log * EvmState Bytecode) E);
  re_transact : MegaTransaction → Evm →
    outcome (Evm * result (ExecutionResult MegaHaltReason Log * EvmState Bytecode) E);
}.

Section execute.
Context {Ctx Evm I DB E Log Bytecode : Type} {run_evm : RunEvm Ctx Evm I DB E Log Bytecode}
  {tracing : TracingInspector I DB Bytecode Log} (debug_evm : E → string).
Open Scope string_scope.

Definition execution_failed (e : E) : EvmeError :=
  ExecutionError ("EVM execution failed: " ++ debug_evm e).

(** What the EVM did is not committed: the result and the state are all that is kept. *)
Definition execute_transaction (self : TraceArgs) (evm_context : Ctx) (tx : MegaTransaction) :
    outcome (result (ExecutionResult MegaHaltReason Log * EvmState Bytecode * option string) EvmeError) :=
  if is_tracing_enabled self then
    let evm := re_with_inspector (create_inspector (I:=I) (DB:=DB) (Bytecode:=Bytecode) (Log:=Log) self)
                 (re_new evm_context) in
    '(evm, r) ← re_inspect_tx tx evm;
    Ret (result_and_state ←! map_err execution_failed r;
         Ok (result_and_state,
             Some (generate_trace self (re_inspector evm) result_and_state (re_db evm))))
  else
    '(evm, r) ← re_transact tx (re_new evm_context);
    Ret (result_and_state ←! map_err execution_failed r; Ok (result_and_state, None)).
End execute.

(** ** [MegaEvm] is one *)
Section mega_evm.
Context `{Profile} `{BitflagsApi} `{InstructionResultApi} `{SStoreApi} `{AbiApi} `{KeylessAbi}
  `{InterceptAbi} `{RevmGasConstants} {Gas : Type} `{GasApi Gas} {Sig : Type} `{KeylessTxApi Sig}
  {DB E Bytecode S SE SD AL O Log Acc I P F : Type} {revm : RevmState Bytecode}
  {bytecode : BytecodeApi Bytecode} {database : Database DB E Bytecode} {display : Display E}
  {show : Display SE} {show_address : Display Address} {oracle : OracleEnv O}
  {salt : SaltEnv S SE} {host : OpHost (Journal DB Bytecode) SD AL}
  {sandbox : SandboxEvm (Journal DB Bytecode) (SandboxDb DB Bytecode) S O Bytecode Log}
  {journal : JournalInspectTr (Journal DB Bytecode) E Acc} `{AccountApi Acc} `{CreateApi Acc}
  `{ValidationApi Bytecode}
  `{FrameApi Gas E (MegaContext (Journal DB Bytecode) S O) I P F}
  `{InspectorApi Gas (MegaContext (Journal DB Bytecode) S O) I P F}
  `{OpHandler Gas E Log (MegaContext (Journal DB Bytecode) S O) I P F}
  `{ExecLoop Gas E (MegaEvm (MegaContext (Journal DB Bytecode) S O) I P F)}
  (journal_finalize : Journal DB Bytecode → Journal DB Bytecode * EvmState Bytecode)
  (empty_frames : F) (NoOpInspector : I) (precompiles_of : MegaSpecId → P).
Notation Ctx := (MegaContext (Journal DB Bytecode) S O).
Notation Evm := (MegaEvm Ctx I P F).

(** [ExecuteEvm::transact] and [InspectEvm::inspect_tx]. *)
#[local] Instance mega_run_evm : RunEvm Ctx Evm I DB (MegaError E) Log Bytecode := {|
  re_new := Execution.new empty_frames NoOpInspector precompiles_of;
  re_with_inspector := Execution.with_inspector empty_frames;
  re_inspector := evm_inspector;
  re_db := evm_db;
  re_inspect_tx t evm :=
    ran ← inspect_one_tx (Log:=Log) (E:=E) t evm; Ret (and_finalize journal_finalize ran);
  re_transact t evm :=
    ran ← transact_one (Log:=Log) (E:=E) t evm; Ret (and_finalize journal_finalize ran) |}.
End mega_evm.
