(* ===== verification/CmdOutcome.v ===== *)
(** * Outcomes of the commands

    Models [common/outcome.rs] of [bin/mega-evme] and the dump of [common/state.rs]: the
    receipt of an execution and how it becomes an RPC receipt, the summary, the trace and
    the dump that are printed.  What a command prints and writes is a list of [Effect]s.
    The decoders of [alloy], debug output and JSON are parameters. *)
From stdpp Require Import pretty.
From S2P Require Import Prelude Spec Deps LimitTypes EvmState BlockExecutor Evme EvmeTx.
Open Scope Z_scope.
Open Scope rust_scope.
#[local] Set Warnings "-notation-for-abbreviation".

(** ** Effects *)
Inductive Effect :=
  | Println (line : string)
  | WriteFile (path content : string).
Notation printed := (list Effect).

(** Effects, and then an error or a value. *)
Definition Io (A : Type) : Type := printed * result A EvmeError.
Definition io_then {A B} (m : Io A) (k : A → Io B) : Io B :=
  match m with
  | (out, Err e) => (out, Err e)
  | (out, Ok a) => let '(out', r) := k a in (out ++ out', r)
  end.
Definition say (lines : list string) : Io () := (map Println lines, Ok tt).

(** ** Receipts *)
Record Receipt (L : Type) := mkReceipt {
  status : bool;
  rc_cumulative_gas_used : Z;
  rc_logs : list L;
}.
Arguments mkReceipt {L}.
Arguments status {L}.
Arguments rc_cumulative_gas_used {L}.
Arguments rc_logs {L}.

(** [OpReceiptEnvelope], each receipt with its bloom filter. *)
Inductive OpReceiptEnvelope (L Bloom : Type) :=
  | ReceiptLegacy (r : Receipt L) (bloom : Bloom)
  | ReceiptEip2930 (r : Receipt L) (bloom : Bloom)
  | ReceiptEip1559 (r : Receipt L) (bloom : Bloom)
  | ReceiptEip7702 (r : Receipt L) (bloom : Bloom)
  | ReceiptDeposit (inner : Receipt L) (deposit_nonce deposit_receipt_version : option Z)
      (bloom : Bloom).
Arguments ReceiptLegacy {L Bloom}.
Arguments ReceiptEip2930 {L Bloom}.
Arguments ReceiptEip1559 {L Bloom}.
Arguments ReceiptEip7702 {L Bloom}.
Arguments ReceiptDeposit {L Bloom}.

(** What [alloy] does with an envelope: its receipt, and logs that are replaced. *)
Definition envelope_receipt {L B} (e : OpReceiptEnvelope L B) : Receipt L :=
  match e with
  | ReceiptLegacy r _ | ReceiptEip2930 r _ | ReceiptEip1559 r _ | ReceiptEip7702 r _
  | ReceiptDeposit r _ _ _ => r
  end.
Definition set_logs {L L'} (logs : list L') (r : Receipt L) : Receipt L' :=
  mkReceipt (status r) (rc_cumulative_gas_used r) logs.
Definition map_receipt {L L' B} (f : Receipt L → Receipt L') (e : OpReceiptEnvelope L B) :
    OpReceiptEnvelope L' B :=
  match e with
  | ReceiptLegacy r b => ReceiptLegacy (f r) b
  | ReceiptEip2930 r b => ReceiptEip2930 (f r) b
  | ReceiptEip1559 r b => ReceiptEip1559 (f r) b
  | ReceiptEip7702 r b => ReceiptEip7702 (f r) b
  | ReceiptDeposit r n v b => ReceiptDeposit (f r) n v b
  end.

(** [alloy_rpc_types_eth::Log] and [TransactionReceipt]; the blob fields, always [None],
    are left out. *)
Record RpcLog (L : Type) := mkRpcLog {
  log_inner : L;
  log_block_hash : option B256;
  log_block_number : option Z;
  log_block_timestamp : option Z;
  log_transaction_hash : option B256;
  log_transaction_index : option Z;
  log_index : option Z;
  log_removed : bool;
}.
Arguments mkRpcLog {L}.
Arguments log_inner {L}.
Arguments log_block_hash {L}.
Arguments log_block_number {L}.
Arguments log_block_timestamp {L}.
Arguments log_transaction_hash {L}.
Arguments log_transaction_index {L}.
Arguments log_index {L}.
Arguments log_removed {L}.

Record OpTxReceipt (L Bloom : Type) := mkTxReceipt {
  tr_inner : OpReceiptEnvelope (RpcLog L) Bloom;
  tr_transaction_hash : B256;
  tr_transaction_index : option Z;
  tr_block_hash : option B256;
  tr_block_number : option Z;
  tr_gas_used : Z;
  tr_effective_gas_price : Z;
  tr_from : Address;
  tr_to : option Address;
  tr_contract_address : option Address;
}.
Arguments mkTxReceipt {L Bloom}.
Arguments tr_inner {L Bloom}.
Arguments tr_transaction_hash {L Bloom}.
Arguments tr_transaction_index {L Bloom}.
Arguments tr_block_hash {L Bloom}.
Arguments tr_block_number {L Bloom}.
Arguments tr_gas_used {L Bloom}.
Arguments tr_effective_gas_price {L Bloom}.
Arguments tr_from {L Bloom}.
Arguments tr_to {L Bloom}.
Arguments tr_contract_address {L Bloom}.

(** ** [EvmeOutcome] *)
Record EvmeOutcome (Bytecode Log : Type) := mkEvmeOutcome {
  pre_execution_nonce : Z;
  exec_result : ExecutionResult MegaHaltReason Log;
  out_state : EvmState Bytecode;
  exec_time : Z;
  trace_data : option string;
}.
Arguments mkEvmeOutcome {Bytecode Log}.
Arguments pre_execution_nonce {Bytecode Log}.
Arguments exec_result {Bytecode Log}.
Arguments out_state {Bytecode Log}.
Arguments exec_time {Bytecode Log}.
Arguments trace_data {Bytecode Log}.

Section receipts.
Context {Bytecode Log Bloom : Type} (logs_bloom : list Log → Bloom).

Definition to_op_receipt (self : EvmeOutcome Bytecode Log) (tx_type : MegaTxType) (state_nonce : Z) :
    OpReceiptEnvelope Log Bloom :=
  let receipt := mkReceipt (result_is_success (exec_result self)) (result_gas_used (exec_result self))
                   (result_into_logs (exec_result self)) in
  let bloom := logs_bloom (rc_logs receipt) in
  match tx_type with
  | Legacy => ReceiptLegacy receipt bloom
  | Eip2930 => ReceiptEip2930 receipt bloom
  | Eip1559 => ReceiptEip1559 receipt bloom
  | Eip7702 => ReceiptEip7702 receipt bloom
  | Deposit => ReceiptDeposit receipt (Some state_nonce) (Some 1) bloom
  end.

(** The closure that maps the logs, with its counter. *)
Fixpoint rpc_logs (block_number block_timestamp index : Z) (logs : list Log) : list (RpcLog Log) :=
  match logs with
  | [] => []
  | log :: logs =>
      mkRpcLog log None (Some block_number) (Some block_timestamp) (Some 0) (Some 0) (Some index) false
      :: rpc_logs block_number block_timestamp (index + 1) logs
  end.

Definition op_receipt_to_tx_receipt (receipt : OpReceiptEnvelope Log Bloom)
    (block_number block_timestamp : Z) (from : Address) (to contract_address : option Address)
    (effective_gas_price gas_used : Z) (transaction_hash block_hash : option B256)
    (transaction_index : Z) : OpTxReceipt Log Bloom :=
  mkTxReceipt
    (map_receipt (λ r, set_logs (rpc_logs block_number block_timestamp 0 (rc_logs r)) r) receipt)
    (default 0 transaction_hash) (Some transaction_index) block_hash (Some block_number) gas_used
    effective_gas_price from to contract_address.
End receipts.

(** ** Printing *)
Class CommandText := {
  show_hex : Bytes → string;
  show_addr : Address → string;
  show_duration : Z → string;
  show_lower_hex : U256 → string;
  revert_reason : Bytes → option string;
  panic_code : Bytes → option U256;
  panic_kind : U256 → option string;
  debug_halt : MegaHaltReason → string;
  debug_op_halt : OpHaltReason → string;
  debug_eth_halt : EthHaltReason → string;
}.

Section printing.
Context {text : CommandText} {Log : Type} (fs_write : string → string → result () string).
Open Scope string_scope.

Definition quote : string := String.String (Ascii.ascii_of_nat 34) "".

Definition decode_revert_reason (output : Bytes) : string :=
  if bool_decide (output = []) then "(empty)"
  else match revert_reason output with
  | Some reason => "Error(" ++ quote ++ reason ++ quote ++ ")"
  | None =>
      match panic_code output with
      | Some code => match panic_kind code with
                     | Some kind => "Panic: " ++ kind
                     | None => "Panic(0x" ++ show_lower_hex code ++ ")"
                     end
      | None => "0x" ++ show_hex output
      end
  end.

Definition format_op_halt_reason (reason : OpHaltReason) : string :=
  match reason with
  | OpBase eth_reason => debug_eth_halt eth_reason
  | _ => debug_op_halt reason
  end.
Definition format_halt_reason (reason : MegaHaltReason) : string :=
  match reason with
  | Base op_reason => format_op_halt_reason op_reason
  | _ => debug_halt reason
  end.

Definition output_data (o : Output) : Bytes :=
  match o with OutputCall data | OutputCreate data _ => data end.

Definition labelled (label value : string) : string := label ++ value.

Definition print_execution_summary (exec_result : ExecutionResult MegaHaltReason Log)
    (contract_address : option Address) (exec_time : Z) : Io () :=
  say (["" ; "=== Transaction Summary ==="] ++
    match exec_result with
    | ExecSuccess gas_used _ logs output =>
        ["Status:           Success"; labelled "Gas Used:         " (pretty gas_used);
         labelled "Execution Time:   " (show_duration exec_time)] ++
        match contract_address with
        | Some addr => [labelled "Contract Address: " (show_addr addr)]
        | None => []
        end ++
        (if bool_decide (length logs = 0%nat) then []
         else [labelled "Events:           " (labelled (pretty (length logs)) " log(s) emitted")]) ++
        (if bool_decide (output_data output = []) then []
         else [labelled "Output:           0x" (show_hex (output_data output))])
    | ExecRevert gas_used output =>
        ["Status:           Reverted"; labelled "Gas Used:         " (pretty gas_used);
         labelled "Execution Time:   " (show_duration exec_time);
         labelled "Revert Reason:    " (decode_revert_reason output)]
    | ExecHalt reason gas_used =>
        ["Status:           Halted"; labelled "Gas Used:         " (pretty gas_used);
         labelled "Execution Time:   " (show_duration exec_time);
         labelled "Halt Reason:      " (format_halt_reason reason)]
    end)%list.

(** A receipt that cannot be serialized is no error. *)
Definition print_receipt {R} (to_json : R → result string string) (receipt : R) : Io () :=
  say ["" ; "=== Receipt ===";
       match to_json receipt with
       | Ok json => json
       | Err e => "Failed to serialize receipt: " ++ e
       end].

(** [std::fs::write], and the line that says so. *)
Definition write_or_say (message : string) (error : string → EvmeError) (path : option string)
    (content : string) : Io () :=
  match path with
  | Some path =>
      match fs_write path content with
      | Ok _ => ([WriteFile path content; Println (message ++ path)], Ok tt)
      | Err e => ([], Err (error e))
      end
  | None => say [content]
  end.

Definition print_execution_trace (trace output_file : option string) : Io () :=
  match trace with
  | None => ([], Ok tt)
  | Some trace =>
      io_then (say ["" ; "=== Execution Trace ==="]) (λ _,
        write_or_say "Trace written to: " (λ e, EvmeOther ("Failed to write trace to file: " ++ e))
          output_file trace)
  end.

(** [StateDumpArgs]. *)
Record StateDumpArgs := mkDumpArgs { dump : bool; dump_output_file : option string }.

Definition dump_evm_state {Bytecode} (serialize : EvmState Bytecode → result string EvmeError)
    (self : StateDumpArgs) (st : EvmState Bytecode) : Io () :=
  match serialize st with
  | Err e => ([], Err e)
  | Ok state_json =>
      io_then (say ["" ; "=== State Dump ==="]) (λ _,
        write_or_say "State dump written to: "
          (λ e, ExecutionError ("Failed to write state to file: " ++ e))
          (dump_output_file self) state_json)
  end.
End printing.
