(* ===== verification/Commands.v ===== *)
(** * The commands [run] and [tx]

    Models [run/cmd.rs] and [tx/cmd.rs] of [bin/mega-evme]: from the arguments to a state
    and a transaction, its execution on a context of its own, and what is printed.  The
    two differ in where the code and the transaction come from. *)
From S2P Require Import Prelude Spec Deps Volatile LimitTypes FrameLimit Trackers Hardfork BlockLimit.
From S2P Require Import EvmState Inspect SystemContracts Context Sandbox Intercept StorageGas Instructions Execution.
From S2P Require Import AdditionalLimit BlockExecutor Evme ToolEvm StateTest EvmeTx TestEnv CmdEnv CmdOutcome.
Open Scope Z_scope.
Open Scope rust_scope.
#[local] Set Warnings "-notation-for-abbreviation".

Record RunCmd := mkRunCmd {
  run_code : option string;
  run_codefile : option string;
  run_tx_args : TxArgs;
  run_prestate_args : PreStateArgs;
  run_env_args : EnvArgs;
  run_dump_args : StateDumpArgs;
  run_trace_args : TraceArgs;
}.

Record TxCmd := mkTxCmd {
  tx_raw : option string;
  tx_tx_args : TxArgs;
  tx_prestate_args : PreStateArgs;
  tx_env_args : EnvArgs;
  tx_dump_args : StateDumpArgs;
  tx_trace_args : TraceArgs;
}.

Section commands.
Context `{Profile} `{BitflagsApi} `{InstructionResultApi} `{SStoreApi} `{AbiApi} `{EthRules}
  {F Bytecode J Evm I E Log Bloom Provider : Type} {revm : RevmState Bytecode}
  {bytecodes : EvmeBytecode Bytecode} {empty : EmptyDb Bytecode} {forkdb : ForkDb F Bytecode}
  {codes : SystemContractCodes} {parsers : EvmeParsers} {alloy : AlloyTx} {text : CommandText}.
Notation State := (EvmeState F Bytecode).
Notation Ctx := (MegaContext J TestExternalEnvs TestExternalEnvs).
Context {run_evm : RunEvm Ctx Evm I State E Log Bytecode}
  {tracing : TracingInspector I State Bytecode Log}
  (read_to_string : string → result string string) (read_stdin : result string string)
  (fs_write : string → string → result () string)
  (json_accounts : string → result (list (Address * AccountState)) string)
  (json_of_accounts : gmap Address AccountState → result string string)
  (json_of_receipt : OpTxReceipt Log Bloom → result string string)
  (connect : string → result Provider string) (get_block_number : Provider → result Z string)
  (alloy_db : Provider → Z → F) (new_legacy : Bytes → Bytecode) (debug_evm : E → string)
  (cfg_default : CfgEnv MegaSpecId) (new_inner : State → MegaSpecId → OpContext J)
  (as_mega : OpTransaction → MegaTransaction) (effective_gas_price : OpTransaction → Z → Z)
  (create_address : Address → Z → Address) (logs_bloom : list Log → Bloom) (elapsed : Z).
Notation Outcome := (EvmeOutcome Bytecode Log).

(** ** What both do *)

(** The state of a command: the arguments' accounts and the contracts of the spec. *)
Definition initial_state (prestate_args : PreStateArgs) (env_args : EnvArgs) (sender : Address) :
    result State EvmeError :=
  state ←! create_initial_state read_to_string json_accounts connect get_block_number alloy_db
            prestate_args sender;
  spec ←! chain_spec_id (env_chain env_args);
  Ok (deploy_system_contracts spec state).

Definition nonce_of (sender : Address) (state : State) : result Z EvmeError :=
  acc ←! basic_ref sender state;
  Ok (match acc with Some i => nonce i | None => 0 end).

Definition execute_on (env_args : EnvArgs) (trace_args : TraceArgs) (pre_nonce : Z) (state : State)
    (tx : OpTransaction) : outcome (result Outcome EvmeError) :=
  ctx ←? create_evm_context cfg_default env_args (new_inner state);
  r ← execute_transaction (Log:=Log) debug_evm trace_args ctx (as_mega tx);
  Ret ('(res, st, trace) ←! r; Ok (mkEvmeOutcome pre_nonce res st elapsed trace)).

Definition print_trace_and_dump (trace_args : TraceArgs) (dump_args : StateDumpArgs)
    (o : Outcome) : Io () :=
  io_then (print_execution_trace fs_write (trace_data o) (trace_output_file trace_args)) (λ _,
    if dump dump_args
    then dump_evm_state fs_write (convert_evm_state_to_json json_of_accounts) dump_args (out_state o)
    else ([], Ok tt)).

(** An error before anything is printed. *)
Definition printing {A} (r : result A EvmeError) (k : A → Io ()) : Io () :=
  match r with Err e => ([], Err e) | Ok a => k a end.

(** ** [run] *)
Definition to_bytecode (code : Bytes) : Bytecode :=
  match new_raw_checked code with Ok b => b | Err _ => new_legacy code end.

Definition with_data (data : Bytes) (t : OpTransaction) : OpTransaction :=
  let b := ot_base t in
  mkOpTransaction
    (mkTxEnv (te_caller b) (te_gas_price b) (te_gas_priority_fee b) (te_blob_hashes b)
       (te_max_fee_per_blob_gas b) (te_tx_type b) (te_gas_limit b) data (te_nonce b) (te_value b)
       (te_access_list b) (te_authorization_list b) (te_kind b) (te_chain_id b))
    (ot_enveloped_tx t) (ot_deposit t).

Definition no_code : EvmeError :=
  InvalidInput "No code provided. Use --codefile or provide code as argument".

(** The state, the nonce of the sender and the transaction of [run]. *)
Definition run_prepare (self : RunCmd) : result (State * Z * OpTransaction) EvmeError :=
  let args := run_tx_args self in
  loaded ←! load_hex read_to_string read_stdin (run_code self) (run_codefile self);
  code ←! ok_or loaded no_code;
  state ←! initial_state (run_prestate_args self) (run_env_args self) (sender args);
  pre_nonce ←! nonce_of (sender args) state;
  let state := if negb (create args) && negb (bool_decide (code = []))
               then set_account_code (receiver args) (to_bytecode code) state
               else state in
  tx ←! create_tx read_to_string read_stdin args (arg_chain_id (env_chain (run_env_args self)));
  Ok (state, pre_nonce, if create args then with_data (code ++ te_data (ot_base tx)) tx else tx).

Definition run_contract_address (self : RunCmd) (o : Outcome) : option Address :=
  if create (run_tx_args self) && result_is_success (exec_result o)
  then Some (create_address (sender (run_tx_args self)) (pre_execution_nonce o))
  else None.
Definition run_output_results (self : RunCmd) (o : Outcome) : Io () :=
  io_then (print_execution_summary (exec_result o) (run_contract_address self o) (exec_time o)) (λ _,
    print_trace_and_dump (run_trace_args self) (run_dump_args self) o).

Definition run (self : RunCmd) : outcome (Io ()) :=
  match run_prepare self with
  | Err e => Ret ([], Err e)
  | Ok (state, pre_nonce, tx) =>
      o ← execute_on (run_env_args self) (run_trace_args self) pre_nonce state tx;
      Ret (printing o (run_output_results self))
  end.

(** ** [tx] *)
Definition tx_transaction (self : TxCmd) : result OpTransaction EvmeError :=
  let chain_id := arg_chain_id (env_chain (tx_env_args self)) in
  match tx_raw self with
  | Some raw =>
      loaded ←! load_hex read_to_string read_stdin (Some raw) None;
      decoded ←! from_raw (default [] loaded);
      decoded ←! override_tx_env read_to_string read_stdin (tx_tx_args self) decoded;
      Ok (into_tx decoded)
  | None => create_tx read_to_string read_stdin (tx_tx_args self) chain_id
  end.

(** The spec is parsed first of all. *)
Definition tx_prepare (self : TxCmd) : result (State * Z * OpTransaction) EvmeError :=
  _ ←! chain_spec_id (env_chain (tx_env_args self));
  tx ←! tx_transaction self;
  let sender := te_caller (ot_base tx) in
  state ←! initial_state (tx_prestate_args self) (tx_env_args self) sender;
  pre_nonce ←! nonce_of sender state;
  Ok (state, pre_nonce, tx).

(** The receipt that [tx] prints. *)
Definition tx_receipt (self : TxCmd) (ty : MegaTxType) (o : Outcome) (tx : OpTransaction) :
    OpTxReceipt Log Bloom :=
  let base := ot_base tx in
  let block := env_block (tx_env_args self) in
  let op_receipt := to_op_receipt logs_bloom o ty (pre_execution_nonce o) in
  let '(is_create, receiver) := match te_kind base with
                                | TxCall addr => (false, Some addr)
                                | TxCreate => (true, None)
                                end in
  let contract_address :=
    if is_create && status (envelope_receipt op_receipt)
    then Some (create_address (te_caller base) (pre_execution_nonce o)) else None in
  op_receipt_to_tx_receipt op_receipt (arg_block_number block) (arg_block_timestamp block)
    (te_caller base) receiver contract_address (effective_gas_price tx (arg_block_basefee block))
    (result_gas_used (exec_result o)) None None 0.

Definition tx_output_results (self : TxCmd) (tx : OpTransaction) (o : Outcome) : Io () :=
  match MegaTxType_try_from (te_tx_type (ot_base tx)) with
  | None => ([], Err (UnsupportedTxType (te_tx_type (ot_base tx))))
  | Some ty =>
      let receipt := tx_receipt self ty o tx in
      io_then (print_execution_summary (exec_result o) (tr_contract_address receipt) (exec_time o)) (λ _,
      io_then (print_receipt json_of_receipt receipt) (λ _,
        print_trace_and_dump (tx_trace_args self) (tx_dump_args self) o))
  end.

Definition tx (self : TxCmd) : outcome (Io ()) :=
  match tx_prepare self with
  | Err e => Ret ([], Err e)
  | Ok (state, pre_nonce, tx) =>
      o ← execute_on (tx_env_args self) (tx_trace_args self) pre_nonce state tx;
      Ret (printing o (tx_output_results self tx))
  end.
End commands.
