(* ===== verification/CommandsTheory.v ===== *)
(** * Theorems about the commands [run] and [tx]

    The context of a command has the limits, the detention and the storage prices of its
    own spec and the buckets of its arguments; a tracer that only watches does not change
    what is computed; the state and the transaction that [run] makes of a code; the
    receipt that [tx] prints; the numbers that arguments may be. *)
From Stdlib Require Import Ascii.
From S2P Require Import Prelude Spec Deps Volatile LimitTypes FrameLimit Trackers Hardfork BlockLimit.
From S2P Require Import EvmState Inspect SystemContracts Context Sandbox Intercept StorageGas Instructions Execution.
From S2P Require Import SandboxTheory LimitTheory InstructionsTheory ExecutionTheory AdditionalLimit BlockExecutor Evme ToolEvm StateTest EvmeTx EvmeTheory EvmeTxTheory.
From S2P Require Import TestEnv CmdEnv CmdOutcome Commands.
Open Scope Z_scope.
Open Scope rust_scope.
#[local] Set Warnings "-notation-for-abbreviation".

(** ** Parsing numbers *)
Lemma digit_of_range c d : digit_of c = Some d → 0 ≤ d ≤ 9.
Proof. unfold digit_of. case_bool_decide; [|done]. intros [= <-]. lia. Qed.

Lemma parse_digits_max_range max s : ∀ acc n,
  0 ≤ acc ≤ max → parse_digits_max max acc s = Ok n → 0 ≤ n ≤ max.
Proof.
  induction s as [|c s IH]; intros acc n Hacc; cbn; [by intros [= <-]|].
  destruct (digit_of c) as [d|] eqn:Hd; [|done]. apply digit_of_range in Hd.
  case_bool_decide; [|done]. apply IH. lia.
Qed.

Lemma parse_unsigned_range max s n : 0 ≤ max → parse_unsigned max s = Ok n → 0 ≤ n ≤ max.
Proof.
  intros Hmax. assert (∀ s, parse_digits_max max 0 s = Ok n → 0 ≤ n ≤ max) as Hd
    by (intros s'; apply parse_digits_max_range; lia).
  destruct s as [|c s]; [done|].
  destruct c as [[] [] [] [] [] [] [] []]; try apply Hd; destruct s; try done; apply Hd.
Qed.

(** The parser of [u64]s is the one that the rest of the tool is modelled with. *)
Lemma parse_digits_u64 s : ∀ acc, 0 ≤ acc → parse_digits_max u64_max acc s = parse_digits acc s.
Proof.
  induction s as [|c s IH]; intros acc Hacc; cbn; [done|].
  destruct (digit_of c) as [d|] eqn:Hd; [|done]. apply digit_of_range in Hd.
  unfold checked_mul, checked_add. case_bool_decide.
  - rewrite decide_True by lia. cbn. rewrite decide_True by lia. apply IH. lia.
  - case_decide; cbn; [|done]. by rewrite decide_False by lia.
Qed.

Lemma parse_unsigned_u64 s : parse_unsigned u64_max s = parse_u64 s.
Proof.
  destruct s as [|c s]; [done|].
  destruct c as [[] [] [] [] [] [] [] []]; try (by apply parse_digits_u64);
    destruct s; try done; by apply parse_digits_u64.
Qed.

(** ** Bucket capacities *)
Lemma parse_bucket_capacity_range s id capacity :
  parse_bucket_capacity s = Ok (id, capacity) → 0 ≤ id ≤ u32_max ∧ in_u64 capacity.
Proof.
  unfold parse_bucket_capacity. repeat case_match; try done. intros Hp. ok_inv Hp.
  injection Hp as <- <-.
  repeat match goal with
  | H : map_err _ (parse_unsigned ?max ?x) = Ok _ |- _ =>
      destruct (parse_unsigned max x) as [?|?] eqn:?; cbn in H; [injection H as <-|done]
  end.
  split; [by eapply parse_unsigned_range; [|eassumption]|].
  by eapply parse_unsigned_range; [|eassumption].
Qed.

(** The entries of a list of arguments, one after the other. *)
Lemma add_buckets_spec l : ∀ envs envs',
  add_buckets l envs = Ok envs' ↔
  ∃ entries, Forall2 (λ s e, parse_bucket_capacity s = Ok e) l entries ∧
    envs' = foldl (λ envs e, TestExternalEnvs.with_bucket_capacity e.1 e.2 envs) envs entries.
Proof.
  induction l as [|s l IH]; intros envs envs'; cbn.
  - split; [intros [= <-]; by exists []|]. intros (entries&Hf&->). by inversion Hf.
  - split.
    + intros Ha. ok_inv Ha. destruct a as [id capacity]. apply IH in Ha as (entries&Hf&->).
      exists ((id, capacity) :: entries). by split; [constructor|].
    + intros (entries&Hf&->). inversion Hf as [|? [id capacity] ? ? Hp Hf']; subst.
      rewrite Hp. cbn. apply IH. eauto.
Qed.

(** The last entry for a bucket decides. *)
Fixpoint last_capacity (b : Z) (entries : list (Z * Z)) (before : option Z) : option Z :=
  match entries with
  | [] => before
  | (b', c) :: entries => last_capacity b entries (if decide (b = b') then Some c else before)
  end.

Lemma buckets_last entries b : ∀ envs,
  let envs' := foldl (λ envs e, TestExternalEnvs.with_bucket_capacity e.1 e.2 envs) envs entries in
  bucket_capacity envs' !! b = last_capacity b entries (bucket_capacity envs !! b) ∧
  oracle_storage envs' = oracle_storage envs.
Proof.
  induction entries as [|[b' c] entries IH]; intros envs; [done|]. cbn.
  destruct (IH (TestExternalEnvs.with_bucket_capacity b' c envs)) as [-> ->]. split; [|done].
  f_equal. cbn. destruct (decide (b = b')) as [->|Hne]; [by rewrite lookup_insert_eq|].
  by rewrite lookup_insert_ne.
Qed.

(** ** The context *)
Section context.
Context `{Profile} `{BitflagsApi} `{InstructionResultApi} `{SStoreApi} `{AbiApi} `{EthRules}
  `{SaltHasher} {J : Type} (cfg_default : CfgEnv MegaSpecId).
Notation create := (create_evm_context (J:=J) cfg_default).

(** The first argument that is no bucket. *)
Lemma add_buckets_err l e : ∀ envs,
  add_buckets l envs = Err e → Exists (λ s, parse_bucket_capacity s = Err e) l.
Proof.
  induction l as [|a l IH]; intros envs; cbn; [done|].
  destruct (parse_bucket_capacity a) as [[id c]|e'] eqn:Ha; cbn.
  - intros Hb. right. by eapply IH.
  - intros [= ->]. by left.
Qed.

Lemma parent_of_in b : in_u64 (block_number b) → MegaContext.parent_of b = Ret (sat_sub (block_number b) 1).
Proof. intros Hin. unfold MegaContext.parent_of. by rewrite decide_True. Qed.

(** [with_block] changes the block and what is cached of storage prices. *)
Lemma with_block_ok {S O} (b : BlockEnv) (ctx : MegaContext J S O) :
  in_u64 (block_number b) →
  ∃ g, MegaContext.with_block b ctx =
    Ret (MegaContext.with_gas_cost g (MegaContext.with_inner (mkOpContext (ctx_tx (Context.inner ctx)) b
      (ctx_cfg (Context.inner ctx)) (ctx_journal (Context.inner ctx)) (ctx_error (Context.inner ctx))) ctx)).
Proof.
  intros Hin. unfold MegaContext.with_block, MegaContext.on_new_block. case_match.
  - unfold DynamicGasCost.on_new_block. cbn. rewrite decide_True by done. cbn. by eexists.
  - by exists (dynamic_storage_gas_cost ctx).
Qed.

Lemma create_block_env_spec (self : BlockEnvArgs) :
  ∃ b, create_block_env self = Ok b ∧ block_number (to_block_env b) = arg_block_number self ∧
    timestamp (to_block_env b) = arg_block_timestamp self.
Proof. eexists. split; [reflexivity|]. by destruct (arg_block_blob_excess_gas self). Qed.

(** The context before the external environments are set, once everything is parsed. *)
Lemma inner_context_ok (new_inner : MegaSpecId → OpContext J) cfg (b : BlockEnv) :
  block_number (ctx_block (new_inner (cfg_spec cfg))) = 0 → in_u64 (block_number b) →
  let limits := EvmTxRuntimeLimits.from_spec (cfg_spec cfg) in
  ∃ ctx0 ctx, MegaContext.new_with_shared_ext_envs (new_inner (cfg_spec cfg)) (cfg_spec cfg) tt tt = Ret ctx0 ∧
    MegaContext.with_block b (MegaContext.with_cfg cfg ctx0) = Ret ctx ∧
    spec ctx = cfg_spec cfg ∧ cfg_chain_id _ (MegaContext.cfg ctx) = cfg_chain_id _ cfg ∧
    MegaContext.block ctx = b ∧
    additional_limit ctx = AdditionalLimit.new (cfg_spec cfg) limits ∧
    volatile_data_tracker ctx = VolatileDataAccessTracker.new
      (block_env_access_compute_gas_limit limits) (oracle_access_compute_gas_limit limits).
Proof.
  intros Hi Hb limits. unfold MegaContext.new_with_shared_ext_envs.
  set (i0 := if MegaSpecId.is_enabled _ _ then _ else _).
  assert (block_number (ctx_block i0) = 0) as Hi0 by (unfold i0; by case_match).
  rewrite parent_of_in by (rewrite Hi0; apply in_u64_0). cbn [mbind outcome_bind].
  set (ctx0 := mkMegaContext _ _ _ _ _ _ _ _ _). exists ctx0.
  destruct (with_block_ok b (MegaContext.with_cfg cfg ctx0) Hb) as [g Hg].
  eexists. split; [reflexivity|]. split; [exact Hg|]. split_and!; try done.
  unfold MegaContext.cfg, MegaContext.with_cfg. cbn. unfold MegaContext.fill_code_sizes.
  by case_match.
Qed.

(** The context of a command is that of its arguments.  For a block number of 64 bits and
    an inner context at block zero, as [revm] makes it, making the context never panics,
    and fails exactly when the spec or a bucket cannot be parsed.  What is made runs the
    spec that was named, with the limits, the detention caps and the storage prices of
    that spec (not those of another, as with [tool_context]); block and chain id are the
    arguments'; the storage prices are of the parent block, with no bucket loaded; each
    bucket has the capacity of its last argument, and none is set for the others; and no
    oracle slot is set. *)
Theorem command_context_is_its_arguments (self : EnvArgs) (new_inner : MegaSpecId → OpContext J)
    (Hinner : ∀ s, block_number (ctx_block (new_inner s)) = 0)
    (Hnumber : in_u64 (arg_block_number (env_block self))) :
  match create self new_inner with
  | Panic => False
  | Ret (Err e) => chain_spec_id (env_chain self) = Err e ∨
      Exists (λ s, parse_bucket_capacity s = Err e) (arg_bucket_capacity (env_ext self))
  | Ret (Ok ctx) =>
      ∃ s entries envs, spec_from_str (arg_spec (env_chain self)) = Ok s ∧
        Forall2 (λ a e, parse_bucket_capacity a = Ok e) (arg_bucket_capacity (env_ext self)) entries ∧
        spec ctx = s ∧ cfg_chain_id _ (MegaContext.cfg ctx) = arg_chain_id (env_chain self) ∧
        block_number (MegaContext.block ctx) = arg_block_number (env_block self) ∧
        timestamp (MegaContext.block ctx) = arg_block_timestamp (env_block self) ∧
        additional_limit ctx = AdditionalLimit.new s (EvmTxRuntimeLimits.from_spec s) ∧
        volatile_data_tracker ctx = VolatileDataAccessTracker.new
          (block_env_access_compute_gas_limit (EvmTxRuntimeLimits.from_spec s))
          (oracle_access_compute_gas_limit (EvmTxRuntimeLimits.from_spec s)) ∧
        dynamic_storage_gas_cost ctx =
          DynamicGasCost.new s envs (sat_sub (arg_block_number (env_block self)) 1) ∧
        oracle_env ctx = envs ∧
        ∀ b, get_bucket_capacity envs b =
               Ok (E:=Empty_set) (default salt_MIN_BUCKET_SIZE (last_capacity b entries None)) ∧
             get_oracle_storage b envs = None
  end.
Proof.
  unfold create_evm_context, create_cfg_env, chain_spec_id.
  destruct (spec_from_str _) as [s|err] eqn:Hs; cbn [map_err and_then]; [|by left].
  destruct (create_block_env_spec (env_block self)) as (block&->&Hn&Ht). unfold create_external_envs.
  destruct (add_buckets _ _) as [envs|e] eqn:Hb; [|right; by eapply add_buckets_err].
  rewrite <- Hn in Hnumber |- *. rewrite <- Ht. set (cfg := with_chain _ _ _).
  destruct (inner_context_ok new_inner cfg (to_block_env block)) as
    (ctx0&ctx&->&Hc&Hspec&Hchain&Hblock&Hlim&Hvol); [apply Hinner|done|].
  cbn [mbind outcome_bind]. rewrite Hc. cbn [mbind outcome_bind].
  unfold MegaContext.with_external_envs. rewrite Hblock, parent_of_in by done. cbn [mbind outcome_bind].
  apply add_buckets_spec in Hb as (entries&Hf&Henvs). exists s, entries, envs.
  unfold MegaContext.block, MegaContext.cfg in *. cbn. rewrite Hspec, Hblock, Hlim, Hvol.
  split_and!; try done. intros b.
  destruct (buckets_last entries b TestExternalEnvs.new) as [Hl Ho]. rewrite Henvs.
  unfold TestExternalEnvs.get_bucket_capacity, TestExternalEnvs.get_oracle_storage. by rewrite Hl, Ho.
Qed.
End context.

(** ** Tracing *)
Section tracing.
Context `{Profile} `{BitflagsApi} `{InstructionResultApi} `{SStoreApi} `{AbiApi} `{KeylessAbi}
  `{InterceptAbi} `{RevmGasConstants} {Gas : Type} `{GasApi Gas} {Sig : Type} `{KeylessTxApi Sig}
  {DB E Bytecode S SE SD AL O Log Acc I P F : Type} {revm : RevmState Bytecode}
  {bytecode : BytecodeApi Bytecode} {database : Database DB E Bytecode} {display : Display E}
  {show : Display SE} {show_address : Display Address} {oracle : OracleEnv O}
  {salt : SaltEnv S SE} {host : OpHost (Journal DB Bytecode) SD AL}
  {sandbox : SandboxEvm (Journal DB Bytecode) (SandboxDb DB Bytecode) S O Bytecode Log}
  {journal : JournalInspectTr (Journal DB Bytecode) E Acc} `{AccountApi Acc} `{CreateApi Acc}
  `{ValidationApi Bytecode}
  `{FrameApi Gas E (MegaContext (Journal DB Bytecode) S O) I P F}
  `{InspectorApi Gas (MegaContext (Journal DB Bytecode) S O) I P F}
  `{OpHandler Gas E Log (MegaContext (Journal DB Bytecode) S O) I P F}
  `{ExecLoop Gas E (MegaEvm (MegaContext (Journal DB Bytecode) S O) I P F)}
  (journal_finalize : Journal DB Bytecode → Journal DB Bytecode * EvmState Bytecode)
  (empty_frames : F) (NoOpInspector : I) (precompiles_of : MegaSpecId → P)
  {tracer_api : TracingInspector I DB Bytecode Log} {quiet : QuietInspector (Log:=Log) (E:=E)}
  {parametric : LoopParametric Gas E (MegaEvm (MegaContext (Journal DB Bytecode) S O) I P F)}
  (debug_evm : MegaError E → string).
Notation Ctx := (MegaContext (Journal DB Bytecode) S O).
Notation Evm := (MegaEvm Ctx I P F).
#[local] Instance the_evm : RunEvm Ctx Evm I DB (MegaError E) Log Bytecode :=
  mega_run_evm journal_finalize empty_frames NoOpInspector precompiles_of.

Lemma and_finalize_same (p q : Evm * result (ExecutionResult MegaHaltReason Log) (MegaError E)) :
  res_rel same_evm p q →
  res_rel same_evm (and_finalize journal_finalize p) (and_finalize journal_finalize q).
Proof.
  intros Hs. apply res_rel_case in Hs as (e&e'&[r|err]&->&->&He); [|done]. cbn.
  unfold finalize. destruct He as (Hc&?). rewrite Hc.
  destruct (journal_finalize _) as [j st]. by split.
Qed.

(** What is left of an execution when its trace is dropped. *)
Definition untraced (r : result (ExecutionResult MegaHaltReason Log * EvmState Bytecode * option string)
    EvmeError) : result (ExecutionResult MegaHaltReason Log * EvmState Bytecode) EvmeError :=
  match r with Ok (ran, _) => Ok ran | Err e => Err e end.

(** C9: A tracer that only watches changes nothing that a command computes.  Whatever the
    options of the tracer, with tracing and without it a transaction on the same context
    ends in the same result and state or in the same error, and panics alike; there is a
    trace exactly when tracing is on and the EVM did not fail. *)
Theorem tracing_changes_nothing (on off : TraceArgs) (ctx : Ctx) t :
  trace on = true → trace off = false →
  outcome_rel (λ r r', untraced r = untraced r' ∧
      ∀ ran tr ran' tr', r = Ok (ran, tr) → r' = Ok (ran', tr') → is_Some tr ∧ tr' = None)
    (CmdEnv.execute_transaction debug_evm on ctx t) (CmdEnv.execute_transaction debug_evm off ctx t).
Proof.
  intros Hon Hoff. unfold CmdEnv.execute_transaction, is_tracing_enabled. rewrite Hon, Hoff.
  apply (outcome_rel_bind (res_rel same_evm)).
  - cbn. apply (outcome_rel_bind (res_rel same_evm)).
    + by apply quiet_inspector_changes_nothing.
    + intros p q Hpq. by apply and_finalize_same.
  - intros p q Hpq. apply res_rel_case in Hpq as (e&e'&[r|err]&->&->&He); cbn.
    + split; [done|]. by intros ???? [= <- <-] [= <- <-].
    + split; [done|]. by intros.
Qed.
End tracing.

(** ** What [run] makes of its code *)
Section run.
Context `{Profile} `{BitflagsApi} `{InstructionResultApi} `{SStoreApi} `{AbiApi} `{EthRules}
  {F Bytecode Provider : Type} {revm : RevmState Bytecode}
  {bytecodes : EvmeBytecode Bytecode} {empty : EmptyDb Bytecode} {forkdb : ForkDb F Bytecode}
  {codes : SystemContractCodes} {parsers : EvmeParsers} {alloy : AlloyTx}
  (read_to_string : string → result string string) (read_stdin : result string string)
  (json_accounts : string → result (list (Address * AccountState)) string)
  (connect : string → result Provider string) (get_block_number : Provider → result Z string)
  (alloy_db : Provider → Z → F) (new_legacy : Bytes → Bytecode).
Notation State := (EvmeState F Bytecode).
Notation initial_state := (initial_state read_to_string json_accounts connect get_block_number alloy_db).
Notation run_prepare := (run_prepare read_to_string read_stdin json_accounts connect get_block_number
  alloy_db new_legacy).
Notation create_tx := (create_tx read_to_string read_stdin).
Notation to_bytecode := (to_bytecode new_legacy).

(** The input that an envelope carries. *)
Definition envelope_input (e : OpTxEnvelope) : Bytes :=
  match e with
  | TxLegacy _ _ _ _ _ _ i _ | TxEip2930 _ _ _ _ _ _ _ i _ | TxEip1559 _ _ _ _ _ _ _ _ i _
  | TxEip7702 _ _ _ _ _ _ _ _ _ i _ | TxDeposit _ _ _ _ _ _ _ i => i
  end.

Lemma fake_envelope_input t e : create_fake_envelope t = Ok e → envelope_input e = te_data t.
Proof.
  unfold create_fake_envelope. intros He. ok_inv He.
  destruct a; try (by injection He as <-). destruct (te_kind t); [done|]. by injection He as <-.
Qed.

Lemma create_tx_inv args chain_id tx :
  create_tx args chain_id = Ok tx →
  te_kind (ot_base tx) = (if create args then TxCreate else TxCall (receiver args)) ∧
  ∃ e, create_fake_envelope (ot_base tx) = Ok e ∧ ot_enveloped_tx tx = Some (encoded_2718 e).
Proof.
  unfold EvmeTx.create_tx. intros Ht. ok_inv Ht. injection Ht as <-. cbn.
  match goal with Ht : EvmeTx.create_tx_env _ _ _ _ = Ok ?t |- _ =>
    apply create_tx_env_inv in Ht as (?&?&?&?&?&_&_&_&_&_&_&->) end.
  split; [done|]. eauto.
Qed.

(** Setting the code of an account leaves every other account alone. *)
Lemma set_account_code_reads a b (c : Bytecode) (self : State) :
  basic_ref a (set_account_code b c self) =
    if decide (a = b)
    then Ok (Some (info (set_info_code c (entry_or_default b (prestate self)))))
    else basic_ref a self.
Proof.
  unfold basic_ref, set_account_code, modify. cbn. case_decide as Hab.
  - subst. by rewrite lookup_insert_eq.
  - by rewrite lookup_insert_ne.
Qed.

(** C37: What [run] runs.  A code that is given is always run with the nonce that the sender
    has in the state of the arguments.  Without [--create] the transaction is the
    arguments' own, a call of the receiver; the receiver then has the code (unless it is
    empty), every other account is as the arguments made it, and the code is found under
    its hash.  With [--create] the state is the arguments' own and the input is the code
    followed by the input; but the envelope, by which the transaction is sized and
    charged, was made up before: as soon as there is code, it is that of another
    transaction. *)
Theorem run_prepares_its_code (self : RunCmd) state pre_nonce tx
    (Hrun : run_prepare self = Ok (state, pre_nonce, tx)) :
  let args := run_tx_args self in
  ∃ code st base, load_hex read_to_string read_stdin (run_code self) (run_codefile self) = Ok (Some code) ∧
    initial_state (run_prestate_args self) (run_env_args self) (sender args) = Ok st ∧
    nonce_of (sender args) st = Ok pre_nonce ∧
    create_tx args (arg_chain_id (env_chain (run_env_args self))) = Ok base ∧
    if create args then
      state = st ∧ te_kind (ot_base tx) = TxCreate ∧
      tx = with_data (code ++ te_data (ot_base base)) base ∧
      (code ≠ [] → ∃ made, ot_enveloped_tx tx = Some (encoded_2718 made) ∧
         create_fake_envelope (ot_base tx) ≠ Ok made)
    else
      tx = base ∧ te_kind (ot_base tx) = TxCall (receiver args) ∧
      (∀ a, a ≠ receiver args → basic_ref a state = basic_ref a st) ∧
      (code = [] → state = st) ∧
      (code ≠ [] →
         (∃ i, basic_ref (receiver args) state = Ok (Some i) ∧ EvmState.code i = Some (to_bytecode code)) ∧
         code_by_hash_ref (hash_slow (to_bytecode code)) state = Ok (to_bytecode code)).
Proof.
  unfold Commands.run_prepare in Hrun. ok_inv Hrun.
  match goal with Hl : ok_or ?o _ = Ok ?c |- _ => destruct o as [code|]; [injection Hl as <-|done] end.
  injection Hrun as <- <- <-. intros args. fold args in Ha1, Ha2, Ha3 |- *.
  exists code, a1, a3. split_and!; [done..|].
  apply create_tx_inv in Ha3 as (Hk&e&He&Henv).
  destruct (create args) eqn:Hc; cbn [negb andb].
  - split_and!; try done. intros Hcode. exists e. split; [done|]. intros Hm.
    apply fake_envelope_input in Hm, He. rewrite He in Hm. cbn in Hm.
    apply (f_equal length) in Hm. rewrite length_app in Hm. destruct code; [done|]. cbn in Hm. lia.
  - case_bool_decide as Hcode; cbn [negb].
    + by split_and!.
    + split_and!; try done.
      * intros a Hne. rewrite set_account_code_reads. by rewrite decide_False.
      * intros _. rewrite set_account_code_reads, decide_True by done. split; [by eexists|].
        unfold code_by_hash_ref. cbn. by rewrite lookup_insert_eq.
Qed.
End run.

(** ** Receipts *)
Section receipts.
Context {Bytecode Log Bloom : Type} (logs_bloom : list Log → Bloom).

Lemma rpc_logs_lookup number ts logs : ∀ index k,
  rpc_logs number ts index logs !! k =
    (λ l : Log, mkRpcLog l None (Some number) (Some ts) (Some 0) (Some 0)
            (Some (index + Z.of_nat k)) false) <$> logs !! k.
Proof.
  induction logs as [|l logs IH]; intros index [|k]; cbn; try done.
  - by rewrite Z.add_0_r.
  - rewrite IH. destruct (logs !! k); cbn; [|done]. do 3 f_equal. lia.
Qed.

(** the RPC receipt of an outcome.  Of an execution, the receipt that a command prints
    has the type of the transaction, its success and its gas, a deposit the nonce and
    version one; one log per log of the execution, in order, with the block's number and
    time and the log's index in the transaction.  The transaction hash, its index and the
    block hash that the receipt itself carries are not in its logs: each log has the hash
    and the index zero, and no block hash. *)
Theorem receipt_of_outcome (o : EvmeOutcome Bytecode Log) ty n number ts from to contract price gas
    hash block_hash index :
  let receipt := op_receipt_to_tx_receipt (to_op_receipt logs_bloom o ty n) number ts from to contract
                   price gas hash block_hash index in
  let r := envelope_receipt (tr_inner receipt) in
  status r = result_is_success (exec_result o) ∧
  rc_cumulative_gas_used r = result_gas_used (exec_result o) ∧
  length (rc_logs r) = length (result_into_logs (exec_result o)) ∧
  (∀ k l, rc_logs r !! k = Some l →
     result_into_logs (exec_result o) !! k = Some (log_inner l) ∧
     log_index l = Some (Z.of_nat k) ∧ log_block_number l = Some number ∧
     log_block_timestamp l = Some ts ∧
     log_transaction_hash l = Some 0 ∧ log_transaction_index l = Some 0 ∧ log_block_hash l = None) ∧
  tr_transaction_hash receipt = default 0 hash ∧ tr_transaction_index receipt = Some index ∧
  tr_block_hash receipt = block_hash ∧
  match tr_inner receipt with
  | ReceiptLegacy _ _ => ty = Legacy | ReceiptEip2930 _ _ => ty = Eip2930
  | ReceiptEip1559 _ _ => ty = Eip1559 | ReceiptEip7702 _ _ => ty = Eip7702
  | ReceiptDeposit _ nonce version _ => ty = Deposit ∧ nonce = Some n ∧ version = Some 1
  end.
Proof.
  intros receipt r.
  assert (r = set_logs (rpc_logs number ts 0 (result_into_logs (exec_result o)))
    (mkReceipt (result_is_success (exec_result o)) (result_gas_used (exec_result o))
       (result_into_logs (exec_result o)))) as -> by (unfold r, receipt; by destruct ty).
  assert (∀ i, length (rpc_logs number ts i (result_into_logs (exec_result o))) =
    length (result_into_logs (exec_result o))) as Hlen.
  { induction (result_into_logs (exec_result o)) as [|l ls IH]; intros i; cbn; [done|]. by rewrite IH. }
  cbn [set_logs status rc_cumulative_gas_used rc_logs]. split_and!; try done.
  - intros k l Hk. rewrite rpc_logs_lookup in Hk.
    destruct (result_into_logs (exec_result o) !! k); [|done]. injection Hk as <-. done.
  - unfold receipt. by destruct ty.
Qed.
End receipts.

(** ** Witnesses *)
Section example_context.
#[local] Existing Instances checked_build reference_instruction_result reference_sstore
  reference_abi reference_bitflags reference_hasher.
#[local] Instance example_eth : EthRules := {|
  blob_price e := mkBlob e 1; calc_excess_blob_gas a b c := a + b - c;
  TARGET_BLOB_GAS_PER_BLOCK_CANCUN := 393216; eth_enabled _ _ := true |}.

Definition example_env_args (spec : string) (buckets : list string) : EnvArgs :=
  mkEnvArgs (mkChainArgs spec 6342) (mkBlockEnvArgs 10 77 1000 30000000 0 0 5 (Some 0))
    (mkExtEnvArgs buckets).
Definition command_inner (s : MegaSpecId) : OpContext unit :=
  mkOpContext (Deps.example_tx [] None [] 0) (mkBlockEnv 0 0 1 30000000)
    (into_op_cfg (with_chain 1 s ToolEvm.example_cfg)) tt None.

(** Bucket 7 is given twice; a bucket of 33 bits is refused. *)
Lemma command_context_is_its_arguments_witness :
  (∃ ctx, create_evm_context ToolEvm.example_cfg (example_env_args "Rex3" ["7:512"; "7:1024"]%string)
            command_inner = Ret (Ok ctx) ∧ spec ctx = REX3 ∧
     get_bucket_capacity (SaltEnv:=test_salt_env) (oracle_env ctx) 7 = Ok 1024) ∧
  ∃ e, create_evm_context ToolEvm.example_cfg (example_env_args "Rex3" ["4294967296:1"]%string)
         command_inner = Ret (Err e) ∧ parse_bucket_capacity "4294967296:1" = Err e.
Proof.
  pose proof (λ a, command_context_is_its_arguments ToolEvm.example_cfg a command_inner
    (λ _, eq_refl)) as Hc. split.
  - specialize (Hc (example_env_args "Rex3" ["7:512"; "7:1024"]%string) ltac:(vm_compute; split; discriminate)).
    destruct (create_evm_context _ _ _) as [[ctx|e]|] eqn:He; [|vm_compute in He; discriminate He..].
    destruct Hc as (s&entries&envs&Hs&Hf&Hspec&_&_&_&_&_&_&Ho&Hb).
    exists ctx. split; [reflexivity|]. vm_compute in Hs. injection Hs as <-. split; [exact Hspec|].
    rewrite Ho. destruct (Hb 7) as [-> _].
    inversion Hf as [|? ? ? ? H1 Hf']; subst. inversion Hf' as [|? ? ? ? H2 Hf'']; subst.
    inversion Hf''; subst. vm_compute in H1, H2. injection H1 as <-. injection H2 as <-. reflexivity.
  - specialize (Hc (example_env_args "Rex3" ["4294967296:1"]%string) ltac:(vm_compute; split; discriminate)).
    destruct (create_evm_context _ _ _) as [[ctx|e]|] eqn:He; [vm_compute in He; discriminate He|..|contradiction].
    exists e. split; [reflexivity|]. destruct Hc as [Hc|Hc]; [vm_compute in Hc; discriminate Hc|].
    inversion Hc as [? ? Hx|? ? Hx]; subst; [exact Hx|inversion Hx].
Defined.
End example_context.

Section example_tracing.
#[local] Existing Instances reference_revm example_database checked_build
  reference_instruction_result reference_sstore reference_gas reference_abi reference_bitflags
  reference_keyless_abi example_display example_bytecode example_keyless_tx example_evm
  example_intercept_abi reference_gas_constants reference_account reference_create
  reference_interpreter show_nothing reference_gas_laws example_address example_journal
  example_op_host example_validation example_frames example_inspector example_handler
  example_loop example_loop_parametric.

(** A tracer that tells how many hooks it saw. *)
#[local] Instance example_tracer : TracingInspector nat example_db Z unit := {|
  GethFrame := nat; tracing_inspector_all := 0%nat;
  geth_traces n _ _ _ := n; geth_call_traces n _ _ := n; geth_prestate_traces n _ _ _ := Ok n;
  to_string_pretty n := if bool_decide (n = 4%nat) then Ok "four"%string else Err "?"%string |}.
Definition example_trace_args (on : bool) : TraceArgs :=
  mkTraceArgs on None TraceCall false false false false false false false false false.

Lemma tracing_changes_nothing_witness :
  let t := mkTransaction [] None [] 0 1 (TxCall 2) 0 0 90000 0 0 0 None in
  let ctx := evm_ctx (example_evm_at REX4 (Deps.example_tx [] None [] 0)) in
  let execute b := CmdEnv.execute_transaction (Log:=unit)
    (run_evm := the_evm (λ j, (j, ∅)) [] 0%nat (λ _, tt)) (λ _, "error"%string)
    (example_trace_args b) ctx t in
  ∃ ran, execute true = Ret (Ok (ran, Some "four"%string)) ∧ execute false = Ret (Ok (ran, None)).
Proof.
  intros t ctx execute.
  pose proof (tracing_changes_nothing (quiet:=example_quiet) (λ j, (j, ∅)) [] 0%nat (λ _, tt)
    (λ _, "error"%string) (example_trace_args true) (example_trace_args false) ctx t eq_refl eq_refl) as Hrel.
  assert (∃ ran, execute true = Ret (Ok (ran, Some "four"%string))) as [ran Hon]
    by (eexists; vm_compute; reflexivity).
  assert (∃ r, execute false = Ret r) as [r Hoff] by (eexists; vm_compute; reflexivity).
  unfold execute in Hon, Hoff. rewrite Hon, Hoff in Hrel. destruct Hrel as [Hsame Htr].
  exists ran. split; [exact Hon|]. destruct r as [[ran' tr']|e]; [|discriminate Hsame].
  cbn in Hsame. injection Hsame as <-.
  destruct (Htr _ _ _ _ eq_refl eq_refl) as [_ ->]. exact Hoff.
Defined.
End example_tracing.

Section example_run.
#[local] Existing Instances reference_revm example_codes EvmeTheory.example_empty
  EvmeTheory.example_fork EvmeTxTheory.example_parsers EvmeTxTheory.example_alloy.
#[local] Instance example_bytecodes : EvmeBytecode Z := {|
  bytecode_default := 0; new_raw_checked b := Ok (Z.of_nat (length b)); hash_slow c := c + 100;
  original_byte_slice c := [] |}.

(** [run --create 0102 --input 0102]: the input is the code twice, the envelope has it once. *)
Definition example_run_cmd : RunCmd :=
  mkRunCmd (Some "0102"%string) None
    (mkTxArgs (Some 2) (Some 21000) (Some 7) None (Some 8) None (Some 3) (Some true) None
       (Some "0x0102"%string) None None None [] [])
    (mkPreStateArgs false None "" None [] (Some "5"%string) [] [] [])
    (example_env_args "Rex4" []) (mkDumpArgs false None) (example_trace_args false).

Lemma run_prepares_its_code_witness :
  ∃ state n tx, Commands.run_prepare (F:=nat) (Provider:=()) no_file (Ok ""%string)
      (λ _, Err "json"%string) (λ _, Ok tt) (λ _, Ok 0) (λ _ _, 0%nat)
      (λ b, Z.of_nat (length b)) example_run_cmd = Ok (state, n, tx) ∧
    te_data (ot_base tx) = data12 ++ data12 ∧
    ∃ made, ot_enveloped_tx tx = Some (encoded_2718 made) ∧
      create_fake_envelope (ot_base tx) ≠ Ok made.
Proof.
  assert (∃ state n tx, Commands.run_prepare (F:=nat) (Provider:=()) no_file (Ok ""%string)
      (λ _, Err "json"%string) (λ _, Ok tt) (λ _, Ok 0) (λ _ _, 0%nat)
      (λ b, Z.of_nat (length b)) example_run_cmd = Ok (state, n, tx)) as (state&n&tx&Hrun)
    by (do 3 eexists; vm_compute; reflexivity).
  destruct (run_prepares_its_code _ _ _ _ _ _ _ _ _ _ _ Hrun) as (code&st&base&Hc&_&_&Hb&_&_&Htx&Hm).
  exists state, n, tx. split; [exact Hrun|]. vm_compute in Hc. injection Hc as <-. split.
  - vm_compute in Hb. injection Hb as <-. rewrite Htx. reflexivity.
  - apply Hm. discriminate.
Defined.
End example_run.
