(* ===== verification/Replay.v ===== *)
(** * The command [replay]

    Models [replay/] of [bin/mega-evme] and the fixed hardfork configuration of
    [common/hardfork.rs]: a transaction is fetched from a node, the transactions before
    it in its block are executed again with a block executor, and then the transaction
    itself, with overrides and a tracer.  The node is a parameter; what it answers is
    taken to be the same whenever it is asked. *)
From stdpp Require Import pretty.
From S2P Require Import Prelude Spec Deps StateTest Volatile LimitTypes FrameLimit Trackers Hardfork BlockLimit.
From S2P Require Import EvmState Inspect SystemContracts Context Sandbox Intercept StorageGas Instructions Execution.
From S2P Require Import AdditionalLimit BlockExecutor Evme ToolEvm EvmeTx TestEnv CmdEnv CmdOutcome.
Open Scope Z_scope.
Open Scope rust_scope.
#[local] Set Warnings "-notation-for-abbreviation".

(** ** Hardforks of the chains *)
Section hardforks.
Context `{ForkApi}.

Definition schedule (mini_rex mini_rex_1 mini_rex_2 rex rex_1 rex_2 rex_3 rex_4 : ForkCondition) :
    MegaHardforkConfig :=
  let w h c self := MegaHardforkConfig.with_ (mega_name h) c self in
  w Rex4 rex_4 (w Rex3 rex_3 (w Rex2 rex_2 (w Rex1 rex_1 (w Rex rex (w MiniRex2 mini_rex_2
    (w MiniRex1 mini_rex_1 (w MiniRex mini_rex MegaHardforkConfig.new))))))).

Definition get_hardfork_config (chain_id : Z) : MegaHardforkConfig :=
  if bool_decide (chain_id = 6343) then
    schedule (ForkTimestamp 0) ForkNever ForkNever (ForkTimestamp 1764694618)
      (ForkTimestamp 1766147599) (ForkTimestamp 1770116400) ForkNever ForkNever
  else if bool_decide (chain_id = 4326) then
    schedule (ForkTimestamp 0) (ForkTimestamp 1764845637) (ForkTimestamp 1764849932)
      (ForkTimestamp 1764851940) (ForkTimestamp 1766282400) (ForkTimestamp 1770246000)
      ForkNever ForkNever
  else
    schedule (ForkTimestamp 0) (ForkTimestamp 0) (ForkTimestamp 0) (ForkTimestamp 0)
      (ForkTimestamp 0) (ForkTimestamp 0) (ForkTimestamp 0) (ForkTimestamp 0).
End hardforks.

(** [common/hardfork.rs]: the order of the foreign hardforks is their crates'. *)
Record FixedHardfork := mkFixedHardfork { fixed_spec : MegaSpecId }.
Module FixedHardfork.
Definition ethereum_fork_activation (le : EthereumHardfork → EthereumHardfork → bool)
    (fork : EthereumHardfork) (self : FixedHardfork) : ForkCondition :=
  if le fork Prague then ForkTimestamp 0 else ForkNever.
Definition op_fork_activation (le : OpHardfork → OpHardfork → bool) (fork : OpHardfork)
    (self : FixedHardfork) : ForkCondition :=
  if le fork Isthmus then ForkTimestamp 0 else ForkNever.

#[global] Instance mega_hardforks : MegaHardforks FixedHardfork := {|
  mega_fork_activation self fork :=
    if MegaSpecId.is_enabled (fixed_spec self) (MegaHardfork.spec_id fork)
    then ForkTimestamp 0 else ForkNever |}.
End FixedHardfork.

(** ** What a node answers *)
Record RpcBlock := mkRpcBlock {
  rb_hash : B256;
  rb_number : Z;
  rb_timestamp : Z;
  rb_beneficiary : Address;
  rb_gas_limit : Z;
  rb_base_fee_per_gas : option Z;
  rb_difficulty : U256;
  rb_mix_hash : option B256;
  rb_parent_beacon_block_root : option B256;
  rb_extra_data : Bytes;
  rb_transactions : list B256;
}.
Record RpcTransaction (Tx : Type) := mkRpcTransaction {
  rt_recovered : Tx;
  rt_to : option Address;
  rt_block_number : option Z;
  rt_effective_gas_price : option Z;
}.
Arguments mkRpcTransaction {Tx}.
Arguments rt_recovered {Tx}.
Arguments rt_to {Tx}.
Arguments rt_block_number {Tx}.
Arguments rt_effective_gas_price {Tx}.

Class Node (Provider Tx : Type) := {
  node_transaction : Provider → B256 → result (option (RpcTransaction Tx)) string;
  node_block_number : Provider → result Z string;
  node_block : Provider → Z → result (option RpcBlock) string;
  node_chain_id : Provider → result Z string;
}.

(** ** Transactions with overrides are transactions of a block: all but the environment is
    the inner transaction's.  The input is taken from the cell of the thread. *)
Section overridden.
Context {Tx : Type} `{BlockTx Tx} (into_op : Tx → OpTransaction)
  (as_mega : OpTransaction → MegaTransaction) (cell : option Bytes).
#[local] Instance overridden_tx : BlockTx (OverriddenTx Tx) := {|
  btx_hash t := btx_hash (EvmeTx.inner t); btx_trie_hash t := btx_trie_hash (EvmeTx.inner t);
  btx_type t := btx_type (EvmeTx.inner t); btx_gas_limit t := btx_gas_limit (EvmeTx.inner t);
  encode_2718_len t := encode_2718_len (EvmeTx.inner t);
  estimated_da_size t := estimated_da_size (EvmeTx.inner t);
  btx_signer t := btx_signer (EvmeTx.inner t);
  BlockExecutor.into_tx_env t := as_mega (EvmeTx.into_tx_env into_op t cell) |}.
End overridden.
#[export] Instance overridden_receipts {Evm Tx Log Bytecode Receipt : Type}
    `{ReceiptBuilder Evm Tx Log Bytecode Receipt} :
    ReceiptBuilder Evm (OverriddenTx Tx) Log Bytecode Receipt := {|
  build_receipt t := build_receipt (EvmeTx.inner t);
  build_deposit_receipt := build_deposit_receipt (Evm:=Evm) (Tx:=Tx) (Log:=Log) (Bytecode:=Bytecode);
  cumulative_gas_used := cumulative_gas_used (Evm:=Evm) (Tx:=Tx) (Log:=Log) (Bytecode:=Bytecode) |}.

(** ** The command *)
Record ReplayCmd := mkReplayCmd {
  rp_tx_hash : B256;
  rp_rpc : string;
  rp_ext_args : ExtEnvArgs;
  rp_dump_args : StateDumpArgs;
  rp_trace_args : TraceArgs;
  rp_spec_override : option string;
  rp_tx_override_args : TxOverrideArgs;
}.

Record ReplayOutcome (Tx Bytecode Log Bloom : Type) := mkReplayOutcome {
  ro_outcome : EvmeOutcome Bytecode Log;
  ro_original_tx : RpcTransaction Tx;
  ro_receipt : OpTxReceipt Log Bloom;
}.
Arguments mkReplayOutcome {Tx Bytecode Log Bloom}.
Arguments ro_outcome {Tx Bytecode Log Bloom}.
Arguments ro_original_tx {Tx Bytecode Log Bloom}.
Arguments ro_receipt {Tx Bytecode Log Bloom}.

(** The transactions of a block before one. *)
Fixpoint take_before (h : B256) (hashes : list B256) : list B256 :=
  match hashes with
  | [] => []
  | tx :: hashes => if bool_decide (tx = h) then [] else tx :: take_before h hashes
  end.

Definition retrieve_block_env (b : RpcBlock) : ToolBlockEnv :=
  mkToolBlock (rb_number b) (rb_beneficiary b) (rb_timestamp b) (rb_gas_limit b)
    (default 0 (rb_base_fee_per_gas b)) (rb_difficulty b) (rb_mix_hash b) (Some (mkBlob 0 1)).

(** The EVM environment and the limits of the block, with the spec that is asked for. *)
Definition replay_env {T} `{ForkApi} `{MegaHardforks T} (self : ReplayCmd) (hardforks : T)
    (block : RpcBlock) (cfg : CfgEnv MegaSpecId) : result (CfgEnv MegaSpecId * BlockLimits.t) EvmeError :=
  h ←! ok_or (MegaHardforks.hardfork hardforks (rb_timestamp block))
         (EvmeOther ("No `MegaHardfork` active at block timestamp: " ++ pretty (rb_timestamp block))%string);
  let block_limits := BlockLimits.from_hardfork_and_block_gas_limit h (rb_gas_limit block) in
  match rp_spec_override self with
  | Some spec_override =>
      spec ←! map_err (λ _, EvmeOther "Invalid spec: UnknownHardfork") (spec_from_str spec_override);
      Ok (with_cfg_spec spec cfg,
          BlockLimits.with_tx_runtime_limits (EvmTxRuntimeLimits.from_spec spec) block_limits)
  | None => Ok (cfg, block_limits)
  end.

Section replay.
Context `{Profile} `{ForkApi} {T Evm DB E Bytecode Log Bloom Tx Hook I F Provider : Type}
  `{OpHardforks T} `{MegaHardforks T} {codes : SystemContractCodes}
  `{BlockEvm Evm DB E Bytecode Log} {revm : RevmState Bytecode} {sdb : StateDb DB E Bytecode}
  `{BlockState DB Bytecode} {txs : BlockTx Tx} `{StateHook Hook Bytecode}
  {rb : ReceiptBuilder Evm Tx Log Bytecode (OpReceiptEnvelope Log Bloom)}
  {show : Display E} {show_evm : Display (MegaError E)} {show_block : Display BlockExecutionError}
  {bytecodes : EvmeBytecode Bytecode} {forkdb : ForkDb F Bytecode}
  {tracing : TracingInspector I DB Bytecode Log} {node : Node Provider Tx}
  {parsers : EvmeParsers} {alloy : AlloyTx} {text : CommandText}.
Context (of_B256 : Z → Bytes) (SYSTEM_ADDRESS HISTORY_STORAGE_ADDRESS BEACON_ROOTS_ADDRESS : Address)
  (read_to_string : string → result string string) (read_stdin : result string string)
  (fs_write : string → string → result () string)
  (json_of_accounts : gmap Address AccountState → result string string)
  (json_of_receipt : OpTxReceipt Log Bloom → result string string)
  (connect : string → result Provider string) (alloy_db : Provider → Z → F)
  (into_op : Tx → OpTransaction) (as_mega : OpTransaction → MegaTransaction)
  (create_address : Address → Z → Address) (cfg_default : CfgEnv MegaSpecId) (elapsed : Z).
(** The EVM of a block with an inspector and the limits of a transaction; its inspector,
    which [fuse] clears; the accounts of its database; the state over the forked chain. *)
Context (make_evm : DB → BlockEnv → CfgEnv MegaSpecId → TestExternalEnvs → I →
    EvmTxRuntimeLimits → outcome Evm) (inspector : Evm → I) (fuse : Evm → Evm)
  (db_basic_ref : DB → Address → result (option (AccountInfo Bytecode)) EvmeError)
  (state_builder : EvmeState F Bytecode → DB) (no_hook : Hook) (hardforks_of : Z → T).
Notation Receipt := (OpReceiptEnvelope Log Bloom).
Notation Executor := (MegaBlockExecutor T Evm Hook Receipt).
Notation ReplayOutcome := (ReplayOutcome Tx Bytecode Log Bloom).
Implicit Types (ex : Executor) (self : ReplayCmd).

(** [MegaBlockExecutor::new] with the feature [test-utils], which the tool turns on: the
    asserts on the spec and on the gas limit are not there. *)
Definition new_with_test_utils (evm : Evm) (ctx : MegaBlockExecutionCtx) (forks : T) :
    outcome Executor :=
  let block_timestamp := saturating_to (timestamp (be_block evm)) in
  assert_true (is_regolith_active_at_timestamp forks block_timestamp);;
  assert_true (is_canyon_active_at_timestamp forks block_timestamp);;
  assert_true (is_isthmus_active_at_timestamp forks block_timestamp);;
  Ret (mkExecutor forks ctx no_hook evm (to_block_limiter (ctx_block_limits ctx)) []).

Definition block_failed (e : BlockExecutionError) : EvmeError :=
  EvmeOther ("Block execution error: " ++ to_string e)%string.
(** The value of a step of the executor, with its errors wrapped. *)
Definition block_step {A} (m : outcome (Executor * result A BlockExecutionError)) :
    outcome (result (Executor * A) EvmeError) :=
  '(ex, r) ← m;
  Ret match r with Ok a => Ok (ex, a) | Err e => Err (block_failed e) end.

Definition rpc {A} (message : string) (r : result A string) : result A EvmeError :=
  map_err (λ e, RpcError (message ++ ": " ++ e)%string) r.
Definition fetch (provider : Provider) (h : B256) (message : string) :
    result (RpcTransaction Tx) EvmeError :=
  found ←! rpc message (node_transaction provider h); ok_or found (TransactionNotFound h).

(** A preceding transaction is run and committed. *)
Fixpoint run_preceding (provider : Provider) (hashes : list B256) ex : outcome (result Executor EvmeError) :=
  match hashes with
  | [] => Ret (Ok ex)
  | h :: hashes =>
      tx ←? Ret (fetch provider h "RPC transport error");
      ran ←? block_step (run_transaction (rt_recovered tx) ex);
      committed ←? block_step (commit_transaction_outcome (E:=E) ran.2 ran.1);
      run_preceding provider hashes committed.1
  end.

(** The receipt of the replayed transaction, out of the last one of the block. *)
Definition replay_receipt (block : RpcBlock) (target_tx : RpcTransaction Tx)
    (pre_nonce transaction_index gas_used : Z) (receipt_envelope : Receipt) : OpTxReceipt Log Bloom :=
  let from := btx_signer (rt_recovered target_tx) in
  let to := rt_to target_tx in
  let contract_address :=
    if bool_decide (to = None) && status (envelope_receipt receipt_envelope)
    then Some (create_address from pre_nonce) else None in
  op_receipt_to_tx_receipt receipt_envelope (rb_number block) (rb_timestamp block) from to
    contract_address (default 0 (rt_effective_gas_price target_tx)) gas_used
    (Some (btx_hash (rt_recovered target_tx))) (Some (rb_hash block)) transaction_index.

(** The replayed transaction, once the preceding ones are in. *)
Definition run_target self (block : RpcBlock) (target_tx : RpcTransaction Tx) (transaction_index : Z)
    (cell : option Bytes) ex : outcome (result ReplayOutcome EvmeError) :=
  let '(cell, wrapped) := wrap read_to_string read_stdin (rp_tx_override_args self)
                            (rt_recovered target_tx) cell in
  let txs' := overridden_tx into_op as_mega cell in
  wrapped_tx ←? Ret wrapped;
  acc ←? Ret (db_basic_ref (db_of ex) (btx_signer (EvmeTx.inner wrapped_tx)));
  let pre_nonce := match acc with Some i => nonce i | None => 0 end in
  ran ←? block_step (run_transaction wrapped_tx (with_ex_evm (fuse (ex_evm ex)) ex));
  let '(ex, outcome) := ran in
  let result_and_state := (o_result (bo_inner outcome), o_state (bo_inner outcome)) in
  let trace_data :=
    if is_tracing_enabled (rp_trace_args self)
    then Some (generate_trace (rp_trace_args self) (inspector (ex_evm ex)) result_and_state (db_of ex))
    else None in
  committed ←? block_step (commit_transaction_outcome (E:=E) outcome ex);
  let '(ex, gas_used) := committed in
  finished ←? Ret (map_err block_failed (finish (E:=E) (Tx:=OverriddenTx Tx) ex));
  receipt_envelope ← expect (last (br_receipts finished.2));
  Ret (Ok (mkReplayOutcome
    (mkEvmeOutcome pre_nonce (o_result (bo_inner outcome)) (o_state (bo_inner outcome)) elapsed trace_data)
    target_tx
    (replay_receipt block target_tx pre_nonce transaction_index gas_used receipt_envelope))).

Definition execute_transactions self (forks : T) (database : EvmeState F Bytecode)
    (parent_block block : RpcBlock) (cfg : CfgEnv MegaSpecId) (provider : Provider)
    (preceding : list B256) (target_tx : RpcTransaction Tx) (cell : option Bytes) :
    outcome (result ReplayOutcome EvmeError) :=
  envs ←? Ret (create_external_envs (rp_ext_args self));
  env ←? Ret (replay_env self forks block cfg);
  let '(cfg, block_limits) := env in
  let block_ctx := mkExecutionCtx (rb_hash parent_block) (rb_parent_beacon_block_root block)
                     (rb_extra_data block) block_limits in
  evm ← make_evm (state_builder database) (to_block_env (retrieve_block_env block)) cfg envs
          (create_inspector (I:=I) (DB:=DB) (Bytecode:=Bytecode) (Log:=Log) (rp_trace_args self))
          (BlockLimits.to_evm_tx_runtime_limits block_limits);
  ex ← new_with_test_utils evm block_ctx forks;
  pre ←? block_step (apply_pre_execution_changes of_B256 SYSTEM_ADDRESS HISTORY_STORAGE_ADDRESS
                       BEACON_ROOTS_ADDRESS ex);
  ex ←? run_preceding provider preceding pre.1;
  run_target self block target_tx (Z.of_nat (length preceding)) cell ex.

(** *** [run] *)

(** Where the transaction is replayed: the block whose state it starts from, the block it
    is in, and whether it is pending. *)
Definition replay_position (provider : Provider) (target_tx : RpcTransaction Tx) :
    outcome (result (Z * Z * bool) EvmeError) :=
  match rt_block_number target_tx with
  | Some block_number => base ← sub_u64 block_number 1; Ret (Ok (base, block_number, false))
  | None => Ret (n ←! rpc "RPC transport error" (node_block_number provider); Ok (n, n, true))
  end.

Definition fetch_block (provider : Provider) (number : Z) : result RpcBlock EvmeError :=
  found ←! rpc "RPC transport error" (node_block provider number); ok_or found (BlockNotFound number).

Definition replay_output_results self (r : ReplayOutcome) : Io () :=
  let o := ro_outcome r in
  io_then (print_execution_summary (exec_result o) (tr_contract_address (ro_receipt r)) (exec_time o)) (λ _,
  io_then (print_receipt json_of_receipt (ro_receipt r)) (λ _,
  io_then (print_execution_trace fs_write (trace_data o) (trace_output_file (rp_trace_args self))) (λ _,
    if dump (rp_dump_args self)
    then dump_evm_state fs_write (convert_evm_state_to_json json_of_accounts) (rp_dump_args self) (out_state o)
    else ([], Ok tt)))).

(** Everything of [run] up to the output. *)
Definition replay self (cell : option Bytes) : outcome (result ReplayOutcome EvmeError) :=
  provider ←? Ret (map_err (λ e, RpcError ("Invalid RPC URL '" ++ rp_rpc self ++ "': " ++ e)%string)
                     (connect (rp_rpc self)));
  target_tx ←? Ret (fetch provider (rp_tx_hash self) "Failed to fetch transaction");
  position ←? replay_position provider target_tx;
  let '(state_base_block_number, block_number, is_pending) := position in
  parent_block ←? Ret (fetch_block provider state_base_block_number);
  block ←? Ret (fetch_block provider block_number);
  chain_id ←? Ret (rpc "Failed to get chain ID" (node_chain_id provider));
  let hardforks := hardforks_of chain_id in
  let spec := MegaHardforks.spec_id hardforks (rb_timestamp block) in
  database ←? Ret (new_forked (node_block_number provider) (alloy_db provider)
                     (Some state_base_block_number) ∅ ∅);
  cfg ←? Ret (create_cfg_env cfg_default (mkChainArgs (spec_to_str spec) chain_id));
  let preceding := if is_pending then [] else take_before (rp_tx_hash self) (rb_transactions block) in
  execute_transactions self hardforks database parent_block block cfg provider preceding target_tx cell.

Definition run self (cell : option Bytes) : outcome (Io ()) :=
  r ← replay self cell;
  Ret match r with Err e => ([], Err e) | Ok r => replay_output_results self r end.
End replay.

(** ** [MegaEvm] as the EVM of a replay *)
Section mega_evm.
Context `{Profile} `{BitflagsApi} `{InstructionResultApi} `{SStoreApi} `{AbiApi} {SaltH : SaltHasher}
  {DB E Bytecode SD AL I P F : Type} {host : OpHost (Journal DB Bytecode) SD AL}
  (new_inner : DB → MegaSpecId → OpContext (Journal DB Bytecode)) (default_tx : MegaTransaction)
  (default_chain : OpContext (Journal DB Bytecode) → OpContext (Journal DB Bytecode))
  (empty_frames : F) (NoOpInspector : I) (precompiles_of : MegaSpecId → P) (fuse_inspector : I → I).
Notation Evm := (MegaEvm (MegaContext (Journal DB Bytecode) TestExternalEnvs TestExternalEnvs) I P F).

(** The factory with the environments of the arguments, its EVM with the inspector and the
    limits of a transaction; there are no dynamic precompiles. *)
Definition replay_evm (db : DB) (block : BlockEnv) (cfg : CfgEnv MegaSpecId) (envs : TestExternalEnvs)
    (inspector : I) (limits : EvmTxRuntimeLimits) : outcome Evm :=
  evm ← create_evm_with_inspector new_inner TestExternalEnvs.new TestExternalEnvs.new
          (TestExternalEnvs.external_envs envs) default_tx default_chain empty_frames NoOpInspector
          precompiles_of (λ _ (_ : ()) p, p) None db block cfg inspector;
  Ret (Execution.with_tx_runtime_limits limits evm).
Definition replay_inspector (evm : Evm) : I := evm_inspector evm.
Definition replay_fuse (evm : Evm) : Evm := with_evm_inspector (fuse_inspector (evm_inspector evm)) evm.
End mega_evm.
