(* ===== verification/ReplayTheory.v ===== *)
(** * Theorems about [replay]

    Which spec the chains run at which time, that a fixed configuration runs its own, the
    limits a transaction is replayed with, and that a replay is the history of the block
    up to its transaction. *)
From stdpp Require Import pretty.
From S2P Require Import Prelude Spec Deps StateTest Volatile LimitTypes FrameLimit Trackers Hardfork BlockLimit.
From S2P Require Import EvmState Inspect SystemContracts Context Sandbox Intercept StorageGas Instructions Execution.
From S2P Require Import AdditionalLimit BlockExecutor BlockExecutorTheory Evme ToolEvm EvmeTx EvmeTxTheory TestEnv.
From S2P Require Import CmdEnv CmdOutcome Replay.
Open Scope Z_scope.
Open Scope rust_scope.
#[local] Set Warnings "-notation-for-abbreviation".

(** ** Schedules *)
Section schedules.
Context `{ForkApi} {laws : ForkLaws}.

Definition condition_of (mr mr1 mr2 r r1 r2 r3 r4 : ForkCondition) (h : MegaHardfork) : ForkCondition :=
  match h with
  | MiniRex => mr | MiniRex1 => mr1 | MiniRex2 => mr2 | Rex => r
  | Rex1 => r1 | Rex2 => r2 | Rex3 => r3 | Rex4 => r4
  end.

Lemma schedule_activation mr mr1 mr2 r r1 r2 r3 r4 h :
  mega_fork_activation (schedule mr mr1 mr2 r r1 r2 r3 r4) h = condition_of mr mr1 mr2 r r1 r2 r3 r4 h.
Proof.
  assert (∀ h h', mega_name h = mega_name h' ↔ h = h') as Hname
    by (intros; split; [apply mega_name_inj|by intros ->]).
  unfold schedule, MegaHardforkConfig.with_. rewrite !activation_insert.
  destruct h; repeat (case_decide as Hn; rewrite Hname in Hn; [done|first [done|clear Hn]]); done.
Qed.

(** The spec of a schedule, read off the conditions in force. *)
Lemma schedule_spec mr mr1 mr2 r r1 r2 r3 r4 ts :
  let act c := active_at_timestamp c ts in
  MegaHardforks.spec_id (schedule mr mr1 mr2 r r1 r2 r3 r4) ts =
    if act r4 then REX4 else if act r3 then REX3 else if act r2 then REX2 else if act r1 then REX1
    else if act r then REX else if act mr2 then MINI_REX else if act mr1 then EQUIVALENCE
    else if act mr then MINI_REX else EQUIVALENCE.
Proof.
  unfold MegaHardforks.spec_id, MegaHardforks.is_rex_4_active_at_timestamp,
    MegaHardforks.is_rex_3_active_at_timestamp, MegaHardforks.is_rex_2_active_at_timestamp,
    MegaHardforks.is_rex_1_active_at_timestamp, MegaHardforks.is_rex_active_at_timestamp,
    MegaHardforks.is_mini_rex_2_active_at_timestamp, MegaHardforks.is_mini_rex_1_active_at_timestamp,
    MegaHardforks.is_mini_rex_active_at_timestamp.
  by rewrite !schedule_activation.
Qed.

(** which spec a block is replayed with.  On the main network [MINI_REX] runs from the
    genesis with an interval of the equivalence spec, then [REX], [REX1] and [REX2] from
    their times on; on the test network there is no interval; every other chain runs
    [REX4] from the genesis.  At no time is there no hardfork, so that a replay never
    fails for want of one. *)
Theorem chain_specs (ts : Z) :
  0 ≤ ts →
  MegaHardforks.spec_id (get_hardfork_config 4326) ts =
    (if bool_decide (1770246000 ≤ ts) then REX2 else if bool_decide (1766282400 ≤ ts) then REX1
     else if bool_decide (1764851940 ≤ ts) then REX else if bool_decide (1764849932 ≤ ts) then MINI_REX
     else if bool_decide (1764845637 ≤ ts) then EQUIVALENCE else MINI_REX) ∧
  MegaHardforks.spec_id (get_hardfork_config 6343) ts =
    (if bool_decide (1770116400 ≤ ts) then REX2 else if bool_decide (1766147599 ≤ ts) then REX1
     else if bool_decide (1764694618 ≤ ts) then REX else MINI_REX) ∧
  (∀ c, c ≠ 4326 → c ≠ 6343 → MegaHardforks.spec_id (get_hardfork_config c) ts = REX4) ∧
  ∀ c, is_Some (MegaHardforks.hardfork (get_hardfork_config c) ts).
Proof.
  intros Hts. unfold get_hardfork_config. split_and!.
  - rewrite bool_decide_false, bool_decide_true by done. rewrite schedule_spec.
    rewrite !active_timestamp, !active_never. rewrite (bool_decide_true (0 ≤ ts)) by done. done.
  - rewrite bool_decide_true by done. rewrite schedule_spec.
    rewrite !active_timestamp, !active_never. rewrite (bool_decide_true (0 ≤ ts)) by done. done.
  - intros c Hm Ht. rewrite !bool_decide_false by done. rewrite schedule_spec, active_timestamp.
    by rewrite bool_decide_true.
  - intros c. fold (get_hardfork_config c).
    destruct (hardfork_and_spec_agree (get_hardfork_config c) ts) as (_&Hnone&_).
    destruct (MegaHardforks.hardfork _ ts) as [h|]; [by eexists|].
    pose proof (proj1 Hnone eq_refl MiniRex) as Hact. exfalso. revert Hact.
    unfold is_active, get_hardfork_config. repeat case_bool_decide; rewrite schedule_activation; cbn;
      rewrite active_timestamp; by rewrite bool_decide_true.
Qed.

(** A hardfork is active under a fixed configuration when its spec is not later. *)
Lemma fixed_active s h ts : 0 ≤ ts →
  active_at_timestamp (mega_fork_activation (mkFixedHardfork s) h) ts =
    MegaSpecId.is_enabled s (MegaHardfork.spec_id h).
Proof.
  intros Hts. cbn. destruct (MegaSpecId.is_enabled _ _).
  - rewrite active_timestamp. by apply bool_decide_true.
  - apply active_never.
Qed.

(** a fixed configuration runs its own spec: at every time from zero on, whatever the
    spec, [FixedHardfork] selects a hardfork of exactly this spec. *)
Theorem fixed_hardfork_runs_its_spec (self : FixedHardfork) (ts : Z) :
  0 ≤ ts →
  MegaHardforks.spec_id self ts = fixed_spec self ∧
  ∃ h, MegaHardforks.hardfork self ts = Some h ∧ MegaHardfork.spec_id h = fixed_spec self.
Proof.
  intros Hts. destruct self as [s].
  destruct (hardfork_and_spec_agree (mkFixedHardfork s) ts) as (_&Hnone&Hs).
  assert (MegaHardforks.spec_id (mkFixedHardfork s) ts = s) as Hspec.
  { unfold MegaHardforks.spec_id, MegaHardforks.is_rex_4_active_at_timestamp,
      MegaHardforks.is_rex_3_active_at_timestamp, MegaHardforks.is_rex_2_active_at_timestamp,
      MegaHardforks.is_rex_1_active_at_timestamp, MegaHardforks.is_rex_active_at_timestamp,
      MegaHardforks.is_mini_rex_2_active_at_timestamp, MegaHardforks.is_mini_rex_1_active_at_timestamp,
      MegaHardforks.is_mini_rex_active_at_timestamp.
    rewrite !fixed_active by done. by destruct s. }
  split; [done|]. rewrite Hspec in Hs.
  destruct (MegaHardforks.hardfork _ ts) as [h|] eqn:Hh; [by exists h|].
  pose proof (proj1 Hnone eq_refl MiniRex1) as Hact. exfalso. revert Hact.
  unfold is_active. rewrite fixed_active by done. by destruct s.
Qed.
End schedules.

(** ** The environment *)

Lemma runtime_limits_set limits (own : BlockLimits.t) :
  BlockLimits.to_evm_tx_runtime_limits (BlockLimits.with_tx_runtime_limits limits own) = limits.
Proof. by destruct limits. Qed.

(** the limits of a replayed transaction are those of the spec it runs.  When a replay
    gets its environment, a hardfork is active at the block; the runtime limits of a
    transaction are those of the spec in the configuration, whether it is the chain's or
    the one asked for; the block's own limits stay those of the hardfork and of the
    block's gas limit; and without an override the configuration is unchanged. *)
Theorem replay_limits_follow_spec {T} `{ForkApi} `{MegaHardforks T} self (forks : T) block cfg cfg' lim
    (Henv : replay_env self forks block cfg = Ok (cfg', lim))
    (Hspec : cfg_spec cfg = MegaHardforks.spec_id forks (rb_timestamp block)) :
  BlockLimits.to_evm_tx_runtime_limits lim = EvmTxRuntimeLimits.from_spec (cfg_spec cfg') ∧
  BlockLimits.block_gas_limit lim = rb_gas_limit block ∧
  (rp_spec_override self = None → cfg' = cfg) ∧
  (∀ s, rp_spec_override self = Some s → spec_from_str s = Ok (cfg_spec cfg')) ∧
  ∃ h, MegaHardforks.hardfork forks (rb_timestamp block) = Some h ∧
    let own := BlockLimits.from_hardfork_and_block_gas_limit h (rb_gas_limit block) in
    BlockLimits.block_txs_data_limit lim = BlockLimits.block_txs_data_limit own ∧
    BlockLimits.block_kv_update_limit lim = BlockLimits.block_kv_update_limit own ∧
    BlockLimits.block_state_growth_limit lim = BlockLimits.block_state_growth_limit own.
Proof.
  unfold replay_env in Henv. ok_inv Henv. rename a into h.
  destruct (MegaHardforks.hardfork _ _) as [h'|] eqn:Hh; [injection Ha as <-|done].
  destruct (hardfork_and_spec_agree forks (rb_timestamp block)) as (_&_&Hagree).
  rewrite Hh, <- Hspec in Hagree.
  destruct (hardfork_limits_coherent h' (rb_gas_limit block)) as (Hl&Hg&_).
  destruct (rp_spec_override self) as [s|].
  - destruct (spec_from_str s) as [spec|e] eqn:Hs; [|done]. injection Henv as <- <-.
    rewrite runtime_limits_set. split_and!; [reflexivity|exact Hg|done|by intros s' [= <-]|].
    exists h'. split; [done|]. split_and!; reflexivity.
  - injection Henv as <- <-. rewrite Hagree. split_and!; try done. by exists h'.
Qed.

(** ** The block *)
Lemma result_bind_ok {A B E} (m : outcome (result A E)) (f : A → outcome (result B E)) b :
  result_bind m f = Ret (Ok b) ↔ ∃ a, m = Ret (Ok a) ∧ f a = Ret (Ok b).
Proof.
  unfold result_bind. destruct m as [[a|e]|]; cbn; split;
    [eauto|by intros (?&[= <-]&?)|done|by intros (?&?&?)|done|by intros (?&?&?)].
Qed.

Lemma map_err_ok {A E1 E2} (f : E1 → E2) (r : result A E1) a : map_err f r = Ok a ↔ r = Ok a.
Proof. destruct r; cbn; split; congruence. Qed.

(** Takes apart a command that returned a value. *)
Ltac run_inv H :=
  repeat lazymatch type of H with
  | result_bind _ _ = Ret (Ok _) =>
      let a := fresh "a" in let Ha := fresh "Ha" in
      apply result_bind_ok in H as (a & Ha & H)
  | _ ≫= _ = Ret (Ok _) =>
      let a := fresh "a" in let Ha := fresh "Ha" in
      apply bind_Ret in H as (a & Ha & H)
  end.

Section replay.
Context `{Profile} `{ForkApi} {T Evm DB E Bytecode Log Bloom Tx Hook I F Provider : Type}
  `{OpHardforks T} `{MegaHardforks T} {codes : SystemContractCodes}
  `{BlockEvm Evm DB E Bytecode Log} {revm : RevmState Bytecode} {sdb : StateDb DB E Bytecode}
  `{BlockState DB Bytecode} {txs : BlockTx Tx} `{StateHook Hook Bytecode}
  {rb : ReceiptBuilder Evm Tx Log Bytecode (OpReceiptEnvelope Log Bloom)}
  {show : Display E} {show_evm : Display (MegaError E)} {show_block : Display BlockExecutionError}
  {tracing : TracingInspector I DB Bytecode Log} {node : Node Provider Tx}
  {parsers : EvmeParsers} {alloy : AlloyTx}.
Context (of_B256 : Z → Bytes) (SYSTEM_ADDRESS HISTORY_STORAGE_ADDRESS BEACON_ROOTS_ADDRESS : Address)
  (read_to_string : string → result string string) (read_stdin : result string string)
  (into_op : Tx → OpTransaction) (as_mega : OpTransaction → MegaTransaction)
  (create_address : Address → Z → Address) (elapsed : Z)
  (make_evm : DB → BlockEnv → CfgEnv MegaSpecId → TestExternalEnvs → I →
    EvmTxRuntimeLimits → outcome Evm) (inspector : Evm → I) (fuse : Evm → Evm)
  (db_basic_ref : DB → Address → result (option (AccountInfo Bytecode)) EvmeError)
  (state_builder : EvmeState F Bytecode → DB) (no_hook : Hook).
Notation Receipt := (OpReceiptEnvelope Log Bloom).
Notation Executor := (MegaBlockExecutor T Evm Hook Receipt).
Notation execute_transactions := (execute_transactions of_B256 SYSTEM_ADDRESS HISTORY_STORAGE_ADDRESS
  BEACON_ROOTS_ADDRESS read_to_string read_stdin into_op as_mega create_address elapsed make_evm inspector
  fuse db_basic_ref state_builder no_hook).
Notation history := (history of_B256 SYSTEM_ADDRESS HISTORY_STORAGE_ADDRESS BEACON_ROOTS_ADDRESS).
Implicit Types (ex : Executor) (self : ReplayCmd).

Lemma block_step_ok {A} (m : outcome (Executor * result A BlockExecutionError)) ex a :
  block_step m = Ret (Ok (ex, a)) → m = Ret (ex, Ok a).
Proof.
  unfold block_step. intros Hs. apply bind_Ret in Hs as ([ex' [a'|e]]&->&Hs); [|done].
  by injection Hs as <- <-.
Qed.

(** Transactions that were run one after the other, each on what the one before left, and
    each committed before the next. *)
Inductive executed : Executor → list Tx → list (BlockMegaTransactionOutcome Tx Bytecode Log) → Executor → Prop :=
  | executed_nil ex : executed ex [] [] ex
  | executed_cons ex tx o ran gas committed l os ex' :
      run_transaction (Log:=Log) (E:=E) (Bytecode:=Bytecode) tx ex = Ret (ran, Ok o) →
      commit_transaction_outcome (E:=E) o ran = Ret (committed, Ok gas) →
      executed committed l os ex' → executed ex (tx :: l) (o :: os) ex'.

(** They are a history of the block. *)
Lemma executed_history start ex l outs' ex' : executed ex l outs' ex' → ∀ outs,
  history start outs ex → history start (outs ++ outs') ex'.
Proof.
  induction 1 as [|ex tx o ran gas committed l os ex' Hr Hc _ IH]; intros outs Hh; [by rewrite app_nil_r|].
  change (o :: os) with ([o] ++ os). rewrite app_assoc. apply IH.
  eapply history_commit; [|exact Hc]. by eapply history_run.
Qed.

Lemma fetch_ok provider h message tx :
  fetch provider h message = Ok tx → node_transaction provider h = Ok (Some tx).
Proof.
  unfold fetch, rpc. intros Hf. ok_inv Hf. apply map_err_ok in Ha. rewrite Ha.
  destruct a; [by injection Hf as ->|done].
Qed.

Lemma run_preceding_executed provider hashes : ∀ ex ex',
  run_preceding (E:=E) provider hashes ex = Ret (Ok ex') →
  ∃ fetched outs, Forall2 (λ h tx, node_transaction provider h = Ok (Some tx)) hashes fetched ∧
    executed ex (map rt_recovered fetched) outs ex'.
Proof.
  induction hashes as [|h hashes IH]; intros ex ex' Hrun; cbn [run_preceding] in Hrun.
  { injection Hrun as <-. exists [], []. split; constructor. }
  run_inv Hrun. injection Ha as Ha. destruct a0 as [ex1 o], a1 as [ex2 gas].
  apply block_step_ok in Ha0, Ha1. cbn in Hrun, Ha1.
  destruct (IH ex2 ex') as (fetched&outs&Hf&Hx); [done|].
  apply fetch_ok in Ha. exists (a :: fetched), (o :: outs). split; [by constructor|]. by econstructor.
Qed.

(** What becomes of the replayed transaction [tx]: it runs on the executor [before], with
    the tracer cleared, and is committed. *)
Record target_ran self (tx : Tx) (cell cell' : option Bytes) (before ran : Executor)
    (out : BlockMegaTransactionOutcome (OverriddenTx Tx) Bytecode Log) (committed : Executor) : Prop := {
  tgt_wrap : wrap read_to_string read_stdin (rp_tx_override_args self) tx cell = (cell', Ok (bo_tx out));
  tgt_run : run_transaction (Log:=Log) (E:=E) (Bytecode:=Bytecode)
    (H5:=overridden_tx into_op as_mega cell') (bo_tx out)
    (with_ex_evm (fuse (ex_evm before)) before) = Ret (ran, Ok out);
  tgt_commit : commit_transaction_outcome (E:=E) (H5:=overridden_tx into_op as_mega cell') out ran =
    Ret (committed, Ok (result_gas_used (o_result (bo_inner out))));
}.

Context {receipt_laws : ReceiptLaws Evm Tx Log Bytecode Receipt}.
#[local] Instance overridden_receipt_laws : ReceiptLaws Evm (OverriddenTx Tx) Log Bytecode Receipt.
Proof.
  split; cbn.
  - intros tx r gas evm st receipt. apply build_receipt_gas.
  - intros. apply (build_deposit_receipt_gas (Evm:=Evm) (Tx:=Tx) (Log:=Log) (Bytecode:=Bytecode)).
Qed.

(** An outcome of a plain transaction, seen as one without overrides. *)
Definition unoverridden (o : BlockMegaTransactionOutcome Tx Bytecode Log) :
    BlockMegaTransactionOutcome (OverriddenTx Tx) Bytecode Log :=
  mkBlockOutcome (mkOverridden (bo_tx o) (mkTxOverrides None None false)) (bo_tx_size o)
    (bo_da_size o) (bo_depositor o) (bo_inner o).

Lemma ledger_unoverridden cell lim os ex :
  ledger lim os ex →
  ledger (H5:=overridden_tx into_op as_mega cell) lim (map unoverridden os) ex.
Proof.
  intros [Hl Hr]. split; rewrite map_map; [exact Hl|exact Hr].
Qed.

(** The executor of a block: nothing was counted yet and there are no receipts. *)
Definition fresh_executor (forks : T) (ctx : MegaBlockExecutionCtx) (evm : Evm) : Executor :=
  mkExecutor forks ctx no_hook evm (to_block_limiter (ctx_block_limits ctx)) [].

Lemma fresh_ledger lim forks ctx evm :
  ctx_block_limits ctx = lim → 0 ≤ BlockLimits.block_gas_limit lim →
  0 ≤ BlockLimits.block_da_size_limit lim → 0 ≤ BlockLimits.block_txs_encode_size_limit lim →
  ledger lim [] (fresh_executor forks ctx evm).
Proof.
  intros <- Hg Hd Hs. split; [|done].
  split; cbn; [done|repeat split|lia..|]. intros before c Hnil. by destruct before.
Qed.

(** [finish] hands over the receipts there are. *)
Lemma finish_receipts {Tx'} `{!ReceiptBuilder Evm Tx' Log Bytecode Receipt} ex evm res :
  finish (Tx:=Tx') ex = Ok (evm, res) → br_receipts res = receipts ex.
Proof.
  unfold finish. intros Hf. pose proof (post_execution_only_evm ex) as Hp.
  destruct (post_execution_changes ex) as [ex' [outcomes|e]]; [|done]. injection Hf as <- <-. cbn in Hp |- *.
  destruct (system_calls_ledger of_B256 BEACON_ROOTS_ADDRESS outcomes ex') as [_ ->]. by destruct (only_evm_ledger _ _ Hp) as [_ ->].
Qed.

Lemma wrap_inner {A} (args : TxOverrideArgs) (t : A) cell cell' w :
  wrap read_to_string read_stdin args t cell = (cell', Ok w) → EvmeTx.inner w = t.
Proof.
  unfold wrap. destruct (load_hex _ _ _ _) as [loaded|]; [|done].
  by intros [= _ (v&_&[= <-])%and_then_ok].
Qed.

(** The nonce of the sender in the database of an executor. *)
Definition nonce_before ex (tx : Tx) (n : Z) : Prop :=
  ∃ acc, db_basic_ref (db_of ex) (btx_signer tx) = Ok acc ∧ n = from_option nonce 0 acc.

Lemma run_target_inv self block target index cell before o :
  run_target (E:=E) read_to_string read_stdin into_op as_mega create_address elapsed inspector fuse db_basic_ref
    self block target index cell before = Ret (Ok o) →
  ∃ cell' ran out committed pre_nonce envelope,
    target_ran self (rt_recovered target) cell cell' before ran out committed ∧
    last (receipts committed) = Some envelope ∧
    exec_result (ro_outcome o) = o_result (bo_inner out) ∧
    out_state (ro_outcome o) = o_state (bo_inner out) ∧
    nonce_before before (rt_recovered target) pre_nonce ∧
    ro_receipt o = replay_receipt create_address block target pre_nonce index
      (result_gas_used (o_result (bo_inner out))) envelope.
Proof.
  unfold run_target. destruct (wrap _ _ _ _ _) as [cell' wrapped] eqn:Hw. intros Hrun.
  run_inv Hrun. injection Ha as ->. rename a into ov, a0 into acc.
  destruct a1 as [ran out]. cbv beta iota zeta in Hrun. run_inv Hrun.
  destruct a as [committed gas]. cbv beta iota zeta in Hrun. rename Ha into Hcommit. run_inv Hrun.
  rename a into finished, a0 into envelope. injection Hrun as <-.
  apply block_step_ok in Ha1, Hcommit. apply expect_Ret in Ha2.
  destruct (finish committed) as [[evm res]|e] eqn:Hf; [injection Ha as <-|done].
  cbn in Ha2. rewrite (finish_receipts _ _ _ Hf) in Ha2.
  pose proof (run_transaction_inv _ _ _ _ Ha1) as (_&Hov&_). pose proof Hcommit as Hc.
  rewrite commit_is_charge in Hc. apply bind_Ret in Hc as ([u|]&_&Hc); [|done].
  apply bind_Ret in Hc as (l&_&Hc). injection Hc as _ Hgas.
  exists cell', ran, out, committed. eexists _, envelope. rewrite Hgas. split_and!; try done.
  - split; [by rewrite Hov|by rewrite Hov|]. by rewrite Hgas.
  - injection Ha0 as Ha0. apply wrap_inner in Hw as <-. by exists acc.
Qed.

(** The gas in a receipt is that of its envelope. *)
Hypothesis envelope_gas : ∀ r : Receipt, cumulative_gas_used r = rc_cumulative_gas_used (envelope_receipt r).

(** The configuration of a replay is the chain's, with the spec that is asked for. *)
Definition configured self (cfg cfg' : CfgEnv MegaSpecId) : Prop :=
  match rp_spec_override self with
  | Some s => ∃ spec, spec_from_str s = Ok spec ∧ cfg' = with_cfg_spec spec cfg
  | None => cfg' = cfg
  end.

Lemma replay_env_configured self forks block cfg cfg' lim :
  replay_env self forks block cfg = Ok (cfg', lim) → configured self cfg cfg'.
Proof.
  unfold replay_env, configured. intros Henv. ok_inv Henv.
  destruct (rp_spec_override self) as [s|]; [|congruence].
  ok_inv Henv. apply map_err_ok in Ha0. injection Henv as <- _. by exists a0.
Qed.

(** The executor that a block is replayed on, after its pre-execution changes: its EVM is
    on [database], in the environment of [block], under the configuration, with the
    external environments of the arguments, a tracer, and the limits that the spec of the
    configuration has for a transaction. *)
Definition started self (forks : T) (database : DB) (parent block : RpcBlock)
    (cfg : CfgEnv MegaSpecId) (lim : BlockLimits.t) (pre : Executor) : Prop :=
  ∃ envs evm,
    create_external_envs (rp_ext_args self) = Ok envs ∧
    make_evm database
      (mkBlockEnv (rb_number block) (rb_beneficiary block) (rb_timestamp block) (rb_gas_limit block))
      cfg envs (create_inspector (I:=I) (DB:=DB) (Bytecode:=Bytecode) (Log:=Log) (rp_trace_args self))
      (EvmTxRuntimeLimits.from_spec (cfg_spec cfg)) = Ret evm ∧
    apply_pre_execution_changes of_B256 SYSTEM_ADDRESS HISTORY_STORAGE_ADDRESS BEACON_ROOTS_ADDRESS
      (fresh_executor forks (mkExecutionCtx (rb_hash parent) (rb_parent_beacon_block_root block)
         (rb_extra_data block) lim) evm) = Ret (pre, Ok tt).

Lemma started_history self forks database parent block cfg lim pre :
  started self forks database parent block cfg lim pre →
  ∃ evm, history (fresh_executor forks (mkExecutionCtx (rb_hash parent) (rb_parent_beacon_block_root block)
    (rb_extra_data block) lim) evm) [] pre.
Proof.
  intros (envs&evm&_&_&Hpre). exists evm. unfold apply_pre_execution_changes in Hpre.
  apply bind_Ret in Hpre as ([pre' [sys|e]]&Hpre&Hret); [|done].
  injection Hret as <-. apply history_system_calls. eapply history_pre; [|exact Hpre]. apply history_start.
Qed.

Lemma execute_transactions_inv self forks database parent block cfg provider preceding target cell o :
  cfg_spec cfg = MegaHardforks.spec_id forks (rb_timestamp block) →
  execute_transactions self forks database parent block cfg provider preceding target cell = Ret (Ok o) →
  ∃ cfg' lim pre fetched outs before,
    replay_env self forks block cfg = Ok (cfg', lim) ∧
    started self forks (state_builder database) parent block cfg' lim pre ∧
    Forall2 (λ h tx, node_transaction provider h = Ok (Some tx)) preceding fetched ∧
    executed pre (map rt_recovered fetched) outs before ∧
    run_target (E:=E) read_to_string read_stdin into_op as_mega create_address elapsed inspector fuse
      db_basic_ref self block target (Z.of_nat (length preceding)) cell before = Ret (Ok o).
Proof.
  unfold Replay.execute_transactions. intros Hspec Hrun. run_inv Hrun.
  destruct a0 as [cfg' lim]. cbv beta iota zeta in Hrun. run_inv Hrun.
  injection Ha as Henvs. injection Ha0 as Henv. destruct a2 as [pre []]. apply block_step_ok in Ha3.
  destruct (run_preceding_executed provider preceding pre a3) as (fetched&outs&Hf&Hx); [done|].
  exists cfg', lim, pre, fetched, outs, a3. split_and!; try done. exists a, a0.
  destruct (replay_limits_follow_spec _ _ _ _ _ _ Henv Hspec) as (Hlim&_). rewrite Hlim in Ha1.
  split_and!; [done|exact Ha1|]. unfold new_with_test_utils in Ha2. outcome_inv. exact Ha3.
Qed.

(** What a replay of [target] after [preceding] has to be.  The block is started on the
    state of [database]; the preceding transactions were fetched in their order, and each
    was run and committed, in this order; on what they left the target was run, with its
    overrides and a cleared tracer, and committed; result and state are those of this run,
    and the receipt is the one that the executor made of it. *)
Definition is_replay self (forks : T) (database : EvmeState F Bytecode) (parent block : RpcBlock)
    cfg (provider : Provider) (preceding : list B256) (target : RpcTransaction Tx)
    (cell : option Bytes) (o : ReplayOutcome Tx Bytecode Log Bloom) : Prop :=
  ∃ cfg' lim pre fetched outs before cell' ran out committed pre_nonce envelope,
    configured self cfg cfg' ∧ BlockLimits.block_gas_limit lim = rb_gas_limit block ∧
    started self forks (state_builder database) parent block cfg' lim pre ∧
    Forall2 (λ h tx, node_transaction provider h = Ok (Some tx)) preceding fetched ∧
    executed pre (map rt_recovered fetched) outs before ∧
    target_ran self (rt_recovered target) cell cell' before ran out committed ∧
    exec_result (ro_outcome o) = o_result (bo_inner out) ∧
    out_state (ro_outcome o) = o_state (bo_inner out) ∧
    last (receipts committed) = Some envelope ∧
    nonce_before before (rt_recovered target) pre_nonce ∧
    ro_receipt o = replay_receipt create_address block target pre_nonce (Z.of_nat (length preceding))
      (result_gas_used (o_result (bo_inner out))) envelope ∧
    ∀ Q, bounded Q lim outs →
      sane Q (candidate_of (H5:=overridden_tx into_op as_mega cell') out) →
      0 ≤ BlockLimits.block_txs_encode_size_limit lim →
      rc_cumulative_gas_used (envelope_receipt (tr_inner (ro_receipt o))) =
        total c_gas_used (map candidate_of outs) + tr_gas_used (ro_receipt o) ∧
      rc_cumulative_gas_used (envelope_receipt (tr_inner (ro_receipt o))) ≤ rb_gas_limit block.

(** The gas in the last receipt, when the target was committed after a history. *)
Lemma target_cumulative_gas self tx cell cell' start lim outs before ran out committed envelope Q :
  ledger lim [] start → history start outs before → bounded Q lim outs →
  target_ran self tx cell cell' before ran out committed →
  sane Q (candidate_of (H5:=overridden_tx into_op as_mega cell') out) →
  last (receipts committed) = Some envelope →
  let gas := total c_gas_used (map candidate_of outs) + result_gas_used (o_result (bo_inner out)) in
  rc_cumulative_gas_used (envelope_receipt envelope) = gas ∧ gas ≤ BlockLimits.block_gas_limit lim.
Proof.
  intros Hstart Hh Hb [_ Hrun Hcommit] Hsane Hlast gas. pose proof Hb as [].
  assert (ledger lim outs before) as Hledger by (by eapply history_ledger).
  pose proof (run_transaction_inv _ _ _ _ Hrun) as (Honly&_).
  assert (only_evm before ran) as Hon by (destruct Honly as [e ->]; by exists e).
  apply (ledger_unoverridden cell') in Hledger. eapply ledger_same in Hledger; [|by apply only_evm_ledger].
  assert (map (candidate_of (H5:=overridden_tx into_op as_mega cell')) (map unoverridden outs) =
    map candidate_of outs) as Hcand by (rewrite map_map; done).
  destruct (commit_step (H5:=overridden_tx into_op as_mega cell') Q lim (map unoverridden outs) out ran)
    as [(e&He&_)|(l&Hl&[Hok Hgas])]; [|done|done|congruence|].
  { split; rewrite ?Hcand, ?length_map; done. }
  rewrite Hcommit in Hl. injection Hl as Hl. rewrite <- Hl in Hok, Hgas. split.
  - rewrite <- envelope_gas. apply (f_equal last) in Hgas. rewrite fmap_last, Hlast in Hgas.
    rewrite map_app in Hgas. cbn [map] in Hgas.
    rewrite running_sums_snoc, last_snoc in Hgas. injection Hgas as Hgas. cbn in Hgas.
    rewrite Hgas. subst gas. rewrite <- Hcand, total_gas. lia.
  - pose proof (ok_gas _ _ _ Hok) as Htot.
    rewrite map_app, Hcand, total_app in Htot. cbn in Htot. subst gas. lia.
Qed.

Lemma execute_transactions_is_replay self forks database parent block cfg provider preceding
    target cell o :
  cfg_spec cfg = MegaHardforks.spec_id forks (rb_timestamp block) →
  execute_transactions self forks database parent block cfg provider preceding target cell = Ret (Ok o) →
  is_replay self forks database parent block cfg provider preceding target cell o.
Proof.
  intros Hspec Hrun.
  apply execute_transactions_inv in Hrun as (cfg'&lim&pre&fetched&outs&before&Henv&Hst&Hf&Hx&Hrun); [|done].
  apply run_target_inv in Hrun as (cell'&ran&out&committed&pre_nonce&envelope&Ht&Hlast&Hr&Hs&Hn&Hrec).
  destruct (replay_limits_follow_spec _ _ _ _ _ _ Henv Hspec) as (_&Hgl&_).
  exists cfg', lim, pre, fetched, outs, before, cell', ran, out, committed, pre_nonce, envelope.
  split_and!; try done; [by eapply replay_env_configured|]. rewrite Hrec, <-Hgl.
  intros Q Hb Hsane Hsize. pose proof Hb as [].
  apply started_history in Hst as (evm&Hstart).
  apply (executed_history _ _ _ _ _ Hx) in Hstart.
  assert (ledger lim [] (fresh_executor forks (mkExecutionCtx (rb_hash parent)
    (rb_parent_beacon_block_root block) (rb_extra_data block) lim) evm)) as Hfresh
    by (apply fresh_ledger; [done|lia..]).
  destruct (target_cumulative_gas _ _ _ _ _ _ _ _ _ _ _ _ _ Hfresh Hstart Hb Ht Hsane Hlast) as [Hc Hle].
  destruct envelope; cbn in Hc |- *; rewrite Hc; by split.
Qed.

(** *** The whole command *)
Context {parsers_fork : ForkDb F Bytecode} (connect : string → result Provider string)
  (alloy_db : Provider → Z → F) (cfg_default : CfgEnv MegaSpecId) (hardforks_of : Z → T).
Notation replay := (replay of_B256 SYSTEM_ADDRESS HISTORY_STORAGE_ADDRESS BEACON_ROOTS_ADDRESS
  read_to_string read_stdin connect alloy_db into_op as_mega create_address cfg_default elapsed make_evm
  inspector fuse db_basic_ref state_builder no_hook hardforks_of).

Lemma take_before_spec h hashes :
  ∃ rest, hashes = take_before h hashes ++ rest ∧ (h ∉ take_before h hashes) ∧
    ∀ x, head rest = Some x → x = h.
Proof.
  induction hashes as [|x hashes (rest&Heq&Hno&Hrest)]; cbn.
  - exists []. split_and!; [done|apply not_elem_of_nil|done].
  - case_bool_decide as Hx.
    + subst x. exists (h :: hashes). split_and!; [done|apply not_elem_of_nil|by intros x [= <-]].
    + exists rest. split_and!; [cbn; congruence| |done]. rewrite not_elem_of_cons. done.
Qed.

Lemma spec_names s : spec_from_str (spec_to_str s) = Ok s.
Proof. by destruct s. Qed.

Lemma fetch_block_ok provider n b :
  fetch_block (Tx:=Tx) provider n = Ok b → node_block (Tx:=Tx) provider n = Ok (Some b).
Proof.
  unfold fetch_block, rpc. intros Hf. ok_inv Hf. apply map_err_ok in Ha. rewrite Ha.
  destruct a; [by injection Hf as ->|done].
Qed.

(** C6: A replay is the execution of the block up to its transaction.  When [replay] returns
    for a transaction of block [n], the block and the block before it are the node's, and
    the state is that of the chain after block [n - 1], with nothing over it.  The block is
    started in its own environment, with the configuration of the chain at the block's time
    or, of the spec, what is asked for, and its pre-execution changes are applied; the
    transactions of the block before the first with this hash are run and committed one
    after the other, each on what the one before left, and then the transaction itself, with
    its overrides.  The outcome is that of this last run, and the receipt has its gas, its
    position and, for small numbers, the gas of all as cumulative gas, within the limit of
    the block.  (A pending transaction is replayed alone, in the latest block and on its
    state.) *)
Theorem replay_is_the_block_up_to_its_transaction self cell o
    (Hrun : replay self cell = Ret (Ok o)) :
  ∃ provider target base parent block chain_id preceding,
    connect (rp_rpc self) = Ok provider ∧
    node_transaction provider (rp_tx_hash self) = Ok (Some target) ∧
    node_chain_id (Tx:=Tx) provider = Ok chain_id ∧
    let forks := hardforks_of chain_id in
    is_replay self forks (mkEvmeState (Forked (alloy_db provider base)) ∅ ∅ ∅) parent block
      (with_chain chain_id (MegaHardforks.spec_id forks (rb_timestamp block)) cfg_default)
      provider preceding target cell o ∧
    node_block (Tx:=Tx) provider base = Ok (Some parent) ∧
    match rt_block_number target with
    | Some n =>
        (0 < n ≤ u64_max → base = n - 1) ∧
        node_block (Tx:=Tx) provider n = Ok (Some block) ∧
        ∃ rest, rb_transactions block = preceding ++ rest ∧ (rp_tx_hash self ∉ preceding) ∧
          ∀ h, head rest = Some h → h = rp_tx_hash self
    | None =>
        node_block_number (Tx:=Tx) provider = Ok base ∧ parent = block ∧ preceding = []
    end.
Proof.
  unfold Replay.replay in Hrun. run_inv Hrun.
  destruct a1 as [[base n] pending]. cbv beta iota zeta in Hrun. run_inv Hrun.
  repeat match goal with H : Ret _ = Ret (Ok _) |- _ => injection H as H end.
  unfold rpc in Ha4. apply map_err_ok in Ha, Ha4. apply fetch_ok in Ha0. apply fetch_block_ok in Ha2, Ha3.
  unfold create_cfg_env, chain_spec_id in Ha6. cbn in Ha6. rewrite spec_names in Ha6. injection Ha6 as <-.
  unfold new_forked, code_map_of in Ha5. rewrite map_to_list_empty in Ha5. subst a4.
  exists a, a0, base, a1, a2, a3, (if pending then [] else take_before (rp_tx_hash self) (rb_transactions a2)).
  split_and!; try done. cbv zeta. split.
  { by apply execute_transactions_is_replay. }
  split; [done|]. unfold replay_position in Ha1. destruct (rt_block_number a0) as [m|].
  - apply bind_Ret in Ha1 as (b&Hb&[= -> -> <-]). split_and!; [|done|apply take_before_spec].
    intros Hm. rewrite sub_u64_in in Hb by u64_lia. by injection Hb as ->.
  - injection Ha1 as Ha1. ok_inv Ha1. injection Ha1 as -> -> <-. apply map_err_ok in Ha5.
    split_and!; [done|congruence|done].
Qed.
End replay.

(** ** Witnesses *)
Section example_chain.
#[local] Existing Instances reference_forks reference_forks_laws.

Lemma chain_specs_witness :
  MegaHardforks.spec_id (get_hardfork_config 4326) 1764847000 = EQUIVALENCE ∧
  MegaHardforks.spec_id (get_hardfork_config 1) 7 = REX4.
Proof.
  split.
  - destruct (chain_specs 1764847000) as (Hs&_); [lia|]. rewrite Hs. reflexivity.
  - destruct (chain_specs 7) as (_&_&Hs&_); [lia|]. apply Hs; lia.
Defined.

Lemma fixed_hardfork_runs_its_spec_witness :
  MegaHardforks.spec_id (mkFixedHardfork MINI_REX) 5 = MINI_REX.
Proof. destruct (fixed_hardfork_runs_its_spec (mkFixedHardfork MINI_REX) 5) as [Hs _]; [lia|exact Hs]. Defined.

Definition example_rpc_block (n : Z) : RpcBlock :=
  mkRpcBlock (n * 100) n 1000 77 30000000 (Some 0) 0 (Some 1) (Some 4) [] [3; 5; 6].
Definition example_replay (spec : option string) : ReplayCmd :=
  mkReplayCmd 6 "node" (mkExtEnvArgs []) (mkDumpArgs false None)
    (mkTraceArgs false None TraceOpcode false false false false false false false false false) spec
    (mkTxOverrideArgs None None None None).

Lemma replay_limits_follow_spec_witness :
  ∃ cfg lim, replay_env (example_replay (Some "Rex"%string)) (get_hardfork_config 4326)
      (example_rpc_block 10) (BlockExecutorTheory.example_cfg MINI_REX) = Ok (cfg, lim) ∧
    BlockLimits.to_evm_tx_runtime_limits lim = EvmTxRuntimeLimits.from_spec REX.
Proof.
  destruct (replay_env (example_replay (Some "Rex"%string)) (get_hardfork_config 4326)
      (example_rpc_block 10) (BlockExecutorTheory.example_cfg MINI_REX)) as [[cfg lim]|e] eqn:He; [|vm_compute in He; discriminate He].
  destruct (replay_limits_follow_spec _ _ _ _ _ _ He eq_refl) as (Hl&_&_&Hs&_).
  exists cfg, lim. split; [reflexivity|]. rewrite Hl. specialize (Hs "Rex"%string eq_refl).
  change (Ok REX = Ok (E:=UnknownHardfork) (cfg_spec cfg)) in Hs. injection Hs as <-. reflexivity.
Defined.
End example_chain.

Section example_replay.
#[local] Existing Instances reference_revm reference_forks map_state_db example_codes checked_build
  toy_block_evm toy_block_state toy_op_forks toy_tx toy_hook toy_show toy_show_evm
  EvmeTxTheory.example_parsers EvmeTxTheory.example_alloy.
Notation DB := (gmap Z (AccountInfo Z)).

#[local] Instance toy_show_block : Display BlockExecutionError := λ _, "block"%string.
#[local] Instance toy_tracer : TracingInspector () DB Z Z := {|
  GethFrame := (); tracing_inspector_all := tt; geth_traces _ _ _ _ := tt;
  geth_call_traces _ _ _ := tt; geth_prestate_traces _ _ _ _ := Ok tt;
  to_string_pretty _ := Ok "trace"%string |}.
#[local] Instance toy_node : Node () Z := {|
  node_transaction _ h := Ok (if decide (h ∈ [3; 5; 6]) then Some (mkRpcTransaction h (Some 2) (Some 10) None) else None);
  node_block_number _ := Ok 10; node_block _ n := Ok (Some (example_rpc_block n)); node_chain_id _ := Ok 1 |}.
#[local] Instance toy_envelopes : ReceiptBuilder toy_evm Z Z Z (OpReceiptEnvelope Z ()) := {|
  build_receipt n r gas _ _ :=
    if decide (n = 6) then None
    else Some (ReceiptEip1559 (mkReceipt (result_is_success r) gas (result_into_logs r)) tt);
  build_deposit_receipt ok gas logs version nonce := ReceiptDeposit (mkReceipt ok gas logs) nonce version tt;
  cumulative_gas_used r := rc_cumulative_gas_used (envelope_receipt r) |}.
#[local] Instance toy_envelope_laws : ReceiptLaws toy_evm Z Z Z (OpReceiptEnvelope Z ()).
Proof. split; [|done]. intros tx r gas evm st receipt. cbn. case_decide; [done|by intros [= <-]]. Qed.

Definition toy_into_op (n : Z) : OpTransaction :=
  MegaTransaction_new (mkTxEnv n 0 None [] 0 2 50000 [] 0 n [] [] (TxCall 2) (Some 1)).
Definition toy_as_mega (t : OpTransaction) : MegaTransaction :=
  let b := ot_base t in
  mkTransaction (te_data b) None [] 0 (te_caller b) (te_kind b) (te_nonce b) (te_value b) (te_gas_limit b)
    (te_gas_price b) (te_tx_type b) 0 None.

(** The deposit 6 of block 10, replayed after 3 and 5. *)
Definition toy_replay := replay (rb:=toy_envelopes) (E:=string) (F:=nat) (Bytecode:=Z) (Log:=Z) (Bloom:=()) (λ _, []) 1 2 3
  no_file (Ok ""%string) (λ _, Ok tt) (λ _ _, 0%nat) toy_into_op toy_as_mega (λ a n, a + n)
  (BlockExecutorTheory.example_cfg REX4) 0 (λ db b _ _ _ _, Ret (b, db)) (λ _, tt) id (λ _ _, Ok None) (λ _, ∅) []
  get_hardfork_config.

Lemma replay_is_the_block_up_to_its_transaction_witness :
  ∃ o preceding, toy_replay (example_replay None) None = Ret (Ok o) ∧
    rc_cumulative_gas_used (envelope_receipt (tr_inner (ro_receipt o))) = 21003 + 21005 + 21006 ∧
    tr_transaction_index (ro_receipt o) = Some (Z.of_nat (length preceding)) ∧
    (∃ rest, [3; 5; 6] = preceding ++ rest) ∧ 6 ∉ preceding.
Proof.
  assert (∃ o, toy_replay (example_replay None) None = Ret (Ok o) ∧
    rc_cumulative_gas_used (envelope_receipt (tr_inner (ro_receipt o))) = 21003 + 21005 + 21006)
    as (o&Hrun&Hgas) by (eexists; split; vm_compute; reflexivity).
  destruct (replay_is_the_block_up_to_its_transaction (rb:=toy_envelopes) (E:=string) (F:=nat) (Bytecode:=Z) (Log:=Z) (Bloom:=())
    (λ _, []) 1 2 3 no_file (Ok ""%string) toy_into_op toy_as_mega (λ a n, a + n) 0
    (λ db b _ _ _ _, Ret (b, db)) (λ _, tt) id (λ _ _, Ok None) (λ _, ∅) [] (λ _, eq_refl) (λ _, Ok tt) (λ _ _, 0%nat)
    (BlockExecutorTheory.example_cfg REX4) get_hardfork_config (example_replay None) None o Hrun)
    as (provider&target&base&parent&block&chain_id&preceding&_&Ht&_&Hr&Hb).
  exists o, preceding. split; [exact Hrun|]. split; [exact Hgas|].
  destruct Hr as (?&?&?&?&?&?&?&?&?&?&?&?&_&_&_&_&_&_&_&_&_&_&Hrec&_). split; [by rewrite Hrec|].
  vm_compute in Ht. injection Ht as <-. destruct Hb as (_&_&Hb&rest&Hpre&Hno&_).
  vm_compute in Hb. injection Hb as <-. split; [by exists rest|exact Hno].
Defined.
End example_replay.
