(* ===== verification/BlockHelpers.v ===== *)
(** * Enriched transactions

    Models [block/helpers.rs]: the sizes and the hash of a transaction as the block executor
    asks for them ([MegaTransactionExt]), and the wrapper that carries them along
    ([EnrichedMegaTx]), which answers every other question as the transaction in it.  The
    executor reads them through the traits, as here. *)
From S2P Require Import Prelude Spec Deps Volatile LimitTypes FrameLimit Trackers Hardfork BlockLimit EvmState.
From S2P Require Import Inspect SystemContracts Context Sandbox Intercept StorageGas Instructions Execution AdditionalLimit Evme EvmeTx BlockExecutor.
Open Scope Z_scope.
Open Scope rust_scope.
#[local] Set Warnings "-notation-for-abbreviation".

(** ** The traits of [alloy] that the wrapper delegates *)
Class Encodable2718 (T : Type) := {
  encoded_2718 : T → Bytes;
  e_encode_2718_len : T → Z;
  trie_hash : T → Z;
}.
Class Typed2718 (T : Type) := {
  ty : T → Z;
  is_type : T → Z → bool;
  is_legacy : T → bool;
  is_eip2930 : T → bool;
  is_eip1559 : T → bool;
  is_eip4844 : T → bool;
  is_eip7702 : T → bool;
}.
Class Transaction (T : Type) := {
  chain_id : T → option Z;
  t_nonce : T → Z;
  gas_limit : T → Z;
  gas_price : T → option Z;
  max_fee_per_gas : T → Z;
  max_priority_fee_per_gas : T → option Z;
  max_fee_per_blob_gas : T → option Z;
  priority_fee_or_price : T → Z;
  effective_gas_price : T → option Z → Z;
  is_dynamic_fee : T → bool;
  kind : T → TxKind;
  is_create : T → bool;
  value : T → U256;
  input : T → Bytes;
  access_list : T → option AccessList;
  blob_versioned_hashes : T → option (list B256);
  authorization_list : T → option (list SignedAuthorization);
  authorization_count : T → option Z;
  effective_tip_per_gas : T → Z → option Z;
  to : T → option Address;
  function_selector : T → option Bytes;
  blob_count : T → option Z;
  blob_gas_used : T → option Z;
}.
Class RecoveredTx (R Tx : Type) := {
  tx : R → Tx;
  signer : R → Address;
}.
Class IntoTxEnv (R : Type) := { into_env : R → MegaTransaction }.

(** ** [MegaTransactionExt] *)
Class MegaTransactionExt (T : Type) := {
  ext_estimated_da_size : T → Z;
  ext_tx_size : T → Z;
  ext_tx_hash : T → Z;
}.

(** ** [EnrichedMegaTx] *)
Record EnrichedMegaTx (T : Type) := mkEnriched {
  en_inner : T;
  en_tx_hash : Z;
  en_da_size : Z;
  en_tx_size : Z;
}.
Arguments mkEnriched {T}.
Arguments en_inner {T}.
Arguments en_tx_hash {T}.
Arguments en_da_size {T}.
Arguments en_tx_size {T}.

Section helpers.
Context (tx_estimated_size_fjord_bytes : Bytes → Z).

(** The methods that have a body in the trait. *)
Definition default_estimated_da_size {T} `{Encodable2718 T} (t : T) : Z :=
  tx_estimated_size_fjord_bytes (encoded_2718 t).
Definition default_tx_size {T} `{Encodable2718 T} (t : T) : Z := as_u64 (e_encode_2718_len t).

(** [MegaTxEnvelope], whose hash is its own, and [Recovered<MegaTxEnvelope>]. *)
Definition envelope_ext {T} `{Encodable2718 T} (tx_hash : T → Z) : MegaTransactionExt T :=
  {| ext_estimated_da_size := default_estimated_da_size; ext_tx_size := default_tx_size;
     ext_tx_hash := tx_hash |}.
Definition recovered_ext {R T} `{Encodable2718 R} `{RecoveredTx R T} (tx_hash : T → Z) :
    MegaTransactionExt R :=
  {| ext_estimated_da_size := default_estimated_da_size; ext_tx_size := default_tx_size;
     ext_tx_hash r := tx_hash (tx r) |}.

Definition EnrichedMegaTx_new {T} (inner : T) (tx_hash da_size tx_size : Z) : EnrichedMegaTx T :=
  mkEnriched inner tx_hash da_size tx_size.
Definition new_slow {T} `{Encodable2718 T} (inner : T) : EnrichedMegaTx T :=
  mkEnriched inner (trie_hash inner) (tx_estimated_size_fjord_bytes (encoded_2718 inner))
    (as_u64 (e_encode_2718_len inner)).

#[local] Instance enriched_ext T : MegaTransactionExt (EnrichedMegaTx T) :=
  {| ext_estimated_da_size := en_da_size; ext_tx_size := en_tx_size; ext_tx_hash := en_tx_hash |}.
#[local] Instance enriched_typed T `{Typed2718 T} : Typed2718 (EnrichedMegaTx T) :=
  {| ty e := ty (en_inner e); is_type e := is_type (en_inner e);
     is_legacy e := is_legacy (en_inner e); is_eip2930 e := is_eip2930 (en_inner e);
     is_eip1559 e := is_eip1559 (en_inner e); is_eip4844 e := is_eip4844 (en_inner e);
     is_eip7702 e := is_eip7702 (en_inner e) |}.
#[local] Instance enriched_transaction T `{Transaction T} : Transaction (EnrichedMegaTx T) :=
  {| chain_id e := chain_id (en_inner e); t_nonce e := t_nonce (en_inner e);
     gas_limit e := gas_limit (en_inner e); gas_price e := gas_price (en_inner e);
     max_fee_per_gas e := max_fee_per_gas (en_inner e);
     max_priority_fee_per_gas e := max_priority_fee_per_gas (en_inner e);
     max_fee_per_blob_gas e := max_fee_per_blob_gas (en_inner e);
     priority_fee_or_price e := priority_fee_or_price (en_inner e);
     effective_gas_price e := effective_gas_price (en_inner e);
     is_dynamic_fee e := is_dynamic_fee (en_inner e); kind e := kind (en_inner e);
     is_create e := is_create (en_inner e); value e := value (en_inner e);
     input e := input (en_inner e); access_list e := access_list (en_inner e);
     blob_versioned_hashes e := blob_versioned_hashes (en_inner e);
     authorization_list e := authorization_list (en_inner e);
     authorization_count e := authorization_count (en_inner e);
     effective_tip_per_gas e := effective_tip_per_gas (en_inner e);
     to e := to (en_inner e); function_selector e := function_selector (en_inner e);
     blob_count e := blob_count (en_inner e); blob_gas_used e := blob_gas_used (en_inner e) |}.
#[local] Instance enriched_recovered R Tx `{RecoveredTx R Tx} : RecoveredTx (EnrichedMegaTx R) Tx :=
  {| tx e := tx (en_inner e); signer e := signer (en_inner e) |}.
#[local] Instance enriched_into_env R `{IntoTxEnv R} : IntoTxEnv (EnrichedMegaTx R) :=
  {| into_env e := into_env (en_inner e) |}.

(** ** What the executor reads

    A recovered transaction of a block is asked through [tx.tx()]: that is a transaction
    of type [R::Transaction]. *)
Definition block_tx {R Tx} `{Encodable2718 Tx} `{Typed2718 Tx} `{Transaction Tx}
    `{MegaTransactionExt Tx} `{RecoveredTx R Tx} `{IntoTxEnv R} : BlockTx R := {|
  btx_hash r := ext_tx_hash (tx r); btx_trie_hash r := trie_hash (tx r);
  btx_type r := ty (tx r); btx_gas_limit r := gas_limit (tx r);
  encode_2718_len r := e_encode_2718_len (tx r);
  estimated_da_size r := ext_estimated_da_size (tx r);
  btx_signer r := signer r; into_tx_env r := into_env r |}.
Definition block_receipts {Evm R Tx Log Bytecode Receipt : Type}
    `{ReceiptBuilder Evm Tx Log Bytecode Receipt} `{RecoveredTx R Tx} :
    ReceiptBuilder Evm R Log Bytecode Receipt := {|
  build_receipt r := build_receipt (tx r);
  build_deposit_receipt := build_deposit_receipt (Evm:=Evm) (Tx:=Tx) (Log:=Log) (Bytecode:=Bytecode);
  cumulative_gas_used := cumulative_gas_used (Evm:=Evm) (Tx:=Tx) (Log:=Log) (Bytecode:=Bytecode) |}.
End helpers.
