(* ===== verification/TraceTree.v ===== *)
(** * The trace tree of the gas inspector

    Models [test_utils/inspectors.rs]: the nodes of a trace, which hold pointers to their
    parent, children and items, the ways to walk a tree, and the inspector that builds one
    from the hooks of the interpreter.  A [Pointer] is an index of a heap that only
    grows, so that a clone of a pointer and what it points to are told apart. *)
From S2P Require Import Prelude Deps.
Open Scope Z_scope.
Open Scope rust_scope.
#[local] Set Warnings "-notation-for-abbreviation".

(** ** The heap of nodes and items *)
Definition NodeLocation : Type := list nat.
Definition ItemLocation : Type := nat * nat.
Record TraceLocation := mkTraceLocation {
  loc_call : NodeLocation;
  loc_item : ItemLocation;
}.

Record TraceNode (META : Type) := mkNode {
  node_meta : META;
  parent : option nat;
  sections : list (list nat);
  childrens : list nat;
}.
Arguments mkNode {META}.
Arguments node_meta {META}.
Arguments parent {META}.
Arguments sections {META}.
Arguments childrens {META}.

Record Heap (ITEM META : Type) := mkHeap {
  nodes : list (TraceNode META);
  items : list ITEM;
}.
Arguments mkHeap {ITEM META}.
Arguments nodes {ITEM META}.
Arguments items {ITEM META}.

Section tree.
Context {ITEM META : Type}.
Notation Heap := (Heap ITEM META).
Notation TraceNode := (TraceNode META).
Implicit Types (h : Heap) (p : nat).

(** [add_child]: the child, and a section for the items after it. *)
Definition add_child (child : nat) (n : TraceNode) : TraceNode :=
  mkNode (node_meta n) (parent n) (sections n ++ [[]]) (childrens n ++ [child]).

Definition update_node (f : TraceNode → TraceNode) (p : nat) (h : Heap) : Heap :=
  mkHeap (alter f p (nodes h)) (items h).

(** [TraceNode::new]. *)
Definition new (meta : META) (par : option nat) (h : Heap) : nat * Heap :=
  let this := length (nodes h) in
  let h := mkHeap (nodes h ++ [mkNode meta par [[]] []]) (items h) in
  (this, match par with Some p => update_node (add_child this) p h | None => h end).

Definition last_item (n : TraceNode) : option nat := last (concat (sections n)).

(** [sections[childrens.len()].push(item)]. *)
Definition push_item (item : nat) (n : TraceNode) : TraceNode :=
  mkNode (node_meta n) (parent n) (alter (λ s, s ++ [item]) (length (childrens n)) (sections n))
    (childrens n).
Definition add_item (item : ITEM) (p : nat) (h : Heap) : outcome Heap :=
  n ← expect (nodes h !! p);
  assert_true (bool_decide (length (childrens n) < length (sections n))%nat);;
  Ret (update_node (push_item (length (items h))) p (mkHeap (nodes h) (items h ++ [item]))).

(** [flattened_items]: the loop over the children, and the section after the last. *)
Fixpoint over_children (flattened : nat → outcome (list nat)) (secs : list (list nat)) (i : nat)
    (cs : list nat) : outcome (list nat) :=
  s ← expect (secs !! i);
  match cs with
  | [] => Ret s
  | c :: cs =>
      l ← flattened c;
      rest ← over_children flattened secs (S i) cs;
      Ret (s ++ l ++ rest)
  end.

(** Each level of the recursion takes fuel; without any, the stack has overflowed. *)
Fixpoint flattened_items (fuel : nat) (h : Heap) (p : nat) : outcome (list nat) :=
  match fuel with
  | O => Panic
  | S fuel =>
      n ← expect (nodes h !! p);
      over_children (flattened_items fuel h) (sections n) 0 (childrens n)
  end.

(** [get_node]: indexing panics out of range. *)
Fixpoint get_node (h : Heap) (p : nat) (location : NodeLocation) : outcome (option nat) :=
  match location with
  | [] => Ret (Some p)
  | i :: location =>
      n ← expect (nodes h !! p);
      c ← expect (childrens n !! i);
      get_node h c location
  end.

Definition get_item (h : Heap) (p : nat) (location : ItemLocation) : outcome (option nat) :=
  n ← expect (nodes h !! p);
  Ret (section ← sections n !! location.1; section !! location.2).

Definition get_item_nested (h : Heap) (p : nat) (location : TraceLocation) : outcome (option nat) :=
  n ← get_node h p (loc_call location);
  match n with
  | Some n => get_item h n (loc_item location)
  | None => Ret None
  end.

(** A call of the function given to [iterate_with]. *)
Record Visit := mkVisit {
  v_location : NodeLocation;
  v_node : nat;
  v_item_location : ItemLocation;
  v_item : nat;
}.

Definition visit_section (node_location : NodeLocation) (p : nat) (section_idx : nat)
    (section : list nat) : list Visit :=
  imap (λ item_idx item, mkVisit node_location p (section_idx, item_idx) item) section.

(** [iterate_with_inner]: the sections with their indices, each but the last followed by
    the child of its index. *)
Fixpoint over_sections (iterate : NodeLocation → nat → outcome (list Visit))
    (node_location : NodeLocation) (p : nat) (cs : list nat) (section_idx : nat)
    (secs : list (list nat)) : outcome (list Visit) :=
  match secs with
  | [] => Ret []
  | section :: secs =>
      let here := visit_section node_location p section_idx section in
      match secs with
      | [] => Ret here
      | _ :: _ =>
          c ← expect (cs !! section_idx);
          below ← iterate (node_location ++ [section_idx]) c;
          rest ← over_sections iterate node_location p cs (S section_idx) secs;
          Ret (here ++ below ++ rest)
      end
  end.

Fixpoint iterate_with_inner (fuel : nat) (h : Heap) (node_location : NodeLocation) (p : nat) :
    outcome (list Visit) :=
  match fuel with
  | O => Panic
  | S fuel =>
      n ← expect (nodes h !! p);
      over_sections (iterate_with_inner fuel h) node_location p (childrens n) 0 (sections n)
  end.

(** [iterate_with]: the calls of its argument, in order. *)
Definition iterate_with (fuel : nat) (h : Heap) (p : nat) : outcome (list Visit) :=
  iterate_with_inner fuel h [] p.
End tree.

(** ** The gas inspector *)
Record OpcodeGasInfo := mkGasInfo {
  info_opcode : Z;
  gas_before : Z;
  gas_after : Z;
  info_depth : Z;
}.
Definition gas_cost (i : OpcodeGasInfo) : Z := sat_sub (gas_before i) (gas_after i).
Definition with_gas_after (g : Z) (i : OpcodeGasInfo) : OpcodeGasInfo :=
  mkGasInfo (info_opcode i) (gas_before i) g (info_depth i).

Inductive MsgCallMeta :=
  | MetaCall (inputs : CallInputs)
  | MetaCreate (inputs : CreateInputs).

Record GasInspector := mkGasInspector {
  gi_stack : list nat;
  gi_trace : option nat;
}.
Definition GasInspector_new : GasInspector := mkGasInspector [] None.

(** The inspector and the heap that its pointers are of. *)
Notation GasHeap := (Heap OpcodeGasInfo MsgCallMeta).
Notation GasState := (GasInspector * GasHeap)%type.

Definition clear (st : GasState) : GasState := (mkGasInspector [] None, st.2).

(** [clone_inner] of each pointer. *)
Definition clone_items (h : GasHeap) (l : list nat) : list OpcodeGasInfo :=
  omap (λ i, items h !! i) l.

Definition records (fuel : nat) (st : GasState) : outcome (list OpcodeGasInfo) :=
  match gi_trace st.1 with
  | Some t =>
      l ← flattened_items fuel st.2 t;
      Ret (clone_items st.2 l)
  | None => Ret []
  end.

(** Calls and creations: a node under the current one, pushed. *)
Definition enter (meta : MsgCallMeta) (st : GasState) : GasState :=
  let '(self, h) := st in
  let '(this, h) := new meta (last (gi_stack self)) h in
  (mkGasInspector (gi_stack self ++ [this])
     (match gi_trace self with None => Some this | Some t => Some t end), h).
Definition call (inputs : CallInputs) : GasState → GasState := enter (MetaCall inputs).
Definition create (inputs : CreateInputs) : GasState → GasState := enter (MetaCreate inputs).

(** [stack.pop()]. *)
Definition pop {A} (l : list A) : list A := take (pred (length l)) l.
Definition leave (st : GasState) : GasState :=
  (mkGasInspector (pop (gi_stack st.1)) (gi_trace st.1), st.2).
Definition call_end : GasState → GasState := leave.
Definition create_end : GasState → GasState := leave.

Section hooks.
(** [OpCode::new(opcode).is_some()]. *)
Context (is_opcode : Z → bool).

Definition step (opcode gas depth : Z) (st : GasState) : outcome GasState :=
  assert_true (is_opcode opcode);;
  let info := mkGasInfo opcode gas gas (as_u64 depth) in
  match last (gi_stack st.1) with
  | Some c => h ← add_item info c st.2; Ret (st.1, h)
  | None => Ret st
  end.

Definition step_end (gas : Z) (st : GasState) : outcome GasState :=
  let current := c ← last (gi_stack st.1); n ← nodes st.2 !! c; last_item n in
  i ← expect current;
  Ret (st.1, mkHeap (nodes st.2) (alter (with_gas_after gas) i (items st.2))).

(** The hooks, as the interpreter calls them. *)
Inductive Hook :=
  | Call (inputs : CallInputs)
  | CallEnd
  | Create (inputs : CreateInputs)
  | CreateEnd
  | Step (opcode gas depth : Z)
  | StepEnd (gas : Z).

Definition run_hook (hook : Hook) (st : GasState) : outcome GasState :=
  match hook with
  | Call inputs => Ret (call inputs st)
  | CallEnd => Ret (call_end st)
  | Create inputs => Ret (create inputs st)
  | CreateEnd => Ret (create_end st)
  | Step opcode gas depth => step opcode gas depth st
  | StepEnd gas => step_end gas st
  end.
Fixpoint run_hooks (hooks : list Hook) (st : GasState) : outcome GasState :=
  match hooks with
  | [] => Ret st
  | hook :: hooks => st ← run_hook hook st; run_hooks hooks st
  end.
End hooks.
