(* ===== verification/TraceTreeTheory.v ===== *)
(** * The trace of a run is its steps, in order

    The tree of the inspector is related to a plain log of steps, which knows no tree: the
    records are the entries of the first outermost frame, in the order of the steps. *)
From S2P Require Import Prelude Deps TraceTree.
Open Scope Z_scope.
Open Scope rust_scope.
#[local] Set Warnings "-notation-for-abbreviation,-register-all".

(** ** Sections and children in order *)
Fixpoint interleave {A} (ss ls : list (list A)) : list A :=
  match ss, ls with
  | s :: ss, l :: ls => s ++ l ++ interleave ss ls
  | ss, _ => concat ss
  end.

Lemma interleave_last {A} (ss ls : list (list A)) s x :
  length ss = length ls → interleave (ss ++ [s ++ x]) ls = interleave (ss ++ [s]) ls ++ x.
Proof.
  revert ls. induction ss as [|s' ss IH]; intros [|l ls] Hlen; simplify_eq/=.
  - by rewrite !app_nil_r.
  - by rewrite IH, !app_assoc by lia.
Qed.
Lemma interleave_child {A} (ss ls : list (list A)) s l :
  length ss = length ls →
  interleave (ss ++ [s; []]) (ls ++ [l]) = interleave (ss ++ [s]) ls ++ l.
Proof.
  revert ls. induction ss as [|s' ss IH]; intros [|l' ls] Hlen; simplify_eq/=.
  - by rewrite !app_nil_r.
  - by rewrite IH, !app_assoc by lia.
Qed.

Lemma lookup_last_section {A} (ss : list A) s i : i = length ss → (ss ++ [s]) !! i = Some s.
Proof. intros ->. by rewrite lookup_app_r, Nat.sub_diag by done. Qed.

(** ** Trees in the heap: every node lies after its parent *)
Section trees.
Context {ITEM META : Type}.
Notation Heap := (Heap ITEM META).
Implicit Types (h : Heap).

(** The tree at [p], with its nodes from [lo] up to [hi], has these items in order. *)
Inductive flat h (hi : nat) : nat → nat → list nat → Prop :=
  | flat_node lo p n ss s ls :
      (lo ≤ p < hi)%nat → nodes h !! p = Some n →
      sections n = ss ++ [s] → length ss = length (childrens n) →
      Forall2 (flat h hi (S p)) (childrens n) ls →
      flat h hi lo p (interleave (sections n) ls).

Lemma flat_strong_ind h hi (P : nat → nat → list nat → Prop) :
  (∀ lo p n ss s ls, (lo ≤ p < hi)%nat → nodes h !! p = Some n →
     sections n = ss ++ [s] → length ss = length (childrens n) →
     Forall2 (λ c l, flat h hi (S p) c l ∧ P (S p) c l) (childrens n) ls →
     P lo p (interleave (sections n) ls)) →
  ∀ lo p l, flat h hi lo p l → P lo p l.
Proof.
  intros Hnode lo. remember (hi - lo)%nat as k eqn:Hk. revert lo Hk.
  induction (lt_wf k) as [k _ IH]. intros lo Hk p l Hf.
  inversion Hf as [? ? n ss s ls Hp Hn Hs Hl Hcs]; subst. eapply Hnode; eauto.
  eapply Forall2_impl; [exact Hcs|]. intros c l Hc. split; [done|].
  by apply (IH (hi - S p)%nat); [lia|..].
Qed.

Lemma flat_mono h hi hi' lo lo' p l :
  flat h hi lo p l → (lo' ≤ lo)%nat → (hi ≤ hi')%nat → flat h hi' lo' p l.
Proof.
  intros Hf. revert lo'. induction Hf as [lo p n ss s ls Hp Hn Hs Hl Hcs] using flat_strong_ind.
  intros lo' Hlo Hhi. econstructor; eauto; [lia|].
  eapply Forall2_impl; [exact Hcs|]. intros c l [_ Hc]. by apply Hc.
Qed.

Lemma flat_frame h h' hi lo p l :
  flat h hi lo p l → (∀ q, (lo ≤ q < hi)%nat → nodes h' !! q = nodes h !! q) →
  flat h' hi lo p l.
Proof.
  intros Hf. induction Hf as [lo p n ss s ls Hp Hn Hs Hl Hcs] using flat_strong_ind.
  intros Hsame. econstructor; eauto; [by rewrite Hsame|].
  eapply Forall2_impl; [exact Hcs|]. intros c l [_ Hc]. apply Hc. intros q ?. apply Hsame. lia.
Qed.

(** *** Flattening *)
Lemma over_children_interleave f pre ss cs ls :
  length ss = S (length cs) → Forall2 (λ c l, f c = Ret l) cs ls →
  over_children f (pre ++ ss) (length pre) cs = Ret (interleave ss ls).
Proof.
  intros Hlen Hf. revert pre ss Hlen. induction Hf as [|c l cs ls Hc Hf IH]; intros pre [|s ss] Hlen;
    simplify_eq/=.
  - destruct ss; simplify_eq/=. rewrite app_nil_r. by rewrite lookup_last_section.
  - rewrite lookup_app_r, Nat.sub_diag by done. simpl. rewrite Hc. simpl.
    replace (pre ++ s :: ss) with ((pre ++ [s]) ++ ss) by by rewrite <-app_assoc.
    replace (S (length pre)) with (length (pre ++ [s])) by (rewrite length_app; simpl; lia).
    by rewrite IH by lia.
Qed.

Lemma flat_flattened h hi lo p l :
  flat h hi lo p l → ∀ fuel, (hi - lo ≤ fuel)%nat → flattened_items fuel h p = Ret l.
Proof.
  intros Hf. induction Hf as [lo p n ss s ls Hp Hn Hs Hl Hcs] using flat_strong_ind.
  intros [|fuel] Hfuel; [lia|]. simpl. rewrite Hn. simpl.
  apply (over_children_interleave _ [] (sections n)).
  - rewrite Hs, length_app. simpl. lia.
  - eapply Forall2_impl; [exact Hcs|]. intros c l [_ Hc]. apply Hc. lia.
Qed.

(** *** Iterating *)

(** A visit tells where its item is, from the node that the iteration started at. *)
Definition found h p (loc : NodeLocation) (v : Visit) : Prop :=
  ∃ path, v_location v = loc ++ path ∧ get_node h p path = Ret (Some (v_node v)) ∧
    get_item h (v_node v) (v_item_location v) = Ret (Some (v_item v)).

Definition iterates h (it : NodeLocation → nat → outcome (list Visit)) (c : nat) (l : list nat) :
    Prop :=
  ∀ loc, ∃ vs, it loc c = Ret vs ∧ map v_item vs = l ∧ Forall (found h c loc) vs.

Lemma found_child h p loc n i c v :
  nodes h !! p = Some n → childrens n !! i = Some c → found h c (loc ++ [i]) v → found h p loc v.
Proof.
  intros Hn Hc (path&Hloc&Hnode&Hitem). exists (i :: path). rewrite Hloc, <-app_assoc.
  split; [done|]. simpl. rewrite Hn. simpl. rewrite Hc. done.
Qed.

Lemma visit_section_spec h p loc n i s :
  nodes h !! p = Some n → sections n !! i = Some s →
  map v_item (visit_section loc p i s) = s ∧ Forall (found h p loc) (visit_section loc p i s).
Proof.
  intros Hn Hs. split.
  - apply list_eq. intros k. unfold visit_section. rewrite list_lookup_fmap, list_lookup_imap.
    by destruct (s !! k).
  - apply Forall_lookup. intros k v Hv. unfold visit_section in Hv.
    rewrite list_lookup_imap in Hv. destruct (s !! k) as [x|] eqn:Hx; [|done].
    simplify_eq/=. exists []. rewrite app_nil_r. split_and!; [done..|].
    unfold get_item. simpl. rewrite Hn. simpl. rewrite Hs. simpl. by rewrite Hx.
Qed.

Lemma over_sections_interleave h it p loc n pre ss precs cs ls :
  nodes h !! p = Some n → sections n = pre ++ ss → childrens n = precs ++ cs →
  length pre = length precs → length ss = S (length cs) → Forall2 (iterates h it) cs ls →
  ∃ vs, over_sections it loc p (childrens n) (length pre) ss = Ret vs ∧
    map v_item vs = interleave ss ls ∧ Forall (found h p loc) vs.
Proof.
  intros Hn Hsec Hch Hpre Hlen Hcs. revert pre ss precs Hsec Hch Hpre Hlen.
  induction Hcs as [|c l cs ls Hc Hcs IH]; intros pre [|s ss] precs Hsec Hch Hpre Hlen; simplify_eq/=.
  - destruct ss; simplify_eq/=. rewrite app_nil_r. eexists. split; [done|].
    eapply visit_section_spec; [done|]. by rewrite Hsec, lookup_last_section.
  - destruct (visit_section_spec h p loc n (length pre) s) as [Hhere Hfhere]; [done|..].
    { by rewrite Hsec, lookup_app_r, Nat.sub_diag by lia. }
    assert (childrens n !! length pre = Some c) as Hci.
    { by rewrite Hch, Hpre, lookup_app_r, Nat.sub_diag by lia. }
    destruct ss as [|s' ss]; [simplify_eq/=|].
    destruct (Hc (loc ++ [length pre])) as (below&Hb&Hbl&Hbf).
    destruct (IH (pre ++ [s]) (s' :: ss) (precs ++ [c])) as (rest&Hr&Hrl&Hrf).
    { by rewrite <-app_assoc. } { by rewrite <-app_assoc. }
    { rewrite !length_app. simpl. lia. } { done. }
    rewrite length_app, Nat.add_1_r in Hr. cbn [over_sections] in Hr |- *.
    rewrite Hci. cbn. rewrite Hb. cbn. rewrite Hr. cbn. eexists. split; [done|].
    rewrite !map_app, Hhere, Hbl, Hrl. split; [done|]. rewrite !Forall_app. split_and!; [done| |done].
    eapply Forall_impl; [exact Hbf|]. intros v Hv. by eapply found_child.
Qed.

Lemma flat_iterates h hi lo p l fuel :
  flat h hi lo p l → (hi - lo ≤ fuel)%nat → iterates h (iterate_with_inner fuel h) p l.
Proof.
  intros Hf. revert fuel. induction Hf as [lo p n ss s ls Hp Hn Hs Hl Hcs] using flat_strong_ind.
  intros [|fuel] Hfuel loc; [lia|]. simpl. rewrite Hn. simpl.
  apply (over_sections_interleave h _ p loc n [] (sections n) [] (childrens n)); try done.
  - rewrite Hs, length_app. simpl. lia.
  - eapply Forall2_impl; [exact Hcs|]. intros c l [_ Hc]. apply Hc. lia.
Qed.

(** ** The path of open frames

    From the outermost frame to the current one, each the last child of the one before,
    whose last section is still empty. *)
Inductive opened h : list nat → list nat → Prop :=
  | opened_top t n ss s ls :
      nodes h !! t = Some n → sections n = ss ++ [s] → length ss = length (childrens n) →
      Forall2 (flat h (length (nodes h)) (S t)) (childrens n) ls →
      opened h [t] (interleave (sections n) ls)
  | opened_under p q stk n ss s kids ls l :
      nodes h !! p = Some n → (p < q)%nat → childrens n = kids ++ [q] →
      sections n = ss ++ [s; []] → length ss = length kids →
      Forall2 (flat h q (S p)) kids ls → opened h (q :: stk) l →
      opened h (p :: q :: stk) (interleave (sections n) (ls ++ [l])).

Lemma opened_lt h p stk l : opened h (p :: stk) l → Forall (lt p) stk.
Proof.
  remember (p :: stk) as stk' eqn:Hstk. intros Ho. revert p stk Hstk.
  induction Ho as [|p q stk n ss s kids ls l Hn Hpq Hk Hs Hl Hcs Ho IH]; intros ?? [= <- <-];
    [done|]. constructor; [done|]. eapply Forall_impl; [by eapply IH|]. simpl. lia.
Qed.

Lemma opened_flat h p stk l :
  opened h (p :: stk) l → flat h (length (nodes h)) p p l.
Proof.
  remember (p :: stk) as stk' eqn:Hstk. intros Ho. revert p stk Hstk.
  induction Ho as [t n ss s ls Hn Hs Hl Hcs|p q stk n ss s kids ls l Hn Hpq Hk Hs Hl Hcs Ho IH];
    intros ?? [= <- <-]; pose proof (lookup_lt_Some _ _ _ Hn).
  - econstructor; eauto.
  - pose proof (IH q stk eq_refl) as Hq. assert (q < length (nodes h))%nat by (inversion Hq; lia).
    econstructor; [lia|done|rewrite Hs; by rewrite (app_assoc _ [s] [[]])| |].
    { rewrite Hk, !length_app. simpl. lia. }
    rewrite Hk. apply Forall2_app.
    + eapply Forall2_impl; [exact Hcs|]. intros c l' Hc. eapply flat_mono; [exact Hc|lia..].
    + constructor; [|done]. eapply flat_mono; [exact Hq|lia..].
Qed.

(** What happens at the current frame happens at the end of the whole. *)
Lemma opened_change h h' t new stk l x :
  opened h stk l → last stk = Some t →
  (∀ q, (q < t)%nat → nodes h' !! q = nodes h !! q) →
  (∀ l0, opened h [t] l0 → opened h' (t :: new) (l0 ++ x)) →
  opened h' (stk ++ new) (l ++ x).
Proof.
  intros Ho Hlast Hsame Htop. induction Ho as
    [t' n ss s ls Hn Hs Hl Hcs|p q stk n ss s kids ls l Hn Hpq Hk Hs Hl Hcs Ho IH].
  - injection Hlast as ->. apply Htop. econstructor; eauto.
  - assert (q ≤ t)%nat.
    { apply opened_lt in Ho. destruct stk as [|q' stk]; [by simplify_eq/=|].
      change (last (q' :: stk) = Some t) in Hlast. apply last_Some_elem_of in Hlast.
      rewrite Forall_forall in Ho. apply Nat.lt_le_incl, Ho, Hlast. }
    assert (length ss = length ls) as Hls by (rewrite Hl; by eapply Forall2_length).
    assert (interleave (sections n) (ls ++ [l]) ++ x = interleave (sections n) (ls ++ [l ++ x])) as ->.
    { rewrite Hs, !interleave_child by done. by rewrite app_assoc. }
    simpl. econstructor; eauto; [rewrite Hsame; [done|lia]|].
    eapply Forall2_impl; [exact Hcs|]. intros c l' Hc. eapply flat_frame; [exact Hc|].
    intros k ?. apply Hsame. lia.
Qed.

(** A frame that ends is the last child of the one before. *)
Lemma opened_pop h stk a t l : opened h (stk ++ [a; t]) l → opened h (stk ++ [a]) l.
Proof.
  revert l. induction stk as [|p stk IH]; intros l Ho; simpl in *.
  - inversion Ho as [|p q stk n ss s kids ls l' Hn Hpq Hk Hs Hl Hcs Ho']; subst.
    pose proof (opened_flat _ _ _ _ Ho') as Ht.
    assert (t < length (nodes h))%nat by (inversion Ht; lia).
    econstructor; [done|rewrite Hs; by rewrite (app_assoc _ [s] [[]])| |].
    { rewrite Hk, !length_app. simpl. lia. }
    rewrite Hk. apply Forall2_app; [|constructor; [|done]].
    + eapply Forall2_impl; [exact Hcs|]. intros c l Hc. eapply flat_mono; [exact Hc|lia..].
    + eapply flat_mono; [exact Ht|lia..].
  - destruct stk as [|q stk]; simpl in *; inversion Ho; subst; econstructor; eauto; by apply IH.
Qed.
End trees.

(** ** The log

    The specification: frames are numbered as they are entered, and each step is an entry
    with its frame and the outermost frame that it is in. *)
Record Entry := mkEntry {
  e_root : nat;
  e_frame : nat;
  e_info : OpcodeGasInfo;
}.
Record Log := mkLog {
  l_stack : list nat;
  l_next : nat;
  l_entries : list Entry;
}.

Definition in_frame (t : nat) (e : Entry) : bool := Nat.eqb t (e_frame e).
Definition in_root (r : nat) (e : Entry) : bool := Nat.eqb r (e_root e).

(** The last entry of a frame gets another gas. *)
Fixpoint update_last (t : nat) (g : Z) (l : list Entry) : option (list Entry) :=
  match l with
  | [] => None
  | e :: l =>
      match update_last t g l with
      | Some l => Some (e :: l)
      | None =>
          if in_frame t e
          then Some (mkEntry (e_root e) (e_frame e) (with_gas_after g (e_info e)) :: l)
          else None
      end
  end.

Section log.
Context (is_opcode : Z → bool).

Definition log_hook (hook : Hook) (log : Log) : outcome Log :=
  match hook with
  | Call _ | Create _ =>
      Ret (mkLog (l_stack log ++ [l_next log]) (S (l_next log)) (l_entries log))
  | CallEnd | CreateEnd => Ret (mkLog (pop (l_stack log)) (l_next log) (l_entries log))
  | Step opcode gas depth =>
      assert_true (is_opcode opcode);;
      let info := mkGasInfo opcode gas gas (as_u64 depth) in
      match head (l_stack log), last (l_stack log) with
      | Some r, Some t =>
          Ret (mkLog (l_stack log) (l_next log) (l_entries log ++ [mkEntry r t info]))
      | _, _ => Ret log
      end
  | StepEnd gas =>
      l ← expect (t ← last (l_stack log); update_last t gas (l_entries log));
      Ret (mkLog (l_stack log) (l_next log) l)
  end.
Fixpoint log_hooks (hooks : list Hook) (log : Log) : outcome Log :=
  match hooks with
  | [] => Ret log
  | hook :: hooks => log ← log_hook hook log; log_hooks hooks log
  end.

(** The records: the entries in the first outermost frame. *)
Definition log_records (first : nat) (log : Log) : list OpcodeGasInfo :=
  map e_info (filter (in_root first) (l_entries log)).
End log.

(** *** Positions in the log *)
Fixpoint positions {A} (P : A → bool) (k : nat) (l : list A) : list nat :=
  match l with
  | [] => []
  | x :: l => (if P x then [k] else []) ++ positions P (S k) l
  end.

Lemma positions_snoc {A} (P : A → bool) k l (x : A) :
  positions P k (l ++ [x]) = positions P k l ++ (if P x then [k + length l]%nat else []).
Proof.
  revert k. induction l as [|y l IH]; intros k; simpl.
  - rewrite Nat.add_0_r. by destruct (P x).
  - rewrite IH, app_assoc. by rewrite Nat.add_succ_comm.
Qed.
Lemma positions_nil {A} (P : A → bool) k l :
  Forall (λ x, P x = false) l → positions P k l = [].
Proof. intros Hl. revert k. induction Hl as [|x l Hx _ IH]; intros k; simpl; [done|]. rewrite Hx. apply IH. Qed.
Lemma positions_bound {A} (P : A → bool) k l :
  Forall (λ i, k ≤ i < k + length l)%nat (positions P k l).
Proof.
  revert k. induction l as [|x l IH]; intros k; simpl; [done|].
  apply Forall_app. split.
  - destruct (P x); [constructor; [lia|done]|done].
  - eapply Forall_impl; [apply IH|]. simpl. lia.
Qed.

Lemma positions_items {A B} (P : A → bool) (f : A → B) (pre : list B) l :
  omap (λ i, (pre ++ map f l) !! i) (positions P (length pre) l) = map f (filter P l).
Proof.
  revert pre. induction l as [|x l IH]; intros pre; [done|]. simpl.
  replace (pre ++ f x :: map f l) with ((pre ++ [f x]) ++ map f l) by by rewrite <-app_assoc.
  replace (S (length pre)) with (length (pre ++ [f x])) by (rewrite length_app; simpl; lia).
  rewrite omap_app, IH. rewrite filter_cons. destruct (P x) eqn:HP; simpl.
  - rewrite <-app_assoc, lookup_app_r, Nat.sub_diag by done. done.
  - done.
Qed.

Lemma update_last_positions t g l (pre : list OpcodeGasInfo) :
  match update_last t g l with
  | Some l' => ∃ i, last (positions (in_frame t) (length pre) l) = Some i ∧
      pre ++ map e_info l' = alter (with_gas_after g) i (pre ++ map e_info l) ∧
      map e_root l' = map e_root l ∧ map e_frame l' = map e_frame l
  | None => positions (in_frame t) (length pre) l = []
  end.
Proof.
  revert pre. induction l as [|e l IH]; intros pre; [done|]. specialize (IH (pre ++ [e_info e])).
  rewrite length_app, Nat.add_1_r in IH. simpl. destruct (update_last t g l) as [l'|].
  - destruct IH as (i&Hi&Hl&Hr&Hf). exists i. rewrite last_app, Hi. simpl.
    rewrite <-!app_assoc in Hl. by rewrite Hr, Hf.
  - rewrite IH, app_nil_r. destruct (in_frame t e); [|done].
    exists (length pre). split_and!; [done| |done..]. simpl.
    by rewrite list.alter_app_r_alt, Nat.sub_diag by done.
Qed.

Lemma positions_map {A B} (f : A → B) (P : B → bool) k l :
  positions (λ x, P (f x)) k l = positions P k (map f l).
Proof. revert k. induction l as [|x l IH]; intros k; simpl; [done|]. by rewrite IH. Qed.
Lemma positions_roots r k l l' :
  map e_root l = map e_root l' → positions (in_root r) k l = positions (in_root r) k l'.
Proof.
  intros Hl. etrans; [apply (positions_map e_root (Nat.eqb r))|].
  rewrite Hl. symmetry. apply (positions_map e_root (Nat.eqb r)).
Qed.
Lemma positions_frames t k l l' :
  map e_frame l = map e_frame l' → positions (in_frame t) k l = positions (in_frame t) k l'.
Proof.
  intros Hl. etrans; [apply (positions_map e_frame (Nat.eqb t))|].
  rewrite Hl. symmetry. apply (positions_map e_frame (Nat.eqb t)).
Qed.

Lemma pop_snoc {A} (l : list A) x : pop (l ++ [x]) = l.
Proof.
  unfold pop. rewrite length_app, Nat.add_1_r. simpl. by rewrite take_app_length.
Qed.

(** ** What the operations do to an open path *)
Section operations.
Context {ITEM META : Type}.
Notation Heap := (Heap ITEM META).
Implicit Types (h : Heap).

Lemma opened_top_node h stk l t :
  opened h stk l → last stk = Some t →
  ∃ n ss s, nodes h !! t = Some n ∧ sections n = ss ++ [s] ∧ length ss = length (childrens n).
Proof.
  intros Ho. induction Ho as [t' n ss s ls Hn Hs Hl _|p q stk n ss s kids ls l _ _ _ _ _ _ Ho IH].
  - intros [= ->]. eauto 6.
  - intros Hlast. by apply IH.
Qed.

Lemma push_item_sections (n : TraceNode META) i ss s :
  sections n = ss ++ [s] → length ss = length (childrens n) →
  sections (push_item i n) = ss ++ [s ++ [i]].
Proof. intros Hs Hl. simpl. by rewrite Hs, <-Hl, list.alter_app_r_alt, Nat.sub_diag by done. Qed.

Lemma add_item_opened h stk l t x :
  opened h stk l → last stk = Some t →
  ∃ h', add_item x t h = Ret h' ∧
    nodes h' = alter (push_item (length (items h))) t (nodes h) ∧
    items h' = items h ++ [x] ∧ opened h' stk (l ++ [length (items h)]).
Proof.
  intros Ho Hlast. destruct (opened_top_node _ _ _ _ Ho Hlast) as (n&ss&s&Hn&Hs&Hl).
  unfold add_item. rewrite Hn. simpl. rewrite bool_decide_eq_true_2.
  2:{ rewrite Hs, length_app, Hl. simpl. lia. }
  simpl. eexists. split_and!; [done..|]. rewrite <-(app_nil_r stk).
  eapply opened_change; [done..| |].
  - intros q Hq. simpl. rewrite list_lookup_alter_ne by lia. done.
  - intros l0 Ho0. inversion Ho0 as [? n' ss' s' ls Hn' Hs' Hl' Hcs|]; subst.
    assert (length ss' = length ls) as Hls by (rewrite Hl'; by eapply Forall2_length).
    rewrite Hs', <-interleave_last by done. rewrite <-(push_item_sections n' (length (items h))) by done.
    econstructor.
    + simpl. by rewrite list_lookup_alter_eq, Hn'.
    + by apply push_item_sections.
    + done.
    + simpl. rewrite length_alter. eapply Forall2_impl; [exact Hcs|]. intros c l1 Hc.
      eapply flat_frame; [exact Hc|]. intros q ?. simpl. by rewrite list_lookup_alter_ne by lia.
Qed.

Lemma opened_fresh h t meta par :
  nodes h !! t = Some (mkNode meta par [[]] []) → opened h [t] [].
Proof. intros Hn. by apply (opened_top _ t _ [] [] [] Hn). Qed.

Lemma new_alone h meta :
  let '(this, h') := new meta None h in
  this = length (nodes h) ∧ nodes h' = nodes h ++ [mkNode meta None [[]] []] ∧
  items h' = items h ∧ opened h' [this] [] ∧
  (∀ lo p hi l, (hi ≤ this)%nat → flat h hi lo p l → flat h' hi lo p l).
Proof.
  unfold new. split_and!; [done..| |].
  - apply (opened_fresh _ _ meta None). simpl. by rewrite lookup_app_r, Nat.sub_diag by done.
  - intros lo p hi l Hhi Hf. eapply flat_frame; [exact Hf|]. intros q ?. simpl.
    by rewrite lookup_app_l by lia.
Qed.

Lemma enter_opened h meta stk l t :
  opened h stk l → last stk = Some t →
  let '(this, h') := new meta (Some t) h in
  this = length (nodes h) ∧
  nodes h' = alter (add_child this) t (nodes h) ++ [mkNode meta (Some t) [[]] []] ∧
  items h' = items h ∧ opened h' (stk ++ [this]) l.
Proof.
  intros Ho Hlast. destruct (opened_top_node _ _ _ _ Ho Hlast) as (n&ss&s&Hn&Hs&Hl).
  pose proof (lookup_lt_Some _ _ _ Hn) as Ht. unfold new. simpl.
  split_and!; [done|by rewrite list.alter_app_l|done|]. rewrite <-(app_nil_r l).
  eapply opened_change; [done..| |].
  - intros q Hq. simpl. rewrite list_lookup_alter_ne by lia. by rewrite lookup_app_l by lia.
  - intros l0 Ho0. inversion Ho0 as [? n' ss' s' ls Hn' Hs' Hl' Hcs|]; subst.
    assert (length ss' = length ls) as Hls by (rewrite Hl'; by eapply Forall2_length).
    assert (interleave (sections n') ls ++ [] =
      interleave (sections (add_child (length (nodes h)) n')) (ls ++ [[]])) as ->.
    { simpl. rewrite Hs', <-app_assoc. simpl. by rewrite interleave_child. }
    eapply (opened_under _ _ _ _ _ ss' s' (childrens n')).
    + simpl. rewrite list_lookup_alter_eq, lookup_app_l by done. by rewrite Hn'.
    + done.
    + done.
    + simpl. by rewrite Hs', <-app_assoc.
    + done.
    + eapply Forall2_impl; [exact Hcs|]. intros c l1 Hc. eapply flat_frame; [exact Hc|].
      intros q ?. simpl. by rewrite list_lookup_alter_ne, lookup_app_l by lia.
    + apply (opened_fresh _ _ meta (Some t)). simpl. rewrite list_lookup_alter_ne by lia. by rewrite lookup_app_r, Nat.sub_diag by done.
Qed.
End operations.

(** ** The tree is the log *)
Section refinement.
Context (is_opcode : Z → bool) (first : nat) (items0 : list OpcodeGasInfo).
Implicit Types (h : GasHeap) (st : GasState) (log : Log).

(** The tree at [first] has these items, and it is open when the current frames are in it. *)
Definition shape h (stk l : list nat) : Prop :=
  match stk with
  | [] => flat h (length (nodes h)) first first l
  | b :: _ =>
      if decide (b = first) then opened h stk l
      else (∃ l', opened h stk l') ∧ (first < b)%nat ∧ flat h b first first l
  end.

Record inv st log : Prop := {
  inv_stack : gi_stack st.1 = l_stack log;
  inv_next : length (nodes st.2) = l_next log;
  inv_first : (first ≤ l_next log)%nat;
  inv_items : items st.2 = items0 ++ map e_info (l_entries log);
  inv_own : ∀ p n, (first ≤ p)%nat → nodes st.2 !! p = Some n →
    concat (sections n) = positions (in_frame p) (length items0) (l_entries log);
  inv_frames : Forall (λ e, e_frame e < l_next log)%nat (l_entries log);
  inv_trace :
    match gi_trace st.1 with
    | None => l_stack log = [] ∧ l_next log = first ∧ l_entries log = []
    | Some t => t = first ∧
        shape st.2 (l_stack log) (positions (in_root first) (length items0) (l_entries log))
    end;
}.

Lemma shape_opened h stk l t :
  shape h stk l → last stk = Some t → ∃ l', opened h stk l'.
Proof. destruct stk as [|b stk]; [done|]. simpl. case_decide; [eauto|]. by intros [? _]. Qed.

Lemma opened_last_ge h b stk l t : opened h (b :: stk) l → last (b :: stk) = Some t → (b ≤ t)%nat.
Proof.
  intros Ho%opened_lt Hlast. destruct stk as [|q stk]; [by simplify_eq/=|].
  change (last (q :: stk) = Some t) in Hlast. apply last_Some_elem_of in Hlast.
  rewrite Forall_forall in Ho. by apply Nat.lt_le_incl, Ho.
Qed.

(** A change at the end of the open path is a change at the end of the tree, or outside of it. *)
Lemma shape_change h h' stk new l x t :
  shape h stk l → last stk = Some t →
  (∀ q, (q < t)%nat → nodes h' !! q = nodes h !! q) →
  (∀ l', opened h stk l' → opened h' (stk ++ new) (l' ++ x)) →
  shape h' (stk ++ new) (if decide (head stk = Some first) then l ++ x else l).
Proof.
  destruct stk as [|b stk]; [done|]. intros Hs Hlast Hsame Hopen. simpl in Hs |- *.
  destruct (decide (b = first)) as [->|Hb].
  - rewrite decide_True by done. by apply Hopen.
  - rewrite decide_False by congruence. destruct Hs as ([l' Ho]&Hlt&Hf). split_and!; [|done|].
    + eexists. by apply Hopen.
    + eapply flat_frame; [exact Hf|]. intros q ?. apply Hsame.
      pose proof (opened_last_ge _ _ _ _ _ Ho Hlast). lia.
Qed.

Lemma shape_pop h stk t l : shape h (stk ++ [t]) l → shape h stk l.
Proof.
  destruct stk as [|b stk]; simpl.
  - case_decide as Ht; [subst; apply opened_flat|]. intros ([l' Ho]&Hlt&Hf).
    apply opened_flat in Ho. eapply flat_mono; [exact Hf|done|]. inversion Ho. lia.
  - assert (∀ l', opened h (b :: stk ++ [t]) l' → opened h (b :: stk) l') as Hpop.
    { intros l'. destruct stk as [|a stk _] using rev_ind; [apply (opened_pop h [] b t)|].
      rewrite <-app_assoc. apply (opened_pop h (b :: stk) a t). }
    case_decide; [apply Hpop|]. intros ([l' Ho]&Hrest). split; [|done]. eexists. by apply Hpop.
Qed.

Lemma inv_step st log info t r :
  inv st log → head (l_stack log) = Some r → last (l_stack log) = Some t →
  ∃ h', add_item info t st.2 = Ret h' ∧
    inv (st.1, h') (mkLog (l_stack log) (l_next log) (l_entries log ++ [mkEntry r t info])).
Proof.
  intros [Hstk Hnext Hfirst Hitems Hown Hframes Htrace] Hr Ht.
  destruct (gi_trace st.1) as [tr|] eqn:Htr; [|destruct Htrace as [He _]; by rewrite He in Hr].
  destruct Htrace as [-> Hshape].
  destruct (shape_opened _ _ _ _ Hshape Ht) as [l' Ho].
  destruct (add_item_opened _ _ _ _ info Ho Ht) as (h'&Ha&Hnodes&Hit&_).
  destruct (opened_top_node _ _ _ _ Ho Ht) as (n&ss&s&Hn&Hs&Hl).
  assert (length (items st.2) = length items0 + length (l_entries log))%nat as Hlen
    by (by rewrite Hitems, length_app, length_map).
  assert (first ≤ t)%nat.
  { destruct (l_stack log) as [|b stk] eqn:Hst; [done|].
    pose proof (opened_last_ge _ _ _ _ _ Ho Ht). simpl in Hshape. case_decide; [lia|].
    destruct Hshape as (_&?&_). lia. }
  exists h'. split; [done|]. split; simpl; try done.
  - by rewrite Hnodes, length_alter.
  - by rewrite Hit, Hitems, map_app, app_assoc.
  - intros p m Hp. rewrite Hnodes, positions_snoc. unfold in_frame at 2. simpl.
    destruct (Nat.eqb_spec p t) as [->|Hpt].
    + rewrite list_lookup_alter_eq, Hn. intros [= <-].
      rewrite (push_item_sections n _ ss s) by done. rewrite <-Hown with (n:=n) by done.
      rewrite Hs, !concat_app. simpl. by rewrite !app_nil_r, app_assoc, Hlen.
    + rewrite list_lookup_alter_ne by done. rewrite app_nil_r. by apply Hown.
  - apply Forall_app. split; [done|]. constructor; [|done]. simpl. rewrite <-Hnext.
    by eapply lookup_lt_Some.
  - rewrite Htr. split; [done|]. rewrite positions_snoc. unfold in_root at 2. simpl.
    pose proof (shape_change _ h' _ [] _ [length (items st.2)] _ Hshape Ht) as Hc.
    rewrite app_nil_r, Hr, Hlen in Hc.
    destruct (Nat.eqb_spec first r) as [->|Hrf]; [rewrite decide_True in Hc by done|
      rewrite decide_False in Hc by congruence; rewrite app_nil_r]; apply Hc; clear Hc.
    1, 3: intros q Hq; rewrite Hnodes; by rewrite list_lookup_alter_ne by lia.
    all: intros l'' Ho'; destruct (add_item_opened _ _ _ _ info Ho' Ht) as (h''&Ha'&_&_&Ho'');
      rewrite Hlen in Ho''; congruence.
Qed.

(** A frame that is entered has a node of its own, without items. *)
Lemma own_fresh (f : nat → option (TraceNode MsgCallMeta)) ns t (n : TraceNode MsgCallMeta) log :
  (∀ p m, (first ≤ p)%nat → f p = Some m →
    concat (sections m) = positions (in_frame p) (length items0) (l_entries log)) →
  Forall (λ e, e_frame e < t)%nat (l_entries log) → length ns = t → concat (sections n) = [] →
  (∀ p m, ns !! p = Some m → ∃ m', f p = Some m' ∧ concat (sections m) = concat (sections m')) →
  ∀ p m, (first ≤ p)%nat → (ns ++ [n]) !! p = Some m →
    concat (sections m) = positions (in_frame p) (length items0) (l_entries log).
Proof.
  intros Hown Hframes Ht Hn Hnodes p m Hp Hm.
  apply lookup_app_Some in Hm as [Hm|[Hge Hm]].
  - destruct (Hnodes p m Hm) as (m'&Hm'&->). by apply Hown.
  - destruct (p - length ns)%nat eqn:Hd; [|done]. injection Hm as <-.
    rewrite Hn, positions_nil; [done|]. eapply Forall_impl; [exact Hframes|].
    intros e He. unfold in_frame. apply Nat.eqb_neq. simpl in He. lia.
Qed.

Notation entered log := (mkLog (l_stack log ++ [l_next log]) (S (l_next log)) (l_entries log)).

Lemma inv_enter_under st log meta t :
  inv st log → last (l_stack log) = Some t → inv (enter meta st) (entered log).
Proof.
  intros [Hstk Hnext Hfirst Hitems Hown Hframes Htrace] Ht. destruct st as [gi h]. cbn [fst snd] in *.
  unfold enter. cbv beta iota. rewrite Hstk, Ht.
  destruct (gi_trace gi) as [tr|] eqn:Htr; [|destruct Htrace as [He _]; by rewrite He in Ht].
  destruct Htrace as [-> Hshape]. destruct (shape_opened _ _ _ _ Hshape Ht) as [l' Ho].
  destruct (opened_top_node _ _ _ _ Ho Ht) as (n&_&_&Hn&_).
  pose proof (enter_opened h meta (l_stack log) l' t Ho Ht) as Hnew.
  destruct (new meta (Some t) h) as [this h'] eqn:Hh'. destruct Hnew as (->&Hnodes&Hit&_).
  split; simpl; rewrite ?Hnodes, ?Hit; try done.
  - by rewrite Hnext.
  - rewrite length_app, length_alter. simpl. lia.
  - lia.
  - apply (own_fresh (λ p, nodes h !! p) _ (length (nodes h))); try done.
    + by rewrite Hnext.
    + by rewrite length_alter.
    + intros p m Hm. destruct (decide (p = t)) as [->|Hpt].
      * rewrite list_lookup_alter_eq, Hn in Hm. injection Hm as <-. exists n. split; [done|].
        simpl. by rewrite concat_app, app_nil_r.
      * rewrite list_lookup_alter_ne in Hm by done. eauto.
  - eapply Forall_impl; [exact Hframes|]. simpl. lia.
  - split; [done|]. rewrite <-Hnext. apply lookup_lt_Some in Hn.
    pose proof (shape_change _ h' _ [length (nodes h)] _ [] _ Hshape Ht) as Hc.
    rewrite app_nil_r in Hc. destruct (decide _) in Hc; apply Hc.
    1, 3: intros q Hq; rewrite Hnodes, lookup_app_l by (rewrite length_alter; lia);
      by rewrite list_lookup_alter_ne by lia.
    all: intros l'' Ho'; rewrite app_nil_r; pose proof (enter_opened h meta _ _ _ Ho' Ht) as Hnew;
      rewrite Hh' in Hnew; tauto.
Qed.

Lemma inv_enter_outermost st log meta :
  inv st log → l_stack log = [] → inv (enter meta st) (entered log).
Proof.
  intros [Hstk Hnext Hfirst Hitems Hown Hframes Htrace] Ht. destruct st as [gi h]. cbn [fst snd] in *.
  unfold enter. cbv beta iota. rewrite Hstk, Ht in *. cbn [last].
  pose proof (new_alone h meta) as Hnew. destruct (new meta None h) as [this h'] eqn:Hh'.
  destruct Hnew as (->&Hnodes&Hit&Hopen&Hflat).
  split; simpl; rewrite ?Hnodes, ?Hit, ?Ht; try done.
  - by rewrite Hnext.
  - rewrite length_app. simpl. lia.
  - lia.
  - apply (own_fresh (λ p, nodes h !! p) _ (length (nodes h))); try done; [by rewrite Hnext|eauto].
  - eapply Forall_impl; [exact Hframes|]. simpl. lia.
  - simpl. rewrite <-Hnext. destruct (gi_trace gi) as [tr|].
    + destruct Htrace as [-> Hshape]. split; [done|]. simpl in Hshape.
      assert (first < length (nodes h))%nat by (inversion Hshape; lia).
      rewrite decide_False by lia. split_and!; [eauto|done|by apply Hflat].
    + destruct Htrace as (_&Hf&He). split; [congruence|]. rewrite decide_True by congruence.
      by rewrite He.
Qed.

Lemma inv_leave st log :
  inv st log → inv (leave st) (mkLog (pop (l_stack log)) (l_next log) (l_entries log)).
Proof.
  intros [Hstk Hnext Hfirst Hitems Hown Hframes Htrace].
  destruct (l_stack log) as [|t stk _] eqn:Ht using rev_ind; [|rewrite pop_snoc].
  - split; simpl; by rewrite ?Hstk.
  - split; simpl; rewrite ?Hstk, ?pop_snoc; try done. destruct (gi_trace st.1).
    + destruct Htrace as [-> Hs]. split; [done|]. by eapply shape_pop.
    + destruct Htrace as [He _]. by destruct stk.
Qed.

(** The items do not matter to the shape. *)
Lemma shape_same h h' stk l : nodes h' = nodes h → shape h stk l → shape h' stk l.
Proof.
  intros Hn. assert (∀ hi lo p l, flat h hi lo p l → flat h' hi lo p l) as Hf.
  { intros hi lo p l' Hf. eapply flat_frame; [exact Hf|]. intros q _. by rewrite Hn. }
  assert (∀ l, opened h stk l → opened h' stk l) as Ho.
  { intros l' Ho. induction Ho; econstructor; eauto; rewrite ?Hn; eauto using Forall2_impl. }
  destruct stk as [|b stk]; simpl; [rewrite Hn; apply Hf|]. case_decide; [apply Ho|].
  intros ([l' Hl]&?&?). eauto 6.
Qed.

(** The last item of a frame is its last entry. *)
Lemma inv_current st log t :
  inv st log → last (l_stack log) = Some t →
  ∃ n, nodes st.2 !! t = Some n ∧
    last_item n = last (positions (in_frame t) (length items0) (l_entries log)).
Proof.
  intros [Hstk Hnext Hfirst Hitems Hown Hframes Htrace] Ht.
  destruct (gi_trace st.1) as [tr|]; [|destruct Htrace as [He _]; by rewrite He in Ht].
  destruct Htrace as [-> Hshape]. destruct (shape_opened _ _ _ _ Hshape Ht) as [l' Ho].
  destruct (opened_top_node _ _ _ _ Ho Ht) as (n&_&_&Hn&_). exists n. split; [done|].
  unfold last_item. rewrite (Hown t); [done| |done].
  destruct (l_stack log) as [|b stk]; [done|]. pose proof (opened_last_ge _ _ _ _ _ Ho Ht).
  simpl in Hshape. case_decide; [lia|]. destruct Hshape as (_&?&_). lia.
Qed.

Lemma inv_step_end st log i g l :
  inv st log → items0 ++ map e_info l = alter (with_gas_after g) i (items0 ++ map e_info (l_entries log)) →
  map e_root l = map e_root (l_entries log) → map e_frame l = map e_frame (l_entries log) →
  inv (st.1, mkHeap (nodes st.2) (alter (with_gas_after g) i (items st.2)))
    (mkLog (l_stack log) (l_next log) l).
Proof.
  intros [Hstk Hnext Hfirst Hitems Hown Hframes Htrace] Hl Hr Hf. split; simpl; try done.
  - by rewrite Hitems, Hl.
  - intros p n Hp Hn. rewrite (Hown p n) by done. by apply positions_frames.
  - rewrite <-(Forall_map e_frame (λ f, f < l_next log)%nat) in Hframes |- *. by rewrite Hf.
  - rewrite (positions_roots _ _ _ _ Hr). destruct (gi_trace st.1).
    { destruct Htrace as [-> Hs]. split; [done|]. by apply (shape_same st.2). }
    destruct Htrace as (?&?&He). rewrite He in Hr. by destruct l.
Qed.

Lemma hook_refines st log hook :
  inv st log →
  match log_hook is_opcode hook log with
  | Ret log' => ∃ st', run_hook is_opcode hook st = Ret st' ∧ inv st' log'
  | Panic => run_hook is_opcode hook st = Panic
  end.
Proof.
  intros Hinv. destruct hook as [inputs| |inputs| |opcode gas depth|gas]; simpl.
  1, 3: eexists; split; [done|]; destruct (last (l_stack log)) as [t|] eqn:Ht;
    [by eapply inv_enter_under|apply last_None in Ht; by apply inv_enter_outermost].
  1, 2: eexists; split; [done|]; by apply inv_leave.
  - unfold step. destruct (is_opcode opcode); [|done]. simpl. rewrite (inv_stack _ _ Hinv).
    destruct (last (l_stack log)) as [t|] eqn:Ht.
    + destruct (head (l_stack log)) as [r|] eqn:Hr; [|by destruct (l_stack log)].
      destruct (inv_step st log (mkGasInfo opcode gas gas (as_u64 depth)) t r Hinv Hr Ht) as (h'&->&Hi).
      simpl. eauto.
    + apply last_None in Ht. rewrite Ht. simpl. eauto.
  - unfold step_end. rewrite (inv_stack _ _ Hinv).
    destruct (last (l_stack log)) as [t|] eqn:Ht; [|done]. simpl.
    destruct (inv_current st log t Hinv Ht) as (n&->&Hi). simpl. rewrite Hi.
    pose proof (update_last_positions t gas (l_entries log) items0) as Hu.
    destruct (update_last t gas (l_entries log)) as [l|]; [|by rewrite Hu].
    destruct Hu as (i&->&Hl&Hr&Hf). simpl. eexists. split; [done|]. by apply inv_step_end.
Qed.

Lemma hooks_refine hooks st log :
  inv st log →
  match log_hooks is_opcode hooks log with
  | Ret log' => ∃ st', run_hooks is_opcode hooks st = Ret st' ∧ inv st' log'
  | Panic => run_hooks is_opcode hooks st = Panic
  end.
Proof.
  revert st log. induction hooks as [|hook hooks IH]; intros st log Hinv; simpl; [eauto|].
  pose proof (hook_refines st log hook Hinv) as Hh.
  destruct (log_hook is_opcode hook log) as [log'|]; [|by rewrite Hh].
  destruct Hh as (st'&->&Hinv'). by apply IH.
Qed.

Lemma inv_flat st log t :
  inv st log → gi_trace st.1 = Some t → t = first ∧
  flat st.2 (length (nodes st.2)) first first
    (positions (in_root first) (length items0) (l_entries log)).
Proof.
  intros [_ _ _ _ _ _ Htrace] Ht. rewrite Ht in Htrace. destruct Htrace as [-> Hs].
  split; [done|]. destruct (l_stack log) as [|b stk]; [done|]. simpl in Hs. case_decide as Hb.
  - subst. eapply opened_flat, Hs.
  - destruct Hs as ([l' Ho]&_&Hf). apply opened_flat in Ho.
    eapply flat_mono; [exact Hf|done|]. inversion Ho. lia.
Qed.
End refinement.

Lemma inv_clear (st : GasState) :
  inv (length (nodes st.2)) (items st.2) (clear st) (mkLog [] (length (nodes st.2)) []).
Proof.
  split; simpl; try done; [by rewrite app_nil_r|].
  intros p n Hp Hn%lookup_lt_Some. lia.
Qed.

(** C39: Whatever hooks an interpreter calls after the inspector is cleared, the inspector
    panics exactly when the log does: on an undefined opcode, and on a [step_end] whose
    frame has no step.  Otherwise its records are the steps inside the first outermost
    frame, in the order in which they were executed, each with the gas that the last
    [step_end] of its frame saw; and [iterate_with] visits the same items in the same
    order, each with a location at which [get_item_nested] finds it. *)
Theorem records_are_the_steps_in_order (is_opcode : Z → bool) (hooks : list Hook) (st : GasState) :
  let first := length (nodes st.2) in
  match log_hooks is_opcode hooks (mkLog [] first []) with
  | Panic => run_hooks is_opcode hooks (clear st) = Panic
  | Ret log =>
      ∃ st', run_hooks is_opcode hooks (clear st) = Ret st' ∧
      ∀ fuel, (length (nodes st'.2) - first ≤ fuel)%nat →
        records fuel st' = Ret (log_records first log) ∧
        ∀ t, gi_trace st'.1 = Some t →
          ∃ vs, iterate_with fuel st'.2 t = Ret vs ∧
            clone_items st'.2 (map v_item vs) = log_records first log ∧
            Forall (λ v, get_item_nested st'.2 t (mkTraceLocation (v_location v) (v_item_location v)) =
                         Ret (Some (v_item v))) vs
  end.
Proof.
  intros first. pose proof (hooks_refine is_opcode first (items st.2) hooks _ _ (inv_clear st)) as Hr.
  destruct (log_hooks _ _ _) as [log|]; [|done]. destruct Hr as (st'&Hrun&Hinv).
  exists st'. split; [done|]. intros fuel Hfuel.
  assert (clone_items st'.2 (positions (in_root first) (length (items st.2)) (l_entries log)) =
    log_records first log) as Hclone.
  { unfold clone_items. rewrite (inv_items _ _ _ _ Hinv). apply positions_items. }
  unfold records. destruct (gi_trace st'.1) as [t|] eqn:Ht.
  - destruct (inv_flat _ _ _ _ t Hinv Ht) as [-> Hf]. split.
    + rewrite (flat_flattened _ _ _ _ _ Hf) by done. simpl. by rewrite Hclone.
    + intros ? [= <-]. destruct (flat_iterates _ _ _ _ _ fuel Hf Hfuel []) as (vs&Hvs&Hitems&Hfound).
      exists vs. split; [done|]. rewrite Hitems. split; [done|].
      eapply Forall_impl; [exact Hfound|]. intros v (path&Hloc&Hnode&Hitem). simpl in Hloc.
      unfold get_item_nested. simpl. by rewrite Hloc, Hnode.
  - split; [|done]. pose proof (inv_trace _ _ _ _ Hinv) as Hi. rewrite Ht in Hi.
    destruct Hi as (_&_&He). unfold log_records. by rewrite He.
Qed.

(** A frame with two steps, and a frame with one between them. *)
Lemma records_are_the_steps_in_order_witness :
  let inputs := Build_CallInputs 2 2 1 (ValueTransfer 0) 100 (0, 0) [] SchemeCall in
  let hooks := [Call inputs; Step 90 100 1; StepEnd 97; Create (Build_CreateInputs 2 50);
    Step 91 50 2; StepEnd 40; CreateEnd; Step 92 85 1; StepEnd 80; CallEnd;
    Call inputs; Step 93 70 1; StepEnd 1] in
  let st := (GasInspector_new, mkHeap [] []) in
  ∃ st', run_hooks (λ _, true) hooks (clear st) = Ret st' ∧
    records 3 st' = Ret [mkGasInfo 90 100 97 1; mkGasInfo 91 50 40 2; mkGasInfo 92 85 80 1] ∧
    ∃ vs, iterate_with 3 st'.2 0 = Ret vs ∧
      map v_item_location vs = [(0, 0); (0, 0); (1, 0)]%nat.
Proof.
  intros inputs hooks st.
  pose proof (records_are_the_steps_in_order (λ _, true) hooks st) as Hw. cbv zeta in Hw.
  destruct (log_hooks _ _ _) as [log|] eqn:Hl in Hw; [|vm_compute in Hl; discriminate Hl].
  destruct Hw as (st'&Hrun&Hrec). exists st'. split; [exact Hrun|].
  vm_compute in Hrun. injection Hrun as <-. vm_compute in Hl. injection Hl as <-.
  destruct (Hrec 3%nat) as [Hr Hi]; [vm_compute; lia|]. split; [exact Hr|].
  destruct (Hi 0%nat eq_refl) as (vs&Hvs&_). exists vs. split; [exact Hvs|].
  vm_compute in Hvs. injection Hvs as <-. reflexivity.
Defined.
