(* ===== verification/TestUtils.v ===== *)
(** * Test utilities

    Models [test_utils/]: the bytecode builder ([opcode_gen.rs]) with the padding of
    [bytes.rs], and the databases of [database.rs].  The documented meaning of the opcodes
    that the builder emits is a small machine, against which its snippets are proved. *)
From Stdlib Require Import Strings.Byte.
From stdpp Require Import relations.
From S2P Require Import Prelude Deps EvmState.
Open Scope Z_scope.
Open Scope rust_scope.

#[local] Instance byte_dec : EqDecision byte := Byte.byte_eq_dec.

(** ** Bytes *)
Definition byte_val (b : byte) : Z := Z.of_N (Byte.to_N b).
Definition byte_of (z : Z) : byte := default x00 (Byte.of_N (Z.to_N z)).

(** [to_be_bytes], and the number that bytes stand for. *)
Fixpoint to_be_bytes (n : nat) (z : Z) : Bytes :=
  match n with
  | O => []
  | S n => to_be_bytes n (z `div` 256) ++ [byte_of (z `mod` 256)]
  end.
Definition of_be_bytes (l : Bytes) : Z := foldl (λ acc b, acc * 256 + byte_val b) 0 l.

(** [right_pad_bytes]: the remainder by zero panics. *)
Definition right_pad_bytes (bytes : Bytes) (multiple_of : nat) : outcome Bytes :=
  assert_true (negb (bool_decide (multiple_of = 0%nat)));;
  let padding := ((multiple_of - length bytes mod multiple_of) mod multiple_of)%nat in
  Ret (bytes ++ replicate padding x00).

(** [slice::chunks]. *)
Fixpoint chunks_fuel (fuel n : nat) (l : Bytes) : list Bytes :=
  match fuel, l with
  | _, [] => []
  | O, l => [l]
  | S fuel, l => take n l :: chunks_fuel fuel n (drop n l)
  end.
Definition chunks (n : nat) (l : Bytes) : list Bytes := chunks_fuel (length l) n l.

(** ** The builder *)
Definition STOP : byte := x00.
Definition EQ : byte := x14.
Definition MSTORE : byte := x52.
Definition SSTORE : byte := x55.
Definition JUMPI : byte := x57.
Definition JUMPDEST : byte := x5b.
Definition PUSH0 : byte := x5f.
Definition DUP1 : byte := x80.
Definition RETURN : byte := xf3.
Definition REVERT : byte := xfd.
Definition INVALID : byte := xfe.

Record BytecodeBuilder := mkBuilder { builder_code : Bytes }.

Section builder.
Context `{Profile}.
Implicit Types self : BytecodeBuilder.

Definition build self : Bytes := builder_code self.
Definition build_vec self : list byte := builder_code self.
Definition len self : nat := length (builder_code self).
Definition is_empty self : bool := bool_decide (builder_code self = []).
Definition append (opcode : byte) self : BytecodeBuilder := mkBuilder (builder_code self ++ [opcode]).
Definition append_many (items : Bytes) self : BytecodeBuilder := mkBuilder (builder_code self ++ items).

Definition push_bytes (bytes : Bytes) self : outcome BytecodeBuilder :=
  assert_true (bool_decide (length bytes ≤ 32)%nat);;
  Ret (mkBuilder (builder_code self ++
         byte_of (byte_val PUSH0 + Z.of_nat (length bytes)) :: bytes)).

(** [push_number] of a type of [size] bytes: the sizes of the unsigned types. *)
Definition push_number (size : nat) (num : Z) self : outcome BytecodeBuilder :=
  assert_true (bool_decide (size ∈ [1; 2; 4; 8; 16]%nat));;
  push_bytes (to_be_bytes size num) self.
Definition push_address (address : Address) self : outcome BytecodeBuilder :=
  push_bytes (to_be_bytes 20 address) self.
Definition push_u256 (value : U256) self : outcome BytecodeBuilder :=
  push_bytes (to_be_bytes 32 value) self.

(** The loop of [mstore], from chunk [i] on. *)
Fixpoint mstore_chunks (offset : Z) (i : Z) (cs : list Bytes) self : outcome BytecodeBuilder :=
  match cs with
  | [] => Ret self
  | chunk :: cs =>
      self ← push_bytes chunk self;
      skip ← mul_u64 i 32;
      at_ ← add_u64 offset skip;
      self ← push_number 8 at_ self;
      mstore_chunks offset (i + 1) cs (append MSTORE self)
  end.
Definition mstore (offset : Z) (bytes : Bytes) self : outcome BytecodeBuilder :=
  padded_bytes ← right_pad_bytes bytes 32;
  mstore_chunks offset 0 (chunks 32 padded_bytes) self.

Definition sstore (slot value : U256) self : outcome BytecodeBuilder :=
  self ← push_u256 value self;
  self ← push_u256 slot self;
  Ret (append SSTORE self).

Definition revert self : BytecodeBuilder := append_many [PUSH0; PUSH0; REVERT] self.
Definition return_empty self : BytecodeBuilder := append_many [PUSH0; PUSH0; RETURN] self.

(** [revert_with_data] and [return_with_data] differ in their last opcode. *)
Definition end_with_data (opcode : byte) (data : Bytes) self : outcome BytecodeBuilder :=
  self ← mstore 0 data self;
  self ← push_number 8 (Z.of_nat (length data)) self;
  self ← push_number 8 0 self;
  Ret (append opcode self).
Definition revert_with_data : Bytes → BytecodeBuilder → outcome BytecodeBuilder :=
  end_with_data REVERT.
Definition return_with_data : Bytes → BytecodeBuilder → outcome BytecodeBuilder :=
  end_with_data RETURN.

(** [DUP1 + stack_position as u8] is an addition of [u8]s. *)
Definition assert_stack_value (stack_position : Z) (value : U256) self : outcome BytecodeBuilder :=
  let op := byte_val DUP1 + stack_position `mod` 256 in
  op ← (if bool_decide (op ≤ 255) then Ret op
        else if overflow_checks then Panic else Ret (op `mod` 256));
  self ← push_u256 value (append (byte_of op) self);
  let self := append EQ self in
  target ← add_u64 (Z.of_nat (len self)) 1;
  target ← add_u64 target 8;
  target ← add_u64 target 2;
  self ← push_number 8 target self;
  Ret (append_many [JUMPI; INVALID; JUMPDEST] self).

Definition stop self : BytecodeBuilder := append STOP self.
End builder.

(** ** The opcodes, as they are documented

    A word is its 32 bytes; memory and storage are maps with zero as default. *)
Definition pad_word (imm : Bytes) : Bytes := replicate (32 - length imm) x00 ++ imm.
Definition word_of (z : Z) : Bytes := pad_word (to_be_bytes 32 z).

Record Machine := mkMachine {
  pc : nat;
  stack : list Bytes;
  memory : gmap Z byte;
  contract_storage : gmap Z Bytes;
}.
Inductive Halt :=
  | Stopped
  | Returned (data : Bytes)
  | Reverted (data : Bytes)
  | Invalid
  | Exceptional.

Fixpoint write (o : Z) (l : Bytes) (m : gmap Z byte) : gmap Z byte :=
  match l with [] => m | b :: l => write (o + 1) l (<[o := b]> m) end.
Fixpoint read (o : Z) (n : nat) (m : gmap Z byte) : Bytes :=
  match n with O => [] | S n => default x00 (m !! o) :: read (o + 1) n m end.

(** The bytes of the immediate of an opcode, and the code positions that start an opcode. *)
Definition immediate (op : byte) : nat :=
  let v := byte_val op in if bool_decide (96 ≤ v ≤ 127) then Z.to_nat (v - 95) else 0%nat.
Fixpoint whole_opcodes (skip : nat) (code : Bytes) : bool :=
  match code with
  | [] => bool_decide (skip = 0%nat)
  | op :: code => whole_opcodes (match skip with O => immediate op | S skip => skip end) code
  end.
Definition jumpdest (code : Bytes) (d : Z) : bool :=
  bool_decide (0 ≤ d) && bool_decide (code !! Z.to_nat d = Some JUMPDEST) &&
  whole_opcodes 0 (take (Z.to_nat d) code).

Definition next (skip : nat) (stk : list Bytes) (s : Machine) : Machine :=
  mkMachine (pc s + skip) stk (memory s) (contract_storage s).

Definition exec (code : Bytes) (s : Machine) : Machine + Halt :=
  match code !! pc s with
  | None => inr Stopped
  | Some op =>
      let v := byte_val op in
      if bool_decide (95 ≤ v ≤ 127) then
        let n := Z.to_nat (v - 95) in
        inl (next (S n) (pad_word (take n (drop (S (pc s)) code)) :: stack s) s)
      else if bool_decide (128 ≤ v ≤ 143) then
        match stack s !! Z.to_nat (v - 128) with
        | Some w => inl (next 1 (w :: stack s) s)
        | None => inr Exceptional
        end
      else
        match op, stack s with
        | x00, _ => inr Stopped
        | xfe, _ => inr Invalid
        | x5b, stk => inl (next 1 stk s)
        | x14, a :: b :: stk => inl (next 1 (word_of (if bool_decide (a = b) then 1 else 0) :: stk) s)
        | x57, d :: c :: stk =>
            if bool_decide (of_be_bytes c = 0) then inl (next 1 stk s)
            else if jumpdest code (of_be_bytes d)
            then inl (mkMachine (Z.to_nat (of_be_bytes d)) stk (memory s) (contract_storage s))
            else inr Exceptional
        | x52, o :: w :: stk =>
            inl (mkMachine (S (pc s)) stk (write (of_be_bytes o) w (memory s)) (contract_storage s))
        | x55, k :: w :: stk =>
            inl (mkMachine (S (pc s)) stk (memory s) (<[of_be_bytes k := w]> (contract_storage s)))
        | xf3, o :: n :: _ => inr (Returned (read (of_be_bytes o) (Z.to_nat (of_be_bytes n)) (memory s)))
        | xfd, o :: n :: _ => inr (Reverted (read (of_be_bytes o) (Z.to_nat (of_be_bytes n)) (memory s)))
        | _, _ => inr Exceptional
        end
  end.
Definition steps (code : Bytes) : Machine → Machine → Prop := rtc (λ s s', exec code s = inl s').

(** ** Lemmas on bytes and memory *)
Lemma byte_val_of z : 0 ≤ z < 256 → byte_val (byte_of z) = z.
Proof.
  intros Hz. unfold byte_val, byte_of. destruct (Byte.of_N (Z.to_N z)) as [b|] eqn:Hb; simpl.
  - apply Byte.to_of_N in Hb. rewrite Hb. lia.
  - apply Byte.of_N_None_iff in Hb. lia.
Qed.

Lemma of_be_bytes_snoc l b : of_be_bytes (l ++ [b]) = of_be_bytes l * 256 + byte_val b.
Proof. unfold of_be_bytes. by rewrite foldl_app. Qed.
Lemma length_to_be n z : length (to_be_bytes n z) = n.
Proof. revert z. induction n as [|n IH]; intros z; simpl; [done|]. rewrite length_app, IH. simpl. lia. Qed.
Lemma of_to_be n z : 0 ≤ z < 256 ^ Z.of_nat n → of_be_bytes (to_be_bytes n z) = z.
Proof.
  revert z. induction n as [|n IH]; intros z Hz; [simpl in *; unfold of_be_bytes; simpl; lia|].
  cbn [to_be_bytes]. rewrite of_be_bytes_snoc, byte_val_of by (apply Z.mod_pos_bound; lia).
  rewrite Nat2Z.inj_succ, Z.pow_succ_r in Hz by lia.
  rewrite IH; [pose proof (Z.div_mod z 256); lia|].
  split; [apply Z.div_pos; lia|]. apply Z.div_lt_upper_bound; lia.
Qed.
Lemma of_be_pad l : of_be_bytes (pad_word l) = of_be_bytes l.
Proof.
  unfold pad_word, of_be_bytes. generalize (32 - length l)%nat. intros n.
  induction n as [|n IH]; [done|exact IH].
Qed.
Lemma pad_word_full l : length l = 32%nat → pad_word l = l.
Proof. unfold pad_word. by intros ->. Qed.

Lemma of_be_flag (c : bool) : of_be_bytes (word_of (if c then 1 else 0)) = if c then 1 else 0.
Proof. by destruct c. Qed.

Lemma write_app l1 : ∀ o l2 m,
  write o (l1 ++ l2) m = write (o + Z.of_nat (length l1)) l2 (write o l1 m).
Proof.
  induction l1 as [|b l1 IH]; intros o l2 m; simpl; [f_equal; lia|]. rewrite IH. f_equal. lia.
Qed.
Lemma lookup_write l : ∀ o m j, j < o → write o l m !! j = m !! j.
Proof.
  induction l as [|b l IH]; intros o m j Hj; simpl; [done|].
  rewrite IH by lia. by rewrite lookup_insert_ne by lia.
Qed.
Lemma read_write l1 : ∀ o l2 m, read o (length l1) (write o (l1 ++ l2) m) = l1.
Proof.
  induction l1 as [|b l1 IH]; intros o l2 m; simpl; [done|]. f_equal; [|apply IH].
  rewrite lookup_write by lia. by rewrite lookup_insert_eq.
Qed.

Lemma concat_chunks_fuel fuel l : (length l ≤ fuel)%nat → concat (chunks_fuel fuel 32 l) = l.
Proof.
  revert l. induction fuel as [|fuel IH]; intros l Hl; [destruct l; [done|simpl in Hl; lia]|].
  destruct l as [|b l]; [done|]. cbn [chunks_fuel concat].
  rewrite IH; [apply take_drop|]. rewrite length_drop. cbn [length] in *. lia.
Qed.
Lemma chunks_full fuel l k :
  (length l ≤ fuel)%nat → length l = (32 * k)%nat →
  Forall (λ c, length c = 32%nat) (chunks_fuel fuel 32 l).
Proof.
  revert l k. induction fuel as [|fuel IH]; intros l k Hl Hk; [destruct l; [done|simpl in Hl; lia]|].
  destruct l as [|b l]; [done|]. cbn [chunks_fuel]. destruct k as [|k]; [cbn in Hk; lia|]. constructor.
  - rewrite length_take. lia.
  - apply (IH _ k); rewrite length_drop; cbn [length] in *; lia.
Qed.

Lemma right_pad_spec l : ∃ z k, right_pad_bytes l 32 = Ret (l ++ replicate z x00) ∧
  length (l ++ replicate z x00) = (32 * k)%nat ∧ (z < 32)%nat.
Proof.
  unfold right_pad_bytes. simpl. set (z := ((32 - length l mod 32) mod 32)%nat).
  exists z. pose proof (Nat.div_mod_eq (length l) 32) as Hd.
  pose proof (Nat.mod_upper_bound (length l) 32 ltac:(lia)) as Hb.
  exists (length l / 32 + if decide (length l mod 32 = 0) then 0 else 1)%nat.
  split; [done|]. rewrite length_app, length_replicate.
  assert (z = if decide (length l mod 32 = 0) then 0 else 32 - length l mod 32)%nat as ->.
  { subst z. case_decide as Hm; [by rewrite Hm|]. apply Nat.mod_small. lia. }
  case_decide; lia.
Qed.

(** ** Running what the builder emits *)
Definition push_code (imm : Bytes) : Bytes := byte_of (byte_val PUSH0 + Z.of_nat (length imm)) :: imm.
Fixpoint store_code (offset i : Z) (cs : list Bytes) : Bytes :=
  match cs with
  | [] => []
  | chunk :: cs =>
      push_code chunk ++ push_code (to_be_bytes 8 (offset + i * 32)) ++ MSTORE :: store_code offset (i + 1) cs
  end.

Lemma code_at (a : Bytes) op c n : n = length a → (a ++ op :: c) !! n = Some op.
Proof. intros ->. by rewrite lookup_app_r, Nat.sub_diag by done. Qed.

Lemma push_val (imm : Bytes) : (length imm ≤ 32)%nat →
  byte_val (byte_of (byte_val PUSH0 + Z.of_nat (length imm))) = 95 + Z.of_nat (length imm).
Proof. intros Hl. apply byte_val_of. change (byte_val PUSH0) with 95. lia. Qed.

Lemma exec_push a imm c s :
  pc s = length a → (length imm ≤ 32)%nat →
  exec (a ++ push_code imm ++ c) s = inl (next (S (length imm)) (pad_word imm :: stack s) s).
Proof.
  intros Hpc Hl. unfold exec, push_code. simpl. rewrite (code_at _ _ _ _ Hpc), (push_val _ Hl).
  rewrite bool_decide_eq_true_2 by lia.
  replace (Z.to_nat (95 + Z.of_nat (length imm) - 95)) with (length imm) by lia.
  generalize (byte_of (byte_val PUSH0 + Z.of_nat (length imm))) as op. intros op.
  rewrite (cons_middle op a (imm ++ c)), (app_assoc a).
  rewrite drop_app_length' by (rewrite length_app, Hpc; simpl; lia).
  by rewrite take_app_length.
Qed.

Lemma steps_push a imm c s s' :
  pc s = length a → (length imm ≤ 32)%nat →
  steps (a ++ push_code imm ++ c) (next (S (length imm)) (pad_word imm :: stack s) s) s' →
  steps (a ++ push_code imm ++ c) s s'.
Proof. intros Hpc Hl Hs. eapply rtc_l; [by apply exec_push|done]. Qed.

(** What each opcode does, where it is. *)
Ltac exec_at Hpc := unfold exec; rewrite (code_at _ _ _ _ Hpc); simpl.
Lemma exec_mstore a c s o w stk :
  pc s = length a → stack s = o :: w :: stk →
  exec (a ++ MSTORE :: c) s =
    inl (mkMachine (S (pc s)) stk (write (of_be_bytes o) w (memory s)) (contract_storage s)).
Proof. intros Hpc Hs. exec_at Hpc. by rewrite Hs. Qed.
Lemma exec_end a op c s o n stk :
  pc s = length a → stack s = o :: n :: stk → op = RETURN ∨ op = REVERT →
  exec (a ++ op :: c) s = inr ((if Byte.eqb op RETURN then Returned else Reverted)
    (read (of_be_bytes o) (Z.to_nat (of_be_bytes n)) (memory s))).
Proof. intros Hpc Hs [-> | ->]; exec_at Hpc; by rewrite Hs. Qed.

Lemma exec_dup a op c s k w :
  pc s = length a → byte_val op = 128 + Z.of_nat k → (k < 16)%nat → stack s !! k = Some w →
  exec (a ++ op :: c) s = inl (next 1 (w :: stack s) s).
Proof.
  intros Hpc Hop Hk Hw. exec_at Hpc. rewrite Hop, bool_decide_eq_false_2 by lia.
  rewrite bool_decide_eq_true_2 by lia. replace (Z.to_nat (128 + Z.of_nat k - 128)) with k by lia.
  by rewrite Hw.
Qed.
Lemma exec_eq a c s x y stk :
  pc s = length a → stack s = x :: y :: stk →
  exec (a ++ EQ :: c) s = inl (next 1 (word_of (if bool_decide (x = y) then 1 else 0) :: stk) s).
Proof. intros Hpc Hs. exec_at Hpc. by rewrite Hs. Qed.
Lemma exec_jumpi a c s d b stk :
  pc s = length a → stack s = d :: b :: stk →
  exec (a ++ JUMPI :: c) s =
    if bool_decide (of_be_bytes b = 0) then inl (next 1 stk s)
    else if jumpdest (a ++ JUMPI :: c) (of_be_bytes d)
    then inl (mkMachine (Z.to_nat (of_be_bytes d)) stk (memory s) (contract_storage s))
    else inr Exceptional.
Proof. intros Hpc Hs. exec_at Hpc. by rewrite Hs. Qed.
Lemma exec_jumpdest a c s :
  pc s = length a → exec (a ++ JUMPDEST :: c) s = inl (next 1 (stack s) s).
Proof. intros Hpc. exec_at Hpc. by destruct (stack s). Qed.
Lemma exec_invalid a c s : pc s = length a → exec (a ++ INVALID :: c) s = inr Invalid.
Proof. intros Hpc. exec_at Hpc. done. Qed.

(** Whole opcodes stay whole when code is appended. *)
Lemma whole_app a : ∀ skip c, whole_opcodes skip a = true → whole_opcodes skip (a ++ c) = whole_opcodes 0 c.
Proof.
  induction a as [|op a IH]; intros skip c Ha; simpl in *.
  - apply bool_decide_eq_true in Ha. by rewrite Ha.
  - by apply IH.
Qed.
Lemma whole_immediate imm c : whole_opcodes (length imm) (imm ++ c) = whole_opcodes 0 c.
Proof. induction imm as [|b imm IH]; simpl; [done|exact IH]. Qed.
Lemma whole_push imm c : (length imm ≤ 32)%nat → whole_opcodes 0 (push_code imm ++ c) = whole_opcodes 0 c.
Proof.
  intros Hl. unfold push_code. cbn [app whole_opcodes].
  assert (immediate (byte_of (byte_val PUSH0 + Z.of_nat (length imm))) = length imm) as ->.
  { unfold immediate. rewrite (push_val _ Hl). case_bool_decide; lia. }
  apply whole_immediate.
Qed.
Lemma whole_one op c : immediate op = 0%nat → whole_opcodes 0 (op :: c) = whole_opcodes 0 c.
Proof. intros Hop. simpl. by rewrite Hop. Qed.

Section snippets.
Context `{Profile}.
#[local] Arguments to_be_bytes : simpl never.
#[local] Arguments push_number : simpl never.
#[local] Arguments push_bytes : simpl never.
#[local] Arguments jumpdest : simpl never.
#[local] Arguments push_code : simpl never.

Lemma length_push_code imm : length (push_code imm) = S (length imm).
Proof. done. Qed.
Implicit Types self : BytecodeBuilder.

Lemma push_bytes_spec imm self :
  (length imm ≤ 32)%nat → push_bytes imm self = Ret (mkBuilder (builder_code self ++ push_code imm)).
Proof. intros Hl. unfold push_bytes. by rewrite bool_decide_eq_true_2. Qed.
Lemma push_number_spec size z self :
  size ∈ [1; 2; 4; 8; 16]%nat →
  push_number size z self = Ret (mkBuilder (builder_code self ++ push_code (to_be_bytes size z))).
Proof.
  intros Hs. unfold push_number. rewrite bool_decide_eq_true_2 by done. simpl.
  apply push_bytes_spec. rewrite length_to_be.
  repeat (apply elem_of_cons in Hs as [->|Hs]; [lia|]). by apply elem_of_nil in Hs.
Qed.

#[local] Opaque to_be_bytes push_number push_bytes push_code.

Lemma mstore_chunks_spec offset cs : ∀ i self,
  Forall (λ c, length c = 32%nat) cs → 0 ≤ offset → 0 ≤ i →
  offset + (i + Z.of_nat (length cs)) * 32 ≤ u64_max →
  mstore_chunks offset i cs self = Ret (mkBuilder (builder_code self ++ store_code offset i cs)).
Proof.
  induction cs as [|c cs IH]; intros i self Hcs Ho Hi Hmax; simpl.
  - rewrite app_nil_r. by destruct self.
  - inversion Hcs as [|? ? Hc Hcs']; subst. cbn [length] in Hmax.
    rewrite push_bytes_spec, bind_Ret_l by lia. unfold mul_u64, add_u64, fit_u64.
    rewrite decide_True, bind_Ret_l, decide_True, bind_Ret_l by lia.
    rewrite push_number_spec, bind_Ret_l by set_solver. rewrite IH by (done || lia). f_equal. f_equal.
    simpl. by rewrite <-!app_assoc.
Qed.

Lemma steps_store offset cs : ∀ a i c s,
  pc s = length a → Forall (λ c, length c = 32%nat) cs → 0 ≤ offset → 0 ≤ i →
  offset + (i + Z.of_nat (length cs)) * 32 ≤ u64_max →
  steps (a ++ store_code offset i cs ++ c) s
    (mkMachine (pc s + length (store_code offset i cs)) (stack s)
       (write (offset + i * 32) (concat cs) (memory s)) (contract_storage s)).
Proof.
  induction cs as [|chunk cs IH]; intros a i c s Hpc Hcs Ho Hi Hmax; simpl.
  - rewrite Nat.add_0_r. destruct s. apply rtc_refl.
  - inversion Hcs as [|? ? Hc Hcs']; subst. cbn [length] in Hmax.
    rewrite <-!(app_assoc (push_code _)). apply steps_push; [done|lia|].
    rewrite (app_assoc a). apply steps_push;
      [rewrite length_app, length_push_code; simpl; lia|rewrite length_to_be; lia|].
    set (imm := to_be_bytes 8 (offset + i * 32)).
    rewrite (app_assoc (a ++ _)). set (a' := (a ++ push_code chunk) ++ push_code imm).
    assert (length imm = 8%nat) as Himm by apply length_to_be.
    assert (length a' = pc s + 33 + 9)%nat as Ha'.
    { subst a'. rewrite !length_app, !length_push_code. lia. }
    rewrite (pad_word_full chunk Hc). eapply rtc_l.
    + apply exec_mstore; [simpl; lia|done].
    + rewrite of_be_pad. subst imm. rewrite of_to_be by (unfold u64_max in Hmax; lia).
      match goal with |- rtc _ ?st _ =>
        pose proof (IH (a' ++ [MSTORE]) (i + 1) c st) as Hs end.
      rewrite <-app_assoc in Hs.
      refine (eq_ind _ (λ t, rtc _ _ t) (Hs _ _ _ _ _) _ _); try lia; try done.
      * rewrite length_app. simpl. lia.
      * simpl. f_equal.
        -- rewrite !length_app, !length_push_code, length_to_be. simpl. lia.
        -- rewrite write_app, Hc. f_equal. lia.
Qed.

Lemma read_padded data pad m : read 0 (length data) (write 0 (data ++ pad) m) = data.
Proof. apply read_write. Qed.

(** Code that [return_with_data] and [revert_with_data] emit ends with the very data,
    whatever is on the stack and in memory, and whatever code follows. *)
Theorem data_is_returned op data self :
  op = RETURN ∨ op = REVERT → Z.of_nat (length data) + 64 ≤ u64_max →
  ∃ self', end_with_data op data self = Ret self' ∧
    ∀ rest s, pc s = len self → ∃ s', steps (build self' ++ rest) s s' ∧
      exec (build self' ++ rest) s' = inr ((if Byte.eqb op RETURN then Returned else Reverted) data).
Proof.
  intros Hop Hmax. destruct (right_pad_spec data) as (z&k&Hpad&Hk&Hz).
  set (padded := data ++ replicate z x00) in *. set (cs := chunks 32 padded).
  assert (Forall (λ c, length c = 32%nat) cs) as Hcs by (by apply (chunks_full _ _ k)).
  assert (concat cs = padded) as Hcat by (by apply concat_chunks_fuel).
  assert (Z.of_nat (length (A:=list byte) cs) * 32 ≤ u64_max) as Hlen.
  { assert (length (A:=list byte) cs * 32 = length padded)%nat as Hl.
    { rewrite <-Hcat. clear Hcat. induction Hcs as [|c cs' Hc _ IH]; simpl; [done|].
      rewrite length_app. lia. }
    subst padded. rewrite length_app, length_replicate in Hl. lia. }
  assert (mstore 0 data self = Ret (mkBuilder (builder_code self ++ store_code 0 0 cs))) as Hm.
  { unfold mstore. rewrite Hpad, bind_Ret_l. apply (mstore_chunks_spec 0 cs); [done|lia..]. }
  unfold end_with_data. rewrite Hm, bind_Ret_l, !push_number_spec by set_solver.
  rewrite bind_Ret_l, push_number_spec, bind_Ret_l by set_solver.
  eexists. split; [done|]. intros rest s Hpc. unfold build, append. simpl.
  rewrite <-!app_assoc. set (n := to_be_bytes 8 (Z.of_nat (length data))). set (o := to_be_bytes 8 0).
  eexists. split.
  - etrans; [apply (steps_store 0 cs (builder_code self) 0); [done..|lia|lia|lia]|].
    rewrite (app_assoc (builder_code self)).
    apply steps_push; [simpl; rewrite length_app, Hpc; done|subst n; rewrite length_to_be; lia|].
    rewrite (app_assoc (builder_code self ++ _)). apply steps_push;
      [simpl; rewrite !length_app, length_push_code, Hpc; unfold len; lia|
       subst o; rewrite length_to_be; lia|].
    apply rtc_refl.
  - rewrite (app_assoc (builder_code self)), (app_assoc (builder_code self ++ _)).
    rewrite (app_assoc ((builder_code self ++ _) ++ _)). simpl.
    rewrite (exec_end _ op rest _ (pad_word o) (pad_word n) (stack s)); [|simpl|done|done].
    + f_equal. rewrite !of_be_pad. subst o n. rewrite !of_to_be by (unfold u64_max in Hmax; lia).
      rewrite Nat2Z.id. simpl. rewrite Hcat. subst padded. by rewrite read_padded.
    + rewrite !length_app, !length_push_code, Hpc. unfold len. lia.
Qed.

(** The code of [assert_stack_value], and where it jumps to. *)
Definition assert_code (k : Z) (value target : Z) : Bytes :=
  byte_of (128 + k) :: push_code (to_be_bytes 32 value) ++ EQ :: push_code (to_be_bytes 8 target) ++
  [JUMPI; INVALID; JUMPDEST].

Lemma assert_stack_value_spec (k : nat) value self :
  (k < 16)%nat → Z.of_nat (len self) + 64 ≤ u64_max →
  assert_stack_value (Z.of_nat k) value self =
    Ret (mkBuilder (builder_code self ++
      assert_code (Z.of_nat k) value (Z.of_nat (len self) + 46))).
Proof.
  intros Hk Hlen. unfold assert_stack_value. rewrite Z.mod_small by lia.
  change (byte_val DUP1) with 128. rewrite bool_decide_eq_true_2 by lia. simpl.
  unfold push_u256. rewrite push_bytes_spec, bind_Ret_l by (rewrite length_to_be; lia). simpl.
  set (self' := append EQ _).
  assert (Z.of_nat (len self') = Z.of_nat (len self) + 35) as Hl.
  { subst self'. unfold len. simpl. rewrite !length_app, length_push_code, length_to_be. simpl. lia. }
  rewrite Hl. unfold add_u64, fit_u64. rewrite decide_True by lia. simpl.
  rewrite decide_True by lia. simpl. rewrite decide_True by lia. simpl.
  rewrite push_number_spec, bind_Ret_l by set_solver. unfold append_many. subst self'. simpl.
  replace (Z.of_nat (len self) + 35 + 1 + 8 + 2) with (Z.of_nat (len self) + 46) by lia.
  f_equal. f_equal. by rewrite <-!app_assoc.
Qed.

(** The check of [assert_stack_value], appended to code of whole opcodes, is again such
    code: on a stack that has the value at the position it runs to its end and leaves
    everything as it was; on any other value it ends in [INVALID].  The jump is one to
    the [JUMPDEST] that it emits, never into a push. *)
Theorem stack_value_is_checked (k : nat) value self :
  (k < 16)%nat → Z.of_nat (len self) + 64 ≤ u64_max → 0 ≤ value < 2 ^ 256 →
  whole_opcodes 0 (build self) = true →
  ∃ self', assert_stack_value (Z.of_nat k) value self = Ret self' ∧
    whole_opcodes 0 (build self') = true ∧
    ∀ rest s w, pc s = len self → stack s !! k = Some w →
      if decide (w = to_be_bytes 32 value)
      then steps (build self' ++ rest) s (next (len self' - len self) (stack s) s)
      else ∃ s', steps (build self' ++ rest) s s' ∧ exec (build self' ++ rest) s' = inr Invalid.
Proof.
  intros Hk Hlen Hvalue Hwhole. eexists. split; [by apply assert_stack_value_spec|].
  set (v := to_be_bytes 32 value). set (t := to_be_bytes 8 (Z.of_nat (len self) + 46)).
  assert (length v = 32 ∧ length t = 8)%nat as [Hv Ht] by (split; apply length_to_be).
  set (d := byte_of (128 + Z.of_nat k)).
  assert (byte_val d = 128 + Z.of_nat k) as Hd by (apply byte_val_of; lia).
  assert (immediate d = 0%nat) as Hid by (unfold immediate; rewrite Hd; case_bool_decide; lia).
  assert (∀ c, whole_opcodes 0 (builder_code self ++ d :: push_code v ++ EQ :: push_code t ++ JUMPI :: INVALID :: c) =
    whole_opcodes 0 c) as Hw.
  { intros c. rewrite whole_app, whole_one, whole_push, whole_one, whole_push by (done || lia). done. }
  split; [unfold build, assert_code; simpl; by rewrite Hw|].
  intros rest s w Hpc Hs. unfold build, assert_code. simpl. fold v t d.
  set (a := builder_code self). change (len self) with (length a) in *.
  set (code := (a ++ d :: push_code v ++ EQ :: push_code t ++ [JUMPI; INVALID; JUMPDEST]) ++ rest).
  assert (code = a ++ d :: push_code v ++ EQ :: push_code t ++ JUMPI :: INVALID :: JUMPDEST :: rest) as Hcode.
  { subst code. rewrite <-app_assoc. simpl. rewrite <-app_assoc. simpl. by rewrite <-app_assoc. }
  set (b := word_of (if bool_decide (pad_word v = w) then 1 else 0)).
  set (s1 := next 1 (w :: stack s) s). set (s2 := next (S (length v)) (pad_word v :: stack s1) s1).
  set (s3 := next 1 (b :: stack s) s2). set (s4 := next (S (length t)) (pad_word t :: stack s3) s3).
  assert (code = ((a ++ [d]) ++ push_code v) ++ EQ :: push_code t ++ JUMPI :: INVALID :: JUMPDEST :: rest)
    as Hcode2 by (by rewrite Hcode, <-!app_assoc).
  assert (code = ((((a ++ [d]) ++ push_code v) ++ [EQ]) ++ push_code t) ++ JUMPI :: INVALID :: JUMPDEST :: rest)
    as Hcode3 by (by rewrite Hcode, <-!app_assoc).
  assert (steps code s s4) as Hsteps.
  { eapply rtc_l; [rewrite Hcode; by apply (exec_dup _ _ _ _ k w)|].
    eapply rtc_l.
    { rewrite Hcode, (cons_middle d a), (app_assoc a).
      apply exec_push; [rewrite length_app, <-Hpc; done|lia]. }
    eapply rtc_l.
    { rewrite Hcode2. eapply exec_eq; [|done].
      rewrite !length_app, length_push_code, <-Hpc. simpl. lia. }
    eapply rtc_l; [|apply rtc_refl].
    rewrite Hcode2, (cons_middle EQ), (app_assoc _ [EQ]). apply exec_push; [|lia].
    rewrite !length_app, length_push_code, <-Hpc. simpl. lia. }
  assert (pc s4 = length ((((a ++ [d]) ++ push_code v) ++ [EQ]) ++ push_code t)) as Hpc4.
  { rewrite !length_app, !length_push_code, <-Hpc. simpl. lia. }
  pose proof (exec_jumpi _ (INVALID :: JUMPDEST :: rest) s4 (pad_word t) b (stack s) Hpc4 eq_refl) as Hj.
  rewrite <-Hcode3, of_be_pad in Hj. subst t. rewrite of_to_be in Hj by (unfold u64_max in *; simpl; lia).
  subst b. rewrite (pad_word_full v Hv), of_be_flag in Hj.
  destruct (decide (w = v)) as [Hwv|Hwv].
  - rewrite (bool_decide_eq_true_2 (v = w)), bool_decide_eq_false_2 in Hj by done.
    assert (jumpdest code (Z.of_nat (length a) + 46) = true) as Hdest.
    { unfold jumpdest. replace (Z.to_nat (Z.of_nat (length a) + 46)) with (length a + 46)%nat by lia.
      assert (code = (a ++ d :: push_code v ++ EQ :: push_code (to_be_bytes 8 (Z.of_nat (length a) + 46)) ++
        [JUMPI; INVALID]) ++ JUMPDEST :: rest) as Hcode4.
      { rewrite Hcode. simpl. rewrite <-!app_assoc. simpl. rewrite <-!app_assoc. simpl.
        by rewrite <-!app_assoc. }
      set (pre := a ++ d :: _) in Hcode4.
      assert (length pre = length a + 46)%nat as Hpre.
      { subst pre. rewrite !length_app. simpl. rewrite !length_app. simpl.
        rewrite !length_app, !length_push_code. simpl. lia. }
      rewrite !andb_true_iff, !bool_decide_eq_true. split_and!; [lia| |].
      - rewrite Hcode4. by apply code_at.
      - rewrite Hcode4, take_app_length' by done. apply (Hw []). }
    rewrite Hdest in Hj. eapply rtc_r; [eapply rtc_r; [exact Hsteps|exact Hj]|].
    rewrite Hcode3, (cons_middle JUMPI), (app_assoc _ [JUMPI]), (cons_middle INVALID), (app_assoc _ [INVALID]).
    rewrite exec_jumpdest.
    2:{ simpl. rewrite !length_app, !length_push_code. simpl. lia. }
    f_equal. unfold next. simpl. f_equal. rewrite Hpc. unfold len. simpl.
    rewrite !length_app. simpl. rewrite !length_app, length_push_code. simpl.
    rewrite !length_app, length_push_code. simpl. lia.
  - rewrite (bool_decide_eq_false_2 (v = w)), bool_decide_eq_true_2 in Hj by congruence.
    exists (next 1 (stack s) s4). split.
    + eapply rtc_r; [exact Hsteps|exact Hj].
    + rewrite Hcode3, (cons_middle JUMPI), (app_assoc _ [JUMPI]). apply exec_invalid.
      rewrite length_app, <-Hpc4. simpl. lia.
Qed.
End snippets.

(** ** Databases *)
Inductive DbAccountState := NotExisting | DbTouched | StorageCleared | DbNone.
Record DbAccount (Bytecode : Type) := mkDbAccount {
  db_info : AccountInfo Bytecode;
  account_state : DbAccountState;
  db_slots : gmap U256 U256;
}.
Arguments mkDbAccount {Bytecode}.
Arguments db_info {Bytecode}.
Arguments account_state {Bytecode}.
Arguments db_slots {Bytecode}.

(** [CacheDB<EmptyDB>]: [load_account] is a reference into the cache, here a getter and a
    setter of its entry. *)
Class CacheDb (Db Bytecode : Type) := {
  load_account : Address → Db → DbAccount Bytecode;
  put_account : Address → DbAccount Bytecode → Db → Db;
  cache_basic : Address → Db → Db * option (AccountInfo Bytecode);
  cache_code_by_hash : Z → Db → Db * Bytecode;
  cache_storage : Address → U256 → Db → Db * U256;
  cache_block_hash : Z → Db → Db * Z;
  cache_commit : EvmState Bytecode → Db → Db;
}.

(** Its laws: entries are independent, and an account that exists is read from its entry. *)
Class CacheDbLaws (Db Bytecode : Type) `{CacheDb Db Bytecode} : Prop := {
  load_put a acc d : load_account a (put_account a acc d) = acc;
  load_put_other a b acc d : a ≠ b → load_account a (put_account b acc d) = load_account a d;
  basic_of_entry a d : account_state (load_account a d) ≠ NotExisting →
    (cache_basic a d).2 = Some (db_info (load_account a d));
  storage_of_entry a k v d : account_state (load_account a d) ≠ NotExisting →
    db_slots (load_account a d) !! k = Some v → (cache_storage a k d).2 = v;
}.

Section database.
Context {Db Bytecode : Type} `{CacheDb Db Bytecode} (new_legacy : Bytes → Bytecode)
  (hash_slow : Bytecode → Z).
Notation MemoryDatabase := Db.

(** The entry of an account with its information and slots changed; it exists from then on. *)
Definition update_account (a : Address)
    (f : AccountInfo Bytecode → AccountInfo Bytecode) (g : gmap U256 U256 → gmap U256 U256)
    (self : MemoryDatabase) : MemoryDatabase :=
  let acc := load_account a self in
  put_account a (mkDbAccount (f (db_info acc)) DbNone (g (db_slots acc))) self.
Definition set_account_code (a : Address) (c : Bytes) : MemoryDatabase → MemoryDatabase :=
  let bytecode := new_legacy c in
  update_account a (λ i, mkAccountInfo (balance i) (nonce i) (hash_slow bytecode) (Some bytecode)) id.
Definition set_account_balance (a : Address) (b : U256) : MemoryDatabase → MemoryDatabase :=
  update_account a (λ i, mkAccountInfo b (nonce i) (code_hash i) (code i)) id.
Definition set_account_nonce (a : Address) (n : Z) : MemoryDatabase → MemoryDatabase :=
  update_account a (λ i, mkAccountInfo (balance i) n (code_hash i) (code i)) id.
Definition set_account_storage (a : Address) (k v : U256) : MemoryDatabase → MemoryDatabase :=
  update_account a id (insert k v).

(** The setters that give the database back, and what is handed to the cache. *)
Definition from_cache_db (d : Db) : MemoryDatabase := d.
Definition account_code (a : Address) (c : Bytes) (self : MemoryDatabase) : MemoryDatabase :=
  set_account_code a c self.
Definition account_balance (a : Address) (b : U256) (self : MemoryDatabase) : MemoryDatabase :=
  set_account_balance a b self.
Definition account_nonce (a : Address) (n : Z) (self : MemoryDatabase) : MemoryDatabase :=
  set_account_nonce a n self.
Definition account_storage (a : Address) (k v : U256) (self : MemoryDatabase) : MemoryDatabase :=
  set_account_storage a k v self.
Definition memory_basic (a : Address) (self : MemoryDatabase) :
    MemoryDatabase * option (AccountInfo Bytecode) := cache_basic a self.
Definition memory_code_by_hash (h : Z) (self : MemoryDatabase) : MemoryDatabase * Bytecode :=
  cache_code_by_hash h self.
Definition memory_storage (a : Address) (k : U256) (self : MemoryDatabase) : MemoryDatabase * U256 :=
  cache_storage a k self.
Definition memory_block_hash (n : Z) (self : MemoryDatabase) : MemoryDatabase * Z :=
  cache_block_hash n self.
Definition memory_commit (changes : EvmState Bytecode) (self : MemoryDatabase) : MemoryDatabase :=
  cache_commit changes self.

(** [ErrorInjectingDatabase]. *)
Record ErrorInjectingDatabase := mkInjecting {
  inj_inner : MemoryDatabase;
  fail_on_account : option Address;
  fail_on_storage : option (Address * U256);
}.
Definition ErrorInjectingDatabase_new (d : MemoryDatabase) : ErrorInjectingDatabase :=
  mkInjecting d None None.
Inductive InjectedDbError :=
  | InjectedBasic (a : Address)
  | InjectedStorage (a : Address) (k : U256).

(** A read of the inner database. *)
Definition read_inner {A} (f : MemoryDatabase → MemoryDatabase * A) (self : ErrorInjectingDatabase) :
    ErrorInjectingDatabase * result A InjectedDbError :=
  let '(d, r) := f (inj_inner self) in
  (mkInjecting d (fail_on_account self) (fail_on_storage self), Ok r).
Definition basic (a : Address) (self : ErrorInjectingDatabase) :
    ErrorInjectingDatabase * result (option (AccountInfo Bytecode)) InjectedDbError :=
  if bool_decide (fail_on_account self = Some a) then (self, Err (InjectedBasic a))
  else read_inner (memory_basic a) self.
Definition code_by_hash (h : Z) (self : ErrorInjectingDatabase) :
    ErrorInjectingDatabase * result Bytecode InjectedDbError :=
  read_inner (memory_code_by_hash h) self.
Definition storage (a : Address) (k : U256) (self : ErrorInjectingDatabase) :
    ErrorInjectingDatabase * result U256 InjectedDbError :=
  if bool_decide (fail_on_storage self = Some (a, k)) then (self, Err (InjectedStorage a k))
  else read_inner (memory_storage a k) self.
Definition block_hash (n : Z) (self : ErrorInjectingDatabase) :
    ErrorInjectingDatabase * result Z InjectedDbError :=
  read_inner (memory_block_hash n) self.
Definition commit (changes : EvmState Bytecode) (self : ErrorInjectingDatabase) :
    ErrorInjectingDatabase :=
  mkInjecting (memory_commit changes (inj_inner self)) (fail_on_account self) (fail_on_storage self).

(** An account that is set up in a database is read back through the error injecting
    wrapper, field by field, unless the read is the one that is to fail; a setter of one
    account changes no other. *)
Theorem set_up_accounts_are_read {laws : CacheDbLaws Db Bytecode} a f g d fa fs :
  let self := mkInjecting (update_account a f g d) fa fs in
  (basic a self).2 =
    (if bool_decide (fa = Some a) then Err (InjectedBasic a)
     else Ok (Some (f (db_info (load_account a d))))) ∧
  (∀ k v, g (db_slots (load_account a d)) !! k = Some v →
    (storage a k self).2 =
      if bool_decide (fs = Some (a, k)) then Err (InjectedStorage a k) else Ok v) ∧
  ∀ b, b ≠ a → load_account b (inj_inner self) = load_account b d.
Proof.
  intros self. unfold basic, storage, read_inner, memory_basic, memory_storage. subst self. simpl.
  assert (load_account a (update_account a f g d) =
    mkDbAccount (f (db_info (load_account a d))) DbNone (g (db_slots (load_account a d)))) as Hl
    by apply load_put.
  split_and!.
  - case_bool_decide; [done|]. pose proof (basic_of_entry a (update_account a f g d)) as Hb.
    rewrite Hl in Hb. destruct (cache_basic _ _). simpl in *. by rewrite Hb.
  - intros k v Hv. case_bool_decide; [done|].
    pose proof (storage_of_entry a k v (update_account a f g d)) as Hs. rewrite Hl in Hs.
    destruct (cache_storage _ _ _). simpl in *. by rewrite Hs.
  - intros b Hb. by apply load_put_other.
Qed.
End database.
