(* ===== verification/BuildScript.v ===== *)
(** * Build script of the system contracts

    Models [crates/system-contracts/build.rs]: it runs Foundry on each contract, compares
    what was compiled with the committed artifact, checks the hash of every versioned
    artifact and generates a Rust file of constants.  The directory [artifacts/] is a map of
    entries; Foundry, JSON, hexadecimal text, the hash and semantic versions are variables. *)
From Stdlib Require Import Ascii Sorted.
From stdpp Require Import sorting.
From S2P Require Import Prelude Deps.
Open Scope Z_scope.
Open Scope rust_scope.
Open Scope string_scope.
Open Scope list_scope.

(** ** Text *)
Definition starts_with (pat s : string) : bool :=
  bool_decide (String.list_ascii_of_string pat `prefix_of` String.list_ascii_of_string s).
Definition ends_with (pat s : string) : bool :=
  bool_decide (String.list_ascii_of_string pat `suffix_of` String.list_ascii_of_string s).

(** [replace('.', "_")]. *)
Fixpoint replace_dots (s : string) : string :=
  match s with
  | EmptyString => EmptyString
  | String c s => String (if bool_decide (c = "."%char) then "_"%char else c) (replace_dots s)
  end.

(** ** Files

    An entry of [artifacts/] is a file or a symbolic link to another entry. *)
Inductive Entry :=
  | File (content : string)
  | Symlink (target : string).
Abbreviation Dir := (gmap string Entry).

(** Reading follows links; the system gives up after forty of them. *)
Fixpoint read_through (links : nat) (name : string) (dir : Dir) : option string :=
  match dir !! name with
  | Some (File content) => Some content
  | Some (Symlink target) =>
      match links with O => None | S links => read_through links target dir end
  | None => None
  end.
Definition read_to_string (name : string) (dir : Dir) : option string := read_through 40 name dir.
Definition is_symlink (name : string) (dir : Dir) : bool :=
  match dir !! name with Some (Symlink _) => true | _ => false end.

Record ContractConfig := mkConfig {
  cc_name : string;
  script_path : string;
  output_file : string;
}.
Definition contracts : list ContractConfig :=
  [ mkConfig "Oracle" "scripts/OracleBytecode.s.sol:SaveOracleBytecode" "oracle_artifacts.rs";
    mkConfig "KeylessDeploy" "scripts/KeylessDeployBytecode.s.sol:SaveKeylessDeployBytecode"
      "keyless_deploy_artifacts.rs";
    mkConfig "MegaAccessControl"
      "scripts/MegaAccessControlBytecode.s.sol:SaveMegaAccessControlBytecode"
      "access_control_artifacts.rs";
    mkConfig "MegaLimitControl"
      "scripts/MegaLimitControlBytecode.s.sol:SaveMegaLimitControlBytecode"
      "limit_control_artifacts.rs" ].

Record ContractArtifact (Version : Type) := mkArtifact {
  version : Version;
  artifact_hash : Z;
  deployed_bytecode : Bytes;
}.
Arguments mkArtifact {Version}.
Arguments version {Version}.
Arguments artifact_hash {Version}.
Arguments deployed_bytecode {Version}.

Section build.
Context {Version : Type} (version_le : relation Version) `{!RelDecision version_le}
  (version_to_string : Version → string)
  (from_str : string → option (ContractArtifact Version))
  (keccak256 : Bytes → Z) (hex_encode : Bytes → string) (hex_b256 : Z → string)
  (read_dir : Dir → option (list string))
  (forge_script : string → Dir → Dir * option bool) (forge_version : option bool).
Abbreviation Artifact := (ContractArtifact Version).

Definition read_artifact (name : string) (dir : Dir) : outcome Artifact :=
  content ← expect (read_to_string name dir);
  expect (from_str content).

(** The status of the script is [None] when it could not be run. *)
Definition validate_contract_bytecode (config : ContractConfig) (dir : Dir) :
    outcome (Dir * Artifact) :=
  let '(dir, script_status) := forge_script (script_path config) dir in
  success ← expect script_status;
  assert_true success;;
  let generated_path := cc_name config +:+ ".json" in
  generated ← read_artifact generated_path dir;
  expected ← read_artifact (cc_name config +:+ "-latest.json") dir;
  assert_true (bool_decide (artifact_hash generated = artifact_hash expected));;
  Ret (delete generated_path dir, expected).

(** The loop of [collect_versioned_artifacts] over the entries. *)
Definition skipped (prefix : string) (dir : Dir) (filename : string) : bool :=
  is_symlink filename dir || negb (starts_with prefix filename) ||
  negb (ends_with ".json" filename).
Fixpoint collect (prefix : string) (dir : Dir) (entries : list string) (versions : list Artifact) :
    outcome (list Artifact) :=
  match entries with
  | [] => Ret versions
  | filename :: entries =>
      if skipped prefix dir filename then collect prefix dir entries versions
      else
        artifact ← read_artifact filename dir;
        assert_true (bool_decide (keccak256 (deployed_bytecode artifact) = artifact_hash artifact));;
        collect prefix dir entries (versions ++ [artifact])
  end.

(** The sort is stable, as [sort_by_key] is. *)
Definition older (a b : Artifact) : Prop := version_le (version a) (version b).
#[local] Instance older_dec : RelDecision older := λ a b, decide (version_le (version a) (version b)).
Definition collect_versioned_artifacts (dir : Dir) (prefix : string) : outcome (list Artifact) :=
  entries ← expect (read_dir dir);
  versions ← collect prefix dir entries [];
  Ret (merge_sort older versions).

(** ** The generated file, line by line *)
Definition quote : string := String (ascii_of_nat 34) EmptyString.
Definition const_name (a : Artifact) : string := "V" +:+ replace_dots (version_to_string (version a)).
Definition code_line (a : Artifact) : string :=
  "pub const " +:+ const_name a +:+ "_CODE: Bytes = bytes!(" +:+ quote +:+
    hex_encode (deployed_bytecode a) +:+ quote +:+ ");".
Definition code_hash_line (a : Artifact) : string :=
  "pub const " +:+ const_name a +:+ "_CODE_HASH: B256 = b256!(" +:+ quote +:+
    hex_b256 (artifact_hash a) +:+ quote +:+ ");".
Definition artifact_lines (config : ContractConfig) (a : Artifact) : list string :=
  [ "/// `" +:+ cc_name config +:+ "` contract bytecode v" +:+ version_to_string (version a);
    code_line a;
    "/// `" +:+ cc_name config +:+ "` contract code hash v" +:+ version_to_string (version a);
    code_hash_line a; EmptyString ].
Definition generate_rust_constants (config : ContractConfig) (versions : list Artifact)
    (latest : Artifact) : list string :=
  [ "// Auto-generated " +:+ cc_name config +:+ " contract bytecode constants.";
    "// DO NOT EDIT - generated by build.rs from artifacts/"; EmptyString;
    "use alloy_primitives::{bytes, b256, Bytes, B256};"; EmptyString ] ++
  concat (map (artifact_lines config) versions) ++
  [ "/// Latest `" +:+ cc_name config +:+ "` contract bytecode";
    "pub const LATEST_CODE: Bytes = " +:+ const_name latest +:+ "_CODE;";
    "/// Latest `" +:+ cc_name config +:+ "` contract code hash";
    "pub const LATEST_CODE_HASH: B256 = " +:+ const_name latest +:+ "_CODE_HASH;" ].

(** ** [main] *)
Abbreviation Out := (gmap string (list string)).
Definition process_contract (config : ContractConfig) (dir : Dir) (out : Out) :
    outcome (Dir * Out) :=
  '(dir, latest) ← validate_contract_bytecode config dir;
  let prefix := cc_name config +:+ "-" in
  versions ← collect_versioned_artifacts dir prefix;
  Ret (dir, <[output_file config := generate_rust_constants config versions latest]> out).
Fixpoint process_contracts (configs : list ContractConfig) (dir : Dir) (out : Out) :
    outcome (Dir * Out) :=
  match configs with
  | [] => Ret (dir, out)
  | config :: configs =>
      '(dir, out) ← process_contract config dir out;
      process_contracts configs dir out
  end.

Definition rerun_if_changed (crate_dir file : string) : string :=
  "cargo::rerun-if-changed=" +:+ crate_dir +:+ "/" +:+ file.
Definition rerun_triggers (crate_dir : string) : list string :=
  concat (map (λ config,
    [ rerun_if_changed crate_dir ("contracts/" +:+ cc_name config +:+ ".sol");
      rerun_if_changed crate_dir ("artifacts/" +:+ cc_name config +:+ "-latest.json") ]) contracts) ++
  [ rerun_if_changed crate_dir "foundry.toml" ].

(** The lines for cargo, the directory and the generated files. *)
Definition main (manifest_dir out_dir : option string) (dir : Dir) :
    outcome (list string * Dir * Out) :=
  crate_dir ← expect manifest_dir;
  _ ← expect out_dir;
  assert_true (bool_decide (forge_version = Some true));;
  '(dir, out) ← process_contracts contracts dir ∅;
  Ret (rerun_triggers crate_dir, dir, out).

(** ** What a build that succeeds has checked *)
Context `{!Transitive version_le, !Total version_le}
  (read_dir_entries : ∀ dir l, read_dir dir = Some l → l ≡ₚ elements (dom dir)).

#[local] Instance older_trans : Transitive older.
Proof. intros a b c. unfold older. apply transitivity. Qed.
#[local] Instance older_total : Total older.
Proof. intros a b. apply (total version_le). Qed.

(** The artifacts of a contract: the regular files that are named after it. *)
Definition artifact_of (prefix : string) (dir : Dir) (filename : string) : option Artifact :=
  if skipped prefix dir filename then None
  else read_to_string filename dir ≫= from_str.

Lemma read_artifact_Ret name dir a :
  read_artifact name dir = Ret a ↔ read_to_string name dir ≫= from_str = Some a.
Proof.
  unfold read_artifact. rewrite bind_Ret. setoid_rewrite expect_Ret.
  destruct (read_to_string name dir); simpl; naive_solver.
Qed.

Lemma collect_spec prefix dir entries : ∀ versions l,
  collect prefix dir entries versions = Ret l →
  l = versions ++ omap (artifact_of prefix dir) entries ∧
  (Forall (λ a, keccak256 (deployed_bytecode a) = artifact_hash a) versions →
   Forall (λ a, keccak256 (deployed_bytecode a) = artifact_hash a) l).
Proof.
  induction entries as [|f entries IH]; intros versions l; simpl.
  { intros [= <-]. by rewrite app_nil_r. }
  unfold artifact_of at 1. destruct (skipped _ _ f); [apply IH|].
  rewrite bind_Ret. intros (a&Ha&Hl). apply read_artifact_Ret in Ha. rewrite Ha.
  apply bind_Ret in Hl as (?&Hk%assert_true_Ret%bool_decide_eq_true&Hl).
  apply IH in Hl as [Hl Hf]. subst l. rewrite <-app_assoc in *. split; [done|].
  intros Hv. apply Hf. apply Forall_app_2; [done|by repeat constructor].
Qed.

Lemma list_ascii_app s1 s2 :
  String.list_ascii_of_string (s1 +:+ s2) =
  String.list_ascii_of_string s1 ++ String.list_ascii_of_string s2.
Proof. induction s1 as [|c s1 IH]; [done|]. exact (f_equal (cons c) IH). Qed.
Lemma starts_with_app p s : starts_with p (p +:+ s) = true.
Proof. apply bool_decide_eq_true. rewrite list_ascii_app. by eexists. Qed.
Lemma ends_with_app p s : ends_with p (s +:+ p) = true.
Proof. apply bool_decide_eq_true. rewrite list_ascii_app. by eexists. Qed.
Lemma string_app_assoc (s1 s2 s3 : string) : (s1 +:+ s2) +:+ s3 = s1 +:+ s2 +:+ s3.
Proof. induction s1 as [|c s1 IH]; [done|]. exact (f_equal (String c) IH). Qed.

Lemma latest_name c : cc_name c +:+ "-latest.json" = (cc_name c +:+ "-latest") +:+ ".json".
Proof. by rewrite string_app_assoc. Qed.
Lemma latest_prefix c : cc_name c +:+ "-latest.json" = (cc_name c +:+ "-") +:+ "latest.json".
Proof. by rewrite string_app_assoc. Qed.
Lemma not_generated c f : starts_with (cc_name c +:+ "-") f = true → f ≠ cc_name c +:+ ".json".
Proof.
  intros Hf%bool_decide_eq_true ->. rewrite !list_ascii_app in Hf.
  by apply prefix_app_inv, prefix_cons_inv_1 in Hf.
Qed.

(** The entry that [-latest.json] is read from: itself, or the versioned file it links to. *)
Definition latest_entry (c : ContractConfig) (dir : Dir) : option string :=
  let latest := cc_name c +:+ "-latest.json" in
  match dir !! latest with
  | Some (File _) => Some latest
  | Some (Symlink target) =>
      match dir !! target with
      | Some (File _) =>
          if starts_with (cc_name c +:+ "-") target && ends_with ".json" target then Some target
          else None
      | _ => None
      end
  | None => None
  end.

Lemma latest_is_versioned c dir f a :
  latest_entry c dir = Some f →
  read_artifact (cc_name c +:+ "-latest.json") dir = Ret a →
  f ∈ dom (delete (cc_name c +:+ ".json") dir) ∧
  artifact_of (cc_name c +:+ "-") (delete (cc_name c +:+ ".json") dir) f = Some a.
Proof.
  rewrite read_artifact_Ret. unfold latest_entry, read_to_string. intros Hf Ha.
  assert (∃ content, dir !! f = Some (File content) ∧ from_str content = Some a ∧
    starts_with (cc_name c +:+ "-") f = true ∧ ends_with ".json" f = true)
    as (content&Hd&Hc&Hs&He).
  { cbn [read_through] in Ha. destruct (dir !! (cc_name c +:+ _)) as [[content|t]|] eqn:Hl.
    - simplify_eq. exists content. repeat split; [done..| |].
      + rewrite latest_prefix. apply starts_with_app.
      + rewrite latest_name. apply ends_with_app.
    - destruct (dir !! t) as [[content|]|] eqn:Ht; try done.
      destruct (starts_with _ t) eqn:Hs, (ends_with _ t) eqn:He; simplify_eq/=.
      eauto.
    - done. }
  assert (delete (cc_name c +:+ ".json") dir !! f = Some (File content)) as Hf'.
  { rewrite lookup_delete_ne; [done|]. by apply not_eq_sym, not_generated. }
  split; [apply elem_of_dom; eauto|].
  unfold artifact_of, skipped, is_symlink, read_to_string. cbn [read_through].
  rewrite Hf', Hs, He. done.
Qed.

(** What is known of the file that is generated for a contract, made by a build whose
    directory was [dir] when the contract's turn came. *)
Definition validated (c : ContractConfig) (dir : Dir) (lines : list string) : Prop :=
  ∃ dir1 generated latest versions,
    forge_script (script_path c) dir = (dir1, Some true) ∧
    read_artifact (cc_name c +:+ ".json") dir1 = Ret generated ∧
    read_artifact (cc_name c +:+ "-latest.json") dir1 = Ret latest ∧
    artifact_hash generated = artifact_hash latest ∧
    lines = generate_rust_constants c versions latest ∧
    let dir2 := delete (cc_name c +:+ ".json") dir1 in
    versions ≡ₚ omap (artifact_of (cc_name c +:+ "-") dir2) (elements (dom dir2)) ∧
    StronglySorted older versions ∧
    Forall (λ a, keccak256 (deployed_bytecode a) = artifact_hash a) versions ∧
    (is_Some (latest_entry c dir1) →
     latest ∈ versions ∧ code_line latest ∈ lines ∧ code_hash_line latest ∈ lines ∧
     keccak256 (deployed_bytecode latest) = artifact_hash generated).

Lemma line_of_version c versions latest a x :
  a ∈ versions → x ∈ artifact_lines c a → x ∈ generate_rust_constants c versions latest.
Proof.
  intros Ha Hx. unfold generate_rust_constants. rewrite !elem_of_app. right. left.
  apply list_elem_of_In, in_concat. exists (artifact_lines c a).
  split; [|by apply list_elem_of_In]. apply in_map. by apply list_elem_of_In.
Qed.

Lemma process_contract_spec c dir out dir' out' :
  process_contract c dir out = Ret (dir', out') →
  ∃ lines, out' = <[output_file c := lines]> out ∧ validated c dir lines.
Proof using All.
  unfold process_contract, validate_contract_bytecode, collect_versioned_artifacts.
  destruct (forge_script _ dir) as [dir1 status] eqn:Hforge.
  rewrite bind_Ret. intros ([dir2 latest]&Hv&Hc).
  apply bind_Ret in Hv as (s&->%expect_Ret&Hv).
  apply bind_Ret in Hv as (?&->%assert_true_Ret&Hv).
  apply bind_Ret in Hv as (generated&Hg&Hv).
  apply bind_Ret in Hv as (expected&Hl&Hv).
  apply bind_Ret in Hv as (?&Hh%assert_true_Ret%bool_decide_eq_true&[= <- ->]).
  apply bind_Ret in Hc as (versions&Hv&[= <- <-]).
  apply bind_Ret in Hv as (entries&He%expect_Ret&Hv).
  apply bind_Ret in Hv as (l&Hcol&[= <-]). apply collect_spec in Hcol as [-> Hk]. simpl in Hk.
  specialize (Hk (Forall_nil_2 _)). apply read_dir_entries in He.
  pose proof (merge_sort_Permutation older
    (omap (artifact_of (cc_name c +:+ "-") (delete (cc_name c +:+ ".json") dir1)) entries)) as Hp.
  eexists. split; [done|].
  exists dir1, generated, latest, (merge_sort older
    (omap (artifact_of (cc_name c +:+ "-") (delete (cc_name c +:+ ".json") dir1)) entries)).
  cbv zeta. split_and!; try done.
  - etrans; [exact Hp|]. by apply omap_Permutation.
  - apply StronglySorted_merge_sort; apply _.
  - apply Forall_forall. intros a Ha. rewrite Hp in Ha. by apply (proj1 (Forall_forall _ _) Hk).
  - intros [f Hf]. destruct (latest_is_versioned c dir1 f latest Hf Hl) as [Hd Ha].
    assert (latest ∈ omap (artifact_of (cc_name c +:+ "-")
      (delete (cc_name c +:+ ".json") dir1)) entries) as Hin.
    { apply list_elem_of_omap. exists f. split; [|done]. rewrite He. by apply elem_of_elements. }
    assert (keccak256 (deployed_bytecode latest) = artifact_hash latest) as Hkl
      by exact (proj1 (Forall_forall _ _) Hk latest Hin).
    rewrite Hp. split_and!; [done| | |congruence];
      (eapply line_of_version; [rewrite Hp; exact Hin|]); unfold artifact_lines; set_solver.
Qed.

Lemma process_contracts_spec configs : ∀ dir out dir' out',
  NoDup (map output_file configs) →
  process_contracts configs dir out = Ret (dir', out') →
  (∀ f, f ∉ map output_file configs → out' !! f = out !! f) ∧
  ∀ c, c ∈ configs → ∃ dir0 lines, out' !! output_file c = Some lines ∧ validated c dir0 lines.
Proof using All.
  induction configs as [|c configs IH]; intros dir out dir' out'; cbn [process_contracts map].
  { intros _ [= <- <-]. split; [done|]. set_solver. }
  rewrite NoDup_cons, bind_Ret. intros [Hn Hnd] ([dir1 out1]&Hc&Hr).
  apply process_contract_spec in Hc as (lines&->&Hv).
  destruct (IH _ _ _ _ Hnd Hr) as [Hout Hall]. split.
  - intros f [Hf ?]%not_elem_of_cons. rewrite Hout by done. by rewrite lookup_insert_ne.
  - intros c' [->|Hc']%elem_of_cons; [|by apply Hall].
    exists dir, lines. split; [|done]. rewrite Hout by done. by rewrite lookup_insert_eq.
Qed.

(** A build that succeeds leaves one file of constants per contract.  Its constants are
    those of the versioned artifacts in the order of their versions, each with the hash of
    its code, and when the latest artifact is a versioned file, or a link to one, the
    constants it names are in the file and its code has the hash of what was compiled. *)
Theorem build_is_validated manifest_dir out_dir dir log dir' out :
  main manifest_dir out_dir dir = Ret (log, dir', out) →
  dom out = list_to_set (map output_file contracts) ∧
  ∀ c, c ∈ contracts → ∃ dir0 lines, out !! output_file c = Some lines ∧ validated c dir0 lines.
Proof using All.
  unfold main. rewrite bind_Ret. intros (crate&_&H).
  apply bind_Ret in H as (?&_&H). apply bind_Ret in H as (?&_&H).
  apply bind_Ret in H as ([dir1 out1]&Hp&[= <- <- <-]).
  apply process_contracts_spec in Hp as [Hout Hall]; [|by apply (bool_decide_unpack _)].
  split; [|done]. apply set_eq. intros f. rewrite elem_of_list_to_set, elem_of_dom.
  destruct (decide (f ∈ map output_file contracts)) as [Hf|Hf].
  - split; [done|]. intros _. apply list_elem_of_In, in_map_iff in Hf as (c&<-&Hc).
    destruct (Hall c) as (?&?&->&_); [by apply list_elem_of_In|done].
  - rewrite Hout, lookup_empty by done. split; [by intros []|done].
Qed.
End build.

(** ** Builds *)
Module Examples.
(** Versions are minor numbers, an artifact of one byte is its text, and the hash of a code
    is its length; the compiler writes what [compiled] says. *)
Definition read_json (s : string) : option (ContractArtifact nat) :=
  if bool_decide (s = "one") then Some (mkArtifact 0%nat 1 [Byte.x01])
  else if bool_decide (s = "two") then Some (mkArtifact 1%nat 2 [Byte.x01; Byte.x02])
  else if bool_decide (s = "forged") then Some (mkArtifact 1%nat 2 [Byte.x01])
  else None.
Definition show_version (v : nat) : string := if bool_decide (v = 0%nat) then "1.0.0" else "1.1.0".
Definition forge (compiled : string) (path : string) (dir : Dir) : Dir * option bool :=
  match list_find (λ c, script_path c = path) contracts with
  | Some (_, c) => (<[cc_name c +:+ ".json" := File compiled]> dir, Some true)
  | None => (dir, Some false)
  end.
Definition list_dir (dir : Dir) : option (list string) := Some (elements (dom dir)).
Definition build (compiled : string) (dir : Dir) :=
  main le show_version read_json (λ l, Z.of_nat (length l)) (λ _, "c0de") (λ _, "4a54")
    list_dir (forge compiled) (Some true) (Some "repo") (Some "out") dir.
Definition artifacts (two : string) : Dir :=
  list_to_map (concat (map (λ c,
    [ (cc_name c +:+ "-1.0.0.json", File "one"); (cc_name c +:+ "-1.1.0.json", File two);
      (cc_name c +:+ "-latest.json", Symlink (cc_name c +:+ "-1.1.0.json")) ]) contracts)).

Definition output (name : string) (r : outcome (list string * Dir * gmap string (list string))) :
    list string :=
  match r with Ret (_, _, out) => default [] (out !! name) | Panic => [] end.
Definition succeeds {A} (r : outcome A) : bool := match r with Ret _ => true | Panic => false end.

(** The build of matching artifacts names the second version the latest. *)
Example build_of_artifacts :
  drop 15 (output "oracle_artifacts.rs" (build "two" (artifacts "two"))) =
    [ "/// Latest `Oracle` contract bytecode"; "pub const LATEST_CODE: Bytes = V1_1_0_CODE;";
      "/// Latest `Oracle` contract code hash";
      "pub const LATEST_CODE_HASH: B256 = V1_1_0_CODE_HASH;" ].
Proof. vm_compute. reflexivity. Qed.

(** An artifact that is not what was compiled, or whose hash is not that of its code,
    stops it. *)
Example builds_that_stop :
  succeeds (build "two" (artifacts "two")) = true ∧
  succeeds (build "one" (artifacts "two")) = false ∧
  succeeds (build "forged" (artifacts "forged")) = false.
Proof. vm_compute. done. Qed.

Lemma build_is_validated_witness : ∃ log dir out,
  build "two" (artifacts "two") = Ret (log, dir, out) ∧
  dom out = list_to_set (map output_file contracts).
Proof.
  destruct (build "two" (artifacts "two")) as [[[log dir] out]|] eqn:Hb.
  - exists log, dir, out. split; [done|].
    eapply (build_is_validated le show_version read_json (λ l, Z.of_nat (length l)) (λ _, "c0de")
      (λ _, "4a54") list_dir (forge "two") (Some true)); [by intros ? ? [= <-]|exact Hb].
  - pose proof (proj1 builds_that_stop) as Ho. by rewrite Hb in Ho.
Defined.
End Examples.
