(* ===== verification/Mains.v ===== *)
(** * The entry points of the tools

    Models [bin/mega-evme/src/cmd.rs], [main.rs] and [common/logging.rs], which run one of
    the four commands, and [crates/state-test/src/main.rs] with the search for test files of
    its [runner.rs].  The commands themselves are modelled in [T8n.v], [Commands.v] and
    [Replay.v]; here they are variables that change a world of files and terminals. *)
From Stdlib Require Import Ascii.
From stdpp Require Import relations.
From S2P Require Import Prelude Deps Evme T8n StateTest StateRunner.
Open Scope rust_scope.
Open Scope string_scope.
Open Scope list_scope.

(** ** Logging *)
Record LogArgs := mkLogArgs {
  verbose : nat;
  log_file : option string;
  log_no_color : bool;
}.
Inductive Level := ERROR | WARN | INFO | DEBUG | TRACE.
Definition level_to_string (l : Level) : string :=
  match l with
  | ERROR => "ERROR" | WARN => "WARN" | INFO => "INFO" | DEBUG => "DEBUG" | TRACE => "TRACE"
  end.
Inductive EnvFilter := FromDefaultEnv | Directives (s : string).
Inductive Writer := ToFile (path : string) | Stderr.
Record Subscriber := mkSubscriber {
  with_env_filter : EnvFilter;
  with_target : bool;
  with_writer : Writer;
  with_ansi : bool;
}.

Definition level_of (verbose : nat) : Level :=
  match verbose with 1 => ERROR | 2 => WARN | 3 => INFO | 4 => DEBUG | _ => TRACE end.
Definition log_filter (rust_log : bool) (self : LogArgs) : EnvFilter :=
  if rust_log then FromDefaultEnv
  else if bool_decide (verbose self = 0) then Directives "off"
  else
    let level := level_to_string (level_of (verbose self)) in
    Directives ("mega_evme=" +:+ level +:+ ",mega_evm=" +:+ level).

(** [init]: [created] is what creating the log file answers.  What goes to the terminal,
    and the subscriber. *)
Definition log_init (rust_log : bool) (created : string → result () string) (self : LogArgs) :
    list string * Subscriber :=
  let filter := log_filter rust_log self in
  let show_target := bool_decide (4 ≤ verbose self)%nat in
  match log_file self with
  | Some path =>
      match created path with
      | Ok _ => ([], mkSubscriber filter show_target (ToFile path) false)
      | Err e =>
          (["Failed to create log file '" +:+ path +:+ "': " +:+ e],
           mkSubscriber filter show_target Stderr (negb (log_no_color self)))
      end
  | None => ([], mkSubscriber filter show_target Stderr (negb (log_no_color self)))
  end.

(** ** [mega-evme] *)
Inductive Command (T8nCmd RunCmd TxCmd ReplayCmd : Type) :=
  | CmdT8n (cmd : T8nCmd)
  | CmdRun (cmd : RunCmd)
  | CmdTx (cmd : TxCmd)
  | CmdReplay (cmd : ReplayCmd).
Arguments CmdT8n {T8nCmd RunCmd TxCmd ReplayCmd}.
Arguments CmdRun {T8nCmd RunCmd TxCmd ReplayCmd}.
Arguments CmdTx {T8nCmd RunCmd TxCmd ReplayCmd}.
Arguments CmdReplay {T8nCmd RunCmd TxCmd ReplayCmd}.

Inductive MainError :=
  | ErrCustom (s : string)
  | ErrEvme (e : EvmeError)
  | ErrT8n (e : T8nError).

Definition t8n_error_to_string (e : T8nError) : string :=
  match e with
  | InputLoad file source => "Failed to load input file '" +:+ file +:+ "': " +:+ source
  | JsonParse file source => "Failed to parse JSON from '" +:+ file +:+ "': " +:+ source
  | EvmExecution e => "EVM execution failed: " +:+ e
  | OutputWrite file source => "Failed to write output file '" +:+ file +:+ "': " +:+ source
  | InvalidFork e => "Invalid fork specification: " +:+ e
  | InvalidTransaction e => "Invalid transaction data: " +:+ e
  end.
Definition map_err {A E E'} (f : E → E') (r : result A E) : result A E' :=
  match r with Ok a => Ok a | Err e => Err (f e) end.

(** An expression that may return from the function around it. *)
Inductive flow (A R : Type) := Value (a : A) | Return (r : R).
Arguments Value {A R}.
Arguments Return {A R}.
(** How a function ends: it returns, or the process exits. *)
Inductive ending (R : Type) := Returned (r : R) | Exited (code : Z).
Arguments Returned {R}.
Arguments Exited {R}.

Section evme.
Context {T8nCmd RunCmd TxCmd ReplayCmd W : Type}
  (t8n_run : T8nCmd → W → outcome (W * result () T8nError))
  (run_run : RunCmd → W → outcome (W * result () EvmeError))
  (tx_run : TxCmd → W → outcome (W * result () EvmeError))
  (replay_run : ReplayCmd → W → outcome (W * result () EvmeError))
  (log_error println eprintln : string → W → W)
  (error_to_string error_debug : MainError → string)
  (init : LogArgs → W → W).

Record MainCmd := mkMainCmd {
  log : LogArgs;
  command : Command T8nCmd RunCmd TxCmd ReplayCmd;
}.

(** An arm: [?] returns an error from [run]; otherwise the arm is [Ok(())]. *)
Definition arm (r : result () MainError) : flow (result () MainError) (result () MainError) :=
  match r with Err e => Return (Err e) | Ok _ => Value (Ok tt) end.
Definition run_command (c : Command T8nCmd RunCmd TxCmd ReplayCmd) (w : W) :
    outcome (W * flow (result () MainError) (result () MainError)) :=
  match c with
  | CmdT8n cmd =>
      '(w, r) ← t8n_run cmd w;
      Ret (w, arm (map_err (λ e, ErrEvme (EvmeOther (t8n_error_to_string e))) r))
  | CmdRun cmd => '(w, r) ← run_run cmd w; Ret (w, arm (map_err ErrEvme r))
  | CmdTx cmd => '(w, r) ← tx_run cmd w; Ret (w, arm (map_err ErrEvme r))
  | CmdReplay cmd => '(w, r) ← replay_run cmd w; Ret (w, arm (map_err ErrEvme r))
  end.

(** The closure of [inspect_err], which exits. *)
Definition report_and_exit (r : result () MainError) (w : W) :
    W * ending (result () MainError) :=
  match r with
  | Err e => (eprintln (error_to_string e) (log_error "Error executing command" w), Exited 1)
  | Ok _ => (w, Returned r)
  end.
Definition main_cmd_run (self : MainCmd) (w : W) : outcome (W * ending (result () MainError)) :=
  '(w, f) ← run_command (command self) (init (log self) w);
  Ret match f with
      | Return r => (w, Returned r)
      | Value r => report_and_exit r w
      end.

(** [main]: an error that it returns is printed by the standard library, with status 1. *)
Definition main (self : MainCmd) (w : W) : outcome (W * Z) :=
  '(w, r) ← main_cmd_run self w;
  Ret match r with
      | Exited code => (w, code)
      | Returned (Ok _) => (w, 0%Z)
      | Returned (Err e) =>
          let w := println (error_debug e) w in
          (eprintln ("Error: " +:+ error_debug e) w, 1%Z)
      end.

(** The errors of the commands as [main] sees them. *)
Definition command_result (c : Command T8nCmd RunCmd TxCmd ReplayCmd) (w : W) :
    outcome (W * result () MainError) :=
  match c with
  | CmdT8n cmd =>
      '(w, r) ← t8n_run cmd w;
      Ret (w, map_err (λ e, ErrEvme (EvmeOther (t8n_error_to_string e))) r)
  | CmdRun cmd => '(w, r) ← run_run cmd w; Ret (w, map_err ErrEvme r)
  | CmdTx cmd => '(w, r) ← tx_run cmd w; Ret (w, map_err ErrEvme r)
  | CmdReplay cmd => '(w, r) ← replay_run cmd w; Ret (w, map_err ErrEvme r)
  end.

Lemma run_command_arm c w :
  run_command c w = ('(w, r) ← command_result c w; Ret (w, arm r)).
Proof.
  destruct c as [cmd|cmd|cmd|cmd]; cbn;
    [destruct (t8n_run cmd w) as [[]|]|destruct (run_run cmd w) as [[]|]
    |destruct (tx_run cmd w) as [[]|]|destruct (replay_run cmd w) as [[]|]]; reflexivity.
Qed.

(** A command that fails is reported by [main] alone, in its debug form on both terminals,
    and the status is 1: the closure that prints the error and exits never runs, since every
    arm has returned by then. *)
Theorem errors_are_reported_by_main self w :
  main self w =
    '(w, r) ← command_result (command self) (init (log self) w);
    Ret match r with
        | Ok _ => (w, 0%Z)
        | Err e => (eprintln ("Error: " +:+ error_debug e) (println (error_debug e) w), 1%Z)
        end.
Proof.
  unfold main, main_cmd_run. rewrite run_command_arm.
  destruct (command_result _ _) as [[w' [[]|e]]|]; reflexivity.
Qed.
End evme.

(** ** [state-test] *)
(** [Path::extension] of a file name: what follows its last dot, unless that is its first
    character; [..] has none. *)
Fixpoint after_last_dot (s : list Ascii.ascii) : option (list Ascii.ascii) :=
  match s with
  | [] => None
  | c :: s =>
      match after_last_dot s with
      | Some ext => Some ext
      | None => if bool_decide (c = "."%char) then Some s else None
      end
  end.
Definition extension (name : string) : option string :=
  if bool_decide (name = "..") then None
  else
    match String.list_ascii_of_string name with
    | [] => None
    | _ :: s => String.string_of_list_ascii <$> after_last_dot s
    end.

Record StCmd := mkStCmd {
  paths : list string;
  st_single_thread : bool;
  st_json : bool;
  st_json_outcome : bool;
  st_keep_going : bool;
}.

Section state_test.
Context (path_exists is_file : string → bool) (file_name : string → option string)
  (walk_dir : string → list (result string ())).

Definition find_all_json_tests (path : string) : list string :=
  if is_file path then [path]
  else
    filter (λ p, file_name p ≫= extension = Some "json")
      (omap (λ e, match e with Ok p => Some p | Err _ => None end) (walk_dir path)).

(** [Cmd::run]: [run] is the verdict of the threads on the files of a path. *)
Fixpoint run_paths (run : list string → run_outcome) (ps : list string) : run_outcome :=
  match ps with
  | [] => RunOk
  | path :: ps =>
      if negb (path_exists path) then RunErr (mkTestError "Path validation" path InvalidPath)
      else
        let test_files := find_all_json_tests path in
        if bool_decide (test_files = []) then
          RunErr (mkTestError "Path validation" path NoJsonFiles)
        else
          match run test_files with
          | RunOk => run_paths run ps
          | v => v
          end
  end.
Definition st_config (self : StCmd) : TestRunnerConfig :=
  TestRunnerConfig_new (st_single_thread self) (st_json self) (st_json_outcome self)
    (st_keep_going self).
Definition st_run (run : TestRunnerConfig → list string → run_outcome) (self : StCmd) :
    run_outcome := run_paths (run (st_config self)) (paths self).

(** [main] unwraps the error; the exit of the process is one of its endings. *)
Definition st_main (run : TestRunnerConfig → list string → run_outcome) (self : StCmd) :
    outcome (ending ()) :=
  match st_run run self with
  | RunOk => Ret (Returned tt)
  | RunExit => Ret (Exited 1)
  | RunErr _ => Panic
  end.

(** The tool succeeds exactly when every path exists, has test files, and all of them pass,
    whatever the schedules are that give the verdicts. *)
Theorem state_test_succeeds (suite : string → outcome (result () TestError)) avail run self :
  avail ≠ Some 0 →
  (∀ files, ∃ c, rtc (step suite (st_config self)) (start (st_config self) avail files) c ∧
    finish c = Some (run (st_config self) files)) →
  st_main run self = Ret (Returned tt) ↔
  ∀ path, path ∈ paths self → path_exists path = true ∧ find_all_json_tests path ≠ [] ∧
    Forall (λ f, suite f = Ret (Ok ())) (find_all_json_tests path).
Proof.
  intros Ha Hrun. assert (∀ files, run (st_config self) files = RunOk ↔
    Forall (λ f, suite f = Ret (Ok ())) files) as Hpass.
  { intros files. destruct (Hrun files) as (c&Hr&Hf). by eapply verdict_passes. }
  unfold st_main, st_run. transitivity (run_paths (run (st_config self)) (paths self) = RunOk).
  { destruct (run_paths _ _); naive_solver. }
  induction (paths self) as [|p ps IH]; cbn [run_paths]; [set_solver|].
  destruct (path_exists p) eqn:He; cbn [negb].
  2:{ split; [done|]. intros Hall. destruct (Hall p); [left|congruence]. }
  case_bool_decide as Hn.
  { split; [done|]. intros Hall. destruct (Hall p) as (_&?&_); [left|done]. }
  destruct (run (st_config self) (find_all_json_tests p)) eqn:Hv.
  - rewrite IH. apply Hpass in Hv. set_solver.
  - split; [done|]. intros Hall. destruct (Hall p) as (_&_&Hf%Hpass); [left|congruence].
  - split; [done|]. intros Hall. destruct (Hall p) as (_&_&Hf%Hpass); [left|congruence].
Qed.
End state_test.
