(* ===== verification/Deserialize.v ===== *)
(** * Deserialisers of the state tests

    Models [crates/state-test/src/types/deserializer.rs] and [test_authorization.rs]: numbers
    in decimal and hexadecimal, addresses that may be empty, and authorisations that carry
    their parity twice.  What the JSON parser and [alloy] make of a value are variables; an
    error is [None], without its text. *)
From Stdlib Require Import Ascii.
From S2P Require Import Prelude Deps Evme EvmeTx.
Open Scope Z_scope.
Open Scope rust_scope.

(** ** The deserialisers *)
Definition strip_0x (s : string) : option string :=
  match s with
  | String.String "0"%char (String.String "x"%char s) => Some s
  | _ => None
  end.

(** [string] is what [String::deserialize] answers. *)
Definition deserialize_str_as_u64 (string : option string) : option Z :=
  string ← string;
  match strip_0x string with
  | Some stripped => parse_hex_u64 stripped
  | None => result_ok (parse_u64 string)
  end.

Definition deserialize_maybe_empty (address_from_str : string → option Address)
    (string : option string) : option (option Address) :=
  string ← string;
  if bool_decide (string = EmptyString) then Some None else Some <$> address_from_str string.

(** [serde_json::Value]: its object, and the value with another one. *)
Class JsonObject (Value : Type) := {
  as_object : Value → option (gmap string Value);
  set_object : gmap string Value → Value → Value;
}.
Class JsonObjectLaws (Value : Type) `{JsonObject Value} : Prop :=
  as_set_object v m m' : as_object v = Some m → as_object (set_object m' v) = Some m'.

Section authorization.
Context {Value SignedAuthorization : Type} `{JsonObject Value}
  (from_value : Value → option SignedAuthorization).

Definition remove_duplicate (value : Value) : Value :=
  match as_object value with
  | Some val =>
      if bool_decide (is_Some (val !! "v"%string)) && bool_decide (is_Some (val !! "yParity"%string))
      then set_object (delete "v"%string val) value
      else value
  | None => value
  end.
Definition deserialize_authorization (value : option Value) : option SignedAuthorization :=
  value ← value; from_value (remove_duplicate value).

(** An authorisation is never read with both of the fields, and every other field that it
    has is read as it is. *)
Theorem parity_is_read_once {laws : JsonObjectLaws Value} value m :
  as_object value = Some m →
  ∃ m', as_object (remove_duplicate value) = Some m' ∧
    ¬ (is_Some (m' !! "v"%string) ∧ is_Some (m' !! "yParity"%string)) ∧
    (∀ k, k ≠ "v"%string → m' !! k = m !! k) ∧
    (m !! "yParity"%string = None → remove_duplicate value = value).
Proof.
  intros Hm. unfold remove_duplicate. rewrite Hm.
  case_bool_decide as Hv; [case_bool_decide as Hy|]; cbn [andb].
  - exists (delete "v"%string m). split; [by eapply as_set_object|]. split.
    + rewrite lookup_delete_eq. by intros [[] _].
    + split; [intros k Hk; by rewrite lookup_delete_ne|].
      intros Hn. rewrite Hn in Hy. by destruct Hy.
  - exists m. split; [done|]. split; [by intros [_ ?]|done].
  - exists m. split; [done|]. split; [by intros [? _]|done].
Qed.
End authorization.

(** ** Numerals *)
Definition digit_char (d : Z) : ascii := ascii_of_N (Z.to_N (if d <? 10 then 48 + d else 87 + d)).
Fixpoint numeral (ds : list Z) : string :=
  match ds with [] => EmptyString | d :: ds => String.String (digit_char d) (numeral ds) end.
Definition value_from (base acc : Z) (ds : list Z) : Z := foldl (λ acc d, acc * base + d) acc ds.

Section digits.
Context (base : Z) (f : Z → string → option Z).
Hypothesis base_pos : 0 < base.
Hypothesis f_nil : ∀ acc, f acc EmptyString = Some acc.
Hypothesis f_cons : ∀ acc d s, 0 ≤ d < base →
  f acc (String.String (digit_char d) s) =
    (m ← checked_mul acc base; acc ← checked_add m d; f acc s).

Lemma value_from_ge ds : ∀ acc,
  0 ≤ acc → Forall (λ d, 0 ≤ d < base) ds → acc ≤ value_from base acc ds.
Proof using base_pos.
  induction ds as [|d ds IH]; intros acc Ha Hds; [done|]. apply Forall_cons in Hds as [Hd Hds].
  cbn. etrans; [|apply IH; [nia|done]]. nia.
Qed.

(** The digits are read to their value when it fits, and not at all otherwise. *)
Lemma read_digits ds : ∀ acc,
  0 ≤ acc ≤ u64_max → Forall (λ d, 0 ≤ d < base) ds →
  f acc (numeral ds) =
    if decide (value_from base acc ds ≤ u64_max) then Some (value_from base acc ds) else None.
Proof using All.
  induction ds as [|d ds IH]; intros acc Ha Hds; cbn [numeral].
  { rewrite f_nil. cbn. by rewrite decide_True by lia. }
  apply Forall_cons in Hds as [Hd Hds]. rewrite f_cons by done. cbn [value_from foldl].
  pose proof (value_from_ge ds (acc * base + d) ltac:(nia) Hds) as Hge.
  unfold checked_mul, checked_add. case_decide; cbn.
  - case_decide; cbn; [by apply IH; [nia|]|].
    rewrite decide_False; [done|]. unfold value_from in Hge. lia.
  - rewrite decide_False; [done|]. unfold value_from in Hge. lia.
Qed.
End digits.

(** Facts about the sixteen digits, each by evaluation. *)
Lemma all_digits (P : Z → Prop) n : Forall P (seqZ 0 n) → ∀ d, 0 ≤ d < n → P d.
Proof. intros Hall d Hd. rewrite Forall_forall in Hall. apply Hall, elem_of_seqZ. lia. Qed.

Lemma hex_digit_char d : 0 ≤ d < 16 → hex_digit_of (digit_char d) = Some d.
Proof. apply (all_digits (λ d, hex_digit_of (digit_char d) = Some d) 16). repeat constructor. Qed.
Lemma digit_of_char d : 0 ≤ d < 10 → digit_of (digit_char d) = Some d.
Proof. apply (all_digits (λ d, digit_of (digit_char d) = Some d) 10). repeat constructor. Qed.
Lemma parse_hex_first d : 0 ≤ d < 16 → ∀ s,
  parse_hex_u64 (String.String (digit_char d) s) = parse_hex_digits 0 (String.String (digit_char d) s).
Proof.
  apply (all_digits (λ d, ∀ s, parse_hex_u64 (String.String (digit_char d) s) =
    parse_hex_digits 0 (String.String (digit_char d) s)) 16). repeat constructor.
Qed.
Lemma parse_first d : 0 ≤ d < 10 → ∀ s,
  parse_u64 (String.String (digit_char d) s) = parse_digits 0 (String.String (digit_char d) s).
Proof.
  apply (all_digits (λ d, ∀ s, parse_u64 (String.String (digit_char d) s) =
    parse_digits 0 (String.String (digit_char d) s)) 10). repeat constructor.
Qed.
(** No second digit is an [x]. *)
Lemma not_0x c d : 0 ≤ d < 10 → ∀ s,
  strip_0x (String.String c (String.String (digit_char d) s)) = None.
Proof.
  apply (all_digits (λ d, ∀ s, strip_0x (String.String c (String.String (digit_char d) s)) = None) 10).
  destruct c as [[] [] [] [] [] [] [] []]; repeat constructor.
Qed.
Lemma no_prefix ds : Forall (λ d, 0 ≤ d < 10) ds → strip_0x (numeral ds) = None.
Proof.
  intros Hds. destruct ds as [|d [|d' ds]]; [done| |].
  - cbn. generalize (digit_char d). by intros [[] [] [] [] [] [] [] []].
  - apply Forall_cons in Hds as [_ [Hd _]%Forall_cons]. by apply not_0x.
Qed.

Lemma hex_reads ds :
  Forall (λ d, 0 ≤ d < 16) ds →
  parse_hex_digits 0 (numeral ds) =
    if decide (value_from 16 0 ds ≤ u64_max) then Some (value_from 16 0 ds) else None.
Proof.
  apply read_digits; [done|done| |done]. intros acc d s Hd. cbn [parse_hex_digits].
  by rewrite hex_digit_char.
Qed.
Lemma decimal_reads ds :
  Forall (λ d, 0 ≤ d < 10) ds →
  result_ok (parse_digits 0 (numeral ds)) =
    if decide (value_from 10 0 ds ≤ u64_max) then Some (value_from 10 0 ds) else None.
Proof.
  apply (read_digits 10 (λ acc s, result_ok (parse_digits acc s))); [done|done| |done].
  intros acc d s Hd. cbn [parse_digits]. rewrite digit_of_char by done.
  destruct (checked_mul acc 10) as [m|]; cbn; [|done]. by destruct (checked_add m d).
Qed.

(** Numerals of both bases are read to their value, exactly when it is a [u64]; a numeral
    without digits is an error. *)
Theorem numbers_are_read ds :
  let fits v := if decide (v ≤ u64_max) then Some v else None in
  (Forall (λ d, 0 ≤ d < 16) ds → ds ≠ [] →
    deserialize_str_as_u64 (Some ("0x" ++ numeral ds)%string) = fits (value_from 16 0 ds)) ∧
  (Forall (λ d, 0 ≤ d < 10) ds → ds ≠ [] →
    deserialize_str_as_u64 (Some (numeral ds)) = fits (value_from 10 0 ds)) ∧
  deserialize_str_as_u64 (Some EmptyString) = None ∧
  deserialize_str_as_u64 (Some "0x"%string) = None.
Proof.
  cbv zeta. split_and!; [| |done|done].
  - intros Hds Hne. rewrite <-hex_reads by done. destruct ds as [|d ds]; [done|].
    apply Forall_cons in Hds as [Hd _]. exact (parse_hex_first d Hd (numeral ds)).
  - intros Hds Hne. rewrite <-decimal_reads by done. destruct ds as [|d ds]; [done|].
    unfold deserialize_str_as_u64. cbn [mbind option_bind]. rewrite no_prefix by done.
    apply Forall_cons in Hds as [Hd _]. exact (f_equal result_ok (parse_first d Hd (numeral ds))).
Qed.
