(* ===== verification/UnitTests.v ===== *)
(** * The unit tests of the source, on the model

    Each test module of the source that needs no run of [revm] is a list of checks of the
    definitions here, with the name, the inputs and the expectations of the source, and a
    proof that all of them hold.  A model that answered otherwise than the program on an
    input the program's own tests use would be found here.  This file has the tests of
    the specs, the flags, the halt reasons, the hardforks and the errors of limits;
    [UnitTestsState] has those of states and databases, [UnitTestsBlock] those
    of contexts and blocks. *)
From Stdlib Require Import Strings.Byte.
From S2P Require Import Prelude Spec Deps Volatile LimitTypes Hardfork BlockLimit TestUtils.
Open Scope Z_scope.
Open Scope rust_scope.
#[local] Set Warnings "-notation-for-abbreviation".

(** A test is the list of its assertions. *)
Definition passes (asserts : list bool) : bool := forallb id asserts.
Definition assert_eq {A} `{EqDecision A} (a b : A) : bool := bool_decide (a = b).
Definition assert_ne {A} `{EqDecision A} (a b : A) : bool := negb (assert_eq a b).

(** ** [access/volatile.rs] *)
Module volatile.
Import VolatileDataAccess.
#[local] Existing Instances reference_bitflags checked_build.
Notation union := (foldr Z.lor empty).

Definition test_empty_access_has_no_flags : bool :=
  let access := empty in
  passes [negb (has_block_env_access access); negb (has_beneficiary_balance_access access);
    negb (has_oracle_access access); assert_eq (count_block_env_accessed access) 0;
    assert_eq (count_accessed access) 0; assert_eq (block_env_only access) empty;
    assert_eq (raw access) 0].

Definition test_block_env_helpers_ignore_non_block_flags : bool :=
  let access := union [TIMESTAMP; BLOB_HASH; BENEFICIARY_BALANCE; ORACLE] in
  passes [has_block_env_access access; has_beneficiary_balance_access access;
    has_oracle_access access; assert_eq (count_block_env_accessed access) 2;
    assert_eq (count_accessed access) 2;
    assert_eq (block_env_only access) (union [TIMESTAMP; BLOB_HASH]);
    assert_eq (raw access) access].

Definition test_from_volatile_data_access_type_covers_all_variants : bool :=
  let expected := [(BlockNumber, BLOCK_NUMBER); (Timestamp, TIMESTAMP); (Coinbase, COINBASE);
    (Difficulty, DIFFICULTY); (GasLimit, GAS_LIMIT); (BaseFee, BASE_FEE);
    (PrevRandao, PREV_RANDAO); (BlockHash, BLOCK_HASH); (BlobBaseFee, BLOB_BASE_FEE);
    (BlobHash, BLOB_HASH); (Beneficiary, BENEFICIARY_BALANCE); (Oracle, ORACLE)] in
  forallb (λ '(access_type, expected_flag),
    let converted := from_type access_type in
    passes [assert_eq converted expected_flag;
            assert_eq (as_u8 converted) (as_u8 expected_flag)]) expected.

Definition test_all_block_env_flags_counted_correctly : bool :=
  let all_block_env := union [BLOCK_NUMBER; TIMESTAMP; COINBASE; DIFFICULTY; GAS_LIMIT; BASE_FEE;
    PREV_RANDAO; BLOCK_HASH; BLOB_BASE_FEE; BLOB_HASH] in
  passes [assert_eq (count_block_env_accessed all_block_env) 10;
    has_block_env_access all_block_env; negb (has_beneficiary_balance_access all_block_env);
    negb (has_oracle_access all_block_env);
    assert_eq (block_env_only all_block_env) all_block_env].

Lemma volatile_tests_pass : passes [test_empty_access_has_no_flags;
  test_block_env_helpers_ignore_non_block_flags;
  test_from_volatile_data_access_type_covers_all_variants;
  test_all_block_env_flags_counted_correctly] = true.
Proof. vm_compute. reflexivity. Qed.
End volatile.

(** ** [evm/spec.rs] *)
Module spec.
Definition ALL_SPECS : list (MegaSpecId * string) :=
  [(EQUIVALENCE, name.EQUIVALENCE); (MINI_REX, name.MINI_REX); (REX, name.REX);
   (REX1, name.REX1); (REX2, name.REX2); (REX3, name.REX3); (REX4, name.REX4)].

(** [to_string] prints the name. *)
Definition test_spec_names_roundtrip_and_display : bool :=
  forallb (λ '(spec, expected_name),
    passes [assert_eq (spec_to_str spec) expected_name;
      match spec_from_str expected_name with Ok s => assert_eq s spec | Err _ => false end])
    ALL_SPECS &&
  assert_eq MegaSpecId.default REX4 &&
  match spec_from_str "unknown" with Err UnknownHardfork_ => true | Ok _ => false end.

(** The hardforks of optimism and ethereum, by the two that matter. *)
Definition test_all_specs_map_to_isthmus_and_prague : bool :=
  let op_into_eth (op : string) := if decide (op = "ISTHMUS") then "PRAGUE" else "?" in
  forallb (λ '(spec, _),
    passes [assert_eq (MegaSpecId.into_op_spec "ISTHMUS" spec) "ISTHMUS";
      assert_eq (MegaSpecId.into_eth_spec "ISTHMUS" op_into_eth spec) "PRAGUE"])%string ALL_SPECS.

Definition test_spec_order_is_backward_compatible : bool :=
  passes [MegaSpecId.is_enabled REX4 REX3; MegaSpecId.is_enabled REX4 EQUIVALENCE;
    MegaSpecId.is_enabled MINI_REX EQUIVALENCE; MegaSpecId.is_enabled REX2 REX1;
    negb (MegaSpecId.is_enabled EQUIVALENCE MINI_REX);
    negb (MegaSpecId.is_enabled REX1 REX2); negb (MegaSpecId.is_enabled REX3 REX4)].

Lemma spec_tests_pass : passes [test_spec_names_roundtrip_and_display;
  test_all_specs_map_to_isthmus_and_prague; test_spec_order_is_backward_compatible] = true.
Proof. vm_compute. reflexivity. Qed.
End spec.

(** ** [evm/result.rs]

    [op-revm]'s conversion of a halt reason succeeds on those of [revm]. *)
Module halt_reasons.
Definition op_try_into (r : OpHaltReason) : result EthHaltReason OpHaltReason :=
  match r with OpBase e => Ok e | FailedDeposit => Err r end.
Notation try_from := (MegaHaltReason.try_into_eth op_try_into).

Definition test_base_halt_reasons_convert_roundtrip : Prop :=
  let eth_reason := HaltOutOfGasBasic in
  let mega_from_eth := MegaHaltReason.from_eth eth_reason in
  let mega_from_op := MegaHaltReason.from_op (OpBase eth_reason) in
  mega_from_eth = Base (OpBase eth_reason) ∧ mega_from_op = Base (OpBase eth_reason) ∧
  try_from mega_from_eth = Ok eth_reason ∧ try_from mega_from_op = Ok eth_reason.

Definition test_mega_specific_halt_reasons_do_not_convert_to_eth : Prop :=
  let reason := VolatileDataAccessOutOfGas VolatileDataAccess.ORACLE 100 101 in
  try_from reason = Err reason.

Definition test_op_specific_halt_reason_does_not_convert_to_eth : Prop :=
  let op_reason := FailedDeposit in
  let mega := MegaHaltReason.from_op op_reason in
  mega = Base op_reason ∧ ∃ e, try_from mega = Err e.

Definition test_all_mega_specific_variants_fail_eth_conversion : Prop :=
  Forall (λ variant, ∃ e, try_from variant = Err e)
    [DataLimitExceeded 1 2; KVUpdateLimitExceeded 1 2; ComputeGasLimitExceeded 1 2;
     StateGrowthLimitExceeded 1 2; SystemTxInvalidCallee 0].

Lemma halt_reasons_tests_pass : test_base_halt_reasons_convert_roundtrip ∧
  test_mega_specific_halt_reasons_do_not_convert_to_eth ∧
  test_op_specific_halt_reason_does_not_convert_to_eth ∧
  test_all_mega_specific_variants_fail_eth_conversion.
Proof. repeat split; try (by eexists). repeat (constructor; [by eexists|]). constructor. Qed.
End halt_reasons.

(** ** [block/hardfork.rs] *)
Module hardfork.
Import MegaHardforkConfig.

(** The names of the macros of [alloy] are those of the variants. *)
#[local] Instance forks : ForkApi := {|
  active_at_timestamp := reference_active;
  ethereum_name f := match f with
    | Frontier => "Frontier" | Homestead => "Homestead" | Dao => "Dao" | Tangerine => "Tangerine"
    | SpuriousDragon => "SpuriousDragon" | Byzantium => "Byzantium"
    | Constantinople => "Constantinople" | Petersburg => "Petersburg" | Istanbul => "Istanbul"
    | Berlin => "Berlin" | London => "London" | Paris => "Paris" | Shanghai => "Shanghai"
    | Cancun => "Cancun" | Prague => "Prague" end%string;
  op_name f := match f with
    | Bedrock => "Bedrock" | Regolith => "Regolith" | Canyon => "Canyon" | Ecotone => "Ecotone"
    | Fjord => "Fjord" | Granite => "Granite" | Holocene => "Holocene" | Isthmus => "Isthmus"
    end%string;
  mega_name := reference_mega_name |}.
Notation with_mega fork condition := (with_ (mega_name fork) condition).
Notation ALL := [MiniRex; MiniRex1; MiniRex2; Rex; Rex1; Rex2; Rex3; Rex4].

Definition test_mega_hardfork_spec_ids_match_expected_specs : bool :=
  let cases := [(MiniRex, MINI_REX); (MiniRex1, EQUIVALENCE); (MiniRex2, MINI_REX);
    (Rex, Spec.REX); (Rex1, Spec.REX1); (Rex2, Spec.REX2); (Rex3, Spec.REX3); (Rex4, Spec.REX4)] in
  forallb (λ '(hardfork, expected_spec), assert_eq (MegaHardfork.spec_id hardfork) expected_spec)
    cases.

(** [default] is [new]. *)
Definition test_default_config_contains_upstream_forks_and_no_mega_forks : bool :=
  let config := new in
  passes [assert_eq (ethereum_fork_activation Frontier config) (ForkBlock 0);
    assert_eq (ethereum_fork_activation Prague config) (ForkTimestamp 0);
    assert_eq (op_fork_activation Isthmus config) (ForkTimestamp 0);
    assert_eq (mega_fork_activation config MiniRex) ForkNever].

Definition test_config_builder_helpers_override_and_remove_hardforks : bool :=
  let config := with_mega Rex4 (ForkTimestamp 80) (with_mega MiniRex (ForkTimestamp 10) new) in
  let config1 := insert (mega_name MiniRex) (ForkTimestamp 20) config in
  let config2 := without MiniRex config1 in
  let from_ := from_iter [(mega_name MiniRex, ForkTimestamp 1); (mega_name Rex2, ForkTimestamp 2)] in
  passes [assert_eq (get (mega_name MiniRex) config) (Some (ForkTimestamp 10));
    assert_eq (get (mega_name Rex4) config) (Some (ForkTimestamp 80));
    assert_eq (get (mega_name MiniRex) config1) (Some (ForkTimestamp 20));
    assert_eq (get (mega_name MiniRex) config2) None;
    assert_eq (get (mega_name MiniRex) from_) (Some (ForkTimestamp 1));
    assert_eq (get (mega_name Rex2) from_) (Some (ForkTimestamp 2))].

Definition test_with_all_activated_enables_all_mega_hardforks : bool :=
  let config := with_all_activated new in
  forallb (λ hardfork, assert_eq (mega_fork_activation config hardfork) (ForkTimestamp 0)) ALL.

Definition test_hardfork_and_spec_id_follow_latest_active_timestamp : bool :=
  let config := foldl (λ c '(fork, t), with_mega fork (ForkTimestamp t) c) new
    [(MiniRex, 10); (MiniRex1, 20); (MiniRex2, 30); (Rex, 40); (Rex1, 50); (Rex2, 60);
     (Rex3, 70); (Rex4, 80)] in
  let expected := [(0, None, EQUIVALENCE); (15, Some MiniRex, MINI_REX);
    (25, Some MiniRex1, EQUIVALENCE); (35, Some MiniRex2, MINI_REX); (45, Some Rex, Spec.REX);
    (55, Some Rex1, Spec.REX1); (65, Some Rex2, Spec.REX2); (75, Some Rex3, Spec.REX3);
    (85, Some Rex4, Spec.REX4)] in
  forallb (λ '(timestamp, expected_hardfork, expected_spec),
    passes [assert_eq (MegaHardforks.hardfork config timestamp) expected_hardfork;
      assert_eq (MegaHardforks.spec_id config timestamp) expected_spec]) expected.

Definition test_first_hardfork_block_handles_genesis_and_parent_activation_boundaries : bool :=
  let config := with_mega Rex2 (ForkTimestamp 100) new in
  passes [MegaHardforks.first_hardfork_block config Rex2 99 (1, 100);
    MegaHardforks.first_hardfork_block config Rex2 99 (2, 100);
    negb (MegaHardforks.first_hardfork_block config Rex2 100 (3, 101));
    negb (MegaHardforks.first_hardfork_block config Rex2 99 (2, 99))].

Definition test_spec_id_with_gaps_in_hardfork_configuration : bool :=
  let config := with_mega Rex4 (ForkTimestamp 20) (with_mega MiniRex (ForkTimestamp 10) new) in
  passes [assert_eq (MegaHardforks.spec_id config 5) EQUIVALENCE;
    assert_eq (MegaHardforks.spec_id config 15) MINI_REX;
    assert_eq (MegaHardforks.spec_id config 25) Spec.REX4;
    assert_eq (MegaHardforks.hardfork config 15) (Some MiniRex);
    assert_eq (MegaHardforks.hardfork config 25) (Some Rex4)].

Definition test_latest_hardfork_wins_when_multiple_activate_at_same_timestamp : bool :=
  let config := foldl (λ c fork, with_mega fork (ForkTimestamp 10) c) new [MiniRex; Rex2; Rex4] in
  passes [assert_eq (MegaHardforks.hardfork config 9) None;
    assert_eq (MegaHardforks.hardfork config 10) (Some Rex4);
    assert_eq (MegaHardforks.spec_id config 10) Spec.REX4].

Lemma hardfork_tests_pass : passes [test_mega_hardfork_spec_ids_match_expected_specs;
  test_default_config_contains_upstream_forks_and_no_mega_forks;
  test_config_builder_helpers_override_and_remove_hardforks;
  test_with_all_activated_enables_all_mega_hardforks;
  test_hardfork_and_spec_id_follow_latest_active_timestamp;
  test_first_hardfork_block_handles_genesis_and_parent_activation_boundaries;
  test_spec_id_with_gaps_in_hardfork_configuration;
  test_latest_hardfork_wins_when_multiple_activate_at_same_timestamp] = true.
Proof. vm_compute. reflexivity. Qed.
End hardfork.

(** ** [block/result.rs] *)
Module block_result.
Definition test_transaction_limit_error_reports_usage_and_limit : bool :=
  let cases := [(MegaTxLimitExceededError.TransactionGasLimit 31 30, 31, 30);
    (MegaTxLimitExceededError.TransactionEncodeSizeLimit 101 100, 101, 100);
    (MegaTxLimitExceededError.DataAvailabilitySizeLimit 11 10, 11, 10)] in
  forallb (λ '(error, expected_usage, expected_limit),
    passes [assert_eq (MegaTxLimitExceededError.usage error) expected_usage;
      assert_eq (MegaTxLimitExceededError.limit error) expected_limit;
      negb (MegaTxLimitExceededError.is_nonce_too_low error)]) cases.

Definition test_block_limit_error_reports_block_usage_and_limit : bool :=
  let cases := [(MegaBlockLimitExceededError.TransactionDataLimit 1 10, 1, 10);
    (MegaBlockLimitExceededError.KVUpdateLimit 2 11, 2, 11);
    (MegaBlockLimitExceededError.ComputeGasLimit 3 12, 3, 12);
    (MegaBlockLimitExceededError.TransactionEncodeSizeLimit 4 1 13, 4, 13);
    (MegaBlockLimitExceededError.DataAvailabilitySizeLimit 5 1 14, 5, 14);
    (MegaBlockLimitExceededError.StateGrowthLimit 6 15, 6, 15)] in
  forallb (λ '(error, expected_block_used, expected_limit),
    passes [assert_eq (MegaBlockLimitExceededError.block_used error) expected_block_used;
      assert_eq (MegaBlockLimitExceededError.limit error) expected_limit;
      negb (MegaBlockLimitExceededError.is_nonce_too_low error)]) cases.

Lemma block_result_tests_pass : passes [test_transaction_limit_error_reports_usage_and_limit;
  test_block_limit_error_reports_block_usage_and_limit] = true.
Proof. vm_compute. reflexivity. Qed.
End block_result.

(** ** [test_utils/opcode_gen.rs]

    The code runs on the machine of [TestUtils]: a success is a stop. *)
Module opcode_gen.
#[local] Existing Instance checked_build.

Fixpoint run (fuel : nat) (code : Bytes) (s : Machine) : option Halt :=
  match fuel with
  | O => None
  | S fuel => match exec code s with inl s => run fuel code s | inr h => Some h end
  end.
Definition execute_bytecode (code : Bytes) : option Halt := run 50 code (mkMachine 0 [] ∅ ∅).

Definition asserting (value : Z) : outcome Bytes :=
  builder ← push_number 8 0x2333 (mkBuilder []);
  builder ← assert_stack_value 0 value builder;
  Ret (build builder).

Definition test_assert_stack_value_success : Prop :=
  execute_bytecode <$> asserting 0x2333 = Ret (Some Stopped).
Definition test_assert_stack_value_failure : Prop :=
  execute_bytecode <$> asserting 0x9999 = Ret (Some Invalid).

Lemma opcode_gen_tests_pass : test_assert_stack_value_success ∧ test_assert_stack_value_failure.
Proof. split; vm_compute; reflexivity. Qed.
End opcode_gen.
