(* ===== verification/UnitTestsState.v ===== *)
(** * The unit tests of the source on states and databases

    The second part of [UnitTests]: merging, the database of the sandbox and the deployment
    of system contracts.  Bytecodes are their bytes; the empty database and the in-memory
    database are those that the tests of the source take from [revm]. *)
From Stdlib Require Import Strings.Byte.
From S2P Require Import Prelude Spec Deps Volatile LimitTypes FrameLimit Trackers Hardfork BlockLimit.
From S2P Require Import EvmState Inspect SystemContracts Context Sandbox.
From S2P Require Import UnitTests.
Open Scope Z_scope.
Open Scope rust_scope.
#[local] Set Warnings "-notation-for-abbreviation".

(** ** What the tests take from [revm] *)
#[local] Instance byte_dec : EqDecision byte := Byte.byte_eq_dec.
#[local] Instance test_revm : RevmState Bytes := {|
  KECCAK_EMPTY := 0xc5d2; AccountInfo_default := mkAccountInfo 0 0 0xc5d2 None;
  eip7702_address _ := None; Bytecode_new_raw bs := bs |}.
#[local] Instance test_bytecode : BytecodeApi Bytes := {|
  bytecode_is_empty b := bool_decide (b = []); bytecode_default := [] |}.
#[local] Instance empty_db : Database unit unit Bytes := {|
  Inspect.basic _ db := (db, Ok None); Inspect.code_by_hash _ db := (db, Ok []);
  Inspect.db_storage _ _ db := (db, Ok 0) |}.
#[local] Instance no_error : Display unit := λ _, ""%string.
#[local] Existing Instance checked_build.
#[export] Instance AccountInfo_eq_dec : EqDecision (AccountInfo Bytes).
Proof. solve_decision. Defined.

(** A slot is cold in transaction 0 when it is marked so or belongs to another one. *)
Definition was_cold (s : EvmStorageSlot) : bool :=
  is_cold s || negb (bool_decide (slot_transaction_id s = 0)).
Definition new_changed (original present id : Z) : EvmStorageSlot := mkSlot original present id false.
Definition mark_selfdestruct (a : Account Bytes) : Account Bytes :=
  with_status ({[SelfDestructed]} ∪ status a) a.
Definition is_touched (a : Account Bytes) : bool := contains Touched (status a).

(** An assertion about what is found. *)
Definition found {A} (o : option A) (p : A → bool) : bool := match o with Some a => p a | None => false end.
Definition merged_to {A} (o : outcome A) (p : A → bool) : bool := match o with Ret a => p a | Panic => false end.

(** ** [evm/state.rs] *)
Module merge.
Definition TEST_ADDRESS : Address := 0x1000000000000000000000000000000000000001.
Definition account_with_status (s : AccountStatus) : Account Bytes :=
  mkAccount (mkAccountInfo 1 1 0 None) 0 ∅ s.
Definition with_balance (b : Z) (a : Account Bytes) : Account Bytes :=
  with_info (mkAccountInfo b (nonce (info a)) (code_hash (info a)) (code (info a))) a.
Definition with_slots (l : list (U256 * EvmStorageSlot)) (a : Account Bytes) : Account Bytes :=
  with_storage (list_to_map l) a.
Notation State := (gmap Address (Account Bytes)).

Definition test_merge_evm_state_replaces_created_selfdestructed_accounts_with_empty_touched_accounts : bool :=
  let this : State := {[TEST_ADDRESS := mark_cold (Account_default AccountInfo_default)]} in
  let other : State := {[TEST_ADDRESS := mark_selfdestruct (account_with_status {[Created]})]} in
  merged_to (merge_evm_state this other) (λ this, found (this !! TEST_ADDRESS) (λ merged,
    passes [is_touched merged; negb (is_selfdestructed merged);
      assert_eq (info merged) AccountInfo_default; bool_decide (storage merged = ∅);
      contains Cold (status merged)])).

Definition test_merge_evm_state_marks_new_accounts_and_storage_as_cold_and_clears_local_flags : bool :=
  let other_account := with_slots [(1, new_changed 0 5 0)]
    (account_with_status {[Created; CreatedLocal; SelfDestructedLocal]}) in
  merged_to (merge_evm_state ∅ {[TEST_ADDRESS := other_account]}) (λ this,
    found (this !! TEST_ADDRESS) (λ merged,
      passes [contains Cold (status merged); contains Created (status merged);
        negb (contains CreatedLocal (status merged));
        negb (contains SelfDestructedLocal (status merged));
        found (storage merged !! 1) (λ slot, passes [assert_eq (slot_present_value slot) 5; was_cold slot])])).

Definition test_merge_evm_state_optional_status_can_skip_or_merge_status_flags : bool :=
  let base_account := with_slots [(1, mark_slot_cold (mkSlot 1 1 0 false))]
    (account_with_status {[SelfDestructed; Cold]}) in
  let base_state : State := {[TEST_ADDRESS := base_account]} in
  let other_account := with_slots [(1, new_changed 0 9 0)]
    (with_balance 9 (account_with_status {[Created; CreatedLocal]})) in
  let other_state : State := {[TEST_ADDRESS := other_account]} in
  merged_to (merge_evm_state_optional_status base_state other_state false) (λ this,
    found (this !! TEST_ADDRESS) (λ a,
      passes [contains SelfDestructed (status a); contains Cold (status a);
        negb (contains Created (status a));
        found (storage a !! 1) (λ slot, passes [assert_eq (slot_present_value slot) 9; was_cold slot])])) &&
  merged_to (merge_evm_state base_state other_state) (λ this,
    found (this !! TEST_ADDRESS) (λ a,
      passes [negb (is_selfdestructed a); contains Created (status a); contains Cold (status a)])).

Definition test_merge_empty_other_state_is_noop : bool :=
  merged_to (merge_evm_state {[TEST_ADDRESS := account_with_status {[Cold]}]} ∅) (λ this,
    assert_eq (size this) 1%nat &&
    found (this !! TEST_ADDRESS) (λ account, assert_eq (balance (info account)) 1)).

Definition test_merge_evm_state_overwrites_existing_account_storage_and_preserves_slot_coldness : bool :=
  let addr2 := 0x2000000000000000000000000000000000000001 in
  let base_account := with_slots [(1, mark_slot_cold (mkSlot 10 10 0 false)); (2, mkSlot 20 20 0 false)]
    (account_with_status {[Touched; Cold]}) in
  let other_account := with_slots [(1, new_changed 10 42 0); (3, new_changed 0 77 0)]
    (with_balance 99 (account_with_status {[Touched]})) in
  let other : State := <[addr2 := account_with_status {[Touched]}]> {[TEST_ADDRESS := other_account]} in
  merged_to (merge_evm_state {[TEST_ADDRESS := base_account]} other) (λ this,
    assert_eq (size this) 2%nat &&
    found (this !! TEST_ADDRESS) (λ merged,
      passes [assert_eq (balance (info merged)) 99;
        found (storage merged !! 1) (λ slot, passes [assert_eq (slot_present_value slot) 42; was_cold slot]);
        found (storage merged !! 2) (λ slot, assert_eq (slot_present_value slot) 20);
        found (storage merged !! 3) (λ slot, passes [assert_eq (slot_present_value slot) 77; was_cold slot])]) &&
    found (this !! addr2) (λ new_account, contains Cold (status new_account))).

Definition test_merge_selfdestructed_account_not_in_base_is_inserted_as_cold_empty : bool :=
  let other_account := with_balance 999 (mark_selfdestruct (account_with_status {[Created]})) in
  merged_to (merge_evm_state ∅ {[TEST_ADDRESS := other_account]}) (λ this,
    found (this !! TEST_ADDRESS) (λ merged,
      passes [is_touched merged; negb (is_selfdestructed merged);
        assert_eq (info merged) AccountInfo_default; contains Cold (status merged)])).

Definition test_merge_evm_state_panics_for_selfdestructed_account_without_created_flag : bool :=
  let other_account := mark_selfdestruct (account_with_status {[Touched]}) in
  negb (merged_to (merge_evm_state ∅ {[TEST_ADDRESS := other_account]}) (λ _, true)).

Lemma merge_tests_pass : passes [test_merge_evm_state_replaces_created_selfdestructed_accounts_with_empty_touched_accounts;
  test_merge_evm_state_marks_new_accounts_and_storage_as_cold_and_clears_local_flags;
  test_merge_evm_state_optional_status_can_skip_or_merge_status_flags;
  test_merge_empty_other_state_is_noop;
  test_merge_evm_state_overwrites_existing_account_storage_and_preserves_slot_coldness;
  test_merge_selfdestructed_account_not_in_base_is_inserted_as_cold_empty;
  test_merge_evm_state_panics_for_selfdestructed_account_without_created_flag] = true.
Proof. vm_compute. reflexivity. Qed.
End merge.

(** ** [sandbox/state.rs]

    A journal is its state over the empty database. *)
Module sandbox_state.
Definition TEST_ADDR_1 : Address := 0x1111111111111111111111111111111111111111.
Definition TEST_ADDR_2 : Address := 0x2222222222222222222222222222222222222222.
Definition TEST_ADDR_3 : Address := 0x3333333333333333333333333333333333333333.
Notation State := (gmap Address (Account Bytes)).
Definition plain_account (balance nonce : Z) (slots : gmap U256 EvmStorageSlot) : Account Bytes :=
  mkAccount (mkAccountInfo balance nonce KECCAK_EMPTY None) 0 slots ∅.
Definition bytecode_bytes : Bytes := [x60; x00; x60; x00; xf3].
Definition bytecode_hash : Z := 0x60f3.

Definition create_test_journal : State := {[TEST_ADDR_1 := plain_account 1000 1 ∅]}.
Definition create_journal_with_contract : State :=
  {[TEST_ADDR_2 := mkAccount (mkAccountInfo 0 1 bytecode_hash (Some bytecode_bytes)) 0 ∅ ∅]}.
Definition create_journal_with_storage : State :=
  {[TEST_ADDR_1 := plain_account 5000 10 (<[1 := new_changed 0 42 0]> {[100 := new_changed 0 999 0]})]}.

(** The sandbox of a journal, and what it answers. *)
Definition sandbox (journal : State) : SandboxDb unit Bytes := SandboxDb.new journal tt.
Definition basic_of (journal : State) (a : Address) : result (option (AccountInfo Bytes)) string :=
  (SandboxDb.sandbox_basic a (sandbox journal)).2.
Definition storage_of (journal : State) (a : Address) (k : U256) : result U256 string :=
  (SandboxDb.sandbox_storage a k (sandbox journal)).2.
Definition code_of (journal : State) (h : Z) : result Bytes string :=
  (SandboxDb.sandbox_code_by_hash h (sandbox journal)).2.
Definition unwrap {A} (r : result A string) (p : A → bool) : bool :=
  match r with Ok a => p a | Err _ => false end.

Definition test_basic_returns_account_from_journal : bool :=
  unwrap (basic_of create_test_journal TEST_ADDR_1) (λ result, found result (λ info,
    passes [assert_eq (balance info) 1000; assert_eq (nonce info) 1])).
Definition test_basic_queries_database_on_cache_miss : bool :=
  assert_eq (basic_of create_test_journal TEST_ADDR_3) (Ok None).
Definition test_basic_returns_contract_account_info : bool :=
  unwrap (basic_of create_journal_with_contract TEST_ADDR_2) (λ result, found result (λ info,
    passes [assert_eq (nonce info) 1; assert_ne (code_hash info) KECCAK_EMPTY])).
Definition test_storage_returns_value_from_journal : bool :=
  passes [assert_eq (storage_of create_journal_with_storage TEST_ADDR_1 1) (Ok 42);
    assert_eq (storage_of create_journal_with_storage TEST_ADDR_1 100) (Ok 999)].
Definition test_storage_returns_zero_for_unset_slot_in_journal : bool :=
  assert_eq (storage_of create_journal_with_storage TEST_ADDR_1 50) (Ok 0).
Definition test_storage_queries_database_for_unknown_account : bool :=
  assert_eq (storage_of create_test_journal TEST_ADDR_3 1) (Ok 0).
Definition test_code_by_hash_returns_empty_for_keccak_empty : bool :=
  unwrap (code_of create_test_journal KECCAK_EMPTY) (λ code, bytecode_is_empty code).
Definition test_code_by_hash_returns_bytecode_from_journal_via_index : bool :=
  found (create_journal_with_contract !! TEST_ADDR_2) (λ account,
    unwrap (code_of create_journal_with_contract (code_hash (info account))) (λ code,
      passes [negb (bytecode_is_empty code); assert_eq (take 5 code) bytecode_bytes])).
Definition test_code_by_hash_queries_database_for_unknown_hash : bool :=
  unwrap (code_of create_test_journal 0x1234) (λ code, bytecode_is_empty code).
Definition test_code_index_built_correctly : bool :=
  assert_eq (code_index (sandbox create_journal_with_contract) !! bytecode_hash) (Some TEST_ADDR_2).
Definition test_code_index_excludes_empty_code : bool :=
  passes [assert_eq (code_index (sandbox create_test_journal) !! KECCAK_EMPTY) None;
    bool_decide (code_index (sandbox create_test_journal) = ∅)].
Definition test_multiple_accounts_in_journal : bool :=
  let journal : State := list_to_map (imap (λ i addr,
    (addr, plain_account ((Z.of_nat i + 1) * 1000) (Z.of_nat i) ∅))
    [TEST_ADDR_1; TEST_ADDR_2; TEST_ADDR_3]) in
  let has addr b := unwrap (basic_of journal addr) (λ result, found result (λ info,
    assert_eq (balance info) b)) in
  passes [has TEST_ADDR_1 1000; has TEST_ADDR_2 2000; has TEST_ADDR_3 3000].
Definition test_journal_state_takes_priority_over_database : bool :=
  assert_eq (storage_of create_journal_with_storage TEST_ADDR_1 1) (Ok 42).

Lemma sandbox_state_tests_pass : passes [test_basic_returns_account_from_journal;
  test_basic_queries_database_on_cache_miss; test_basic_returns_contract_account_info;
  test_storage_returns_value_from_journal; test_storage_returns_zero_for_unset_slot_in_journal;
  test_storage_queries_database_for_unknown_account;
  test_code_by_hash_returns_empty_for_keccak_empty;
  test_code_by_hash_returns_bytecode_from_journal_via_index;
  test_code_by_hash_queries_database_for_unknown_hash; test_code_index_built_correctly;
  test_code_index_excludes_empty_code; test_multiple_accounts_in_journal;
  test_journal_state_takes_priority_over_database] = true.
Proof. vm_compute. reflexivity. Qed.
End sandbox_state.

(** ** [system/oracle.rs], [system/control.rs], [system/limit_control.rs]

    The codes of the contracts are generated: here they are told apart by a byte. *)
Module deployments.
#[local] Instance test_codes : SystemContractCodes := {|
  ORACLE_CONTRACT_CODE := [x01]; ORACLE_CONTRACT_CODE_HASH := 11;
  ORACLE_CONTRACT_CODE_REX2 := [x02]; ORACLE_CONTRACT_CODE_HASH_REX2 := 12;
  KEYLESS_DEPLOY_CODE := [x03]; KEYLESS_DEPLOY_CODE_HASH := 13;
  ACCESS_CONTROL_CODE := [x04]; ACCESS_CONTROL_CODE_HASH := 14;
  LIMIT_CONTROL_CODE := [x05]; LIMIT_CONTROL_CODE_HASH := 15 |}.
#[local] Existing Instance UnitTests.hardfork.forks.
Notation InMemoryDB := (gmap Address (AccountInfo Bytes)).
#[local] Instance in_memory : StateDb InMemoryDB unit Bytes := {|
  SystemContracts.load_cache_account a db := (db, Ok (db !! a)) |}.
Notation Deploy := (MegaHardforkConfig → Z → InMemoryDB →
  InMemoryDB * result (option (gmap Address (Account Bytes))) unit).
Notation all_activated := (MegaHardforkConfig.with_all_activated MegaHardforkConfig.new).
Definition rex4_at (t : Z) : MegaHardforkConfig :=
  MegaHardforkConfig.with_ (mega_name Rex4) (ForkTimestamp t) MegaHardforkConfig.new.
Definition holding (a : Address) (hash : Z) (c : Bytes) : InMemoryDB := {[a := mkAccountInfo 0 0 hash (Some c)]}.

(** Deployed at [a]: the state has that account alone. *)
Definition deployed (r : InMemoryDB * result (option (gmap Address (Account Bytes))) unit) (a : Address)
    (p : Account Bytes → bool) : bool :=
  match r.2 with Ok (Some st) => assert_eq (size st) 1%nat && found (st !! a) p | _ => false end.
Definition not_deployed (r : InMemoryDB * result (option (gmap Address (Account Bytes))) unit) : bool :=
  match r.2 with Ok None => true | _ => false end.
Definition has_code (hash : Z) (c : Bytes) (account : Account Bytes) : bool :=
  passes [assert_eq (code_hash (info account)) hash; assert_eq (code (info account)) (Some c)].

(** The tests of the two control contracts are the same five. *)
Section control.
Variables (transact : Deploy) (ADDRESS : Address) (CODE_HASH : Z) (CODE : Bytes).
Definition requires_rex4 : bool := not_deployed (transact MegaHardforkConfig.new 0 ∅).
Definition on_fresh_db : bool :=
  deployed (transact all_activated 0 ∅) ADDRESS (λ account,
    passes [is_touched account; is_created account; has_code CODE_HASH CODE account]).
Definition is_idempotent : bool :=
  deployed (transact all_activated 0 (holding ADDRESS CODE_HASH CODE)) ADDRESS (λ account,
    passes [has_code CODE_HASH CODE account; negb (is_created account)]).
Definition at_later_timestamp : bool :=
  passes [not_deployed (transact (rex4_at 50) 49 ∅);
    deployed (transact (rex4_at 50) 50 ∅) ADDRESS (λ account,
      passes [is_created account; assert_eq (code_hash (info account)) CODE_HASH])].
Definition overwrites_wrong_existing_code_hash : bool :=
  deployed (transact all_activated 0 (holding ADDRESS 0 [x60; x00])) ADDRESS (λ account,
    passes [has_code CODE_HASH CODE account; is_created account; is_touched account]).
End control.

Definition access_control : Deploy := transact_deploy_access_control_contract.
Definition test_deploy_access_control_contract_requires_rex4 : bool := requires_rex4 access_control.
Definition test_deploy_access_control_contract_on_fresh_db : bool :=
  on_fresh_db access_control ACCESS_CONTROL_ADDRESS ACCESS_CONTROL_CODE_HASH ACCESS_CONTROL_CODE.
Definition test_deploy_access_control_contract_is_idempotent : bool :=
  is_idempotent access_control ACCESS_CONTROL_ADDRESS ACCESS_CONTROL_CODE_HASH ACCESS_CONTROL_CODE.
Definition test_deploy_access_control_contract_at_later_timestamp : bool :=
  at_later_timestamp access_control ACCESS_CONTROL_ADDRESS ACCESS_CONTROL_CODE_HASH.
Definition test_deploy_access_control_contract_overwrites_wrong_existing_code_hash : bool :=
  overwrites_wrong_existing_code_hash access_control ACCESS_CONTROL_ADDRESS ACCESS_CONTROL_CODE_HASH
    ACCESS_CONTROL_CODE.

Definition limit_control : Deploy := transact_deploy_limit_control_contract.
Definition test_deploy_limit_control_contract_requires_rex4 : bool := requires_rex4 limit_control.
Definition test_deploy_limit_control_contract_on_fresh_db : bool :=
  on_fresh_db limit_control LIMIT_CONTROL_ADDRESS LIMIT_CONTROL_CODE_HASH LIMIT_CONTROL_CODE.
Definition test_deploy_limit_control_contract_is_idempotent : bool :=
  is_idempotent limit_control LIMIT_CONTROL_ADDRESS LIMIT_CONTROL_CODE_HASH LIMIT_CONTROL_CODE.
Definition test_deploy_limit_control_contract_at_later_timestamp : bool :=
  at_later_timestamp limit_control LIMIT_CONTROL_ADDRESS LIMIT_CONTROL_CODE_HASH.
Definition test_deploy_limit_control_contract_overwrites_wrong_existing_code_hash : bool :=
  overwrites_wrong_existing_code_hash limit_control LIMIT_CONTROL_ADDRESS LIMIT_CONTROL_CODE_HASH
    LIMIT_CONTROL_CODE.

Definition oracle : Deploy := transact_deploy_oracle_contract.
Definition deploys_rex2 (account : Account Bytes) : bool :=
  assert_eq (code_hash (info account)) ORACLE_CONTRACT_CODE_HASH_REX2.
Definition test_deploy_oracle_contract_on_fresh_db : bool :=
  deployed (oracle all_activated 0 ∅) ORACLE_CONTRACT_ADDRESS (λ account,
    passes [is_touched account; is_created account;
      has_code ORACLE_CONTRACT_CODE_HASH_REX2 ORACLE_CONTRACT_CODE_REX2 account]).
Definition test_deploy_oracle_contract_idempotent : bool :=
  deployed (oracle all_activated 0
    (holding ORACLE_CONTRACT_ADDRESS ORACLE_CONTRACT_CODE_HASH_REX2 ORACLE_CONTRACT_CODE_REX2))
    ORACLE_CONTRACT_ADDRESS deploys_rex2.
Definition test_deploy_oracle_contract_with_wrong_code_hash : bool :=
  deployed (oracle all_activated 0 (holding ORACLE_CONTRACT_ADDRESS 0x6000 [x60; x00]))
    ORACLE_CONTRACT_ADDRESS deploys_rex2.
Definition test_deploy_oracle_contract_marks_account_as_touched : bool :=
  deployed (oracle all_activated 0 ∅) ORACLE_CONTRACT_ADDRESS (λ account,
    passes [is_touched account; is_created account]).
Definition test_deploy_oracle_contract_pre_rex2 : bool :=
  deployed (oracle (MegaHardforkConfig.without Rex2 all_activated) 0 ∅) ORACLE_CONTRACT_ADDRESS
    (λ account, assert_eq (code_hash (info account)) ORACLE_CONTRACT_CODE_HASH).
Definition test_deploy_oracle_contract_rex2 : bool :=
  deployed (oracle all_activated 0 ∅) ORACLE_CONTRACT_ADDRESS deploys_rex2.
Definition test_deploy_oracle_contract_upgrade_to_rex2 : bool :=
  deployed (oracle all_activated 0
    (holding ORACLE_CONTRACT_ADDRESS ORACLE_CONTRACT_CODE_HASH ORACLE_CONTRACT_CODE))
    ORACLE_CONTRACT_ADDRESS (λ account,
      passes [deploys_rex2 account; is_touched account; is_created account]).
Definition test_high_precision_timestamp_oracle_deployment : bool :=
  deployed (transact_deploy_high_precision_timestamp_oracle all_activated 0 ∅)
    HIGH_PRECISION_TIMESTAMP_ORACLE_ADDRESS (λ account,
      passes [is_touched account; is_created account;
        has_code HIGH_PRECISION_TIMESTAMP_ORACLE_CODE_HASH HIGH_PRECISION_TIMESTAMP_ORACLE_CODE account]).

Lemma deployments_tests_pass : passes [test_deploy_access_control_contract_requires_rex4;
  test_deploy_access_control_contract_on_fresh_db;
  test_deploy_access_control_contract_is_idempotent;
  test_deploy_access_control_contract_at_later_timestamp;
  test_deploy_access_control_contract_overwrites_wrong_existing_code_hash;
  test_deploy_limit_control_contract_requires_rex4;
  test_deploy_limit_control_contract_on_fresh_db;
  test_deploy_limit_control_contract_is_idempotent;
  test_deploy_limit_control_contract_at_later_timestamp;
  test_deploy_limit_control_contract_overwrites_wrong_existing_code_hash;
  test_deploy_oracle_contract_on_fresh_db; test_deploy_oracle_contract_idempotent;
  test_deploy_oracle_contract_with_wrong_code_hash;
  test_deploy_oracle_contract_marks_account_as_touched; test_deploy_oracle_contract_pre_rex2;
  test_deploy_oracle_contract_rex2; test_deploy_oracle_contract_upgrade_to_rex2;
  test_high_precision_timestamp_oracle_deployment] = true.
Proof. vm_compute. reflexivity. Qed.
End deployments.
