(* ===== verification/UnitTestsBlock.v ===== *)
(** * The unit tests of the source on contexts and blocks

    The third part of [UnitTests]: contexts and their storage prices, the empty external
    environment, the precompiles, and the transactions of a block.  What the tests take
    from [revm] and [alloy] is a concrete instance with the documented behaviour. *)
From Stdlib Require Import Strings.Byte.
From S2P Require Import Prelude Spec Deps Volatile LimitTypes FrameLimit Trackers AdditionalLimit.
From S2P Require Import StorageGas Context TestUtils TestEnv Precompiles BlockExecutor BlockHelpers.
From S2P Require Import Factories UnitTests.
Open Scope Z_scope.
Open Scope rust_scope.
#[local] Set Warnings "-notation-for-abbreviation".
#[local] Instance byte_dec : EqDecision byte := Byte.byte_eq_dec.
#[local] Existing Instance checked_build.

Definition returns {A} (o : outcome A) (p : A → bool) : bool := match o with Ret a => p a | Panic => false end.

(** ** [evm/context.rs]

    [MegaContext::new]: the inner context is that of the empty database, at block zero. *)
Module context.
#[local] Existing Instances reference_bitflags reference_sstore reference_abi reference_instruction_result.
#[local] Instance salt_hasher : SaltHasher := {|
  hasher_bucket_id := of_be_bytes; salt_MIN_BUCKET_SIZE := MIN_BUCKET_SIZE;
  address_as_slice := to_be_bytes 20; word_as_slice := to_be_bytes 32 |}.
Notation Ctx := (MegaContext unit TestExternalEnvs TestExternalEnvs).
Definition new_cfg (spec : MegaSpecId) : CfgEnv MegaSpecId :=
  mkCfgEnv spec 1 true None None false None None None 0 false false false false false.
Definition inner_at (spec : MegaSpecId) : OpContext unit :=
  mkOpContext (example_tx [] None [] 0) (mkBlockEnv 0 0 1 0) (into_op_cfg (new_cfg spec)) tt None.
Definition new_context (spec : MegaSpecId) (envs : TestExternalEnvs) : outcome Ctx :=
  MegaContext.new_with_shared_ext_envs (inner_at spec) spec envs envs.
Definition has_spec (sp : MegaSpecId) (c : Ctx) : bool :=
  assert_eq (Context.spec c) sp &&
  match cfg_spec (MegaContext.cfg c), into_op_spec sp with ISTHMUS, ISTHMUS => true | _, _ => false end.

Definition test_with_cfg_updates_spec : bool :=
  returns (new_context EQUIVALENCE TestExternalEnvs.new) (λ context,
    has_spec EQUIVALENCE context &&
    has_spec MINI_REX (MegaContext.with_cfg (new_cfg MINI_REX) context)).

Definition test_with_cfg_spec_consistency : bool :=
  returns (new_context EQUIVALENCE TestExternalEnvs.new) (λ context,
    let first := MegaContext.with_cfg (new_cfg MINI_REX) context in
    has_spec MINI_REX first && has_spec EQUIVALENCE (MegaContext.with_cfg (new_cfg EQUIVALENCE) first)).

(** The bucket of an account is looked up. *)
Definition look_up (a : Address) (c : Ctx) : outcome Ctx :=
  '(g, r) ← DynamicGasCost.new_account_gas a (dynamic_storage_gas_cost c);
  match r : result Z Empty_set with Ok _ => Ret (MegaContext.with_gas_cost g c) | Err _ => Panic end.
Definition test_shared_salt_env_keeps_dynamic_gas_cache_isolated : bool :=
  returns (
    parent ← new_context REX4 TestExternalEnvs.new;
    parent ← MegaContext.with_external_envs TestExternalEnvs.new TestExternalEnvs.new parent;
    parent ← look_up 0x100001 parent;
    let parent_bucket_ids := MegaContext.accessed_bucket_ids parent in
    sandbox ← MegaContext.new_with_shared_ext_envs (inner_at REX4) REX4 (ctx_salt_env parent)
                (Context.oracle_env parent);
    sandbox ← MegaContext.with_block (MegaContext.block parent) sandbox;
    sandbox ← look_up 0x100002 (MegaContext.with_sandbox_disabled true sandbox);
    Ret (passes [assert_eq (MegaContext.accessed_bucket_ids parent) parent_bucket_ids;
      assert_ne (MegaContext.accessed_bucket_ids sandbox) parent_bucket_ids])) id.

Lemma context_tests_pass : passes [test_with_cfg_updates_spec; test_with_cfg_spec_consistency;
  test_shared_salt_env_keeps_dynamic_gas_cache_isolated] = true.
Proof. vm_compute. reflexivity. Qed.
End context.

(** ** [external/mod.rs] *)
Module external.
Definition test_empty_external_env_factory_returns_minimum_bucket_and_no_oracle : bool :=
  let envs := external_envs tt 42 in
  passes [match get_bucket_capacity (salt_env envs) 123 with Ok c => assert_eq c MIN_BUCKET_SIZE | Err _ => false end;
    assert_eq (get_oracle_storage 7 (Factories.oracle_env envs)) None;
    assert_eq (on_hint 0 0 [] (Factories.oracle_env envs)) (Factories.oracle_env envs);
    assert_eq (bucket_id_for_account (SaltEnv:=StorageGas.EmptyExternalEnv) 0) 0;
    assert_eq (bucket_id_for_slot (SaltEnv:=StorageGas.EmptyExternalEnv) 0 0) 0].

Lemma external_tests_pass : test_empty_external_env_factory_returns_minimum_bucket_and_no_oracle = true.
Proof. vm_compute. reflexivity. Qed.
End external.

(** ** [evm/precompiles.rs]

    The point evaluation of [revm] accepts the input of the tests, for gas of its own. *)
Module precompiles.
Definition kzg_ADDRESS : Address := 10.
Definition kzg_run : Precompile := λ input gas_limit,
  if bool_decide (gas_limit < 50000) then Err PrecompileOutOfGas
  else Ok (mkPrecompileOutput 50000 input).
Definition generate_kzg_test_input : Bytes := repeat x01 192.
Definition run (gas : Z) : option (result PrecompileOutput PrecompileError) :=
  (λ p, p generate_kzg_test_input gas) <$>
  precompiles (new_with_spec ∅ (5, kzg_run) kzg_ADDRESS kzg_run ISTHMUS (λ _, tt) MINI_REX) !! kzg_ADDRESS.
Definition succeeds (o : option (result PrecompileOutput PrecompileError)) : bool :=
  match o with Some (Ok out) => assert_eq (po_gas_used out) kzg_point_evaluation.GAS_COST | _ => false end.
Definition runs_out (o : option (result PrecompileOutput PrecompileError)) : bool :=
  match o with Some (Err PrecompileOutOfGas) => true | _ => false end.

Definition test_kzg_precompile_sufficient_gas : bool := succeeds (run 200000).
Definition test_kzg_precompile_exact_gas_limit : bool := succeeds (run kzg_point_evaluation.GAS_COST).
Definition test_kzg_precompile_insufficient_gas : bool := runs_out (run 50000).
Definition test_kzg_precompile_one_below_gas_limit : bool :=
  runs_out (run (kzg_point_evaluation.GAS_COST - 1)).
Definition test_kzg_precompile_zero_gas : bool := runs_out (run 0).

Lemma precompiles_tests_pass : passes [test_kzg_precompile_sufficient_gas; test_kzg_precompile_exact_gas_limit;
  test_kzg_precompile_insufficient_gas; test_kzg_precompile_one_below_gas_limit;
  test_kzg_precompile_zero_gas] = true.
Proof. vm_compute. reflexivity. Qed.
End precompiles.

(** ** [block/helpers.rs]

    [keccak] and [flz] are the hash and the estimate of [alloy]. *)
Module helpers.
Definition CALLER : Address := 0x2000000000000000000000000000000000000001.
Definition CONTRACT : Address := 0x3000000000000000000000000000000000000001.
Record MockTx := mkMockTx { mock_nonce : Z; mock_gas_limit : Z; mock_value : U256; mock_input : Bytes }.
Definition keccak (b : Bytes) : Z := of_be_bytes b + 1.
Definition flz (b : Bytes) : Z := 100 + Z.of_nat (length b).

#[local] Instance mock_typed : Typed2718 MockTx := {|
  ty _ := 0; is_type _ t := bool_decide (t = 0); is_legacy _ := true; is_eip2930 _ := false;
  is_eip1559 _ := false; is_eip4844 _ := false; is_eip7702 _ := false |}.
#[local] Instance mock_encodable : Encodable2718 MockTx := {|
  e_encode_2718_len t := Z.of_nat (length (mock_input t)); encoded_2718 := mock_input;
  trie_hash t := keccak (mock_input t) |}.
#[local] Instance mock_transaction : Transaction MockTx := {|
  chain_id _ := Some 1; t_nonce := mock_nonce; gas_limit := mock_gas_limit; gas_price _ := Some 9;
  max_fee_per_gas _ := 9; max_priority_fee_per_gas _ := None; max_fee_per_blob_gas _ := None;
  priority_fee_or_price _ := 9; effective_gas_price _ _ := 9; is_dynamic_fee _ := false;
  kind _ := TxCall CONTRACT; is_create _ := false; value := mock_value; input := mock_input;
  access_list _ := None; blob_versioned_hashes _ := None; authorization_list _ := None;
  authorization_count _ := None; effective_tip_per_gas _ base_fee := Some (9 - base_fee);
  to _ := Some CONTRACT; function_selector t := Some (take 4 (mock_input t)); blob_count _ := None;
  blob_gas_used _ := None |}.

Definition test_enriched_mega_tx_new_slow_computes_hash_and_sizes : bool :=
  let tx := mkMockTx 7 21000 11 [x12; x34; x56; x78; xaa] in
  let expected_hash := trie_hash tx in
  let expected_da_size := flz (encoded_2718 tx) in
  let expected_tx_size := e_encode_2718_len tx in
  let enriched := new_slow flz tx in
  let ext := enriched_ext MockTx in
  let as_tx := enriched_transaction MockTx in
  passes [assert_eq (ext_tx_hash (MegaTransactionExt:=ext) enriched) expected_hash;
    assert_eq (en_da_size enriched) expected_da_size;
    assert_eq (en_tx_size enriched) expected_tx_size;
    assert_eq (t_nonce (Transaction:=as_tx) enriched) 7;
    assert_eq (gas_limit (Transaction:=as_tx) enriched) 21000;
    assert_eq (value (Transaction:=as_tx) enriched) 11;
    match kind (Transaction:=as_tx) enriched with TxCall a => assert_eq a CONTRACT | TxCreate => false end].

Record MockRecoveredTx := mkMockRecovered { mock_tx : MegaTransaction; mock_signer : Address }.
#[local] Instance mock_recovered : RecoveredTx MockRecoveredTx MegaTransaction := {|
  tx := mock_tx; signer := mock_signer |}.
#[local] Instance mock_into_env : IntoTxEnv MockRecoveredTx := {| into_env := mock_tx |}.

Definition test_enriched_mega_tx_delegates_recovered_transaction_methods : Prop :=
  let tx_env := mkTransaction [xaa; xbb] None [] 0 CALLER (TxCall CONTRACT) 0 11 21000 0 0 0 None in
  let enriched := EnrichedMegaTx_new (mkMockRecovered tx_env CALLER) 0 1 2 in
  let recovered := enriched_recovered MockRecoveredTx MegaTransaction in
  tx (RecoveredTx:=recovered) enriched = tx_env ∧ signer (RecoveredTx:=recovered) enriched = CALLER ∧
  into_env (IntoTxEnv:=enriched_into_env MockRecoveredTx) enriched = tx_env.

Lemma helpers_tests_pass : test_enriched_mega_tx_new_slow_computes_hash_and_sizes = true ∧
  test_enriched_mega_tx_delegates_recovered_transaction_methods.
Proof. split; vm_compute; repeat split. Qed.
End helpers.
